(* ===== verification/_CoqProject ===== *)
-Q . S2P
Prelude.v
NearClient.v
StoragePlanner.v
Storage.v
SimExchange.v
F64.v
BigDecimal.v
Dex.v
Swap.v
Search.v
Units.v
Rounding.v
Matching.v
Portfolio.v
Rpc.v
Balances.v
Slippage.v
Harvest.v
Records.v
TradeSwap.v
Execution.v
Periods.v
Graph.v
GraphPaths.v
Arbitrage.v
NearRpc.v
Auth.v
Config.v
Web.v
PortfolioService.v
Pools.v
TokenCache.v
Vectors.v
F64Order.v
Combinations.v
Optimizer.v
OptimizerFacts.v
OptimizerReport.v
Market.v
Predict.v
Accuracy.v
Strategy.v
StrategyFacts.v
Trader.v
SimClient.v
SimStorage.v
SimReport.v
Backtest.v
Verify.v
Sweep.v
