(* ===== verification/Prelude.v ===== *)
(** * Verification of zaciraci, a trading bot for the NEAR blockchain

    The program watches the pools of an exchange contract (REF Finance), looks
    for profitable swaps, rebalances a portfolio of tokens and simulates such
    trading on past data.  The development models the parts that decide and
    move money, and the parts those rest on, as executable Rocq functions
    translated from the Rust sources under [src/crates/].

    ** The program and the files

    - The node is reached through the async traits of
      [blockchain/src/jsonrpc.rs].  [NearClient] turns them into requests of a
      program tree [prog]; a function that is generic in its client is a [prog]
      whose branches are the possible answers.  [run] relates a program to the
      traces and outcomes it can have, whatever the node answers; [interp] runs
      it against one answering function; [wp], [wpx], [keeps], [guarded] and
      [iwp] are the proof rules on them.
    - [Rpc] is below that interface: [jsonrpc/endpoint_pool.rs] (choice of an
      endpoint), [jsonrpc/rpc.rs] (retries) and [jsonrpc/sent_tx.rs] (polling).
      [NearRpc] is [jsonrpc/near_client.rs], which carries the requests to the
      node: [lower] turns a [prog] into the RPC calls it makes.
    - Before trading, tokens are registered on the exchange under a spending
      cap: [StoragePlanner] is [ref_finance/storage/planner.rs], [Storage] is
      [ref_finance/storage.rs] with the calls of [ref_finance/deposit.rs];
      [SimExchange] is a small concrete contract at which the hypotheses of
      their theorems are shown to hold.
    - [Balances] is [ref_finance/balances.rs] with [history.rs] and the rest of
      [deposit.rs]: wrapping, depositing, withdrawing and paying out.
    - Trading: [Dex] is the crate [dex] (pools, pairs, paths and their
      estimates), [Search] the search for the best input of a path in
      [ref_finance/path.rs] with the amount types of [blockchain/src/types],
      [Swap] the swap transaction of [ref_finance/swap.rs], the previews of
      [path/preview.rs] and [swap_each] of [arbitrage/src/lib.rs].  [Pools] is
      [ref_finance/pool_info.rs], which reads the pools; [Graph] is the token
      graph built from them ([path/graph.rs], [by_token.rs], [edge/]),
      [GraphPaths] its theorems; [Arbitrage] is a round of
      [arbitrage/src/lib.rs] with the choice of candidates in [path.rs].
    - Portfolios: [Units] is [common/src/types] (amounts, values, prices and
      rates), [Matching] is [trade/src/execution/matching.rs], [Slippage] is
      [trade/src/slippage.rs], [Harvest] is [trade/src/harvest.rs], [Portfolio]
      is the account of [simulate/src/portfolio_state.rs].  [TradeSwap] is one swap of the
      trader ([trade/src/swap.rs], [valuation.rs], [snapshot.rs]), [Execution]
      and [Periods] are the two halves of [trade/src/execution.rs]: trading
      actions and rebalancing, liquidation and evaluation periods.
      [TokenCache] is [trade/src/token_cache.rs]: the decimals of tokens and
      the backoff of requests that failed.
    - Choosing a portfolio: [Optimizer] is [common/src/algorithm/portfolio.rs]
      with its types, in rounded [f64] arithmetic on the vectors and matrices of
      [Vectors]; [Combinations] is its iterator over subsets; [F64Order] holds
      the order and rounding facts that [OptimizerFacts] and [OptimizerReport]
      rest on.  [Market] is [trade/src/market_data.rs], [Predict] is
      [trade/src/predict.rs] with [common/src/api/chronos.rs] and
      [algorithm/prediction.rs], [Accuracy] is
      [trade/src/prediction_accuracy.rs] with
      [persistence/src/prediction_record.rs].  [Strategy] is
      [trade/src/strategy.rs], which composes all of these with the periods, the
      funding, the storage and the execution; [StrategyFacts] its theorems.
      [Trader] is [trade/src/lib.rs]: the recording of rates, the prediction
      cycle, the trading cycle and the scheduler that runs them.
    - Simulation: [SimClient] is the client of [simulate/src/mock_client.rs] with
      [mock_wallet.rs], which answers the trader from the simulated portfolio;
      [SimStorage] runs the storage setup against it.  [Backtest] is
      [engine.rs] with [prediction.rs], the dates of [cli.rs] and the rates that
      [portfolio_state.rs] reads: the same trading cycle as in production, day
      by day.  [SimReport] is [output.rs], [Sweep] is [sweep.rs], [Verify] is
      [verify.rs].
    - [Records] is the part of the crate [persistence] the trader reads and
      writes through: rows and their conversions, clean-up and spot rates.
    - [Config] is [common/src/config] with [persistence/config_store.rs]: the
      sources of a value, the typed accessors and the table behind them.
      [Auth] is the crates [google_auth] and [grpc_auth] with [Email] and
      [Role]; [Web] is [web/src/services]: the configuration service behind the
      interceptor, and the value of recorded holdings, which the service of
      [PortfolioService] replies with.
    - [F64] and [BigDecimal] are the numbers: [f64] as the Standard Library's
      specification floats, and the decimals of the bigdecimal crate;
      [Rounding] bounds the error that a chain of their divisions accumulates.

    State is a record ([EndpointPool], [PortfolioState], [TokenGraph] with its
    table of paths, the [call_state] of the retry loop, [CachedJwks],
    [ConfigDb]) that each operation takes and returns, or lives behind the
    requests (the account on the chain, the times of the last harvests, the
    per-account lock, the tables of trades, rates and periods).  The refresh of
    the keys and the running service are step relations ([task_reachable],
    [server_run]).  A Rust [Result] is an [outcome]; a panic is its third
    value.

    ** What is shown

    - Storage: a run never spends more than its cap, sends its transactions in
      the documented order, gives back only registrations a fresh view shows
      unused, never panics, succeeds against a contract that answers, and
      leaves every needed token registered.  The planner's estimate, its list
      of tokens to give up and its errors are characterised exactly.
    - Exchange: the decimal estimate is the integer constant-product quote; it
      keeps the product of the reserves, is monotone along paths, and going
      there and back loses.  A swap is sent with the amounts its path was chosen
      for, and an arbitrage swap demands its input and its gas back.  What the
      search evaluates and returns is stated for each amount type.  Reading the
      pools gives each pool of the contract once; a path that the graph gives
      out is a walk over simple pools between its tokens, every reported goal
      has one, and the recursion that collects it returns exactly when the
      predecessors do not go round.  A round of arbitrage sends its calls in
      order, and every swap of it is a round trip over pools that were read and
      demands its input and its gas.
    - Funding: wrapping leaves the reserve, payments are the excess over the
      limit and respect the interval, and on a ledger that keeps its word the
      exchange balance reached is given by a formula.  The harvest of a period
      takes at most a tenth of the excess and leaves its own reserve.
    - Portfolios: conversions round-trip, two routes of valuation agree up to
      the precision of the division, matching conserves every token's value,
      and the books of the simulator balance to the yocto after any sequence of
      operations ([Portfolio.Books] is the account on integers which the
      decimal code refines).  The least output of a protected swap is between
      85% and 99.5% of its estimate for every [f64] expected return that is a
      number.
    - Trading: a direct swap sends funding calls, a storage session for the
      tokens of its path and at most one swap, of no more than the reported
      balance and with a protected output; the buys of a rebalance ask for at
      most the reported balance, and every action is counted; the allocation
      to new positions is exact; a liquidation deals with every position and
      returns the balance reported after its sales; one call of the period manager
      starts, keeps or ends a period, inserts at most one, and starts the next
      with the balance after the harvest.  The spot rate of a recorded rate is that of its pools up
      to rounding.  Requests for the decimals of a token wait for the
      backoff of its failures.
    - Portfolio choice: on well-formed inputs the optimiser reports weights for
      at most six tokens that pass its filter, positive before they are rounded,
      and panics only where the sort of the standard library does, on weights that
      are not numbers; the
      cached search over subsets finds one that no other outscores, and its
      iterator gives every subset once; the limits it derives from volatility
      stay in their ranges in rounded arithmetic.  The tokens that are selected
      can be reached over pools of enough liquidity; a rebalance of the strategy
      names only given tokens with a fresh prediction, a measured liquidity and
      no low confidence.
    - Predictions: the volatility of a history is the deviation of its returns
      up to the precision of the square root; what a cycle records are points of
      forecasts near the target time, made from the history of their token, and
      every such forecast of the cycle; an evaluation writes the error of a record
      against the rate nearest to its target, fails only when the records cannot be
      read, and passes over a record only for a reason; for ordered thresholds and
      at least one sample a confidence is a number between zero and one.  Rates are recorded for exactly the values of the graph
      whose decimals are known, and the caches behind them stay in a run of
      [TokenCache].  The scheduler runs its task only at or after a scheduled
      time that had not passed when it was taken up, once per time, and its
      waiting ends.
    - Service: a request is admitted exactly when its token passes every check;
      keys outlive their time by at most the longest backoff and the delays; an
      accepted address is canonical; the configuration service refines a map
      with a log and only writers change it; a configured value is read back
      through the database by the typed accessor; the portfolio service shows
      every recorded holding with its value, to readers only.
    - RPC: a call ends within its retry limit, an endpoint that failed is
      avoided while another is available, and polling succeeds exactly when the
      transaction did.  Over JSON-RPC a program has the runs it has above, each
      call broadcast once as a signed transaction with the next nonce; the
      nonces of a direct swap and of a round of arbitrage only grow, as the next
      one is read after the transaction before was reported as final.
    - Simulation: the swap events of a run, made again, give the account it
      ended with; the books of a whole backtest balance to the yocto; it ends
      when its interval is positive and never otherwise; the storage of the
      simulated exchange can always be prepared.  The reported drawdown is the
      worst one, the counts of a report add up, and so do those of the analysis
      of recorded trades; a sweep ranks the runs of its grid.

    ** Conventions, bounds and parameters

    Unsigned integers are [N], signed ones [Z], with their width written out
    where the code can exceed it: a checked or saturating operation is one of
    the functions below, and a plain [+], [-] or [*] that leaves the type is a
    [Panic].  This is the behaviour of a build with overflow checks and debug
    assertions; a release build wraps instead and skips [debug_assert].

    Loops whose recursion is not structural carry fuel, and the theorems give
    enough of it: the retry loop of [Rpc] needs at most [2 * retry_limit + 3]
    steps (one to choose an endpoint and one to call it per counted retry); the
    loop of [Search] ends after one iteration at [MicroNear] and after linearly
    many in the input range at [u128]; [match_loop] of [Matching] uses up an
    operation per step, so their number suffices; [chunks] has the length of
    its list; [find_path] of [Graph] gets one more step than there are goals
    ([path_fuel]), which every chain of predecessors without a repetition fits
    in, so running out is the endless recursion of the code.  The loop of the
    Sharpe weights gets one more step than there are assets, each of which fixes
    one of them; the iterator of [Combinations] the number of subsets and one;
    the square root has the 50 rounds of the code; [wait_until] of [Trader]
    needs one look at the clock more than there are seconds left; the loops of
    [Backtest] get one round for every day of the period and one to see that it
    is over, and answer [None] where that is not enough; [near_poll] has the 30
    attempts of the code.

    Third-party code is a parameter: the bigdecimal crate ([Class BigDecimal]
    with the laws [BigDecimalLaws], instantiated at the rationals), the JSON
    decoders ([FromSlice]), the order in which [sort_unstable_by] leaves equal
    elements, the petgraph crate ([Class Petgraph] with [PetgraphLaws],
    instantiated at edge lists), the iteration order of hash maps
    ([HashOrder]), the factorisations and products of the matrix crates
    ([Numerics] with [NumericsLaws], which fix shapes only), the conversions of
    decimals from and to text and [f64] ([FromF64], [DecimalText]), [f64::ln]
    ([Logarithm]), the predictor ([Forecasts], [NewPredictor]), the cron library
    ([Cron]), the order in which concurrent tasks finish ([CompletionOrder]), the
    text of dates and decimals ([DateText], [ReportText]), the encoding of JSON
    ([ToVec], with [ExchangeCodec] for what is encoded and decoded again), keys,
    hashes and signatures, the decoding of tokens and keys, the HTTP responses,
    the collation of the database, the clock, random draws and the answers of
    nodes and contracts.  Laws assumed of a contract are records
    ([contract_laws], [live], [ledger_laws]) with a concrete instance each.

    ** What is not modelled

    Logging, printing, files, serialisation and command lines; the derivation of
    the wallet's keys; the delays between retries; the maintenance and the
    connection pool of [persistence]; the processes around them.  What a statement of the database selects is its SQL;
    only the table of the configuration is a model of its own.  Requests of
    concurrent tasks are made one after the other, and limits on concurrency are
    taken to be positive where the code waits for ever otherwise.  What is left
    is glue around third-party code or needs a model of the database. *)

(** This file holds what the others share: outcomes, machine integers, the
    list, map and sorting functions of Rust's standard library that the code
    uses, their lemmas, and the automation ([rust] hints, [inv_ok]). *)
From Stdlib Require Export NArith ZArith Lia.
From stdpp Require Export base gmap strings list sorting numbers.

(** * Notation scope and names *)

Declare Scope rust_scope.
Delimit Scope rust_scope with rust.
#[global] Open Scope N_scope.
#[global] Open Scope rust_scope.

(** A NEAR account id.  [TokenAccount], [TokenInAccount] and
    [TokenOutAccount] are Rust newtypes around it with derived equality and
    order, so the model uses the id itself. *)
Abbreviation AccountId := string (only parsing).
Abbreviation TokenAccount := string (only parsing).

(** * Outcomes of fallible code

    [Ok] and [Err] are Rust's [Result]; [Panic] is an unwinding panic (an
    [expect] or [unwrap] that fails, an arithmetic trap, an index out of
    range), which no [?] or [match] of the modelled code can catch. *)
Inductive outcome (E A : Type) : Type :=
| Ok (a : A)
| Err (e : E)
| Panic.
Arguments Ok {E A} a.
Arguments Err {E A} e.
Arguments Panic {E A}.

Definition obind {E A B} (o : outcome E A) (k : A -> outcome E B) : outcome E B :=
  match o with
  | Ok a => k a
  | Err e => Err e
  | Panic => Panic
  end.

Notation "'let?' x ':=' c 'in' k" := (obind c (fun x => k))
  (at level 10, x pattern, c at level 100, k at level 200) : rust_scope.

(** [ok_or e o] is [Option::ok_or]; [expect o] is [Option::expect]. *)
Definition ok_or {E A} (e : E) (o : option A) : outcome E A :=
  match o with Some a => Ok a | None => Err e end.
Definition expect {E A} (o : option A) : outcome E A :=
  match o with Some a => Ok a | None => Panic end.

Definition is_panic {E A} (o : outcome E A) : bool :=
  match o with Panic => true | _ => false end.

(** An [anyhow::Error]: either built by the modelled code ([Anyhow], a tag
    for the message and the numbers formatted into it) or handed up by code
    outside the model ([External]). *)
Inductive anyhow : Type :=
| Anyhow (tag : string) (nums : list N)
| External (msg : string).

#[global] Instance anyhow_eq_dec : EqDecision anyhow.
Proof. solve_decision. Defined.

(** * Machine integers

    Unsigned integers are [N]; the width is written out where the code
    checks it, saturates or wraps. *)
Definition U128_MAX : N := 2 ^ 128 - 1.
Definition U64_MAX : N := 2 ^ 64 - 1.
Definition U32_MAX : N := 2 ^ 32 - 1.
Definition U16_MAX : N := 2 ^ 16 - 1.
(** [usize] on the supported 64-bit targets. *)
Definition USIZE_MAX : N := 2 ^ 64 - 1.

Definition checked_mul (a b : N) : option N :=
  if a * b <=? U128_MAX then Some (a * b) else None.
Definition checked_add (a b : N) : option N :=
  if a + b <=? U128_MAX then Some (a + b) else None.
Definition checked_sub (a b : N) : option N :=
  if b <=? a then Some (a - b) else None.
(** [N.sub] is already [saturating_sub]. *)
Definition saturating_sub (a b : N) : N := a - b.
Definition saturating_add (a b : N) : N := N.min (a + b) U128_MAX.
Definition saturating_mul (a b : N) : N := N.min (a * b) U128_MAX.
Definition saturating_add_u64 (a b : N) : N := N.min (a + b) U64_MAX.
Definition saturating_mul_u64 (a b : N) : N := N.min (a * b) U64_MAX.

(** [div_ceil] of the unsigned integers; division by zero panics. *)
Definition div_ceil {E} (a b : N) : outcome E N :=
  if b =? 0 then Panic
  else Ok (if a mod b =? 0 then a / b else a / b + 1).

(** The mathematical ceiling quotient, for statements. *)
Definition ceil_quot (a b : N) : N := (a + (b - 1)) / b.

(** [as] casts between integers of [w] bits: the bits are kept. *)
Definition as_signed (w n : N) : Z :=
  (let z := Z.of_N n mod 2 ^ Z.of_N w in
   if 2 ^ (Z.of_N w - 1) <=? z then z - 2 ^ Z.of_N w else z)%Z.
Definition as_unsigned (w : N) (z : Z) : N := Z.to_N (z mod 2 ^ Z.of_N w)%Z.

(** [usize::try_from(x).unwrap_or(usize::MAX)]. *)
Definition to_usize_saturating (x : N) : N :=
  if x <=? USIZE_MAX then x else USIZE_MAX.

(** [Vec::len] as a [usize]. *)
Definition len {A} (l : list A) : N := N.of_nat (length l).

(** [Vec::truncate(n)]: keeps the first [n] elements. *)
Definition truncate {A} (n : N) (l : list A) : list A :=
  if n <? len l then take (N.to_nat n) l else l.

(** [slice::contains]. *)
Definition contains {A} `{EqDecision A} (l : list A) (x : A) : bool :=
  bool_decide (x ∈ l).

(** [Iterator::filter] with a boolean closure. *)
Definition bfilter {A} (p : A -> bool) (l : list A) : list A := List.filter p l.

(** [slice::chunks(n)]: consecutive pieces of [n] elements, the last one
    shorter when the length is not a multiple.  The fuel is the length of
    the slice, which every piece of a positive size shortens. *)
Fixpoint chunks_fuel {A} (fuel : nat) (n : nat) (l : list A) : list (list A) :=
  match fuel with
  | O => []
  | S fuel =>
      match l with
      | [] => []
      | _ => take n l :: chunks_fuel fuel n (drop n l)
      end
  end.
Definition chunks {A} (n : nat) (l : list A) : list (list A) :=
  chunks_fuel (length l) n l.

(** [iter().map(f).collect::<Result<Vec<_>>>()]: the first error is returned. *)
Fixpoint try_map {E A B} (f : A -> outcome E B) (l : list A) : outcome E (list B) :=
  match l with
  | [] => Ok []
  | x :: l => let? y := f x in let? ys := try_map f l in Ok (y :: ys)
  end.

(** * Ordered maps

    A [BTreeMap] keyed by account ids is a [gmap] whose iteration order is
    the byte order of the keys. *)
Definition key_le {V} (a b : string * V) : Prop := String.le a.1 b.1.
#[global] Instance key_le_dec {V} (a b : string * V) : Decision (key_le a b).
Proof. unfold key_le. apply _. Defined.

(** [BTreeMap::iter]. *)
Definition btree_iter {V} (m : gmap string V) : list (string * V) :=
  merge_sort key_le (map_to_list m).
(** [BTreeMap::len]. *)
Definition map_len {K V} `{Countable K} (m : gmap K V) : N := N.of_nat (size m).

(** * Sums over lists *)
Definition sumN (l : list N) : N := foldr N.add 0 l.
Definition sumZ (l : list Z) : Z := foldr Z.add 0%Z l.

(** * Stable sorting

    [slice::sort_by] and [sort_by_key] are stable; [sort_by le] is the stable
    sort for the boolean order [le] (insertion from the right: an element is
    placed before the first one it is not greater than). *)
Fixpoint insert_by {A} (le : A -> A -> bool) (x : A) (l : list A) : list A :=
  match l with
  | [] => [x]
  | y :: l' => if le x y then x :: y :: l' else y :: insert_by le x l'
  end.
Definition sort_by {A} (le : A -> A -> bool) (l : list A) : list A :=
  foldr (insert_by le) [] l.

(** * Lemmas on outcomes *)

Lemma obind_Ok_inv {E A B} (o : outcome E A) (k : A -> outcome E B) b :
  obind o k = Ok b -> exists a, o = Ok a /\ k a = Ok b.
Proof. destruct o; simpl; intros; [eauto | done | done]. Qed.

Lemma try_map_app {E A B} (f : A -> outcome E B) l k ys zs :
  try_map f l = Ok ys -> try_map f k = Ok zs -> try_map f (l ++ k) = Ok (ys ++ zs).
Proof.
  revert ys. induction l as [|x l IH]; intros ys; simpl; [by intros [= <-]|].
  intros Hl Hk. apply obind_Ok_inv in Hl as (y & -> & Hl). apply obind_Ok_inv in Hl as (ys' & Hl & [= <-]).
  simpl. by rewrite (IH ys' Hl Hk).
Qed.
Lemma try_map_Forall {E A B} (f : A -> outcome E B) l ys (P : B -> Prop) :
  try_map f l = Ok ys -> (forall x y, x ∈ l -> f x = Ok y -> P y) -> Forall P ys.
Proof.
  revert ys. induction l as [|x l IH]; intros ys; simpl; [by intros [= <-] _; constructor|].
  intros Hl HP. apply obind_Ok_inv in Hl as (y & Hy & Hl). apply obind_Ok_inv in Hl as (ys' & Hl & [= <-]).
  constructor; [apply (HP x); [apply list_elem_of_here|done]|].
  apply (IH ys' Hl). intros x' y' Hx'. apply HP. by apply list_elem_of_further.
Qed.

Lemma obind_not_Panic {E A B} (o : outcome E A) (k : A -> outcome E B) :
  o <> Panic -> (forall a, o = Ok a -> k a <> Panic) -> obind o k <> Panic.
Proof. destruct o; simpl; auto; intros _ _; done. Qed.

Lemma ok_or_Ok_inv {E A} (e : E) (o : option A) a : ok_or e o = Ok a -> o = Some a.
Proof. destruct o; simpl; congruence. Qed.

Lemma ok_or_not_Panic {E A} (e : E) (o : option A) : ok_or e o <> Panic.
Proof. by destruct o. Qed.

(** * Lemmas on machine integers *)

Lemma checked_mul_Some a b c :
  checked_mul a b = Some c <-> c = a * b /\ a * b <= U128_MAX.
Proof. unfold checked_mul. case (N.leb_spec (a * b) U128_MAX); intros; split; intros; simplify_eq; try lia; destruct_and?; simplify_eq; repeat split; lia || done. Qed.

Lemma checked_mul_None a b : checked_mul a b = None <-> U128_MAX < a * b.
Proof. unfold checked_mul. case (N.leb_spec (a * b) U128_MAX); intros; split; intros; simplify_eq; try lia; destruct_and?; simplify_eq; repeat split; lia || done. Qed.

Lemma checked_sub_Some a b c : checked_sub a b = Some c <-> b <= a /\ c = a - b.
Proof. unfold checked_sub. case (N.leb_spec b a); intros; split; intros; simplify_eq; try lia; destruct_and?; simplify_eq; repeat split; lia || done. Qed.

Lemma checked_sub_None a b : checked_sub a b = None <-> a < b.
Proof. unfold checked_sub. case (N.leb_spec b a); intros; split; intros; simplify_eq; try lia; destruct_and?; simplify_eq; repeat split; lia || done. Qed.

Lemma checked_add_Some a b c :
  checked_add a b = Some c <-> c = a + b /\ a + b <= U128_MAX.
Proof. unfold checked_add. case (N.leb_spec (a + b) U128_MAX); intros; split; intros; simplify_eq; try lia; destruct_and?; simplify_eq; repeat split; lia || done. Qed.

Lemma ceil_quot_upper a b : b <> 0 -> a <= ceil_quot a b * b.
Proof.
  intros Hb. unfold ceil_quot.
  pose proof (N.div_mod (a + (b - 1)) b Hb).
  pose proof (N.mod_lt (a + (b - 1)) b Hb). lia.
Qed.

Lemma ceil_quot_least a b q : b <> 0 -> a <= q * b -> ceil_quot a b <= q.
Proof.
  intros Hb Hq. unfold ceil_quot. apply N.lt_succ_r, N.Div0.div_lt_upper_bound. lia.
Qed.

Lemma ceil_quot_0 b : b <> 0 -> ceil_quot 0 b = 0.
Proof. intros Hb. pose proof (ceil_quot_least 0 b 0 Hb). lia. Qed.

Lemma ceil_quot_pos a b : b <> 0 -> 0 < a -> 0 < ceil_quot a b.
Proof. intros Hb Ha. pose proof (ceil_quot_upper a b Hb). nia. Qed.

Lemma ceil_quot_mono a a' b : b <> 0 -> a <= a' -> ceil_quot a b <= ceil_quot a' b.
Proof. intros Hb Ha. apply ceil_quot_least; [done|]. pose proof (ceil_quot_upper a' b Hb). lia. Qed.

Lemma div_ceil_spec {E} a b : b <> 0 -> div_ceil (E:=E) a b = Ok (ceil_quot a b).
Proof.
  intros Hb. unfold div_ceil. rewrite (proj2 (N.eqb_neq b 0) Hb). f_equal.
  pose proof (N.div_mod a b Hb) as Hdm. pose proof (N.mod_lt a b Hb) as Hlt.
  pose proof (ceil_quot_upper a b Hb) as Hup.
  set (q := a / b) in *. set (r := a mod b) in *. set (c := ceil_quot a b) in *.
  apply N.le_antisymm.
  - destruct (N.eqb_spec r 0) as [Hz|Hz].
    + apply N.lt_succ_r, (N.mul_lt_mono_pos_l b); lia.
    + apply N.le_succ_l in Hlt. rewrite N.add_1_r. apply N.le_succ_l.
      apply (N.mul_lt_mono_pos_l b); lia.
  - apply ceil_quot_least; [done|]. destruct (N.eqb_spec r 0); lia.
Qed.

Lemma to_usize_saturating_ge x n : n <= USIZE_MAX -> n <= to_usize_saturating x <-> n <= x.
Proof. unfold to_usize_saturating. case (N.leb_spec x USIZE_MAX); lia. Qed.

Lemma to_usize_saturating_le x : to_usize_saturating x <= x.
Proof. unfold to_usize_saturating. case (N.leb_spec x USIZE_MAX); lia. Qed.

(** * Lemmas on slices *)

Lemma len_nil {A} : len (@nil A) = 0.
Proof. done. Qed.
Lemma len_cons {A} (x : A) l : len (x :: l) = len l + 1.
Proof. unfold len. simpl. lia. Qed.
Lemma len_app {A} (l k : list A) : len (l ++ k) = len l + len k.
Proof. unfold len. rewrite length_app. lia. Qed.

Lemma truncate_prefix {A} n (l : list A) : exists k, l = truncate n l ++ k.
Proof.
  unfold truncate. destruct (n <? len l).
  - exists (drop (N.to_nat n) l). by rewrite take_drop.
  - exists []. by rewrite app_nil_r.
Qed.

Lemma len_truncate {A} n (l : list A) : len (truncate n l) = N.min n (len l).
Proof.
  unfold truncate. destruct (N.ltb_spec n (len l)) as [H|H]; [|lia].
  unfold len in *. rewrite length_take. lia.
Qed.

Lemma elem_of_truncate {A} n (l : list A) x : x ∈ truncate n l -> x ∈ l.
Proof. destruct (truncate_prefix n l) as [k Hk]. rewrite Hk at 2. set_solver. Qed.

Lemma NoDup_truncate {A} n (l : list A) : NoDup l -> NoDup (truncate n l).
Proof.
  intros Hl. unfold truncate. destruct (n <? len l); [|done].
  eapply sublist_NoDup; [exact Hl|]. apply sublist_take.
Qed.

Lemma NoDup_app_l {A} (l k : list A) : NoDup (l ++ k) -> NoDup l.
Proof. intros H. eapply sublist_NoDup; [exact H|]. by apply sublist_inserts_r. Qed.

Lemma contains_true {A} `{EqDecision A} (l : list A) x : contains l x = true <-> x ∈ l.
Proof. unfold contains. apply bool_decide_eq_true. Qed.
Lemma contains_false {A} `{EqDecision A} (l : list A) x : contains l x = false <-> x ∉ l.
Proof. unfold contains. apply bool_decide_eq_false. Qed.

Lemma Forall_elem {A} (P : A -> Prop) (l : list A) : Forall P l <-> (forall x, x ∈ l -> P x).
Proof. rewrite List.Forall_forall. by setoid_rewrite list_elem_of_In. Qed.

Lemma Forall_weaken {A} (P Q : A -> Prop) (l : list A) :
  (forall x, P x -> Q x) -> Forall P l -> Forall Q l.
Proof. rewrite !Forall_elem. eauto. Qed.

(** A list with one element of a kind can be split at it in one way only. *)
Lemma split_unique {A} (P : A -> Prop) l1 x l2 k1 y k2 :
  Forall (fun z => ~ P z) l1 -> Forall (fun z => ~ P z) l2 -> P y ->
  l1 ++ x :: l2 = k1 ++ y :: k2 -> k1 = l1 /\ y = x /\ k2 = l2.
Proof.
  intros H1 H2 Hy Heq. apply app_eq_inv in Heq as [(k & -> & Hk)|(k & -> & Hk)].
  - destruct k as [|z k]; [by injection Hk as -> ->; rewrite app_nil_r|].
    injection Hk as <- ->. by apply Forall_app in H1 as [_ Hz%Forall_inv].
  - destruct k as [|z k]; [by injection Hk as -> ->; rewrite app_nil_r|].
    injection Hk as -> ->. by apply Forall_app in H2 as [_ Hz%Forall_inv].
Qed.

Lemma elem_of_bfilter {A} (p : A -> bool) l x : x ∈ bfilter p l <-> x ∈ l /\ p x = true.
Proof. unfold bfilter. rewrite !list_elem_of_In. apply filter_In. Qed.

Lemma len_bfilter_le {A} (p : A -> bool) l : len (bfilter p l) <= len l.
Proof. unfold len, bfilter. pose proof (List.filter_length_le p l). lia. Qed.

Lemma sublist_bfilter {A} (p : A -> bool) (l : list A) : bfilter p l `sublist_of` l.
Proof.
  induction l as [|x l IH]; simpl; [constructor|].
  destruct (p x); [by apply sublist_skip|by apply sublist_cons].
Qed.

Lemma NoDup_bfilter {A} (p : A -> bool) (l : list A) : NoDup l -> NoDup (bfilter p l).
Proof. rewrite !NoDup_ListNoDup. apply List.NoDup_filter. Qed.

Lemma chunks_fuel_concat {A} (n : nat) : n <> O -> forall fuel (l : list A),
  (length l <= fuel)%nat -> concat (chunks_fuel fuel n l) = l.
Proof.
  intros Hn fuel. induction fuel as [|fuel IH]; intros l Hl.
  - destruct l; [done|simpl in Hl; lia].
  - destruct l as [|x l]; [done|]. cbn [chunks_fuel concat].
    rewrite IH; [apply take_drop|]. rewrite length_drop. simpl in *. lia.
Qed.

(** Splitting into chunks loses and reorders nothing. *)
Lemma chunks_concat {A} n (l : list A) : n <> O -> concat (chunks n l) = l.
Proof. intros. by apply chunks_fuel_concat. Qed.

Lemma chunks_length {A} n (l : list A) c : c ∈ chunks n l -> (length c <= n)%nat.
Proof.
  unfold chunks. generalize (length l) as fuel. intros fuel. revert l.
  induction fuel as [|fuel IH]; intros l; [set_solver|].
  destruct l as [|x l]; [set_solver|]. cbn [chunks_fuel].
  rewrite elem_of_cons. intros [->|H]; [rewrite length_take; lia|eauto].
Qed.

Lemma chunks_elem {A} n (l : list A) c x :
  n <> O -> c ∈ chunks n l -> x ∈ c -> x ∈ l.
Proof.
  intros Hn Hc Hx. rewrite <- (chunks_concat n l Hn), list_elem_of_In, in_concat.
  exists c. by rewrite <- !list_elem_of_In.
Qed.

(** * Lemmas on ordered maps *)

#[global] Instance key_le_total {V} : Total (@key_le V).
Proof. intros a b. apply (total String.le). Qed.
#[global] Instance key_le_trans {V} : Transitive (@key_le V).
Proof. intros a b c H1 H2. red. by etransitivity. Qed.

Lemma btree_iter_elem {V} (m : gmap string V) k v :
  (k, v) ∈ btree_iter m <-> m !! k = Some v.
Proof. unfold btree_iter. rewrite merge_sort_Permutation. apply elem_of_map_to_list. Qed.

Lemma btree_iter_perm {V} (m : gmap string V) : btree_iter m ≡ₚ map_to_list m.
Proof. apply merge_sort_Permutation. Qed.

Lemma btree_iter_sorted {V} (m : gmap string V) : StronglySorted key_le (btree_iter m).
Proof. apply StronglySorted_merge_sort; apply _. Qed.

Lemma btree_iter_NoDup_keys {V} (m : gmap string V) : NoDup ((btree_iter m).*1).
Proof. rewrite btree_iter_perm. apply NoDup_fst_map_to_list. Qed.

Lemma btree_iter_len {V} (m : gmap string V) : len (btree_iter m) = map_len m.
Proof. unfold len, map_len. by rewrite (btree_iter_perm m), length_map_to_list. Qed.

(** * Lemmas on sums *)

Lemma sumN_nil : sumN [] = 0.
Proof. done. Qed.
Lemma sumN_cons x l : sumN (x :: l) = x + sumN l.
Proof. done. Qed.
Lemma sumN_app l k : sumN (l ++ k) = sumN l + sumN k.
Proof. induction l as [|x l IH]; simpl; [done|]. rewrite IH. lia. Qed.
Lemma sumZ_app l k : sumZ (l ++ k) = (sumZ l + sumZ k)%Z.
Proof. induction l as [|x l IH]; simpl; [done|]. rewrite IH. lia. Qed.
#[global] Instance sumN_Permutation : Proper (Permutation ==> eq) sumN.
Proof. intros l k H. induction H; simpl; lia. Qed.
#[global] Instance sumZ_Permutation : Proper (Permutation ==> eq) sumZ.
Proof. intros l k H. induction H; simpl; lia. Qed.

(** * Lemmas on sorting *)

Lemma insert_by_perm {A} le (x : A) l : insert_by le x l ≡ₚ x :: l.
Proof.
  induction l as [|y l IH]; simpl; [done|]. destruct (le x y); [done|].
  rewrite IH. apply Permutation_swap.
Qed.

Lemma sort_by_perm {A} le (l : list A) : sort_by le l ≡ₚ l.
Proof. induction l as [|x l IH]; simpl; [done|]. by rewrite insert_by_perm, IH. Qed.

Section sort.
Context {A : Type} (le : A -> A -> bool).
Context (le_total : forall x y, le x y = true \/ le y x = true).
Context (le_trans : forall x y z, le x y = true -> le y z = true -> le x z = true).

Lemma insert_by_sorted x l :
  StronglySorted (fun a b => le a b = true) l ->
  StronglySorted (fun a b => le a b = true) (insert_by le x l).
Proof using le_total le_trans.
  induction 1 as [|y l Hl IH Hy]; simpl; [repeat constructor|].
  destruct (le x y) eqn:E.
  - constructor; [by constructor|]. constructor; [done|].
    eapply Forall_weaken; [|exact Hy]. eauto.
  - constructor; [done|]. rewrite insert_by_perm. constructor; [|done].
    destruct (le_total x y); congruence.
Qed.

Lemma sort_by_sorted l : StronglySorted (fun a b => le a b = true) (sort_by le l).
Proof using le_total le_trans. induction l; simpl; [constructor|by apply insert_by_sorted]. Qed.

(** The first element of the sorted list is the least one. *)
Lemma sort_by_head l x k y : sort_by le l = x :: k -> y ∈ l -> le x y = true.
Proof using le_total le_trans.
  intros E Hy. pose proof (sort_by_sorted l) as Hs. rewrite E in Hs.
  rewrite <- (sort_by_perm le), E in Hy. inversion Hs as [|? ? _ Hf]; subst.
  apply elem_of_cons in Hy as [->|Hy].
  - destruct (le_total x x); done.
  - rewrite Forall_elem in Hf. by apply Hf.
Qed.
End sort.

(** * Automation

    [rust] holds the inversion and no-panic lemmas; [inv_ok] opens a
    hypothesis that a chain of [let?] succeeded. *)
Create HintDb rust.
Create Rewrite HintDb rust.
#[export] Hint Resolve ok_or_not_Panic ceil_quot_upper : rust.
#[export] Hint Rewrite @len_nil @len_cons @len_app sumN_nil sumN_cons sumN_app : rust.

Ltac inv_ok_step :=
  match goal with
  | H : obind _ _ = Ok _ |- _ =>
      let a := fresh "a" in let H1 := fresh "Hstep" in
      apply obind_Ok_inv in H as (a & H1 & H)
  | H : ok_or _ _ = Ok _ |- _ => apply ok_or_Ok_inv in H
  | H : expect ?o = Ok _ |- _ => destruct o eqn:?; simpl in H; [|discriminate H]
  | H : Ok _ = Ok _ |- _ => injection H as H
  | H : Err _ = Ok _ |- _ => discriminate H
  | H : Panic = Ok _ |- _ => discriminate H
  end.
Ltac inv_ok := repeat (inv_ok_step; simplify_eq/=).
