(* ===== verification/NearClient.v ===== *)
(** * The NEAR client as an effect signature

    The async traits of [crates/blockchain/src/jsonrpc.rs] ([ViewContract],
    [SendTx], [SentTx], [AccountInfo]) and the process-wide state the code
    reads (the wall clock, the [LAST_HARVEST] atomic of [balances.rs], the
    [LAST_HARVEST_TIME] atomic of [trade/src/harvest.rs], the statistics of
    [history.rs], the cache of token decimals, the database, the price
    predictor, the settings and the timer of the scheduler) are one type of
    requests, as are the per-account async locks of [storage.rs].  A
    function of the code that is generic in its client is a
    [prog]: a tree of requests whose branches are the possible answers.  The
    answers are unconstrained, so a statement about every [run] of a program
    holds against any node, any contract and any interleaving with other
    users of the account; [interp] runs a program against a concrete
    answering function.  [wp] is the weakest precondition of a program with
    respect to the trace it produced and its outcome. *)
From Stdlib Require QArith_base.
From Stdlib Require Import SpecFloat.
From S2P Require Import Prelude.
Set Warnings "-register-all".

(** Arguments built with [serde_json::json!].  A [U128] is sent as the
    decimal string of its value; [JU128] keeps the value. *)
Inductive json : Type :=
| JBool (b : bool)
| JStr (s : string)
| JU128 (n : N)
| JU32 (n : N)
| JNull
| JArr (l : list json)
| JObj (fields : list (string * json)).

(** The identity of a sent transaction ([SendTx::Output]). *)
Abbreviation TxId := N (only parsing).

(** [FinalExecutionOutcomeView::status]; [P] is the type of raw return
    values (the bytes of [CallResult::result]). *)
Inductive FinalExecutionStatus (P : Type) : Type :=
| NotStarted
| Started
| Failure (msg : string)
| SuccessValue (bytes : P).
Arguments NotStarted {P}.
Arguments Started {P}.
Arguments Failure {P} msg.
Arguments SuccessValue {P} bytes.

(** [wallet.account_id()] and the account that signs ([wallet.signer()]). *)
Record Wallet : Type := { account_id : AccountId; signer : AccountId }.

(** Statements sent to the database, one per query the modelled code builds.
    [numeric] is the value of a NUMERIC column, times are nanoseconds since the
    epoch.  Rows come back as raw answers and are decoded by [FromSlice]. *)
Abbreviation numeric := QArith_base.Q (only parsing).
Abbreviation NaiveDateTime := Z (only parsing).
Inductive Table : Type := TPoolInfo | TTokenRates | TEvaluationPeriods.
Inductive Query : Type :=
| QLatestPool (pool_id : Z)
| QLatestPoolBefore (pool_id : Z) (timestamp : NaiveDateTime)
| QPoolsBetween (first last : NaiveDateTime)
| QLatestRateTime (base quote : TokenAccount)
| QRateAt (base quote : TokenAccount) (timestamp : NaiveDateTime)
| QRatesBetween (base quote : TokenAccount) (first last : NaiveDateTime)
| QRatesOfTokens (bases : list TokenAccount) (quote : TokenAccount) (first last : NaiveDateTime)
| QVolatility (quote : TokenAccount) (first last : NaiveDateTime)
| QSpotRatesAt (bases : list TokenAccount) (quote : TokenAccount) (timestamp : NaiveDateTime)
| QAllLatestRates (quote : TokenAccount)
| QAllDecimals
| QLatestHolding (period_id : string)
| QInsertHolding (period_id : string) (timestamp : NaiveDateTime)
    (holdings : list (TokenAccount * numeric * N))
| QLatestPeriod
| QInsertPeriod (initial_value : numeric) (selected_tokens : option (list (option string)))
| QSelectTokens (period_id : string) (selected_tokens : option (list (option string)))
| QCountTrades (period_id : string)
| QDeleteBefore (table : Table) (cutoff : NaiveDateTime)
| QPendingPredictions (as_of : NaiveDateTime)
| QFreshPredictions (tokens : list TokenAccount) (as_of : NaiveDateTime)
| QEvaluatedPredictions (limit : Z) (tokens : list TokenAccount)
| QInsertPredictions (rows : list (string * string * numeric * NaiveDateTime * NaiveDateTime))
| QUpdateEvaluation (id : Z) (actual_price : numeric) (mape : spec_float) (absolute_error : numeric)
    (evaluated_at : NaiveDateTime)
| QDeletePredictions (evaluated_cutoff unevaluated_cutoff : NaiveDateTime)
| QEarliestFresh (since until : NaiveDateTime)
| QDeleteTargets (first last : NaiveDateTime)
| QTradesBetween (first last : NaiveDateTime)
| QPeriodsPage (limit offset : Z)
| QCountPeriods
| QHoldingsOfPeriod (period_id : string)
| QInsertPools (rows : list (Z * string * list TokenAccount * list N * Z * N * Z * NaiveDateTime))
| QInsertRates (rows : list (string * string * numeric * NaiveDateTime * Z * Z *
    option (list (N * N * N * numeric * numeric)))).

(** Requests of a program.  [P] is the type of raw return values. *)
Inductive Req : Type :=
| RView (receiver : AccountId) (method : string) (args : json)
| RExec (signer receiver : AccountId) (method : string) (args : json) (deposit : N)
| RTransfer (signer receiver : AccountId) (amount : N)
| RWait (tx : TxId)
| RWaitExecuted (tx : TxId)
| RNative (account : AccountId)
| RNow
| RLoadLastHarvest
| RStoreLastHarvest (secs : N)
| RLoadHarvestTime
| RStoreHarvestTime (secs : N)
| RRecordTrade (tx_hash : string) (from_token : TokenAccount) (from_amount : N)
    (to_token : TokenAccount) (to_amount : N) (actual : option N) (period : string)
| RLock (account : AccountId)
| RUnlock (account : AccountId)
| RDb (q : Query)
| RUtcNow
| RReadInputs
| RGasPrice
| RDecimals (token : TokenAccount)
| RCacheDecimals (token : TokenAccount) (decimals : N)
| RReplaceDecimals (entries : list (TokenAccount * N))
| RPredict (data : list (NaiveDateTime * numeric)) (horizon : Z)
| RSleep (nanos : Z)
| RSetting (key : string)
| RReloadConfig.

(** Answers: a client call can fail with an error of the client. *)
Definition Resp (P : Type) (r : Req) : Type :=
  match r with
  | RView _ _ _ => P + anyhow
  | RExec _ _ _ _ _ | RTransfer _ _ _ => TxId + anyhow
  | RWait _ => FinalExecutionStatus P + anyhow
  | RWaitExecuted _ => string + anyhow
  | RRecordTrade _ _ _ _ _ _ _ => unit + anyhow
  | RDb _ => P + anyhow
  | RUtcNow => NaiveDateTime
  | RReadInputs => N * N
  | RGasPrice => N + anyhow
  | RDecimals _ => option N
  | RPredict _ _ => P + anyhow
  | RSetting _ => N
  | RNative _ => N + anyhow
  | RNow | RLoadLastHarvest | RLoadHarvestTime => N
  | RStoreLastHarvest _ | RStoreHarvestTime _ | RLock _ | RUnlock _
  | RCacheDecimals _ _ | RReplaceDecimals _ | RSleep _ | RReloadConfig => unit
  end%type.

Inductive prog (P A : Type) : Type :=
| Ret (o : outcome anyhow A)
| Op (r : Req) (k : Resp P r -> prog P A).
Arguments Ret {P A} o.
Arguments Op {P A} r k.

Fixpoint bind {P A B} (p : prog P A) (k : A -> prog P B) : prog P B :=
  match p with
  | Ret (Ok a) => k a
  | Ret (Err e) => Ret (Err e)
  | Ret Panic => Ret Panic
  | Op r f => Op r (fun x => bind (f x) k)
  end.

Notation "'let!' x ':=' c 'in' k" := (bind c (fun x => k))
  (at level 10, x pattern, c at level 100, k at level 200) : rust_scope.

(** [?] on a pure result, and a [match] on the [Result] of a block. *)
Definition lift {P A} (o : outcome anyhow A) : prog P A := Ret o.
Fixpoint attempt {P A} (p : prog P A) : prog P (A + anyhow) :=
  match p with
  | Ret (Ok a) => Ret (Ok (inl a))
  | Ret (Err e) => Ret (Ok (inr e))
  | Ret Panic => Ret Panic
  | Op r f => Op r (fun x => attempt (f x))
  end.

Definition of_answer {A} (x : A + anyhow) : outcome anyhow A :=
  match x with inl a => Ok a | inr e => Err e end.

(** The trait methods. *)
Definition view_contract {P} (receiver : AccountId) (method : string) (args : json) : prog P P :=
  Op (RView receiver method args) (fun x => Ret (of_answer x)).
Definition exec_contract {P} (w : Wallet) (receiver : AccountId) (method : string)
    (args : json) (deposit : N) : prog P TxId :=
  Op (RExec (signer w) receiver method args deposit) (fun x => Ret (of_answer x)).
Definition transfer_native_token {P} (w : Wallet) (receiver : AccountId) (amount : N)
    : prog P TxId :=
  Op (RTransfer (signer w) receiver amount) (fun x => Ret (of_answer x)).
Definition wait_for_success {P} (tx : TxId) : prog P (FinalExecutionStatus P) :=
  Op (RWait tx) (fun x => Ret (of_answer x)).
Definition get_native_amount {P} (account : AccountId) : prog P N :=
  Op (RNative account) (fun x => Ret (of_answer x)).
(** The price of gas, a [u64]. *)
Definition get_gas_price {P} : prog P N := Op RGasPrice (fun x => Ret (of_answer x)).
Definition now_secs {P} : prog P N := Op RNow (fun x => Ret (Ok x)).
Definition load_last_harvest {P} : prog P N := Op RLoadLastHarvest (fun x => Ret (Ok x)).
Definition load_harvest_time {P} : prog P N := Op RLoadHarvestTime (fun x => Ret (Ok x)).
Definition store_harvest_time {P} (s : N) : prog P unit :=
  Op (RStoreHarvestTime s) (fun _ => Ret (Ok tt)).
(** [wait_for_executed], as far as it is used: the hash in the outcome. *)
Definition wait_executed {P} (tx : TxId) : prog P string :=
  Op (RWaitExecuted tx) (fun x => Ret (of_answer x)).
(** [TradeRecorder::record_trade]: a row of the trade table, without the batch
    id and time that are drawn for it.  The amounts of the callers are integers
    of smallest units; the slippage it computes is only logged. *)
Definition record_trade {P} (tx_hash : string) (from_token : TokenAccount) (from_amount : N)
    (to_token : TokenAccount) (to_amount : N) (actual : option N) (period : string) : prog P unit :=
  Op (RRecordTrade tx_hash from_token from_amount to_token to_amount actual period)
    (fun x => Ret (of_answer x)).
(** A statement sent through the connection pool. *)
Definition query {P} (q : Query) : prog P P := Op (RDb q) (fun x => Ret (of_answer x)).
Definition utc_now {P} : prog P NaiveDateTime := Op RUtcNow (fun x => Ret (Ok x)).
Definition store_last_harvest {P} (s : N) : prog P unit :=
  Op (RStoreLastHarvest s) (fun _ => Ret (Ok tt)).

(** Holding the async lock of an account: the guard is dropped on every exit
    of the block, errors and panics included. *)
Fixpoint finally {P A} (p : prog P A) (r : Req) : prog P A :=
  match p with
  | Ret o => Op r (fun _ => Ret o)
  | Op r' f => Op r' (fun x => finally (f x) r)
  end.
Definition with_lock {P A} (account : AccountId) (p : prog P A) : prog P A :=
  Op (RLock account) (fun _ => finally p (RUnlock account)).

(** [serde_json::from_slice] at the result types the code asks for; the
    decoders are third-party code and stay abstract. *)
Class FromSlice (P A : Type) := from_slice : P -> option A.
Definition decode {P A} `{FromSlice P A} (raw : P) : outcome anyhow A :=
  ok_or (External "serde_json") (from_slice raw).

(** [serde_json::to_vec]. *)
Class ToVec (P : Type) := to_vec : json -> P.

(** * Runs *)
Definition event (P : Type) : Type := { r : Req & Resp P r }.
Definition ev {P} (r : Req) (x : Resp P r) : event P := existT r x.

Inductive run {P A} : prog P A -> list (event P) -> outcome anyhow A -> Prop :=
| run_ret o : run (Ret o) [] o
| run_op r k x t o : run (k x) t o -> run (Op r k) (ev r x :: t) o.

Lemma run_inv {P A} (p : prog P A) t o :
  run p t o ->
  match p with
  | Ret o' => t = [] /\ o = o'
  | Op r k => exists x t', t = ev r x :: t' /\ run (k x) t' o
  end.
Proof. intros [o'|r k x t' o' Hr]; eauto. Qed.

(** A run of the first part goes on with a run of the second. *)
Section RunBind.
Context {P A B : Type} (p : prog P A) (k : A -> prog P B).

Lemma run_bind_ok t a t' o : run p t (Ok a) -> run (k a) t' o -> run (bind p k) (t ++ t') o.
Proof.
  intros Hr Hk. revert t Hr. induction p as [o'|r f IH]; intros t Hr.
  - apply run_inv in Hr as [-> <-]. exact Hk.
  - apply run_inv in Hr as (x & t1 & -> & Hr). constructor. by apply IH.
Qed.
Lemma run_bind_err t e : run p t (Err e) -> run (bind p k) t (Err e).
Proof.
  revert t. induction p as [o'|r f IH]; intros t Hr.
  - apply run_inv in Hr as [-> <-]. constructor.
  - apply run_inv in Hr as (x & t1 & -> & Hr). constructor. by apply IH.
Qed.
Lemma run_bind_panic t : run p t Panic -> run (bind p k) t Panic.
Proof.
  revert t. induction p as [o'|r f IH]; intros t Hr.
  - apply run_inv in Hr as [-> <-]. constructor.
  - apply run_inv in Hr as (x & t1 & -> & Hr). constructor. by apply IH.
Qed.
End RunBind.

(** Running against an answering function with a state of its own. *)
Section Interp.
Context {P S : Type} (answer : forall r, S -> Resp P r * S).

Fixpoint interp {A} (p : prog P A) (s : S) : outcome anyhow A * list (event P) * S :=
  match p with
  | Ret o => (o, [], s)
  | Op r k =>
      let '(x, s') := answer r s in
      let '(o, t, s'') := interp (k x) s' in
      (o, ev r x :: t, s'')
  end.

Lemma interp_run {A} (p : prog P A) s :
  run p (interp p s).1.2 (interp p s).1.1.
Proof.
  revert s. induction p as [o|r k IH]; intros s; simpl; [constructor|].
  destruct (answer r s) as [x s'] eqn:Hx. specialize (IH x s').
  destruct (interp (k x) s') as [[o t] s'']. simpl in *. by constructor.
Qed.

Lemma interp_bind {A B} (p : prog P A) (k : A -> prog P B) s :
  interp (bind p k) s =
  let '(o, t, s') := interp p s in
  match o with
  | Ok a => let '(o', t', s'') := interp (k a) s' in (o', t ++ t', s'')
  | Err e => (Err e, t, s')
  | Panic => (Panic, t, s')
  end.
Proof.
  revert s. induction p as [[a|e|]|r f IH]; intros s; simpl.
  - by destruct (interp (k a) s) as [[? ?] ?].
  - done.
  - done.
  - destruct (answer r s) as [x s']. rewrite IH.
    destruct (interp (f x) s') as [[[a|e|] t] s'']; simpl; [|done|done].
    by destruct (interp (k a) s'') as [[? ?] ?].
Qed.
End Interp.

(** * Weakest preconditions

    [wp p Q] holds when every run of [p] ends with a trace and an outcome
    that satisfy [Q]. *)
Definition wp {P A} (p : prog P A) (Q : list (event P) -> outcome anyhow A -> Prop) : Prop :=
  forall t o, run p t o -> Q t o.

Section Wp.
Context {P : Type}.

Lemma wp_ret {A} (o : outcome anyhow A) (Q : list (event P) -> _ -> Prop) :
  Q [] o -> wp (Ret o) Q.
Proof. intros HQ t o' Hr. by inversion Hr; subst. Qed.

Lemma wp_op {A} r (k : Resp P r -> prog P A) Q :
  (forall x, wp (k x) (fun t o => Q (ev r x :: t) o)) -> wp (Op r k) Q.
Proof.
  intros H t o Hr. apply run_inv in Hr as (x & t' & -> & Hr). by apply H.
Qed.

Lemma wp_mono {A} (p : prog P A) (Q Q' : list (event P) -> _ -> Prop) :
  wp p Q -> (forall t o, Q t o -> Q' t o) -> wp p Q'.
Proof. intros H HQ t o Hr. by apply HQ, H. Qed.

(** A run satisfies what can be said of it. *)
Lemma wp_run {A} (p : prog P A) : wp p (run p).
Proof. by intros t o Hr. Qed.

Lemma wp_conj {A} (p : prog P A) (Q Q' : list (event P) -> _ -> Prop) :
  wp p Q -> wp p Q' -> wp p (fun t o => Q t o /\ Q' t o).
Proof. intros H H' t o Hr. split; auto. Qed.

(** The cut rule: the continuation is verified at every value the prefix
    can return, with the prefix's trace in front. *)
Lemma wp_bind {A B} (p : prog P A) (k : A -> prog P B) Q :
  wp p (fun t o =>
    match o with
    | Ok a => wp (k a) (fun t' o' => Q (t ++ t') o')
    | Err e => Q t (Err e)
    | Panic => Q t Panic
    end) ->
  wp (bind p k) Q.
Proof.
  revert Q. induction p as [[a|e|]|r f IH]; intros Q H; simpl.
  - exact (H [] (Ok a) (run_ret _)).
  - apply wp_ret. exact (H [] (Err e) (run_ret _)).
  - apply wp_ret. exact (H [] Panic (run_ret _)).
  - apply wp_op. intros x. apply IH. intros t o Hr.
    exact (H _ _ (run_op r f x t o Hr)).
Qed.

Lemma wp_attempt {A} (p : prog P A) Q :
  wp p (fun t o =>
    match o with
    | Ok a => Q t (Ok (inl a))
    | Err e => Q t (Ok (inr e))
    | Panic => Q t Panic
    end) ->
  wp (attempt p) Q.
Proof.
  revert Q. induction p as [[a|e|]|r f IH]; intros Q H; simpl.
  - apply wp_ret. exact (H [] (Ok a) (run_ret _)).
  - apply wp_ret. exact (H [] (Err e) (run_ret _)).
  - apply wp_ret. exact (H [] Panic (run_ret _)).
  - apply wp_op. intros x. apply IH. intros t o Hr.
    exact (H _ _ (run_op r f x t o Hr)).
Qed.

Lemma wp_finally {A} (p : prog P A) r Q :
  wp p (fun t o => forall x, Q (t ++ [ev r x]) o) -> wp (finally p r) Q.
Proof.
  revert Q. induction p as [o|r' f IH]; intros Q H; simpl.
  - apply wp_op. intros x. apply wp_ret. exact (H [] o (run_ret _) x).
  - apply wp_op. intros x. apply IH. intros t o Hr y.
    exact (H _ _ (run_op r' f x t o Hr) y).
Qed.

Lemma wp_if {A} (b : bool) (p q : prog P A) Q :
  (b = true -> wp p Q) -> (b = false -> wp q Q) -> wp (if b then p else q) Q.
Proof. destruct b; auto. Qed.

(** A bind of one request: the request is the head of the trace. *)
Lemma wp_call {A} r (f : Resp P r -> outcome anyhow A) Q :
  (forall x, Q [ev r x] (f x)) -> wp (Op r (fun x => Ret (f x))) Q.
Proof. intros H. apply wp_op. intros x. apply wp_ret, H. Qed.
End Wp.

(** * The transactions of a run *)
Record ExecCall : Type := {
  ec_signer : AccountId;
  ec_receiver : AccountId;
  ec_method : string;
  ec_args : json;
  ec_deposit : N
}.

Definition exec_of {P} (e : event P) : option ExecCall :=
  match projT1 e with
  | RExec s r m a d => Some {| ec_signer := s; ec_receiver := r; ec_method := m;
                               ec_args := a; ec_deposit := d |}
  | _ => None
  end.

(** The contract calls sent during a run, in order. *)
Definition execs {P} (t : list (event P)) : list ExecCall := omap exec_of t.

Lemma execs_app {P} (t t' : list (event P)) : execs (t ++ t') = execs t ++ execs t'.
Proof. apply omap_app. Qed.
Lemma execs_cons {P} (e : event P) t :
  execs (e :: t) = match exec_of e with Some c => c :: execs t | None => execs t end.
Proof. done. Qed.

(** Computes the transactions of a trace with known requests. *)
Ltac execs_simpl :=
  repeat (progress (rewrite ?execs_app, ?execs_cons; cbn [app exec_of projT1 ev])).

(** Weakest preconditions for statements about the sent transactions only. *)
Definition wpx {P A} (p : prog P A) (R : list ExecCall -> outcome anyhow A -> Prop) : Prop :=
  wp p (fun t o => R (execs t) o).

Section Wpx.
Context {P : Type}.

Lemma wpx_ret {A} (o : outcome anyhow A) R : R [] o -> wpx (P:=P) (Ret o) R.
Proof. intros H. by apply wp_ret. Qed.

Lemma wpx_mono {A} (p : prog P A) (R R' : _ -> _ -> Prop) :
  wpx p R -> (forall l o, R l o -> R' l o) -> wpx p R'.
Proof. intros H HR. eapply wp_mono; [exact H|]. auto. Qed.

Lemma wpx_bind {A B} (p : prog P A) (k : A -> prog P B) R :
  wpx p (fun l o =>
    match o with
    | Ok a => wpx (k a) (fun l' o' => R (l ++ l') o')
    | Err e => R l (Err e)
    | Panic => R l Panic
    end) ->
  wpx (bind p k) R.
Proof.
  intros H. apply wp_bind. eapply wp_mono; [exact H|]. intros t [a|e|]; simpl; auto.
  intros Hk. eapply wp_mono; [exact Hk|]. intros t' o. by rewrite execs_app.
Qed.

Lemma wpx_attempt {A} (p : prog P A) R :
  wpx p (fun l o =>
    match o with
    | Ok a => R l (Ok (inl a))
    | Err e => R l (Ok (inr e))
    | Panic => R l Panic
    end) ->
  wpx (attempt p) R.
Proof. intros H. apply wp_attempt. eapply wp_mono; [exact H|]. by intros t [a|e|]. Qed.

Lemma wpx_lift {A} (o : outcome anyhow A) R : R [] o -> wpx (P:=P) (lift o) R.
Proof. apply wpx_ret. Qed.

Lemma wpx_with_lock {A} account (p : prog P A) R : wpx p R -> wpx (with_lock account p) R.
Proof.
  intros H. apply wp_op. intros []. apply wp_finally. eapply wp_mono; [exact H|].
  intros t o HR []. change (ev (RLock account) tt :: t ++ [ev (RUnlock account) tt])
    with ([ev (P:=P) (RLock account) tt] ++ t ++ [ev (RUnlock account) tt]).
  rewrite !execs_app. change (execs [ev (P:=P) (RLock account) tt]) with (@nil ExecCall).
  change (execs [ev (P:=P) (RUnlock account) tt]) with (@nil ExecCall).
  by rewrite app_nil_r.
Qed.

(** Sequencing of two phases that do not panic: the transactions of the
    first, then those of the second, which may be missing after an error. *)
Definition phase {A} (p : prog P A) (R : list ExecCall -> Prop) : Prop :=
  wpx p (fun l o => R l /\ o <> Panic).

Lemma phase_seq {A B} (p : prog P A) (k : A -> prog P B) (R1 R2 : list ExecCall -> Prop) :
  phase p R1 -> (forall a, phase (k a) R2) -> R2 [] ->
  phase (bind p k) (fun l => exists l1 l2, l = l1 ++ l2 /\ R1 l1 /\ R2 l2).
Proof.
  unfold phase. intros Hp Hk Hnil. apply wpx_bind. eapply wpx_mono; [exact Hp|].
  intros l1 [a|e|] [H1 Ho]; [| |done].
  - eapply wpx_mono; [apply Hk|]. intros l2 o [H2 Ho2]. eauto 10.
  - split; [|done]. exists l1, []. by rewrite app_nil_r.
Qed.

Lemma phase_mono {A} (p : prog P A) (R R' : list ExecCall -> Prop) :
  phase p R -> (forall l, R l -> R' l) -> phase p R'.
Proof. unfold phase. intros H HR. eapply wpx_mono; [exact H|]. naive_solver. Qed.

(** Calls that send nothing can answer anything but never panic. *)
Lemma wpx_view_contract receiver method args R :
  (forall o, o <> Panic -> R [] o) -> wpx (view_contract (P:=P) receiver method args) R.
Proof. intros H. apply wp_call. intros [x|e]; by apply H. Qed.

Lemma wpx_wait tx R :
  (forall o, o <> Panic -> R [] o) -> wpx (wait_for_success (P:=P) tx) R.
Proof. intros H. apply wp_call. intros [x|e]; by apply H. Qed.

Lemma wpx_native account R :
  (forall o, o <> Panic -> R [] o) -> wpx (get_native_amount (P:=P) account) R.
Proof. intros H. apply wp_call. intros [x|e]; by apply H. Qed.

Lemma wpx_exec_contract w receiver method args d R :
  (forall o, o <> Panic ->
    R [{| ec_signer := signer w; ec_receiver := receiver; ec_method := method;
          ec_args := args; ec_deposit := d |}] o) ->
  wpx (exec_contract (P:=P) w receiver method args d) R.
Proof. intros H. apply wp_call. intros [x|e]; by apply H. Qed.

Lemma wpx_decode {A} `{FromSlice P A} (raw : P) (R : _ -> outcome anyhow A -> Prop) :
  (forall o, o <> Panic -> R [] o) -> wpx (P:=P) (lift (decode raw)) R.
Proof. intros HR. apply wpx_lift, HR, ok_or_not_Panic. Qed.

(** A view followed by its decoding. *)
Lemma wpx_view_decode {A} `{FromSlice P A} receiver method args R :
  (forall o, o <> Panic -> R [] o) ->
  wpx (bind (view_contract (P:=P) receiver method args) (fun raw => lift (decode raw)))
      (R : _ -> outcome anyhow A -> Prop).
Proof.
  intros HR. apply wpx_bind, wpx_view_contract. intros [raw|e|] Ho.
  - by apply wpx_decode.
  - by apply HR.
  - done.
Qed.

(** Sending a transaction and waiting for it. *)
Lemma wpx_exec_wait {A} w receiver method args d (k : FinalExecutionStatus P -> prog P A) R :
  let c := {| ec_signer := signer w; ec_receiver := receiver; ec_method := method;
              ec_args := args; ec_deposit := d |} in
  (forall e, R [c] (Err e)) ->
  (forall v, wpx (k v) (fun l o => R (c :: l) o)) ->
  wpx (bind (exec_contract (P:=P) w receiver method args d)
            (fun tx => bind (wait_for_success tx) k)) R.
Proof.
  intros c He Hk. apply wpx_bind, wpx_exec_contract. intros [tx|e|] Ho; [|by apply He|done].
  apply wpx_bind, wpx_wait. intros [v|e|] Ho'; [|by apply He|done]. apply Hk.
Qed.
End Wpx.

(** * Trace invariants

    A property of traces that survives concatenation holds of a program when
    it holds of its parts. *)
Class Composable {P} (I : list (event P) -> Prop) : Prop := {
  composable_nil : I [];
  composable_app : forall t t', I t -> I t' -> I (t ++ t')
}.

Definition keeps {P A} (p : prog P A) (I : list (event P) -> Prop) : Prop :=
  wp p (fun t _ => I t).

Section Keeps.
Context {P : Type} (I : list (event P) -> Prop) `{!Composable I}.

Lemma keeps_ret {A} (o : outcome anyhow A) : keeps (Ret o) I.
Proof. apply wp_ret, composable_nil. Qed.

Lemma keeps_call {A} r (f : Resp P r -> outcome anyhow A) :
  (forall x, I [ev r x]) -> keeps (Op r (fun x => Ret (f x))) I.
Proof. intros H. by apply wp_call. Qed.

Lemma keeps_bind {A B} (p : prog P A) (k : A -> prog P B) :
  keeps p I -> (forall a, keeps (k a) I) -> keeps (bind p k) I.
Proof.
  intros Hp Hk. apply wp_bind. eapply wp_mono; [exact Hp|].
  intros t [a|e|] Ht; [|done|done]. eapply wp_mono; [apply Hk|].
  intros t' o Ht'. by apply composable_app.
Qed.

Lemma keeps_attempt {A} (p : prog P A) : keeps p I -> keeps (attempt p) I.
Proof. intros H. apply wp_attempt. eapply wp_mono; [exact H|]. by intros t [a|e|]. Qed.

Lemma keeps_with_lock {A} account (p : prog P A) :
  I [ev (RLock account) tt] -> I [ev (RUnlock account) tt] ->
  keeps p I -> keeps (with_lock account p) I.
Proof.
  intros Hl Hu Hp. apply wp_op. intros []. apply wp_finally. eapply wp_mono; [exact Hp|].
  intros t o Ht []. change (I ([ev (RLock account) tt] ++ (t ++ [ev (RUnlock account) tt]))).
  by repeat apply composable_app.
Qed.
End Keeps.

(** One step through a program towards [keeps]; [call] closes a request. *)
Ltac keeps_step call :=
  first
    [ apply keeps_ret; apply _
    | apply keeps_bind; [apply _|..|intros ?]
    | apply keeps_attempt
    | call
    | match goal with |- keeps (match ?x with _ => _ end) _ => destruct x end
    | match goal with |- keeps (lift _) _ => apply keeps_ret; apply _ end ].

(** ** Guards

    A guard says of a request what must have happened before it; it can only
    become easier to meet when more has happened.  A trace is guarded when
    every request in it meets the guard. *)
Class Guard {P} (G : list (event P) -> Req -> Prop) : Prop :=
  guard_app : forall t pre r, G pre r -> G (t ++ pre) r.

Definition guarded {P} (G : list (event P) -> Req -> Prop) (t : list (event P)) : Prop :=
  forall pre r x post, t = pre ++ ev r x :: post -> G pre r.

#[export] Instance guarded_composable {P} (G : list (event P) -> Req -> Prop) `{!Guard G} :
  Composable (guarded G).
Proof.
  split; [intros pre **; by destruct pre|].
  intros t t' Ht Ht' pre r x post Heq.
  apply app_eq_inv in Heq as [(k & -> & Hk)|(k & -> & Hk)].
  - destruct k as [|e k].
    + rewrite <- (app_nil_r pre). by apply guard_app, (Ht' [] r x post).
    + injection Hk as <- ->. by eapply Ht.
  - by apply guard_app, (Ht' k r x post).
Qed.

Lemma guarded_one {P} (G : list (event P) -> Req -> Prop) r x : G [] r -> guarded G [ev r x].
Proof.
  intros HG pre r' x' post Heq. destruct pre as [|e pre]; [|by destruct pre].
  injection Heq as ->. done.
Qed.

(** A request that needs nothing before it. *)
Lemma keeps_free {P A} (G : list (event P) -> Req -> Prop) r (f : Resp P r -> outcome anyhow A) :
  G [] r -> keeps (Op r (fun x => Ret (f x))) (guarded G).
Proof. intros HG. apply keeps_call. intros x. by apply guarded_one. Qed.

(** * Programs against a stateful environment *)

(** Every request of the program, on every branch, satisfies [R]. *)
Fixpoint all_ops {P A} (R : Req -> Prop) (p : prog P A) : Prop :=
  match p with
  | Ret _ => True
  | Op r k => R r /\ forall x, all_ops R (k x)
  end.

Lemma all_ops_bind {P A B} (R : Req -> Prop) (p : prog P A) (k : A -> prog P B) :
  all_ops R p -> (forall a, all_ops R (k a)) -> all_ops R (bind p k).
Proof.
  intros Hp Hk. induction p as [[a|e|]|r f IH]; simpl in *; auto.
  destruct Hp as [Hr Hf]. split; auto.
Qed.

Lemma all_ops_attempt {P A} (R : Req -> Prop) (p : prog P A) :
  all_ops R p -> all_ops R (attempt p).
Proof.
  intros Hp. induction p as [[a|e|]|r f IH]; simpl in *; auto.
  destruct Hp as [Hr Hf]. split; auto.
Qed.

Section Iwp.
Context {P S : Type} (answer : forall r, S -> Resp P r * S).

(** The outcome and final state of the run against [answer] satisfy [Q]. *)
Definition iwp {A} (p : prog P A) (s : S) (Q : outcome anyhow A -> S -> Prop) : Prop :=
  Q (interp answer p s).1.1 (interp answer p s).2.

Lemma iwp_ret {A} (o : outcome anyhow A) s (Q : _ -> _ -> Prop) : Q o s -> iwp (Ret o) s Q.
Proof. done. Qed.

Lemma iwp_op {A} r (k : Resp P r -> prog P A) s Q :
  iwp (k (answer r s).1) (answer r s).2 Q -> iwp (Op r k) s Q.
Proof.
  unfold iwp. simpl. destruct (answer r s) as [x s']. simpl.
  by destruct (interp answer (k x) s') as [[o t] s''].
Qed.

Lemma iwp_bind {A B} (p : prog P A) (k : A -> prog P B) s Q :
  iwp p s (fun o s' =>
    match o with
    | Ok a => iwp (k a) s' Q
    | Err e => Q (Err e) s'
    | Panic => Q Panic s'
    end) ->
  iwp (bind p k) s Q.
Proof.
  unfold iwp. rewrite interp_bind. destruct (interp answer p s) as [[[a|e|] t] s'];
    simpl; [|done|done].
  by destruct (interp answer (k a) s') as [[o t'] s''].
Qed.

Lemma iwp_finally {A} (p : prog P A) r s Q :
  iwp p s (fun o s' => Q o (answer r s').2) -> iwp (finally p r) s Q.
Proof.
  revert s. induction p as [o|r' f IH]; intros s H; simpl.
  - apply iwp_op, iwp_ret. exact H.
  - apply iwp_op, IH. unfold iwp in *. simpl in H.
    destruct (answer r' s) as [x s']. simpl.
    by destruct (interp answer (f x) s') as [[o t] s''].
Qed.

Lemma iwp_mono {A} (p : prog P A) s (Q Q' : _ -> _ -> Prop) :
  iwp p s Q -> (forall o s', Q o s' -> Q' o s') -> iwp p s Q'.
Proof. unfold iwp. auto. Qed.

(** A reflexive and transitive relation on states that every request of
    the program respects relates the initial and the final state. *)
Lemma iwp_all_ops {A} (R : Req -> Prop) (rel : S -> S -> Prop) `{!PreOrder rel}
    (p : prog P A) s :
  (forall r s', R r -> rel s s' -> rel s' (answer r s').2) ->
  all_ops R p -> iwp p s (fun _ s' => rel s s').
Proof.
  intros Hstep. assert (forall s', rel s s' -> all_ops R p -> iwp p s' (fun _ s'' => rel s s''))
    as H; [|intros; by apply H].
  induction p as [o|r f IH]; intros s' Hs Hp; [done|].
  destruct Hp as [Hr Hf]. apply iwp_op, IH; [|by apply Hf].
  etrans; [exact Hs|]. by apply Hstep.
Qed.
End Iwp.

#[global] Arguments bind : simpl never.
#[global] Arguments attempt : simpl never.
#[global] Arguments finally : simpl never.
