(* ===== verification/StoragePlanner.v ===== *)
(** * The storage planner

    [crates/blockchain/src/ref_finance/storage/planner.rs]: the pure function
    that decides, from a snapshot of the account's storage on the exchange
    contract, which tokens to register, which stale registrations to give
    back, and how much storage the new registrations will need. *)
From S2P Require Import Prelude.

Definition SAFETY_MARGIN_NUMERATOR : N := 11.
Definition SAFETY_MARGIN_DENOMINATOR : N := 10.
Definition MAX_REGISTER_PER_CYCLE : N := 100.

Record StorageBalanceBounds : Type := { bounds_min : N; bounds_max : option N }.
Record StorageBalance : Type := { total : N; available : N }.

Record StorageSnapshot : Type := {
  balance : StorageBalance;
  deposits : gmap TokenAccount N;
  bounds : StorageBalanceBounds
}.

Inductive Plan : Type :=
| InitialRegister (to_register : list TokenAccount)
| Normal (to_unregister to_register : list TokenAccount) (pre_unregister_estimate : N).

Inductive PlanError : Type :=
| ArithmeticOverflow
| TooManyTokens (requested max : N).

(** [deposits.contains_key]. *)
Definition registered (deposits : gmap TokenAccount N) (t : TokenAccount) : bool :=
  bool_decide (is_Some (deposits !! t)).

(** The requested tokens that still have to be registered. *)
Definition missing (deposits : gmap TokenAccount N) (requested : list TokenAccount)
    : list TokenAccount :=
  bfilter (fun t => negb (registered deposits t)) requested.

(** Registered tokens without a balance that neither [keep] nor [requested]
    needs, in key order. *)
Definition unregister_candidates (deposits : gmap TokenAccount N)
    (requested keep : list TokenAccount) : list TokenAccount :=
  (bfilter (fun '(token, amount) =>
      (amount =? 0) && negb (contains keep token) && negb (contains requested token))
    (btree_iter deposits)).*1.

Definition plan (snapshot : StorageSnapshot) (requested keep : list TokenAccount)
    : outcome PlanError Plan :=
  let deposits := deposits snapshot in
  let deposits_len := map_len deposits in
  if deposits_len =? 0 then
    if MAX_REGISTER_PER_CYCLE <? len requested
    then Err (TooManyTokens (len requested) MAX_REGISTER_PER_CYCLE)
    else Ok (InitialRegister requested)
  else
    let total := total (balance snapshot) in
    let available := available (balance snapshot) in
    let min_bound := bounds_min (bounds snapshot) in
    let? used := ok_or ArithmeticOverflow (checked_sub total available) in
    let usable := saturating_sub used min_bound in
    let? per_token_calc := div_ceil usable deposits_len in
    let per_token := N.max per_token_calc min_bound in
    let to_register := missing deposits requested in
    if MAX_REGISTER_PER_CYCLE <? len to_register
    then Err (TooManyTokens (len to_register) MAX_REGISTER_PER_CYCLE)
    else
      let? needed_raw := ok_or ArithmeticOverflow (checked_mul per_token (len to_register)) in
      let? scaled := ok_or ArithmeticOverflow (checked_mul needed_raw SAFETY_MARGIN_NUMERATOR) in
      let? needed := div_ceil scaled SAFETY_MARGIN_DENOMINATOR in
      if needed <=? available
      then Ok (Normal [] to_register needed)
      else
        let? shortage := expect (checked_sub needed available) in
        let candidates := unregister_candidates deposits requested keep in
        let? quotient := div_ceil shortage per_token in
        let unregister_needed := to_usize_saturating quotient in
        Ok (Normal (truncate unregister_needed candidates) to_register needed).

(** * Specification

    The quantities the code computes, as closed formulas. *)
Section Spec.
Context (s : StorageSnapshot) (requested keep : list TokenAccount).

Definition used_storage : N := total (balance s) - available (balance s).

(** The estimated storage of one token: the used storage beyond the
    account's own, shared over the registered tokens and rounded up, and
    never below the contract's minimum. *)
Definition per_token_estimate : N :=
  N.max (ceil_quot (used_storage - bounds_min (bounds s)) (map_len (deposits s)))
        (bounds_min (bounds s)).

Definition needed_estimate : N :=
  ceil_quot (per_token_estimate * len (missing (deposits s) requested)
             * SAFETY_MARGIN_NUMERATOR) SAFETY_MARGIN_DENOMINATOR.

(** What stops the planner from returning a plan. *)
Definition plan_overflows : Prop :=
  total (balance s) < available (balance s) \/
  (len (missing (deposits s) requested) <= MAX_REGISTER_PER_CYCLE /\
   U128_MAX < per_token_estimate * len (missing (deposits s) requested)
              * SAFETY_MARGIN_NUMERATOR).
End Spec.

Lemma map_len_0 (m : gmap TokenAccount N) : map_len m = 0 <-> m = ∅.
Proof.
  unfold map_len. split.
  - intros H. apply map_size_empty_inv. lia.
  - intros ->. by rewrite map_size_empty.
Qed.

(** The planner on a non-empty deposit map, in terms of the specification. *)
Lemma plan_normal_eq s requested keep :
  deposits s <> ∅ ->
  plan s requested keep =
  if total (balance s) <? available (balance s) then Err ArithmeticOverflow
  else if MAX_REGISTER_PER_CYCLE <? len (missing (deposits s) requested)
  then Err (TooManyTokens (len (missing (deposits s) requested)) MAX_REGISTER_PER_CYCLE)
  else if U128_MAX <? per_token_estimate s * len (missing (deposits s) requested)
                      * SAFETY_MARGIN_NUMERATOR
  then Err ArithmeticOverflow
  else Ok (Normal
    (if needed_estimate s requested <=? available (balance s) then []
     else truncate
            (to_usize_saturating
              (ceil_quot (needed_estimate s requested - available (balance s))
                         (per_token_estimate s)))
            (unregister_candidates (deposits s) requested keep))
    (missing (deposits s) requested) (needed_estimate s requested)).
Proof.
  intros Hne. unfold plan.
  assert (map_len (deposits s) <> 0) as Hlen by (by rewrite map_len_0).
  rewrite (proj2 (N.eqb_neq _ _) Hlen).
  destruct (N.ltb_spec (total (balance s)) (available (balance s))) as [Ht|Ht].
  { by rewrite (proj2 (checked_sub_None _ _) Ht). }
  rewrite (proj2 (checked_sub_Some _ _ _) (conj Ht eq_refl)). cbn [ok_or obind].
  rewrite div_ceil_spec by done. cbn [obind].
  change (N.max _ (bounds_min (bounds s))) with (per_token_estimate s).
  destruct (MAX_REGISTER_PER_CYCLE <? _); [done|].
  set (n := len (missing (deposits s) requested)).
  destruct (N.ltb_spec U128_MAX (per_token_estimate s * n * SAFETY_MARGIN_NUMERATOR)) as [Ho|Ho].
  { destruct (checked_mul (per_token_estimate s) n) as [raw|] eqn:Hraw; [|done].
    apply checked_mul_Some in Hraw as [-> _]. cbn [ok_or obind].
    by rewrite (proj2 (checked_mul_None _ _) Ho). }
  assert (per_token_estimate s * n <= U128_MAX) as Hraw
    by (unfold SAFETY_MARGIN_NUMERATOR in Ho; lia).
  rewrite (proj2 (checked_mul_Some _ _ _) (conj eq_refl Hraw)).
  cbn [ok_or obind]. rewrite (proj2 (checked_mul_Some _ _ _) (conj eq_refl Ho)).
  cbn [ok_or obind]. rewrite div_ceil_spec by done. cbn [obind].
  subst n. fold (needed_estimate s requested).
  destruct (N.leb_spec (needed_estimate s requested) (available (balance s))) as [Hle|Hlt]; [done|].
  rewrite (proj2 (checked_sub_Some (needed_estimate s requested) (available (balance s)) _))
    by (split; [lia|done]).
  cbn [expect obind]. rewrite div_ceil_spec; [done|].
  intros H0. unfold needed_estimate in Hlt. rewrite H0, !N.mul_0_l in Hlt.
  rewrite ceil_quot_0 in Hlt by done. lia.
Qed.

Lemma plan_initial_eq s requested keep :
  deposits s = ∅ ->
  plan s requested keep =
  if MAX_REGISTER_PER_CYCLE <? len requested
  then Err (TooManyTokens (len requested) MAX_REGISTER_PER_CYCLE)
  else Ok (InitialRegister requested).
Proof. intros H. unfold plan. by rewrite (proj2 (map_len_0 _) H). Qed.

Lemma plan_normal_inv s requested keep u r e :
  plan s requested keep = Ok (Normal u r e) ->
  deposits s <> ∅ /\ available (balance s) <= total (balance s) /\
  r = missing (deposits s) requested /\ len r <= MAX_REGISTER_PER_CYCLE /\
  per_token_estimate s * len r * SAFETY_MARGIN_NUMERATOR <= U128_MAX /\
  e = needed_estimate s requested /\
  u = (if e <=? available (balance s) then []
       else truncate (to_usize_saturating
              (ceil_quot (e - available (balance s)) (per_token_estimate s)))
              (unregister_candidates (deposits s) requested keep)).
Proof.
  destruct (decide (deposits s = ∅)) as [He|He].
  - rewrite plan_initial_eq by done. by destruct (_ <? _).
  - rewrite plan_normal_eq by done.
    destruct (N.ltb_spec (total (balance s)) (available (balance s))); [done|].
    destruct (N.ltb_spec MAX_REGISTER_PER_CYCLE (len (missing (deposits s) requested))); [done|].
    destruct (N.ltb_spec U128_MAX (per_token_estimate s *
      len (missing (deposits s) requested) * SAFETY_MARGIN_NUMERATOR)); [done|].
    intros [= <- <- <-]. done.
Qed.

Lemma unregister_candidates_spec ds requested keep t :
  t ∈ unregister_candidates ds requested keep <->
  ds !! t = Some 0 /\ (t ∉ keep) /\ t ∉ requested.
Proof.
  unfold unregister_candidates. rewrite list_elem_of_fmap. split.
  - intros ([t' a] & -> & (Hin & Hp)%elem_of_bfilter). simpl.
    apply btree_iter_elem in Hin. rewrite !andb_true_iff, !negb_true_iff in Hp.
    destruct Hp as [[Ha Hk] Hr]. apply N.eqb_eq in Ha. subst.
    by rewrite contains_false in Hk, Hr.
  - intros (Hd & Hk & Hr). exists (t, 0). split; [done|].
    apply elem_of_bfilter. rewrite btree_iter_elem. split; [done|].
    by rewrite (proj2 (contains_false _ _) Hk), (proj2 (contains_false _ _) Hr).
Qed.

Lemma unregister_candidates_NoDup ds requested keep :
  NoDup (unregister_candidates ds requested keep).
Proof.
  eapply sublist_NoDup; [apply (btree_iter_NoDup_keys ds)|].
  apply fmap_sublist, sublist_bfilter.
Qed.

Lemma len_unregister_candidates ds requested keep :
  len (unregister_candidates ds requested keep) <= map_len ds.
Proof.
  unfold unregister_candidates, len. rewrite length_fmap, <- btree_iter_len.
  apply len_bfilter_le.
Qed.

Lemma needed_estimate_bounds s requested :
  let n := per_token_estimate s * len (missing (deposits s) requested) in
  11 * n <= 10 * needed_estimate s requested < 11 * n + 10.
Proof.
  intros n. unfold needed_estimate, SAFETY_MARGIN_NUMERATOR, SAFETY_MARGIN_DENOMINATOR. fold n.
  clearbody n.
  pose proof (ceil_quot_upper (n * 11) 10 ltac:(lia)) as Hu.
  pose proof (N.div_mod (n * 11 + 9) 10 ltac:(lia)) as Hd.
  pose proof (N.mod_lt (n * 11 + 9) 10 ltac:(lia)) as Hm.
  set (q := (n * 11 + 9) / 10) in *. set (r := (n * 11 + 9) mod 10) in *.
  assert (ceil_quot (n * 11) 10 <= q) as Hl by (apply ceil_quot_least; lia).
  clearbody q r. lia.
Qed.

Lemma needed_exceeds_per_token_pos s requested a :
  a < needed_estimate s requested -> per_token_estimate s <> 0.
Proof.
  intros H H0. unfold needed_estimate in H.
  rewrite H0, !N.mul_0_l, ceil_quot_0 in H by done. lia.
Qed.

Lemma plan_not_Panic s requested keep : plan s requested keep <> Panic.
Proof.
  destruct (decide (deposits s = ∅)).
  - rewrite plan_initial_eq by done. by destruct (_ <? _).
  - rewrite plan_normal_eq by done. by repeat case_match.
Qed.

Lemma plan_unregister_prefix s requested keep u r e :
  plan s requested keep = Ok (Normal u r e) ->
  exists rest, unregister_candidates (deposits s) requested keep = u ++ rest.
Proof.
  intros (_ & _ & _ & _ & _ & _ & ->)%plan_normal_inv.
  case_match; [by eexists|]. apply truncate_prefix.
Qed.

Lemma plan_stale_tokens s requested keep u r e t :
  plan s requested keep = Ok (Normal u r e) -> t ∈ u ->
  deposits s !! t = Some 0 /\ (t ∉ keep) /\ t ∉ requested.
Proof.
  intros [rest Hrest]%plan_unregister_prefix Ht.
  apply unregister_candidates_spec. rewrite Hrest. set_solver.
Qed.

Lemma unregister_candidates_sorted ds requested keep :
  StronglySorted String.le (unregister_candidates ds requested keep).
Proof.
  unfold unregister_candidates.
  apply (StronglySorted_fmap fst key_le String.le); [by intros ? ?|].
  pose proof (btree_iter_sorted ds) as Hs. induction Hs as [|x l Hl IH Hx]; simpl; [constructor|].
  destruct x as [k a]. case_match; [|done]. constructor; [done|].
  apply Forall_elem. intros y [Hy _]%elem_of_bfilter.
  rewrite Forall_elem in Hx. by apply Hx.
Qed.

(** * Properties *)

(** The planner never panics: whatever the snapshot, neither the division
    by the estimated storage per token nor the [expect] on the shortage can
    trap. *)
Theorem plan_never_panics s requested keep : plan s requested keep <> Panic.
Proof. apply plan_not_Panic. Qed.

(** A token the planner gives up is registered with a zero balance and is
    neither in [keep] nor in [requested], no token is listed twice, and the
    listed tokens come first in key order among all such tokens. *)
Theorem plan_unregister_safe s requested keep u r e :
  plan s requested keep = Ok (Normal u r e) ->
  NoDup u /\
  (forall t, t ∈ u -> deposits s !! t = Some 0 /\ (t ∉ keep) /\ t ∉ requested) /\
  (exists rest, unregister_candidates (deposits s) requested keep = u ++ rest /\
     StronglySorted String.le (u ++ rest)).
Proof.
  intros Hp. pose proof (plan_unregister_prefix _ _ _ _ _ _ Hp) as [rest Hrest].
  split_and!.
  - pose proof (unregister_candidates_NoDup (deposits s) requested keep) as Hnd.
    rewrite Hrest in Hnd. by apply NoDup_app_l in Hnd.
  - intros t. by apply (plan_stale_tokens _ _ _ _ _ _ t Hp).
  - exists rest. split; [done|]. rewrite <- Hrest. apply unregister_candidates_sorted.
Qed.

(** The planned estimate is the storage of the missing tokens with the ten
    percent margin, rounded up and within 128 bits, for exactly the requested
    tokens that are not registered yet, at most a hundred of them. *)
Theorem plan_estimate_exact s requested keep u r e :
  plan s requested keep = Ok (Normal u r e) ->
  r = missing (deposits s) requested /\
  len r <= MAX_REGISTER_PER_CYCLE /\
  11 * (per_token_estimate s * len r) <= 10 * e < 11 * (per_token_estimate s * len r) + 10 /\
  e <= U128_MAX.
Proof.
  intros (_ & _ & -> & Hmax & Hov & -> & _)%plan_normal_inv.
  pose proof (needed_estimate_bounds s requested) as Hb. simpl in Hb.
  unfold SAFETY_MARGIN_NUMERATOR in Hov. repeat split; [done|lia|lia|].
  unfold U128_MAX in *. lia.
Qed.

(** When the free storage is short of the estimate, the planner gives up
    just enough registrations: the tokens it lists cover the shortage at the
    estimated storage per token unless it lists every candidate there is, and
    one token fewer would not cover it.  (A map's length is a [usize].) *)
Theorem plan_unregister_covers_shortage s requested keep u r e :
  map_len (deposits s) <= USIZE_MAX ->
  plan s requested keep = Ok (Normal u r e) ->
  available (balance s) < e ->
  (e <= available (balance s) + len u * per_token_estimate s \/
   u = unregister_candidates (deposits s) requested keep) /\
  (u <> [] -> available (balance s) + (len u - 1) * per_token_estimate s < e).
Proof.
  intros Husz (_ & _ & _ & _ & _ & -> & ->)%plan_normal_inv Hshort.
  rewrite (proj2 (N.leb_gt _ _) Hshort).
  pose proof (needed_exceeds_per_token_pos _ _ _ Hshort) as Hpt.
  set (short := needed_estimate s requested - available (balance s)) in *.
  set (cands := unregister_candidates (deposits s) requested keep).
  assert (len cands <= USIZE_MAX) as Hc
    by (etrans; [apply len_unregister_candidates|done]).
  pose proof (ceil_quot_upper short _ Hpt) as Hup.
  assert (forall q, q < ceil_quot short (per_token_estimate s) ->
                    q * per_token_estimate s < short) as Hmin.
  { intros q Hq. apply N.nle_gt. intros Hle%(ceil_quot_least _ _ _ Hpt). lia. }
  set (q := ceil_quot short (per_token_estimate s)) in *.
  rewrite len_truncate. split.
  - destruct (N.ltb_spec (to_usize_saturating q) (len cands)) as [Hlt|Hge].
    + left. rewrite N.min_l by lia.
      assert (q <= USIZE_MAX) by
        (unfold to_usize_saturating in Hlt; destruct (N.leb_spec q USIZE_MAX); lia).
      unfold to_usize_saturating. rewrite (proj2 (N.leb_le _ _)) by done. lia.
    + right. unfold truncate. by rewrite (proj2 (N.ltb_ge _ _) Hge).
  - intros Hne.
    assert (0 < N.min (to_usize_saturating q) (len cands)) as Hpos.
    { rewrite <- len_truncate. destruct (truncate _ _); [done|]. rewrite len_cons. lia. }
    pose proof (to_usize_saturating_le q).
    pose proof (Hmin (N.min (to_usize_saturating q) (len cands) - 1) ltac:(lia)). lia.
Qed.

(** C33: The planner fails exactly in these cases: the contract reports more
    free storage than it holds or the estimate leaves 128 bits (overflow), or
    more than a hundred tokens are to be registered at once (too many). *)
Theorem plan_errors_exact s requested keep :
  (plan s requested keep = Err ArithmeticOverflow <->
   deposits s <> ∅ /\ plan_overflows s requested) /\
  (forall n m, plan s requested keep = Err (TooManyTokens n m) <->
   m = MAX_REGISTER_PER_CYCLE /\ MAX_REGISTER_PER_CYCLE < n /\
   ((deposits s = ∅ /\ n = len requested) \/
    (deposits s <> ∅ /\ available (balance s) <= total (balance s) /\
     n = len (missing (deposits s) requested)))).
Proof.
  unfold plan_overflows. destruct (decide (deposits s = ∅)) as [He|He].
  - rewrite plan_initial_eq by done.
    destruct (N.ltb_spec MAX_REGISTER_PER_CYCLE (len requested)); naive_solver lia.
  - rewrite plan_normal_eq by done.
    destruct (N.ltb_spec (total (balance s)) (available (balance s))); [naive_solver lia|].
    destruct (N.ltb_spec MAX_REGISTER_PER_CYCLE (len (missing (deposits s) requested)));
      [naive_solver lia|].
    destruct (N.ltb_spec U128_MAX (per_token_estimate s *
      len (missing (deposits s) requested) * SAFETY_MARGIN_NUMERATOR)); naive_solver lia.
Qed.

(** With the exchange's current minimum of 0.00125 NEAR, as long as the
    storage in use does not exceed one minimum per registered token beyond
    the account's own, every plan needs at most 0.1375 NEAR, so a full cycle
    of a hundred registrations stays under the default cap of 0.5 NEAR. *)
Theorem plan_floor_fits_default_cap s requested keep u r e :
  bounds_min (bounds s) = 1250000000000000000000 ->
  used_storage s <= bounds_min (bounds s) * (1 + map_len (deposits s)) ->
  plan s requested keep = Ok (Normal u r e) ->
  e <= 137500000000000000000000 /\ e <= 500000000000000000000000.
Proof.
  intros Hmin Hused Hplan.
  pose proof (plan_normal_inv _ _ _ _ _ _ Hplan) as (Hne & _ & _ & _ & _ & -> & _).
  apply plan_normal_inv in Hplan as (_ & _ & -> & Hmax & _ & _ & _).
  assert (per_token_estimate s = bounds_min (bounds s)) as Hpt.
  { unfold per_token_estimate. apply N.max_r, ceil_quot_least; [by rewrite map_len_0|lia]. }
  pose proof (needed_estimate_bounds s requested) as Hb. simpl in Hb.
  rewrite Hpt, Hmin in Hb. unfold MAX_REGISTER_PER_CYCLE in Hmax. lia.
Qed.

(** * Witnesses *)
Module Witness.
(** Three registered tokens, one of them without a balance, and free
    storage for less than the two tokens that are asked for. *)
Definition snap : StorageSnapshot := {|
  balance := {| total := 10000; available := 500 |};
  deposits := {[ "wrap.near" := 5%N; "old.near" := 0%N; "usdt.near" := 7%N; "stale.near" := 0%N ]};
  bounds := {| bounds_min := 1250; bounds_max := None |} |}.
Definition requested : list TokenAccount := ["a.near"; "usdt.near"].
Definition keep : list TokenAccount := ["wrap.near"].

(** A freshly registered account at the contract's current minimum. *)
Definition fresh_snap : StorageSnapshot := {|
  balance := {| total := 2500000000000000000000; available := 0 |};
  deposits := {[ "wrap.near" := 0%N ]};
  bounds := {| bounds_min := 1250000000000000000000; bounds_max := None |} |}.
End Witness.

Example plan_example :
  plan Witness.snap Witness.requested Witness.keep =
  Ok (Normal ["old.near"] ["a.near"] 2270).
Proof. vm_compute. reflexivity. Qed.

Lemma plan_unregister_safe_witness :
  NoDup ["old.near"] /\
  (forall t, t ∈ ["old.near"] ->
    deposits Witness.snap !! t = Some 0 /\ (t ∉ Witness.keep) /\ t ∉ Witness.requested) /\
  (exists rest, unregister_candidates (deposits Witness.snap) Witness.requested Witness.keep =
     ["old.near"] ++ rest /\ StronglySorted String.le (["old.near"] ++ rest)).
Proof.
  apply (plan_unregister_safe Witness.snap Witness.requested Witness.keep
           ["old.near"] ["a.near"] 2270).
  vm_compute. reflexivity.
Defined.

Lemma plan_estimate_exact_witness :
  ["a.near"] = missing (deposits Witness.snap) Witness.requested /\
  len ["a.near"] <= MAX_REGISTER_PER_CYCLE /\
  11 * (per_token_estimate Witness.snap * len ["a.near"]) <= 10 * 2270
    < 11 * (per_token_estimate Witness.snap * len ["a.near"]) + 10 /\
  2270 <= U128_MAX.
Proof.
  apply (plan_estimate_exact Witness.snap Witness.requested Witness.keep ["old.near"]).
  vm_compute. reflexivity.
Defined.

Lemma plan_unregister_covers_shortage_witness :
  (2270 <= 500 + len ["old.near"] * per_token_estimate Witness.snap \/
   ["old.near"] =
     unregister_candidates (deposits Witness.snap) Witness.requested Witness.keep) /\
  (["old.near"] <> [] -> 500 + (len ["old.near"] - 1) * per_token_estimate Witness.snap < 2270).
Proof.
  apply (plan_unregister_covers_shortage Witness.snap Witness.requested Witness.keep
           ["old.near"] ["a.near"] 2270).
  - vm_compute. discriminate.
  - vm_compute. reflexivity.
  - vm_compute. reflexivity.
Defined.

Lemma plan_floor_fits_default_cap_witness :
  1375000000000000000000 <= 137500000000000000000000 /\
  1375000000000000000000 <= 500000000000000000000000.
Proof.
  apply (plan_floor_fits_default_cap Witness.fresh_snap ["usdt.near"] ["wrap.near"]
           [] ["usdt.near"] 1375000000000000000000).
  - reflexivity.
  - vm_compute. discriminate.
  - vm_compute. reflexivity.
Defined.
