(* ===== verification/Storage.v ===== *)
(** * Storage management on the exchange contract

    [crates/blockchain/src/ref_finance/storage.rs] and the token calls of
    [crates/blockchain/src/ref_finance/deposit.rs]: registering the account
    and the tokens a trade needs, giving stale registrations back, and
    topping up the storage balance under a per-call cap. *)
From S2P Require Import Prelude NearClient StoragePlanner.

(** ** Addresses ([ref_finance.rs], [token_account.rs]) *)
Definition CONTRACT_ADDRESS (is_mainnet : bool) : AccountId :=
  if is_mainnet then "v2.ref-finance.near" else "ref-finance-101.testnet".
Definition WNEAR_TOKEN (is_mainnet : bool) : TokenAccount :=
  if is_mainnet then "wrap.near" else "wrap.testnet".

(** ** [deposit.rs] *)
Inductive DepositMode : Type := RegistrationOnly | DepositWithRegistration.

Definition registration_only (m : DepositMode) : bool :=
  match m with RegistrationOnly => true | DepositWithRegistration => false end.

Definition json_tokens (tokens : list TokenAccount) : json := JArr (JStr <$> tokens).

(** ** Keep lists and the cap *)
Definition keep_wnear_only (is_mainnet : bool) : list TokenAccount := [WNEAR_TOKEN is_mainnet].

Definition keep_with_portfolio (is_mainnet : bool) (tokens : list TokenAccount)
    : list TokenAccount :=
  if contains tokens (WNEAR_TOKEN is_mainnet) then tokens
  else tokens ++ [WNEAR_TOKEN is_mainnet].

Definition REF_STORAGE_MAX_TOP_UP_ABSOLUTE_CEILING : N := 5000000000000000000000000.

(** [max_top_up_from_config], at the configured value. *)
Definition max_top_up_from_config (configured : N) : N :=
  N.min configured REF_STORAGE_MAX_TOP_UP_ABSOLUTE_CEILING.

Definition plan_error_into (e : PlanError) : anyhow :=
  match e with
  | ArithmeticOverflow => Anyhow "per_token arithmetic overflow" []
  | TooManyTokens requested max =>
      Anyhow "too many tokens to register in one cycle" [requested; max]
  end.

Definition lift_plan (o : outcome PlanError Plan) : outcome anyhow Plan :=
  match o with Ok p => Ok p | Err e => Err (plan_error_into e) | Panic => Panic end.

Definition CHUNK_SIZE : nat := 10.

Section Storage.
Context {P : Type} `{!FromSlice P (option StorageBalance)}
  `{!FromSlice P StorageBalanceBounds} `{!FromSlice P (gmap TokenAccount N)}.
Context (is_mainnet : bool) (w : Wallet).

Definition register_tokens (tokens : list TokenAccount) : prog P TxId :=
  exec_contract w (CONTRACT_ADDRESS is_mainnet) "register_tokens"
    (JObj [("token_ids", json_tokens tokens)]) 1.

Definition unregister_tokens (tokens : list TokenAccount) : prog P TxId :=
  exec_contract w (CONTRACT_ADDRESS is_mainnet) "unregister_tokens"
    (JObj [("token_ids", json_tokens tokens)]) 1.

Definition get_deposits (account : AccountId) : prog P (gmap TokenAccount N) :=
  let! result := view_contract (CONTRACT_ADDRESS is_mainnet) "get_deposits"
    (JObj [("account_id", JStr account)]) in
  lift (decode result).

Definition check_bounds : prog P StorageBalanceBounds :=
  let! result := view_contract (CONTRACT_ADDRESS is_mainnet) "storage_balance_bounds" (JObj []) in
  lift (decode result).

Definition balance_of (account : AccountId) : prog P (option StorageBalance) :=
  let! result := view_contract (CONTRACT_ADDRESS is_mainnet) "storage_balance_of"
    (JObj [("account_id", JStr account)]) in
  lift (decode result).

(** [storage::deposit]. *)
Definition storage_deposit (value : N) (mode : DepositMode) : prog P TxId :=
  exec_contract w (CONTRACT_ADDRESS is_mainnet) "storage_deposit"
    (JObj [("registration_only", JBool (registration_only mode))]) value.

Definition handle_initial_register (to_register : list TokenAccount) : prog P unit :=
  match to_register with
  | [] => Ret (Ok tt)
  | _ =>
      let! tx := register_tokens to_register in
      let! _ := wait_for_success tx in
      Ret (Ok tt)
  end.

(** The loop over the chunks: a failed chunk is logged and skipped; the
    result counts the tokens given back and the tokens that failed. *)
Fixpoint unregister_chunks (cs : list (list TokenAccount)) (ok_count fail_count : N)
    : prog P (N * N) :=
  match cs with
  | [] => Ret (Ok (ok_count, fail_count))
  | chunk :: cs =>
      let! result := attempt (let! tx := unregister_tokens chunk in wait_for_success tx) in
      match result with
      | inl _ => unregister_chunks cs (ok_count + len chunk) fail_count
      | inr _ => unregister_chunks cs ok_count (fail_count + len chunk)
      end
  end.

(** The re-check before giving a registration back. *)
Definition verify_unregister (fresh : gmap TokenAccount N) (keep to_unregister : list TokenAccount)
    : list TokenAccount :=
  bfilter (fun t => match fresh !! t with
                    | Some amount => (amount =? 0) && negb (contains keep t)
                    | None => false
                    end) to_unregister.

Record NormalPlanArgs : Type := {
  np_account : AccountId;
  np_keep : list TokenAccount;
  np_max_top_up : N;
  np_initial_deposit : N;
  np_to_unregister : list TokenAccount;
  np_to_register : list TokenAccount;
  np_pre_unregister_estimate : N
}.

(** Step 3 of [handle_normal_plan]: unregister stale tokens. *)
Definition unregister_stale (args : NormalPlanArgs) : prog P unit :=
  match np_to_unregister args with
  | [] => Ret (Ok tt)
  | _ =>
      let! fresh_deposits := get_deposits (np_account args) in
      let verified :=
        verify_unregister fresh_deposits (np_keep args) (np_to_unregister args) in
      let! _ := lift (expect (checked_sub (len (np_to_unregister args)) (len verified))) in
      let! _ := unregister_chunks (chunks CHUNK_SIZE verified) 0 0 in
      Ret (Ok tt)
  end.

(** Steps 4 to 6: the top-up that is still needed after step 3, checked
    against what the cap leaves, and deposited. *)
Definition top_up (args : NormalPlanArgs) : prog P unit :=
  let! post_balance := balance_of (np_account args) in
  let! post_balance := lift (ok_or
    (Anyhow "storage balance disappeared after unregister" []) post_balance) in
  let post_unregister_available := available post_balance in
  let actual_top_up :=
    saturating_sub (np_pre_unregister_estimate args) post_unregister_available in
  let! remaining_cap := lift (expect
    (checked_sub (np_max_top_up args) (np_initial_deposit args))) in
  if remaining_cap <? actual_top_up
  then Ret (Err (Anyhow "ref storage top-up exceeds remaining cap"
                   [actual_top_up; remaining_cap; np_max_top_up args; np_initial_deposit args]))
  else if actual_top_up =? 0 then Ret (Ok tt)
  else
    let! tx := storage_deposit actual_top_up DepositWithRegistration in
    let! _ := wait_for_success tx in
    Ret (Ok tt).

Definition handle_normal_plan (args : NormalPlanArgs) : prog P unit :=
  let! _ := unregister_stale args in
  let! _ := top_up args in
  match np_to_register args with
  | [] => Ret (Ok tt)
  | _ =>
      let! tx := register_tokens (np_to_register args) in
      let! _ := wait_for_success tx in
      Ret (Ok tt)
  end.

(** Step 1 of [ensure_ref_storage_setup]: register the account if the
    contract does not know it; the amount spent. *)
Definition initial_registration (account : AccountId) (max_top_up : N) : prog P N :=
  let! maybe_balance := balance_of account in
  match maybe_balance with
  | Some _ => Ret (Ok 0)
  | None =>
      let! bounds := check_bounds in
      let amount := bounds_min bounds in
      if max_top_up <? amount
      then Ret (Err (Anyhow "initial storage deposit exceeds cap" [amount; max_top_up]))
      else
        let! tx := storage_deposit amount RegistrationOnly in
        let! _ := wait_for_success tx in
        Ret (Ok amount)
  end.

(** Step 2 and the dispatch on the plan. *)
Definition plan_and_execute (account : AccountId) (needed_tokens keep : list TokenAccount)
    (max_top_up initial_deposit : N) : prog P unit :=
  let! maybe_balance := balance_of account in
  let! balance := lift (ok_or
    (Anyhow "storage balance disappeared after initial deposit" []) maybe_balance) in
  let! deposits := get_deposits account in
  let! bounds := check_bounds in
  let snapshot := {| balance := balance; deposits := deposits; bounds := bounds |} in
  let! p := lift (lift_plan (plan snapshot needed_tokens keep)) in
  match p with
  | InitialRegister to_register => handle_initial_register to_register
  | Normal to_unregister to_register pre_unregister_estimate =>
      handle_normal_plan {|
        np_account := account; np_keep := keep; np_max_top_up := max_top_up;
        np_initial_deposit := initial_deposit; np_to_unregister := to_unregister;
        np_to_register := to_register;
        np_pre_unregister_estimate := pre_unregister_estimate |}
  end.

Definition ensure_ref_storage_setup (needed_tokens keep : list TokenAccount) (max_top_up : N)
    : prog P unit :=
  let account := account_id w in
  if MAX_REGISTER_PER_CYCLE <? len needed_tokens
  then Ret (Err (Anyhow "needed_tokens exceeds MAX_REGISTER_PER_CYCLE"
                   [len needed_tokens; MAX_REGISTER_PER_CYCLE]))
  else with_lock account (
    let! initial_deposit := initial_registration account max_top_up in
    plan_and_execute account needed_tokens keep max_top_up initial_deposit).
End Storage.

(** * Specification of the transactions *)
Section Spec.
Context (is_mainnet : bool) (w : Wallet).

Definition contract_call (method : string) (args : json) (d : N) : ExecCall :=
  {| ec_signer := signer w; ec_receiver := CONTRACT_ADDRESS is_mainnet;
     ec_method := method; ec_args := args; ec_deposit := d |}.
Definition register_call (tokens : list TokenAccount) : ExecCall :=
  contract_call "register_tokens" (JObj [("token_ids", json_tokens tokens)]) 1.
Definition unregister_call (tokens : list TokenAccount) : ExecCall :=
  contract_call "unregister_tokens" (JObj [("token_ids", json_tokens tokens)]) 1.
Definition deposit_call (amount : N) (mode : DepositMode) : ExecCall :=
  contract_call "storage_deposit"
    (JObj [("registration_only", JBool (registration_only mode))]) amount.

(** What a call adds to the storage balance. *)
Definition storage_amount (c : ExecCall) : N :=
  if String.eqb (ec_method c) "storage_deposit" then ec_deposit c else 0.
Definition storage_spend (l : list ExecCall) : N := sumN (storage_amount <$> l).

(** A batch of registrations given back: at most ten tokens, at least one,
    none of them kept or needed. *)
Definition stale_batch (needed keep : list TokenAccount) (c : ExecCall) : Prop :=
  exists tokens, c = unregister_call tokens /\ tokens <> [] /\
    (length tokens <= CHUNK_SIZE)%nat /\
    Forall (fun t => (t ∉ needed) /\ t ∉ keep) tokens.

(** The order of the transactions of one call: at most one registration of
    the account, then the stale batches, then at most one top-up, then at
    most one registration of missing tokens; the two storage deposits
    together within the cap. *)
Definition well_formed_session (needed keep : list TokenAccount) (max_top_up : N)
    (l : list ExecCall) : Prop :=
  exists init stale top reg,
    l = init ++ stale ++ top ++ reg /\
    (init = [] \/ exists a, init = [deposit_call a RegistrationOnly]) /\
    Forall (stale_batch needed keep) stale /\
    (top = [] \/ exists b, 0 < b /\ top = [deposit_call b DepositWithRegistration]) /\
    (reg = [] \/ exists tokens, tokens <> [] /\ (forall t, t ∈ tokens -> t ∈ needed) /\
                                reg = [register_call tokens]) /\
    storage_spend init + storage_spend top <= max_top_up.
End Spec.

Section Proofs.
Context {P : Type} `{!FromSlice P (option StorageBalance)}
  `{!FromSlice P StorageBalanceBounds} `{!FromSlice P (gmap TokenAccount N)}.
Context (is_mainnet : bool) (w : Wallet).

Lemma storage_spend_app l k : storage_spend (l ++ k) = storage_spend l + storage_spend k.
Proof. unfold storage_spend. by rewrite fmap_app, sumN_app. Qed.

Lemma storage_spend_deposit a m :
  storage_spend [deposit_call is_mainnet w a m] = a.
Proof. unfold storage_spend, storage_amount. simpl. lia. Qed.

Lemma storage_spend_stale needed keep stale :
  Forall (stale_batch is_mainnet w needed keep) stale -> storage_spend stale = 0.
Proof. induction 1 as [|c l (tokens & -> & _) _ IH]; [done|]. exact IH. Qed.

Lemma missing_subset ds requested t : t ∈ missing ds requested -> t ∈ requested.
Proof. unfold missing. by intros [? _]%elem_of_bfilter. Qed.

Lemma verify_unregister_spec fresh keep u t :
  t ∈ verify_unregister fresh keep u <-> t ∈ u /\ fresh !! t = Some 0 /\ t ∉ keep.
Proof.
  unfold verify_unregister. rewrite elem_of_bfilter. destruct (fresh !! t) as [a|].
  - rewrite andb_true_iff, N.eqb_eq, negb_true_iff, contains_false. naive_solver.
  - naive_solver.
Qed.

Lemma verify_unregister_len fresh keep u : len (verify_unregister fresh keep u) <= len u.
Proof. apply len_bfilter_le. Qed.

Lemma wpx_unregister_chunks cs ok fail R :
  (forall n, R (unregister_call is_mainnet w <$> cs) (Ok n)) ->
  wpx (P:=P) (unregister_chunks is_mainnet w cs ok fail) R.
Proof.
  revert ok fail R. induction cs as [|c cs IH]; intros ok fail R HR; cbn [unregister_chunks].
  { apply wpx_ret, HR. }
  apply wpx_bind, wpx_attempt, wpx_bind, wpx_exec_contract. intros [tx|e|] Ho; [| |done].
  - apply wpx_wait. intros [v|e|] Ho'; [| |done]; apply IH; intros n; apply HR.
  - apply IH. intros n. apply HR.
Qed.

Lemma chunk_nonempty {A} n (l : list A) c : n <> O -> c ∈ chunks n l -> c <> [].
Proof.
  unfold chunks. generalize (length l) as fuel. intros fuel Hn. revert l.
  induction fuel as [|fuel IH]; intros l; [set_solver|].
  destruct l as [|x l]; [set_solver|]. cbn [chunks_fuel].
  rewrite elem_of_cons. intros [->|H]; [by destruct n|eauto].
Qed.

Lemma stale_batches needed keep verified :
  (forall t, t ∈ verified -> (t ∉ needed) /\ t ∉ keep) ->
  Forall (stale_batch is_mainnet w needed keep)
         (unregister_call is_mainnet w <$> chunks CHUNK_SIZE verified).
Proof.
  assert (CHUNK_SIZE <> O) as Hn by (unfold CHUNK_SIZE; lia).
  intros Hv. apply Forall_fmap, Forall_elem. intros c Hc. exists c.
  split; [done|]. split; [exact (chunk_nonempty _ _ _ Hn Hc)|].
  split; [exact (chunks_length _ _ _ Hc)|]. apply Forall_elem.
  intros t Ht. apply Hv. exact (chunks_elem _ _ _ _ Hn Hc Ht).
Qed.

(** Step 3 sends stale batches only. *)
Lemma wpx_unregister_stale needed args R :
  (forall t, t ∈ np_to_unregister args -> t ∉ needed) ->
  (forall l o, Forall (stale_batch is_mainnet w needed (np_keep args)) l ->
     o <> Panic -> R l o) ->
  wpx (P:=P) (unregister_stale is_mainnet w args) R.
Proof.
  intros Hu HR. unfold unregister_stale.
  destruct (np_to_unregister args) as [|u0 us] eqn:Hus; [apply wpx_ret; by apply HR|].
  rewrite <- Hus in *.
  apply wpx_bind, wpx_view_decode. intros [fresh|e|] Ho; [|by apply HR|done].
  apply wpx_bind, wpx_lift.
  rewrite (proj2 (checked_sub_Some _ _ _) (conj (verify_unregister_len _ _ _) eq_refl)).
  cbn [expect]. apply wpx_bind, wpx_unregister_chunks. intros n. apply wpx_ret.
  simpl. rewrite app_nil_r. apply HR; [|done]. apply stale_batches.
  intros t (Hin & _ & Hk)%verify_unregister_spec. auto.
Qed.

(** Steps 4 to 6 spend at most what the initial deposit left of the cap. *)
Lemma wpx_top_up args R :
  np_initial_deposit args <= np_max_top_up args ->
  (forall o, o <> Panic -> R [] o) ->
  (forall b o, 0 < b -> np_initial_deposit args + b <= np_max_top_up args -> o <> Panic ->
     R [deposit_call is_mainnet w b DepositWithRegistration] o) ->
  wpx (P:=P) (top_up is_mainnet w args) R.
Proof.
  intros Hcap H0 Hb. unfold top_up.
  apply wpx_bind, wpx_view_decode. intros [[bal|]|e|] Ho; [| |by apply H0|done].
  2: { apply wpx_bind, wpx_lift. simpl. by apply H0. }
  apply wpx_bind, wpx_lift. cbn [ok_or]. apply wpx_bind, wpx_lift.
  rewrite (proj2 (checked_sub_Some _ _ _) (conj Hcap eq_refl)). cbn [expect].
  set (actual := saturating_sub _ _).
  destruct (N.ltb_spec (np_max_top_up args - np_initial_deposit args) actual) as [Hc|Hc];
    [by apply wpx_ret, H0|].
  destruct (N.eqb_spec actual 0) as [Hz|Hz]; [by apply wpx_ret, H0|].
  apply wpx_exec_wait; [intros e|intros v; apply wpx_ret]; apply Hb; lia || done.
Qed.

Lemma wpx_register to_register R :
  (forall o, o <> Panic -> R [register_call is_mainnet w to_register] o) ->
  wpx (P:=P) (let! tx := register_tokens is_mainnet w to_register in
              let! _ := wait_for_success tx in Ret (Ok tt)) R.
Proof.
  intros HR. apply wpx_exec_wait; [intros e|intros v; apply wpx_ret]; by apply HR.
Qed.

(** The transactions of [handle_normal_plan], after an initial deposit. *)
Definition top_ok (args : NormalPlanArgs) (top : list ExecCall) : Prop :=
  top = [] \/
  exists b, 0 < b /\ np_initial_deposit args + b <= np_max_top_up args /\
    top = [deposit_call is_mainnet w b DepositWithRegistration].
Definition reg_ok (needed : list TokenAccount) (reg : list ExecCall) : Prop :=
  reg = [] \/
  exists tokens, tokens <> [] /\ (forall t, t ∈ tokens -> t ∈ needed) /\
    reg = [register_call is_mainnet w tokens].
Definition session_tail (needed : list TokenAccount) (args : NormalPlanArgs)
    (l : list ExecCall) : Prop :=
  exists stale top reg,
    l = stale ++ top ++ reg /\
    Forall (stale_batch is_mainnet w needed (np_keep args)) stale /\
    top_ok args top /\ reg_ok needed reg.

Lemma phase_register_missing needed tokens :
  (forall t, t ∈ tokens -> t ∈ needed) ->
  phase (P:=P) (match tokens with
       | [] => Ret (Ok tt)
       | _ => let! tx := register_tokens is_mainnet w tokens in
              let! _ := wait_for_success tx in Ret (Ok tt)
       end) (reg_ok needed).
Proof.
  intros Hr. destruct tokens as [|r rs]; [apply wpx_ret; split; [by left|done]|].
  apply wpx_register. intros o Hp. split; [|done]. right. by exists (r :: rs).
Qed.

Lemma phase_handle_normal_plan needed args :
  np_initial_deposit args <= np_max_top_up args ->
  (forall t, t ∈ np_to_unregister args -> t ∉ needed) ->
  (forall t, t ∈ np_to_register args -> t ∈ needed) ->
  phase (P:=P) (handle_normal_plan is_mainnet w args) (session_tail needed args).
Proof.
  intros Hcap Hu Hr. unfold handle_normal_plan.
  apply (phase_mono _ (fun l => exists stale rest, l = stale ++ rest /\
    Forall (stale_batch is_mainnet w needed (np_keep args)) stale /\
    exists top reg, rest = top ++ reg /\ top_ok args top /\ reg_ok needed reg)).
  2: { intros l (stale & _ & -> & Hst & top & reg & -> & Ht & Hg). by exists stale, top, reg. }
  apply phase_seq; [|intros _; apply phase_seq|].
  - by apply wpx_unregister_stale with (needed := needed).
  - apply wpx_top_up; [done|..]; intros; split; try done; [by left|right; eauto].
  - intros _. by apply phase_register_missing.
  - by left.
  - exists [], []. split_and!; [done|by left|by left].
Qed.

Lemma phase_handle_initial_register needed tokens :
  (forall t, t ∈ tokens -> t ∈ needed) ->
  phase (P:=P) (handle_initial_register is_mainnet w tokens) (reg_ok needed).
Proof. apply phase_register_missing. Qed.

(** The registration of the account: nothing, or one deposit of the amount
    returned, which the cap covers. *)
Lemma wpx_initial_registration account max_top_up R :
  (forall a, a = 0 -> R [] (Ok a)) ->
  (forall e, R [] (Err e)) ->
  (forall a o, a <= max_top_up -> o = Ok a \/ (exists e, o = Err e) ->
     R [deposit_call is_mainnet w a RegistrationOnly] o) ->
  wpx (P:=P) (initial_registration is_mainnet w account max_top_up) R.
Proof.
  intros H0 He Ha. unfold initial_registration.
  apply wpx_bind, wpx_view_decode. intros [[bal|]|e|] Ho; [by apply wpx_ret, H0| |by apply He|done].
  apply wpx_bind, wpx_view_decode. intros [bnd|e|] Ho'; [|by apply He|done].
  destruct (N.ltb_spec max_top_up (bounds_min bnd)) as [Hc|Hc]; [by apply wpx_ret, He|].
  apply wpx_exec_wait; [intros e|intros v; apply wpx_ret]; apply Ha; eauto; lia.
Qed.

(** A plan's requested registrations are among the needed tokens. *)
Lemma plan_initial_tokens s requested keep tokens :
  plan s requested keep = Ok (InitialRegister tokens) -> tokens = requested.
Proof.
  destruct (decide (deposits s = ∅)).
  - rewrite plan_initial_eq by done. destruct (_ <? _); congruence.
  - rewrite plan_normal_eq by done. repeat case_match; discriminate.
Qed.

(** The transactions after the account is registered at cost [initial]. *)
Definition after_registration (needed keep : list TokenAccount) (max_top_up initial : N)
    (l : list ExecCall) : Prop :=
  exists stale top reg, l = stale ++ top ++ reg /\
    Forall (stale_batch is_mainnet w needed keep) stale /\
    (top = [] \/ exists b, 0 < b /\ initial + b <= max_top_up /\
       top = [deposit_call is_mainnet w b DepositWithRegistration]) /\
    reg_ok needed reg.

Lemma after_registration_reg needed keep max_top_up initial reg :
  reg_ok needed reg -> after_registration needed keep max_top_up initial reg.
Proof. intros H. exists [], [], reg. split_and!; [done|constructor|by left|done]. Qed.

Lemma phase_plan_and_execute needed keep max_top_up initial :
  initial <= max_top_up ->
  phase (P:=P) (plan_and_execute is_mainnet w (account_id w) needed keep max_top_up initial)
    (after_registration needed keep max_top_up initial).
Proof.
  intros Hcap. unfold phase.
  assert (forall o : outcome anyhow unit, o <> Panic ->
    after_registration needed keep max_top_up initial [] /\ o <> Panic) as Hstop.
  { intros o Ho. split; [|done]. apply after_registration_reg. by left. }
  apply wpx_bind, wpx_view_decode. intros [maybe|e|] Ho; [|by apply Hstop|done].
  apply wpx_bind, wpx_lift. destruct maybe as [bal|]; cbn [ok_or]; [|by apply Hstop].
  apply wpx_bind, wpx_view_decode. intros [ds|e|] Ho1; [|by apply Hstop|done].
  apply wpx_bind, wpx_view_decode. intros [bnd|e|] Ho2; [|by apply Hstop|done].
  apply wpx_bind, wpx_lift. set (snap := {| balance := bal; deposits := ds; bounds := bnd |}).
  destruct (plan snap needed keep) as [[tokens|u r e]|e|] eqn:Hplan; cbn [lift_plan].
  - apply plan_initial_tokens in Hplan as ->.
    eapply wpx_mono; [by apply (phase_handle_initial_register needed)|].
    intros l o [Hreg Hp]. split; [by apply after_registration_reg|done].
  - pose proof (fun t => plan_stale_tokens _ _ _ _ _ _ t Hplan) as Hsafe.
    apply plan_normal_inv in Hplan as (_ & _ & -> & _).
    eapply wpx_mono; [apply (phase_handle_normal_plan needed)|].
    + done.
    + intros t Ht. by destruct (Hsafe t Ht) as (_ & _ & ?).
    + intros t. apply missing_subset.
    + by intros l o.
  - by apply Hstop.
  - by apply plan_not_Panic in Hplan.
Qed.

Lemma session_of_parts needed keep max_top_up init l :
  (init = [] \/ exists a, init = [deposit_call is_mainnet w a RegistrationOnly]) ->
  storage_spend init <= max_top_up ->
  after_registration needed keep max_top_up (storage_spend init) l ->
  well_formed_session is_mainnet w needed keep max_top_up (init ++ l).
Proof.
  intros Hi Ha (stale & top & reg & -> & Hst & Htop & Hreg).
  exists init, stale, top, reg. split_and!; [done|done|done|naive_solver|done|].
  destruct Htop as [->|(b & _ & Hb & ->)]; [change (storage_spend []) with 0; lia|].
  by rewrite storage_spend_deposit.
Qed.

Lemma phase_ensure needed keep max_top_up :
  phase (P:=P) (ensure_ref_storage_setup is_mainnet w needed keep max_top_up)
    (well_formed_session is_mainnet w needed keep max_top_up).
Proof.
  unfold ensure_ref_storage_setup, phase.
  assert (forall l, after_registration needed keep max_top_up 0 l ->
    well_formed_session is_mainnet w needed keep max_top_up l) as H0.
  { intros l Hl. apply (session_of_parts _ _ _ [] l); [by left|apply N.le_0_l|done]. }
  assert (after_registration needed keep max_top_up 0 []) as Hnil
    by (apply after_registration_reg; by left).
  destruct (_ <? _); [apply wpx_ret; auto|].
  apply wpx_with_lock, wpx_bind, wpx_initial_registration.
  - intros a ->. eapply wpx_mono; [apply phase_plan_and_execute, N.le_0_l|].
    intros l o [Hl Ho]. auto.
  - auto.
  - intros a o Ha [->|[e ->]].
    + eapply wpx_mono; [by apply phase_plan_and_execute|]. intros l o [Hl Ho]. split; [|done].
      apply session_of_parts; [eauto|by rewrite storage_spend_deposit|].
      by rewrite storage_spend_deposit.
    + split; [|done]. apply (session_of_parts _ _ _ [_] []);
        [eauto|by rewrite storage_spend_deposit|apply after_registration_reg; by left].
Qed.

(** ** The re-check before giving registrations back *)
Definition deposits_view : Req :=
  RView (CONTRACT_ADDRESS is_mainnet) "get_deposits" (JObj [("account_id", JStr (account_id w))]).

(** An unregistration must follow a fetch of the deposits, with no other
    fetch in between, in which all its tokens have balance zero; none of them
    is kept. *)
Definition unregister_guard (keep : list TokenAccount) (pre : list (event P)) (r : Req) : Prop :=
  match r with
  | RExec _ _ method args _ => method = "unregister_tokens" ->
      exists pre1 raw mid fresh tokens,
        pre = pre1 ++ ev deposits_view (inl raw) :: mid /\
        from_slice raw = Some fresh /\
        args = JObj [("token_ids", json_tokens tokens)] /\
        Forall (fun tok => fresh !! tok = Some 0 /\ tok ∉ keep) tokens /\
        Forall (fun e => projT1 e <> deposits_view) mid
  | _ => True
  end.

Definition unregister_checked (keep : list TokenAccount) : list (event P) -> Prop :=
  guarded (unregister_guard keep).

#[local] Instance unregister_guard_app keep : Guard (unregister_guard keep).
Proof.
  intros t pre r. unfold unregister_guard. destruct r; try done.
  intros H Hm. destruct (H Hm) as (pre1 & raw & mid & fresh & tokens & -> & Hrest).
  exists (t ++ pre1), raw, mid, fresh, tokens. split; [by rewrite app_assoc|done].
Qed.

(** The events of the unregistration loop. *)
Definition chunk_event (cs : list (list TokenAccount)) (e : event P) : Prop :=
  (exists c, c ∈ cs /\ projT1 e = RExec (signer w) (CONTRACT_ADDRESS is_mainnet)
      "unregister_tokens" (JObj [("token_ids", json_tokens c)]) 1) \/
  (exists tx, projT1 e = RWait tx).

Lemma chunk_event_weaken c cs e : chunk_event cs e -> chunk_event (c :: cs) e.
Proof. unfold chunk_event. set_solver. Qed.

Lemma unregister_chunks_events cs ok fail :
  wp (unregister_chunks is_mainnet w cs ok fail) (fun t _ => Forall (chunk_event cs) t).
Proof.
  revert ok fail. induction cs as [|c cs IH]; intros ok fail; cbn [unregister_chunks].
  { apply wp_ret. constructor. }
  assert (forall t ok' fail', Forall (chunk_event (c :: cs)) t ->
    wp (unregister_chunks is_mainnet w cs ok' fail')
       (fun t' _ => Forall (chunk_event (c :: cs)) (t ++ t'))) as Hrest.
  { intros t ok' fail' Ht. eapply wp_mono; [apply IH|]. intros t' o Ht'.
    apply Forall_app_2; [done|]. eapply Forall_weaken; [|exact Ht']. apply chunk_event_weaken. }
  assert (forall x, chunk_event (c :: cs) (ev (RExec (signer w) (CONTRACT_ADDRESS is_mainnet)
    "unregister_tokens" (JObj [("token_ids", json_tokens c)]) 1) x)) as Hexec.
  { intros x. left. exists c. split; [set_solver|done]. }
  apply wp_bind, wp_attempt, wp_bind, wp_call. intros [tx|e]; simpl.
  - apply wp_call. intros [v|e]; apply (Hrest [_; _]); (constructor; [apply Hexec|]);
      (constructor; [right; by exists tx|constructor]).
  - apply (Hrest [_]). constructor; [apply Hexec|constructor].
Qed.

(** A loop after a fetch that shows every token of it unused is checked. *)
Lemma unregister_checked_loop keep raw fresh cs t :
  from_slice raw = Some fresh ->
  (forall c tok, c ∈ cs -> tok ∈ c -> fresh !! tok = Some 0 /\ tok ∉ keep) ->
  Forall (chunk_event cs) t ->
  unregister_checked keep (ev deposits_view (inl raw) :: t).
Proof.
  intros Hraw Hcs Ht pre r x post Heq.
  destruct pre as [|e0 pre]; [by injection Heq as <-|]. injection Heq as <- ->.
  apply Forall_app in Ht as [Hpre Hx]. apply Forall_inv in Hx.
  destruct Hx as [(c & Hc & Hr)|[tx Hr]]; cbn in Hr; subst r; [intros _|done]. exists [], raw, pre, fresh, c.
  split_and!; [done|done|done| |].
  - apply Forall_elem. intros tok. by apply Hcs.
  - eapply Forall_weaken; [|exact Hpre].
    intros e [(c' & _ & ->)|[tx ->]]; discriminate.
Qed.

Lemma unregister_stale_checked args :
  np_account args = account_id w ->
  keeps (unregister_stale is_mainnet w args) (unregister_checked (np_keep args)).
Proof.
  intros Hacc. unfold unregister_stale.
  destruct (np_to_unregister args) as [|u0 us] eqn:Hus; [apply keeps_ret; apply _|].
  rewrite <- Hus. apply wp_bind, wp_bind, wp_call.
  rewrite Hacc. fold deposits_view.
  intros [raw|e]; simpl; [|by apply guarded_one].
  apply wp_ret. unfold decode. destruct (from_slice raw) as [fresh|] eqn:Hraw; simpl;
    [|by apply guarded_one].
  apply wp_bind, wp_ret.
  rewrite (proj2 (checked_sub_Some _ _ _) (conj (verify_unregister_len _ _ _) eq_refl)).
  apply wp_bind. eapply wp_mono; [apply unregister_chunks_events|].
  intros t o Ht.
  assert (unregister_checked (np_keep args) (ev deposits_view (inl raw) :: t)) as Hdone.
  { eapply unregister_checked_loop; [exact Hraw| |exact Ht].
    intros c tok Hc Hin.
    assert (tok ∈ verify_unregister fresh (np_keep args) (np_to_unregister args)) as Hv.
    { refine (chunks_elem CHUNK_SIZE _ c tok _ Hc Hin). unfold CHUNK_SIZE. lia. }
    apply verify_unregister_spec in Hv as (_ & ? & ?). done. }
  destruct o as [n|e|]; [apply wp_ret; simpl; rewrite app_nil_r|..]; exact Hdone.
Qed.

(** Programs without unregistrations keep the invariant. *)
Ltac no_unregister := repeat keeps_step ltac:(by apply keeps_free).

Lemma ensure_checked needed keep max_top_up :
  keeps (ensure_ref_storage_setup (P:=P) is_mainnet w needed keep max_top_up)
    (unregister_checked keep).
Proof.
  unfold ensure_ref_storage_setup. destruct (_ <? _); [apply keeps_ret; apply _|].
  apply keeps_with_lock; [apply _|by apply guarded_one..|].
  apply keeps_bind; [apply _| |intros initial].
  { unfold initial_registration. no_unregister. }
  unfold plan_and_execute. do 5 (apply keeps_bind; [apply _|no_unregister|intros ?]).
  case_match; [unfold handle_initial_register; no_unregister|].
  unfold handle_normal_plan. apply keeps_bind; [apply _| |intros _].
  { by apply (unregister_stale_checked {| np_account := account_id w; np_keep := keep |}). }
  apply keeps_bind; [apply _| |intros _]; [unfold top_up|]; no_unregister.
Qed.

(** ** What a run can do, whatever the node answers *)

(** C1: The storage deposits of one call, the initial registration and the
    top-up together, never exceed [max_top_up]: not when the call fails
    half way, and not when the contract or the node answers anything at
    all. *)
Theorem ensure_spend_capped needed keep max_top_up t o :
  run (P:=P) (ensure_ref_storage_setup is_mainnet w needed keep max_top_up) t o ->
  storage_spend (execs t) <= max_top_up.
Proof.
  intros Hr. destruct (phase_ensure needed keep max_top_up t o Hr)
    as [(init & stale & top & reg & -> & _ & Hst & _ & Hreg & Hcap) _].
  rewrite !storage_spend_app, (storage_spend_stale _ _ _ Hst).
  assert (storage_spend reg = 0) as -> by (by destruct Hreg as [->|(tokens & _ & _ & ->)]). lia.
Qed.

(** The transactions of a call come in the documented order (account
    registration, stale tokens in batches of at most ten, top-up, token
    registration), each kind of deposit at most once; stale batches hold
    neither kept nor needed tokens, and only needed tokens are registered,
    with one yoctoNEAR attached. *)
Theorem ensure_session_order needed keep max_top_up t o :
  run (P:=P) (ensure_ref_storage_setup is_mainnet w needed keep max_top_up) t o ->
  well_formed_session is_mainnet w needed keep max_top_up (execs t).
Proof. intros Hr. by destruct (phase_ensure needed keep max_top_up t o Hr). Qed.

(** No run of a call panics; the [expect] on the remaining cap holds
    because the initial deposit passed the cap. *)
Theorem ensure_never_panics needed keep max_top_up t o :
  run (P:=P) (ensure_ref_storage_setup is_mainnet w needed keep max_top_up) t o -> o <> Panic.
Proof. intros Hr. by destruct (phase_ensure needed keep max_top_up t o Hr). Qed.

(** A registration is given back only after the deposits were fetched
    again and showed it unused: every unregistration transaction of a run
    lists tokens that have balance zero in the latest fetch before it and
    that are not to be kept. *)
Theorem ensure_unregisters_rechecked needed keep max_top_up t o :
  run (P:=P) (ensure_ref_storage_setup is_mainnet w needed keep max_top_up) t o ->
  unregister_checked keep t.
Proof. apply ensure_checked. Qed.
End Proofs.

(** ** Against a contract that keeps its word

    [answer] is a node in front of the exchange contract, [deps] the deposits
    the contract holds for the account.  The hypotheses are the contract's
    documented behaviour: a view of the deposits tells the truth; a token
    that is not asked to be unregistered stays registered; when a
    [register_tokens] transaction succeeds, its tokens are registered.  The
    state invariant [Inv] is the environment's own. *)
Section Contract.
Context {P : Type} `{!FromSlice P (option StorageBalance)}
  `{!FromSlice P StorageBalanceBounds} `{!FromSlice P (gmap TokenAccount N)}.
Context (is_mainnet : bool) (w : Wallet).
Context {S : Type} (answer : forall r, S -> Resp P r * S)
  (deps : S -> gmap TokenAccount N) (Inv : S -> Prop).

(** The request asks to unregister one of [tokens]. *)
Definition unregisters (tokens : list TokenAccount) (r : Req) : Prop :=
  match r with
  | RExec _ _ m (JObj [(_, JArr l)]) _ =>
      m = "unregister_tokens" /\ exists t, t ∈ tokens /\ JStr t ∈ l
  | _ => False
  end.

Record contract_laws (tokens : list TokenAccount) : Prop := {
  law_view : forall s raw m, Inv s ->
    (answer (deposits_view is_mainnet w) s).1 = inl raw ->
    from_slice raw = Some m -> m = deps s;
  law_keep : forall r s, Inv s -> ~ unregisters tokens r ->
    Inv (answer r s).2 /\
    (forall t, t ∈ tokens -> is_Some (deps s !! t) -> is_Some (deps (answer r s).2 !! t));
  law_register : forall regs s tx v, Inv s ->
    (answer (RExec (signer w) (CONTRACT_ADDRESS is_mainnet) "register_tokens"
       (JObj [("token_ids", json_tokens regs)]) 1) s).1 = inl tx ->
    let s1 := (answer (RExec (signer w) (CONTRACT_ADDRESS is_mainnet) "register_tokens"
       (JObj [("token_ids", json_tokens regs)]) 1) s).2 in
    (answer (RWait tx) s1).1 = inl v ->
    forall t, t ∈ regs -> is_Some (deps (answer (RWait tx) s1).2 !! t)
}.

Context (needed keep : list TokenAccount) (max_top_up : N).
Context (laws : contract_laws needed).

(** Nothing needed is lost between two states. *)
Definition grows (s s' : S) : Prop :=
  Inv s -> Inv s' /\ (forall t, t ∈ needed -> is_Some (deps s !! t) -> is_Some (deps s' !! t)).

#[local] Instance grows_preorder : PreOrder grows.
Proof.
  split; [intros s Hs; auto|]. intros s1 s2 s3 H12 H23 H1.
  destruct (H12 H1) as [H2 Hd]. destruct (H23 H2) as [H3 Hd']. split; auto.
Qed.

Lemma step_grows r s : ~ unregisters needed r -> grows s (answer r s).2.
Proof. intros Hr Hs. by apply (law_keep needed laws). Qed.

Lemma quiet_grows {A} (p : prog P A) s :
  all_ops (fun r => ~ unregisters needed r) p -> iwp answer p s (fun _ s' => grows s s').
Proof. apply iwp_all_ops; [apply _|]. intros r s' Hr _. by apply step_grows. Qed.

Lemma unregister_chunks_quiet cs ok fail :
  (forall c t, c ∈ cs -> t ∈ c -> t ∉ needed) ->
  all_ops (fun r => ~ unregisters needed r)
    (unregister_chunks (P:=P) is_mainnet w cs ok fail).
Proof.
  revert ok fail. induction cs as [|c cs IH]; intros ok fail Hcs; cbn [unregister_chunks]; [done|].
  apply all_ops_bind.
  - apply all_ops_attempt, all_ops_bind; [split; [|done]|intros tx; split; [by simpl; intros []|done]].
    intros [_ (t & Hn & Ht)]. apply list_elem_of_fmap in Ht as (t' & [= ->] & Ht).
    by apply (Hcs c t'); [set_solver|..].
  - intros [v|e]; apply IH; set_solver.
Qed.

Ltac quiet_step :=
  first
    [ done
    | apply all_ops_bind; [|intros ?]
    | match goal with |- all_ops _ (match ?x with _ => _ end) => destruct x end
    | split; [simpl; naive_solver|done] ].

Lemma unregister_stale_quiet args :
  (forall t, t ∈ np_to_unregister args -> t ∉ needed) ->
  all_ops (fun r => ~ unregisters needed r)
    (unregister_stale (P:=P) is_mainnet w args).
Proof.
  intros Hu. unfold unregister_stale. destruct (np_to_unregister args) as [|u us] eqn:Hus; [done|].
  rewrite <- Hus in *. apply all_ops_bind; [repeat quiet_step|intros fresh].
  apply all_ops_bind; [done|intros _]. apply all_ops_bind; [|intros _; done].
  apply unregister_chunks_quiet. intros c t Hc Ht. apply Hu.
  refine (proj1 (proj1 (verify_unregister_spec fresh (np_keep args) _ t) _)).
  refine (chunks_elem CHUNK_SIZE _ c t _ Hc Ht). unfold CHUNK_SIZE. lia.
Qed.

Lemma top_up_quiet args :
  all_ops (fun r => ~ unregisters needed r) (top_up (P:=P) is_mainnet w args).
Proof. unfold top_up. repeat quiet_step. Qed.

Lemma initial_registration_quiet account :
  all_ops (fun r => ~ unregisters needed r)
    (initial_registration (P:=P) is_mainnet w account max_top_up).
Proof. unfold initial_registration. repeat quiet_step. Qed.

(** Registering [tokens] in a state that has the other needed ones. *)
Lemma register_completes tokens s :
  Inv s -> (forall t, t ∈ needed -> t ∈ tokens \/ is_Some (deps s !! t)) ->
  iwp answer (match tokens with
       | [] => Ret (Ok tt)
       | _ => let! tx := register_tokens (P:=P) is_mainnet w tokens in
              let! _ := wait_for_success tx in Ret (Ok tt)
       end) s
    (fun o s' => o = Ok tt -> Inv s' /\ forall t, t ∈ needed -> is_Some (deps s' !! t)).
Proof.
  intros Hs Hall. destruct tokens as [|r rs].
  { apply iwp_ret. intros _. split; [done|]. intros t Ht. destruct (Hall t Ht); [set_solver|done]. }
  set (regs := r :: rs) in *.
  apply iwp_bind, iwp_op, iwp_ret.
  pose proof (law_register _ laws regs s) as Hreg.
  pose proof (step_grows (RExec (signer w) (CONTRACT_ADDRESS is_mainnet) "register_tokens"
    (JObj [("token_ids", json_tokens regs)]) 1) s ltac:(naive_solver) Hs) as [Hs1 Hd1].
  destruct (answer _ s) as [[tx|e] s1]; simpl in *; [|done].
  apply iwp_bind, iwp_op, iwp_ret.
  pose proof (step_grows (RWait tx) s1 ltac:(naive_solver) Hs1) as [Hs2 Hd2].
  specialize (fun v => Hreg tx v Hs eq_refl).
  destruct (answer (RWait tx) s1) as [[v|e] s2]; simpl in *; [|done].
  apply iwp_ret. intros _. split; [done|]. intros t Ht.
  destruct (Hall t Ht) as [Hin|Hin]; [|by eauto]. exact (Hreg v eq_refl t Hin).
Qed.

Lemma plan_and_execute_completes account initial s :
  account = account_id w -> Inv s ->
  iwp answer (plan_and_execute (P:=P) is_mainnet w account needed keep max_top_up initial) s
    (fun o s' => o = Ok tt -> Inv s' /\ forall t, t ∈ needed -> is_Some (deps s' !! t)).
Proof.
  intros -> Hs. unfold plan_and_execute.
  apply iwp_bind, iwp_bind, iwp_op, iwp_ret.
  set (s1 := (answer _ s).2). assert (Inv s1) as Hs1 by (apply step_grows; naive_solver).
  destruct (of_answer _) as [raw|e|]; simpl; [|done|done]. apply iwp_ret.
  destruct (decode raw) as [maybe|e|]; [|done|done].
  apply iwp_bind, iwp_ret. destruct maybe as [bal|]; cbn [ok_or]; [|done].
  apply iwp_bind, iwp_bind, iwp_op, iwp_ret. fold (deposits_view is_mainnet w).
  pose proof (fun raw m => law_view _ laws s1 raw m Hs1) as Hview.
  pose proof (step_grows (deposits_view is_mainnet w) s1 ltac:(naive_solver) Hs1) as [Hs2 Hd2].
  destruct (answer _ s1) as [[raw2|e] s2]; simpl in *; [|done]. apply iwp_ret.
  unfold decode. destruct (from_slice raw2) as [ds|] eqn:Hds; simpl; [|done].
  specialize (Hview raw2 ds eq_refl Hds) as ->.
  apply iwp_bind, iwp_bind, iwp_op, iwp_ret.
  pose proof (step_grows (RView (CONTRACT_ADDRESS is_mainnet) "storage_balance_bounds" (JObj []))
    s2 ltac:(naive_solver) Hs2) as [Hs3 Hd3].
  destruct (answer _ s2) as [[raw3|e] s3]; simpl in *; [|done]. apply iwp_ret.
  destruct (decode raw3) as [bnd|e|]; [|done|done].
  apply iwp_bind, iwp_ret. set (snap := {| balance := bal; deposits := deps s1; bounds := bnd |}).
  destruct (plan snap needed keep) as [[tokens|u r e]|e|] eqn:Hplan; cbn [lift_plan]; [| |done|done].
  - apply plan_initial_tokens in Hplan as ->. apply register_completes; [done|by left].
  - pose proof (fun t => plan_stale_tokens _ _ _ _ _ _ t Hplan) as Hsafe.
    apply plan_normal_inv in Hplan as (_ & _ & -> & _).
    unfold handle_normal_plan. apply iwp_bind.
    eapply iwp_mono; [apply quiet_grows, unregister_stale_quiet|].
    { intros t Ht. by destruct (Hsafe t Ht) as (_ & _ & ?). }
    intros [[]|?|] s4 Hg4; [|done|done]. destruct (Hg4 Hs3) as [Hs4 Hd4].
    apply iwp_bind. eapply iwp_mono; [apply quiet_grows, top_up_quiet|].
    intros [[]|?|] s5 Hg5; [|done|done]. destruct (Hg5 Hs4) as [Hs5 Hd5].
    apply register_completes; [done|]. intros t Ht. simpl.
    destruct (decide (is_Some (deps s1 !! t))) as [Hin|Hin]; [right; eauto 10|left].
    unfold missing, registered. apply elem_of_bfilter. split; [done|].
    by rewrite bool_decide_eq_false_2.
Qed.

(** C26: Against a contract that keeps its word, a call that returns [Ok]
    leaves every needed token registered: those that were missing have been
    registered, and none of the others was given back on the way. *)
Theorem ensure_registers_needed s t s' :
  Inv s ->
  interp answer (ensure_ref_storage_setup (P:=P) is_mainnet w needed keep max_top_up) s
    = (Ok tt, t, s') ->
  forall tok, tok ∈ needed -> is_Some (deps s' !! tok).
Proof.
  intros Hs Hrun.
  assert (iwp answer (ensure_ref_storage_setup (P:=P) is_mainnet w needed keep max_top_up) s
    (fun o s' => o = Ok tt -> forall tok, tok ∈ needed -> is_Some (deps s' !! tok))) as H.
  2: { unfold iwp in H. rewrite Hrun in H. by apply H. }
  unfold ensure_ref_storage_setup. destruct (_ <? _); [by apply iwp_ret|].
  apply iwp_op, iwp_finally.
  pose proof (step_grows (RLock (account_id w)) s ltac:(naive_solver) Hs) as [Hs1 _].
  apply iwp_bind. eapply iwp_mono; [apply quiet_grows, initial_registration_quiet|].
  intros [initial|e|] s2 Hg; [|done|done]. destruct (Hg Hs1) as [Hs2 _].
  eapply iwp_mono; [by apply plan_and_execute_completes|].
  intros o s3 H Ho. destruct (H Ho) as [Hs3 Hall].
  intros tok Htok. apply (step_grows (RUnlock (account_id w)) s3 ltac:(naive_solver) Hs3);
    [done|by apply Hall].
Qed.
End Contract.

(** ** Against a contract that answers

    A node that always answers and a contract that accepts every transaction;
    [B] bounds the storage figures it reports. *)
Section Live.
Context {P : Type} `{!FromSlice P (option StorageBalance)}
  `{!FromSlice P StorageBalanceBounds} `{!FromSlice P (gmap TokenAccount N)}.
Context (is_mainnet : bool) (w : Wallet).
Context {S : Type} (answer : forall r, S -> Resp P r * S) (B : N).

Record live : Prop := {
  live_balance : forall s, exists raw b,
    (answer (RView (CONTRACT_ADDRESS is_mainnet) "storage_balance_of"
       (JObj [("account_id", JStr (account_id w))])) s).1 = inl raw /\
    from_slice raw = Some (Some b) /\ available b <= total b /\ total b <= B;
  live_deposits : forall s, exists raw (m : gmap TokenAccount N),
    (answer (deposits_view is_mainnet w) s).1 = inl raw /\ from_slice raw = Some m;
  live_bounds : forall s, exists raw b,
    (answer (RView (CONTRACT_ADDRESS is_mainnet) "storage_balance_bounds" (JObj [])) s).1 = inl raw /\
    from_slice raw = Some b /\ bounds_min b <= B;
  live_exec : forall m args d s, exists tx,
    (answer (RExec (signer w) (CONTRACT_ADDRESS is_mainnet) m args d) s).1 = inl tx;
  live_wait : forall tx s, exists v, (answer (RWait tx) s).1 = inl v
}.

Context (Hlive : live) (needed keep : list TokenAccount) (max_top_up : N).
Context (Hcount : len needed <= MAX_REGISTER_PER_CYCLE)
  (Hcap : 110 * B <= max_top_up) (Hwidth : 1100 * B <= U128_MAX).

Lemma iwp_exec_wait {A} m args d s (k : FinalExecutionStatus P -> prog P A) Q :
  (forall v s', iwp answer (k v) s' Q) ->
  iwp answer (let! tx := exec_contract (P:=P) w (CONTRACT_ADDRESS is_mainnet) m args d in
              let! v := wait_for_success tx in k v) s Q.
Proof.
  intros Hk. apply iwp_bind, iwp_op, iwp_ret.
  destruct (live_exec Hlive m args d s) as [tx Htx].
  destruct (answer _ s) as [x s1]. simpl in *. subst x.
  apply iwp_bind, iwp_op, iwp_ret. destruct (live_wait Hlive tx s1) as [v Hv].
  destruct (answer _ s1) as [x s2]. simpl in *. subst x. apply Hk.
Qed.

Lemma iwp_balance s Q :
  (forall b s', available b <= total b -> total b <= B -> Q (Ok (Some b)) s') ->
  iwp answer (balance_of (P:=P) is_mainnet (account_id w)) s Q.
Proof.
  intros HQ. apply iwp_bind, iwp_op, iwp_ret.
  destruct (live_balance Hlive s) as (raw & b & -> & Hb & Hle & HB). simpl.
  apply iwp_ret. unfold decode. rewrite Hb. by apply HQ.
Qed.

Lemma iwp_bounds s Q :
  (forall b s', bounds_min b <= B -> Q (Ok b) s') ->
  iwp answer (check_bounds (P:=P) is_mainnet) s Q.
Proof.
  intros HQ. apply iwp_bind, iwp_op, iwp_ret.
  destruct (live_bounds Hlive s) as (raw & b & -> & Hb & HB). simpl.
  apply iwp_ret. unfold decode. rewrite Hb. by apply HQ.
Qed.

Lemma iwp_deposits s Q :
  (forall m s', Q (Ok m) s') -> iwp answer (get_deposits (P:=P) is_mainnet (account_id w)) s Q.
Proof.
  intros HQ. apply iwp_bind, iwp_op, iwp_ret. fold (deposits_view is_mainnet w).
  destruct (live_deposits Hlive s) as (raw & m & -> & Hm). simpl.
  apply iwp_ret. unfold decode. rewrite Hm. apply HQ.
Qed.

(** The planner succeeds on such figures, and the cap covers its estimate. *)
Lemma plan_live snap :
  available (balance snap) <= total (balance snap) -> total (balance snap) <= B ->
  bounds_min (bounds snap) <= B ->
  exists p, plan snap needed keep = Ok p /\
    match p with InitialRegister _ => True | Normal _ _ e => e <= max_top_up end.
Proof.
  intros Hle HB Hmin. destruct (decide (deposits snap = ∅)) as [He|He].
  { rewrite plan_initial_eq by done. rewrite (proj2 (N.ltb_ge _ _)) by done. by eexists. }
  rewrite plan_normal_eq by done. rewrite (proj2 (N.ltb_ge (total _) _)) by done.
  assert (len (missing (deposits snap) needed) <= 100) as Hn
    by (etrans; [apply len_bfilter_le|exact Hcount]).
  assert (per_token_estimate snap <= B) as Hpt.
  { apply N.max_lub; [|done]. apply ceil_quot_least; [by rewrite map_len_0|].
    assert (map_len (deposits snap) <> 0) by (by rewrite map_len_0).
    unfold used_storage. nia. }
  pose proof (needed_estimate_bounds snap needed) as Hb. simpl in Hb.
  unfold MAX_REGISTER_PER_CYCLE, SAFETY_MARGIN_NUMERATOR.
  rewrite (proj2 (N.ltb_ge 100 _)) by done. rewrite (proj2 (N.ltb_ge U128_MAX _)) by nia.
  eexists. split; [done|]. simpl. nia.
Qed.

Lemma iwp_unregister_chunks cs ok fail s (Q : _ -> _ -> Prop) :
  (forall n s', Q (Ok n) s') ->
  iwp answer (unregister_chunks (P:=P) is_mainnet w cs ok fail) s Q.
Proof.
  intros HQ. revert ok fail s. induction cs as [|c cs IH]; intros ok fail s;
    cbn [unregister_chunks]; [apply iwp_ret, HQ|].
  apply iwp_bind. destruct (interp answer (attempt (let! tx :=
    unregister_tokens is_mainnet w c in wait_for_success tx)) s) as [[o t] s'] eqn:Hi.
  unfold iwp at 1. rewrite Hi. simpl.
  assert (o <> Panic /\ forall e, o <> Err e) as [Hp He].
  { pose proof (interp_run answer (attempt (let! tx := unregister_tokens (P:=P) is_mainnet w c in
      wait_for_success tx)) s) as Hr. rewrite Hi in Hr. simpl in Hr. revert Hr. revert t o Hi.
    intros t o _ Hr. revert t o Hr.
    apply wp_attempt, wp_bind, wp_call. intros [tx|e]; simpl; [|done].
    apply wp_call. by intros [v|e]. }
  destruct o as [[v|e]|e|]; [apply IH|apply IH|by destruct (He e)|done].
Qed.

Lemma iwp_register tokens s (Q : _ -> _ -> Prop) :
  (forall s', Q (Ok tt) s') ->
  iwp answer (match tokens with
       | [] => Ret (Ok tt)
       | _ => let! tx := register_tokens (P:=P) is_mainnet w tokens in
              let! _ := wait_for_success tx in Ret (Ok tt)
       end) s Q.
Proof.
  intros HQ. destruct tokens; [by apply iwp_ret|]. apply iwp_exec_wait.
  intros v s'. by apply iwp_ret.
Qed.

Lemma handle_normal_plan_live args s :
  np_account args = account_id w ->
  np_initial_deposit args = 0 ->
  np_pre_unregister_estimate args <= np_max_top_up args ->
  iwp answer (handle_normal_plan (P:=P) is_mainnet w args) s (fun o _ => o = Ok tt).
Proof.
  intros Hacc Hinit Hest. unfold handle_normal_plan. apply iwp_bind.
  apply (iwp_mono _ _ _ (fun o _ => o = Ok tt)).
  { unfold unregister_stale. destruct (np_to_unregister args) as [|u us]; [by apply iwp_ret|].
    rewrite Hacc. apply iwp_bind, iwp_deposits. intros fresh s1.
    apply iwp_bind, iwp_ret.
    rewrite (proj2 (checked_sub_Some _ _ _) (conj (verify_unregister_len _ _ _) eq_refl)).
    simpl. apply iwp_bind, iwp_unregister_chunks. intros n s2. by apply iwp_ret. }
  intros o s1 ->. apply iwp_bind. apply (iwp_mono _ _ _ (fun o _ => o = Ok tt)).
  { unfold top_up. rewrite Hacc. apply iwp_bind, iwp_balance. intros b s2 _ _.
    apply iwp_bind, iwp_ret. simpl. apply iwp_bind, iwp_ret.
    rewrite Hinit, (proj2 (checked_sub_Some _ 0 _)) by (split; [lia|done]). simpl.
    unfold saturating_sub. rewrite (proj2 (N.ltb_ge _ _)) by lia.
    case_match; [by apply iwp_ret|]. apply iwp_exec_wait. intros v s3. by apply iwp_ret. }
  intros o s2 ->. by apply iwp_register.
Qed.

(** C27: On a registered account, against a node that answers and a contract
    that accepts transactions, with storage figures that fit the cap with
    its margin, a call for at most a hundred tokens returns [Ok]. *)
Theorem ensure_returns_ok s :
  (interp answer (ensure_ref_storage_setup (P:=P) is_mainnet w needed keep max_top_up) s).1.1
    = Ok tt.
Proof.
  change (iwp answer (ensure_ref_storage_setup (P:=P) is_mainnet w needed keep max_top_up) s
    (fun o _ => o = Ok tt)).
  unfold ensure_ref_storage_setup. rewrite (proj2 (N.ltb_ge _ _)) by done.
  apply iwp_op, iwp_finally, iwp_bind.
  unfold initial_registration. apply iwp_bind, iwp_balance. intros b0 s1 _ _. apply iwp_ret.
  unfold plan_and_execute. apply iwp_bind, iwp_balance. intros b s2 Hle HB.
  apply iwp_bind, iwp_ret. cbn [ok_or].
  apply iwp_bind, iwp_deposits. intros ds s3.
  apply iwp_bind, iwp_bounds. intros bnd s4 Hmin. apply iwp_bind, iwp_ret.
  destruct (plan_live {| balance := b; deposits := ds; bounds := bnd |}) as (p & -> & Hp);
    [done|done|done|]. cbn [lift_plan].
  destruct p as [tokens|u r e]; [by apply iwp_register|].
  by apply handle_normal_plan_live.
Qed.
End Live.
