(* ===== verification/SimExchange.v ===== *)
(** * A concrete exchange for the storage theorems

    A small contract behind a node that always answers: the answering
    function at which the hypotheses of the storage theorems are shown to
    hold, and runs of the modelled code against it. *)
From S2P Require Import Prelude NearClient StoragePlanner Storage.

(** Raw return values, already structured. *)
Inductive payload : Type :=
| PBalance (b : option StorageBalance)
| PBounds (b : StorageBalanceBounds)
| PDeposits (m : gmap TokenAccount N)
| PU128 (n : N)
| PUnit.

#[export] Instance payload_balance : FromSlice payload (option StorageBalance) :=
  fun p => match p with PBalance b => Some b | _ => None end.
#[export] Instance payload_bounds : FromSlice payload StorageBalanceBounds :=
  fun p => match p with PBounds b => Some b | _ => None end.
#[export] Instance payload_deposits : FromSlice payload (gmap TokenAccount N) :=
  fun p => match p with PDeposits m => Some m | _ => None end.
#[export] Instance payload_u128 : FromSlice payload N :=
  fun p => match p with PU128 n => Some n | _ => None end.

Record sim : Type := {
  sx_balance : option StorageBalance;
  sx_deposits : gmap TokenAccount N;
  sx_min : N;
  sx_wnear : N;
  sx_native : N
}.

Definition token_args (args : json) : list TokenAccount :=
  match args with
  | JObj [(_, JArr l)] => omap (fun j => match j with JStr t => Some t | _ => None end) l
  | _ => []
  end.

Definition sim_register (ts : list TokenAccount) (m : gmap TokenAccount N) : gmap TokenAccount N :=
  foldr (fun t m => match m !! t with Some _ => m | None => <[t := 0]> m end) m ts.
Definition sim_unregister (ts : list TokenAccount) (m : gmap TokenAccount N) : gmap TokenAccount N :=
  foldr (fun t m => match m !! t with Some 0 => delete t m | _ => m end) m ts.

Definition sim_exec (m : string) (args : json) (d : N) (s : sim) : sim :=
  if String.eqb m "storage_deposit" then
    {| sx_balance := Some match sx_balance s with
                          | Some b => {| total := total b + d; available := available b + d |}
                          | None => {| total := d; available := 0 |}
                          end;
       sx_deposits := sx_deposits s; sx_min := sx_min s; sx_wnear := sx_wnear s;
       sx_native := sx_native s - d |}
  else if String.eqb m "register_tokens" then
    {| sx_balance := sx_balance s; sx_deposits := sim_register (token_args args) (sx_deposits s);
       sx_min := sx_min s; sx_wnear := sx_wnear s; sx_native := sx_native s |}
  else if String.eqb m "unregister_tokens" then
    {| sx_balance := sx_balance s; sx_deposits := sim_unregister (token_args args) (sx_deposits s);
       sx_min := sx_min s; sx_wnear := sx_wnear s; sx_native := sx_native s |}
  else s.

Definition sim_view (m : string) (s : sim) : payload :=
  if String.eqb m "storage_balance_of" then PBalance (sx_balance s)
  else if String.eqb m "get_deposits" then PDeposits (sx_deposits s)
  else if String.eqb m "storage_balance_bounds"
  then PBounds {| bounds_min := sx_min s; bounds_max := None |}
  else PU128 (sx_wnear s).

Definition sim_answer (r : Req) (s : sim) : Resp payload r * sim :=
  match r with
  | RView _ m _ => (inl (sim_view m s), s)
  | RExec _ _ m args d => (inl 7, sim_exec m args d s)
  | RTransfer _ _ amount =>
      (inl 8, {| sx_balance := sx_balance s; sx_deposits := sx_deposits s; sx_min := sx_min s;
                 sx_wnear := sx_wnear s; sx_native := sx_native s - amount |})
  | RWait _ => (inl (SuccessValue PUnit), s)
  | RNative _ => (inl (sx_native s), s)
  | RNow => (100000, s)
  | RLoadLastHarvest => (0, s)
  | RLoadHarvestTime => (0, s)
  | RWaitExecuted _ => (inl "hash", s)
  | RRecordTrade _ _ _ _ _ _ _ => (inl tt, s)
  | RStoreLastHarvest _ | RStoreHarvestTime _ | RLock _ | RUnlock _
  | RCacheDecimals _ _ | RReplaceDecimals _ | RSleep _ | RReloadConfig => (tt, s)
  | RPredict _ _ => (inr (External "no predictor"), s)
  | RSetting _ => (0, s)
  | RDb _ => (inr (External "no database"), s)
  | RUtcNow => (100000000000000%Z, s)
  | RReadInputs => ((0, 0), s)
  | RGasPrice => (inl 100000000, s)
  | RDecimals _ => (None, s)
  end.

Lemma token_args_json ts : token_args (JObj [("token_ids", json_tokens ts)]) = ts.
Proof.
  unfold token_args, json_tokens. induction ts as [|t ts IH]; csimpl; [done|]. by f_equal.
Qed.

Lemma token_args_in args t :
  t ∈ token_args args -> exists k l, args = JObj [(k, JArr l)] /\ JStr t ∈ l.
Proof.
  destruct args as [| | | | | |[|[k j] rest]]; simpl; try (intros H; by apply elem_of_nil in H).
  destruct j as [| | | | |l|]; try (intros H; by apply elem_of_nil in H).
  destruct rest; [|intros H; by apply elem_of_nil in H].
  intros (j & Hj & Hjt)%list_elem_of_omap. destruct j; simplify_eq/=. eauto.
Qed.

Lemma sim_register_mono ts m t : is_Some (m !! t) -> is_Some (sim_register ts m !! t).
Proof.
  intros Ht. induction ts as [|u ts IH]; simpl; [done|].
  destruct (sim_register ts m !! u) eqn:Hu; [done|].
  destruct (decide (u = t)) as [->|Hne]; [by rewrite lookup_insert_eq|].
  by rewrite lookup_insert_ne.
Qed.

Lemma sim_register_in ts m t : t ∈ ts -> is_Some (sim_register ts m !! t).
Proof.
  induction ts as [|u ts IH]; simpl; [set_solver|].
  destruct (sim_register ts m !! u) eqn:Hu.
  - intros [->|Ht]%elem_of_cons; [by rewrite Hu|auto].
  - destruct (decide (u = t)) as [->|Hne]; [by rewrite lookup_insert_eq|].
    rewrite lookup_insert_ne by done. intros [->|Ht]%elem_of_cons; [done|auto].
Qed.

Lemma sim_unregister_other ts m t : t ∉ ts -> sim_unregister ts m !! t = m !! t.
Proof.
  induction ts as [|u ts IH]; simpl; [done|]. intros [Hu Ht]%not_elem_of_cons.
  rewrite <- (IH Ht). destruct (sim_unregister ts m !! u) as [[|p]|]; [|done..].
  by rewrite lookup_delete_ne.
Qed.

(** The contract keeps its word. *)
Lemma sim_laws is_mainnet w tokens :
  contract_laws is_mainnet w sim_answer sx_deposits (fun _ => True) tokens.
Proof.
  split.
  - intros s raw m _ [= <-] [= <-]. done.
  - intros r s _ Hr. split; [done|]. intros t Ht Hs.
    destruct r as [|? ? m args d| | | | | | | | | | | | | | | | | | | | | | |]; simpl; try done.
    unfold sim_exec. repeat case_match; try done; simpl.
    + by apply sim_register_mono.
    + rewrite sim_unregister_other; [done|]. intros (k & l & -> & Hin)%token_args_in.
      apply Hr. simpl. split; [by apply String.eqb_eq|eauto].
  - intros regs s tx v _ _ s1 _ t Ht. simpl. change (is_Some (sim_register (token_args
      (JObj [("token_ids", json_tokens regs)])) (sx_deposits s) !! t)).
    rewrite token_args_json. by apply sim_register_in.
Qed.

Definition wal : Wallet := {| account_id := "trader.near"; signer := "trader.near" |}.

(** A registered account with two stale tokens and little free storage. *)
Definition sim0 : sim := {|
  sx_balance := Some {| total := 10000; available := 500 |};
  sx_deposits := {[ "wrap.near" := 5%N; "old.near" := 0%N; "usdt.near" := 7%N ]};
  sx_min := 1250; sx_wnear := 30; sx_native := 1000000 |}.
(** An account the contract does not know. *)
Definition sim1 : sim := {|
  sx_balance := None; sx_deposits := ∅; sx_min := 1250; sx_wnear := 0; sx_native := 1000000 |}.

Definition needed0 : list TokenAccount := ["a.near"; "usdt.near"].
Definition keep0 : list TokenAccount := ["wrap.near"].

Definition ensure0 (max_top_up : N) : prog payload unit :=
  ensure_ref_storage_setup true wal needed0 keep0 max_top_up.

(** On the known account the stale token goes first, then the shortage is
    topped up, then the missing token is registered. *)
Example ensure0_run :
  let '(o, t, s) := interp sim_answer (ensure0 5000) sim0 in
  (o, ec_method <$> execs t, storage_spend (execs t), sx_deposits s !! "a.near",
   sx_deposits s !! "old.near") =
  (Ok tt, ["unregister_tokens"; "storage_deposit"; "register_tokens"], 2525, Some 0, None).
Proof. vm_compute. reflexivity. Qed.

(** On the unknown account the registration deposit is the only one. *)
Example ensure1_run :
  let '(o, t, s) := interp sim_answer (ensure0 5000) sim1 in
  (o, ec_method <$> execs t, storage_spend (execs t)) =
  (Ok tt, ["storage_deposit"; "register_tokens"], 1250).
Proof. vm_compute. reflexivity. Qed.

(** A cap below the shortage stops the call after the stale tokens. *)
Example ensure0_capped :
  let '(o, t, s) := interp sim_answer (ensure0 2000) sim0 in
  (o, ec_method <$> execs t) =
  (Err (Anyhow "ref storage top-up exceeds remaining cap" [2525; 2000; 2000; 0]),
   ["unregister_tokens"]).
Proof. vm_compute. reflexivity. Qed.

Lemma ensure_spend_capped_witness :
  storage_spend (execs (interp sim_answer (ensure0 5000) sim0).1.2) <= 5000.
Proof.
  apply (ensure_spend_capped true wal needed0 keep0 5000 _
           (interp sim_answer (ensure0 5000) sim0).1.1), interp_run.
Defined.

Lemma ensure_session_order_witness :
  well_formed_session true wal needed0 keep0 5000
    (execs (interp sim_answer (ensure0 5000) sim0).1.2).
Proof.
  apply (ensure_session_order true wal needed0 keep0 5000 _
           (interp sim_answer (ensure0 5000) sim0).1.1), interp_run.
Defined.

Lemma ensure_never_panics_witness :
  (interp sim_answer (ensure0 5000) sim0).1.1 <> Panic.
Proof.
  apply (ensure_never_panics true wal needed0 keep0 5000
           (interp sim_answer (ensure0 5000) sim0).1.2), interp_run.
Defined.

Lemma ensure_unregisters_rechecked_witness :
  unregister_checked true wal keep0 (interp sim_answer (ensure0 5000) sim0).1.2.
Proof.
  apply (ensure_unregisters_rechecked true wal needed0 keep0 5000 _
           (interp sim_answer (ensure0 5000) sim0).1.1), interp_run.
Defined.

Lemma ensure_registers_needed_witness :
  is_Some (sx_deposits (interp sim_answer (ensure0 5000) sim0).2 !! "a.near").
Proof.
  apply (ensure_registers_needed true wal sim_answer sx_deposits (fun _ => True)
    needed0 keep0 5000 (sim_laws true wal needed0) sim0
    (interp sim_answer (ensure0 5000) sim0).1.2 _ I).
  - vm_compute. reflexivity.
  - apply list_elem_of_here.
Defined.

(** A node with fixed answers. *)
Definition fixed_answer (r : Req) (s : unit) : Resp payload r * unit :=
  match r with
  | RView _ m _ => (inl (sim_view m sim0), tt)
  | RExec _ _ _ _ _ | RTransfer _ _ _ => (inl 7, tt)
  | RWait _ => (inl (SuccessValue PUnit), tt)
  | RNative _ => (inl 1000000, tt)
  | RWaitExecuted _ => (inl "hash", tt)
  | RRecordTrade _ _ _ _ _ _ _ => (inl tt, tt)
  | RNow | RLoadLastHarvest | RLoadHarvestTime => (0, tt)
  | RStoreLastHarvest _ | RStoreHarvestTime _ | RLock _ | RUnlock _
  | RCacheDecimals _ _ | RReplaceDecimals _ | RSleep _ | RReloadConfig => (tt, tt)
  | RPredict _ _ => (inr (External "no predictor"), tt)
  | RSetting _ => (0, tt)
  | RDb _ => (inr (External "no database"), tt)
  | RUtcNow => (0%Z, tt)
  | RReadInputs => ((0, 0), tt)
  | RGasPrice => (inl 100000000, tt)
  | RDecimals _ => (None, tt)
  end.

Lemma fixed_live : live true wal fixed_answer 10000.
Proof.
  split; [intros []..|intros m args d []|intros tx []].
  - eexists _, _. split_and!; [reflexivity..| |]; simpl; lia.
  - eexists _, _. split; reflexivity.
  - eexists _, _. split_and!; [reflexivity..|]; simpl; lia.
  - by eexists.
  - by eexists.
Qed.

Lemma ensure_returns_ok_witness :
  (interp fixed_answer (ensure0 1100000) tt).1.1 = Ok tt.
Proof.
  apply (ensure_returns_ok true wal fixed_answer 10000 fixed_live needed0 keep0 1100000).
  - vm_compute. discriminate.
  - vm_compute. discriminate.
  - vm_compute. discriminate.
Defined.
