(* ===== verification/F64.v ===== *)
(** * F64: IEEE 754 binary64 numbers

    The [f64] of Rust as the Standard Library's specification floats at 53 bits
    of precision: the operators round to nearest even, casts from integers round
    the same way, and casts to integers truncate and saturate. *)

From Stdlib Require Import ZArith SpecFloat.
From S2P Require Import Prelude.
Local Open Scope Z_scope.

Abbreviation f64 := spec_float (only parsing).

Definition f64_prec : Z := 53.
Definition f64_emax : Z := 1024.

(** [z as f64]. *)
Definition f64_of_Z (z : Z) : f64 := binary_normalize f64_prec f64_emax z 0 false.
Definition f64_of_N (n : N) : f64 := f64_of_Z (Z.of_N n).
Definition f64_add : f64 -> f64 -> f64 := SFadd f64_prec f64_emax.
Definition f64_sub : f64 -> f64 -> f64 := SFsub f64_prec f64_emax.
Definition f64_mul : f64 -> f64 -> f64 := SFmul f64_prec f64_emax.
Definition f64_div : f64 -> f64 -> f64 := SFdiv f64_prec f64_emax.
Definition f64_neg : f64 -> f64 := SFopp.
Definition f64_abs : f64 -> f64 := SFabs.
Definition f64_ltb : f64 -> f64 -> bool := SFltb.
Definition f64_eqb : f64 -> f64 -> bool := SFeqb.

(** [partial_cmp]: [None] when either is NaN. *)
Definition f64_partial_cmp (x y : f64) : option comparison := SFcompare x y.

(** A decimal literal [m * 10 ^ -e], correctly rounded. *)
Definition f64_literal (m : Z) (e : Z) : f64 :=
  match SFdiv_core_binary f64_prec f64_emax m 0 (10 ^ e) 0 with
  | (q, e', l) => binary_round_aux f64_prec f64_emax false q e' l
  end.

Definition f64_zero : f64 := S754_zero false.
Definition f64_one : f64 := f64_of_Z 1.

Definition f64_is_finite (x : f64) : bool :=
  match x with S754_zero _ | S754_finite _ _ _ => true | _ => false end.

(** [clamp]: a NaN stays a NaN. *)
Definition f64_clamp (x lo hi : f64) : f64 :=
  let x := if f64_ltb x lo then lo else x in
  if f64_ltb hi x then hi else x.

(** [x as u128]: truncation toward zero, saturating; NaN gives 0. *)
Definition f64_to_u128 (x : f64) : N :=
  match x with
  | S754_nan | S754_zero _ | S754_infinity true | S754_finite true _ _ => 0%N
  | S754_infinity false => U128_MAX
  | S754_finite false m e =>
      let z := if 0 <=? e then Z.pos m * 2 ^ e else Z.pos m / 2 ^ (- e) in
      if z <=? Z.of_N U128_MAX then Z.to_N z else U128_MAX
  end.

Example f64_literal_half : f64_literal 5 1 = f64_div f64_one (f64_of_Z 2).
Proof. vm_compute. reflexivity. Qed.

(** ** Rounding

    The mantissa of a rounded number is the quotient of the exact one by a power
    of two, rounded down or up, and kept when the division is exact.  So a
    product that lies between two integers is between them after rounding. *)

Lemma iter_pos_iter {A} (f : A -> A) p x : SpecFloat.iter_pos f p x = Nat.iter (Pos.to_nat p) f x.
Proof.
  revert x. induction p as [p IH|p IH|]; intros x; cbn [SpecFloat.iter_pos].
  - rewrite !IH, Pos2Nat.inj_xI. replace (S (2 * Pos.to_nat p)) with (Pos.to_nat p + (Pos.to_nat p + 1))%nat by lia.
    by rewrite !Nat.iter_add.
  - rewrite !IH, Pos2Nat.inj_xO. replace (2 * Pos.to_nat p)%nat with (Pos.to_nat p + Pos.to_nat p)%nat by lia.
    by rewrite Nat.iter_add.
  - done.
Qed.

Definition shr_exact (q : shr_record) : Prop := shr_r q = false /\ shr_s q = false.

Lemma shr_1_spec q : 0 <= shr_m q ->
  0 <= shr_m (shr_1 q) /\ shr_m (shr_1 q) = shr_m q / 2 /\
  (shr_exact (shr_1 q) <-> shr_exact q /\ shr_m q = shr_m (shr_1 q) * 2).
Proof.
  destruct q as [m r s]; unfold shr_exact; cbn. destruct m as [|[p|p|]|p]; cbn; intros Hm; [..|lia].
  - split; [lia|]. split; [done|]. rewrite orb_false_iff. naive_solver.
  - split; [lia|]. split; [|split; [by intros []|intros [_ ?]; lia]].
    rewrite Pos2Z.inj_xI, Z.mul_comm, Z.div_add_l by lia. change (1 / 2) with 0. lia.
  - split; [lia|]. split; [|rewrite orb_false_iff; split; [intros (_ & ? & ?); split; [done|lia]|naive_solver]].
    by rewrite Pos2Z.inj_xO, Z.mul_comm, Z.div_mul.
  - split; [lia|]. split; [done|split; [by intros []|intros [_ ?]; lia]].
Qed.

Lemma iter_shr_spec n q : 0 <= shr_m q ->
  let q' := Nat.iter n shr_1 q in
  0 <= shr_m q' /\ shr_m q' = shr_m q / 2 ^ Z.of_nat n /\
  (shr_exact q' <-> shr_exact q /\ shr_m q = shr_m q' * 2 ^ Z.of_nat n).
Proof.
  intros Hq q'. subst q'. induction n as [|n IH].
  - change (2 ^ Z.of_nat 0) with 1. rewrite Z.div_1_r. split; [done|]. split; [done|]. rewrite Z.mul_1_r. naive_solver.
  - change (Nat.iter (S n) shr_1 q) with (shr_1 (Nat.iter n shr_1 q)).
    destruct IH as (H0 & H1 & H2). destruct (shr_1_spec _ H0) as (H3 & H4 & H5).
    rewrite Nat2Z.inj_succ, Z.pow_succ_r by lia. split; [done|]. split.
    + rewrite H4, H1, Z.div_div by lia. f_equal. lia.
    + rewrite H5, H2. split; intros [? Hm].
      * destruct H as [? Hm']. split; [done|]. rewrite Hm', Hm. lia.
      * assert (Hp : 0 < 2 ^ Z.of_nat n) by (apply Z.pow_pos_nonneg; lia).
        assert (Hq' : shr_m (Nat.iter n shr_1 q) = shr_m (shr_1 (Nat.iter n shr_1 q)) * 2).
        { rewrite H1 at 1. rewrite Hm. rewrite (Z.mul_assoc _ 2), Z.div_mul by lia. done. }
        split; [|done]. split; [done|]. rewrite Hm, Hq' at 1. lia.
Qed.

(** [r] is [m / 2 ^ k] rounded to one of its two neighbours. *)
Definition rounded (m k r : Z) : Prop :=
  m / 2 ^ k <= r /\ (m mod 2 ^ k = 0 -> r = m / 2 ^ k) /\ r <= m / 2 ^ k + 1.

Lemma rounded_lower m k r b : 0 <= k -> rounded m k r -> b * 2 ^ k <= m -> b <= r.
Proof.
  intros Hk (H & _ & _) Hb. enough (b <= m / 2 ^ k) by lia.
  apply Z.div_le_lower_bound; [apply Z.pow_pos_nonneg; lia|lia].
Qed.

Lemma rounded_upper m k r b : 0 <= k -> rounded m k r -> m <= b * 2 ^ k -> r <= b.
Proof.
  intros Hk (_ & Hex & H) Hb. assert (Hp : 0 < 2 ^ k) by (apply Z.pow_pos_nonneg; lia).
  pose proof (Z.div_mod m (2 ^ k) ltac:(lia)) as Hdm.
  pose proof (Z.mod_pos_bound m (2 ^ k) Hp) as Hmod.
  destruct (Z.eq_dec (m mod 2 ^ k) 0) as [Hz|Hz]; [rewrite (Hex Hz)|]; nia.
Qed.

Lemma round_nearest_even_cases q : 0 <= shr_m q ->
  let r := round_nearest_even (shr_m q) (loc_of_shr_record q) in
  r = shr_m q \/ (r = shr_m q + 1 /\ ~ shr_exact q).
Proof.
  destruct q as [m [] []]; unfold shr_exact; cbn; intros Hm; try (by left); try destruct (Z.even m);
    try (by left); right; split; try done; by intros [].
Qed.

(** The shift of [shr_fexp]. *)
Definition shift_of (m e : Z) : Z := Z.max 0 (fexp f64_prec f64_emax (Zdigits2 m + e) - e).

Lemma shr_fexp_rounded m e : 0 <= m ->
  let '(q, e') := shr_fexp f64_prec f64_emax m e loc_Exact in
  e' = e + shift_of m e /\
  shr_m q = m / 2 ^ shift_of m e /\
  rounded m (shift_of m e) (round_nearest_even (shr_m q) (loc_of_shr_record q)).
Proof.
  intros Hm. unfold shr_fexp, shr, shift_of. cbn [shr_record_of_loc].
  destruct (fexp _ _ _ - e) as [|p|p] eqn:Ek.
  1,3: change (Z.max 0 _) with 0 || rewrite Z.max_l by lia; cbn; rewrite Z.div_1_r;
    split; [lia|]; split; [done|]; unfold rounded; rewrite Z.pow_0_r, Z.div_1_r; lia.
  rewrite iter_pos_iter.
  destruct (iter_shr_spec (Pos.to_nat p) {| shr_m := m; shr_r := false; shr_s := false |} Hm)
    as (H0 & H1 & H2).
  rewrite Z.max_r by lia. rewrite positive_nat_Z in *. cbn [shr_m] in *.
  split; [done|]. split; [done|]. set (q := Nat.iter _ _ _) in *.
  assert (Hp : 0 < 2 ^ Z.pos p) by (apply Z.pow_pos_nonneg; lia).
  destruct (round_nearest_even_cases q H0) as [->|[-> Hne]]; unfold rounded; rewrite H1;
    (split; [lia|]; split; [|lia]); [done|].
  intros Hz. exfalso. apply Hne, H2. split; [done|].
  rewrite H1. pose proof (Z.div_mod m (2 ^ Z.pos p) ltac:(lia)). lia.
Qed.

Lemma digits2_bounds p : 2 ^ (Z.pos (digits2_pos p) - 1) <= Z.pos p < 2 ^ Z.pos (digits2_pos p).
Proof.
  induction p as [p IH|p IH|]; cbn [digits2_pos]; rewrite ?Pos2Z.inj_succ; [| |done].
  all: rewrite Z.pow_succ_r by lia; rewrite Z.sub_1_r, Z.pred_succ.
  all: replace (2 ^ Z.pos (digits2_pos p)) with (2 * 2 ^ (Z.pos (digits2_pos p) - 1)) in *
    by (rewrite <- Z.pow_succ_r by lia; f_equal; lia); lia.
Qed.

(** Below [2 ^ b], a number has at most [b] digits. *)
Lemma Zdigits2_le m b : 0 <= m -> 0 <= b -> m < 2 ^ b -> Zdigits2 m <= b.
Proof.
  intros Hm Hb Hlt. destruct m as [|p|p]; cbn; [done| |lia].
  destruct (digits2_bounds p) as [Hlow _].
  enough (Z.pos (digits2_pos p) - 1 < b) by lia.
  apply (Z.pow_lt_mono_r_iff 2); lia.
Qed.

(** An integer below [2 ^ 52], scaled by [2 ^ e], is not shifted past the point. *)
Lemma shift_of_point m e b : 0 <= m -> e <= 0 -> 0 <= b < 2 ^ 52 -> m <= b * 2 ^ (- e) ->
  0 <= shift_of m e /\ e + shift_of m e <= 0.
Proof.
  intros Hm He Hb Hle. unfold shift_of, fexp, emin, f64_prec, f64_emax.
  assert (Hd : Zdigits2 m <= 52 - e).
  { apply Zdigits2_le; [done|lia|]. eapply Z.le_lt_trans; [exact Hle|].
    replace (52 - e) with (52 + - e) by lia. rewrite Z.pow_add_r by lia.
    apply Z.mul_lt_mono_pos_r; [apply Z.pow_pos_nonneg; lia|lia]. }
  lia.
Qed.

(** Scaling a bound by a shift that stays on one side of the point. *)
Lemma scale_bound b e k : 0 <= k -> e + k <= 0 -> b * 2 ^ (- e) = b * 2 ^ (- (e + k)) * 2 ^ k.
Proof.
  intros Hk He. rewrite <- Z.mul_assoc, <- Z.pow_add_r by lia. do 2 f_equal. lia.
Qed.

(** [lo <= m * 2 ^ e <= hi] for integers [lo] and [hi] survives the rounding. *)
Lemma round_aux_bounds m e lo hi : 0 < m -> e <= 0 -> 0 < lo -> hi < 2 ^ 52 ->
  lo * 2 ^ (- e) <= m <= hi * 2 ^ (- e) ->
  exists m' e', binary_round_aux f64_prec f64_emax false m e loc_Exact = S754_finite false m' e' /\
    e' <= 0 /\ lo * 2 ^ (- e') <= Z.pos m' <= hi * 2 ^ (- e').
Proof.
  intros Hm He Hlo Hhi [Hl Hh].
  assert (Hb : 0 <= hi < 2 ^ 52).
  { split; [|done]. assert (0 < 2 ^ (- e)) by (apply Z.pow_pos_nonneg; lia). nia. }
  destruct (shift_of_point m e hi ltac:(lia) He Hb Hh) as [Hk Hek].
  unfold binary_round_aux. pose proof (shr_fexp_rounded m e ltac:(lia)) as Hshr.
  destruct (shr_fexp f64_prec f64_emax m e loc_Exact) as [q1 e1]. destruct Hshr as (-> & _ & Hr).
  set (r := round_nearest_even _ _) in *. set (k := shift_of m e) in *.
  rewrite (scale_bound lo e k), (scale_bound hi e k) in * by done.
  assert (Hrl : lo * 2 ^ (- (e + k)) <= r) by (by eapply rounded_lower).
  assert (Hrh : r <= hi * 2 ^ (- (e + k))) by (by eapply rounded_upper).
  assert (Hpos : 0 < 2 ^ (- (e + k))) by (apply Z.pow_pos_nonneg; lia).
  assert (Hr0 : 0 <= r) by nia.
  destruct (shift_of_point r (e + k) hi Hr0 Hek Hb Hrh) as [Hk2 Hek2].
  pose proof (shr_fexp_rounded r (e + k) Hr0) as Hshr2.
  destruct (shr_fexp f64_prec f64_emax r (e + k) loc_Exact) as [q2 e2]. destruct Hshr2 as (-> & Hq2 & _).
  set (k2 := shift_of r (e + k)) in *.
  rewrite (scale_bound lo (e + k) k2), (scale_bound hi (e + k) k2) in * by done.
  assert (Hp2 : 0 < 2 ^ k2) by (apply Z.pow_pos_nonneg; lia).
  assert (Hml : lo * 2 ^ (- (e + k + k2)) <= shr_m q2)
    by (rewrite Hq2; apply Z.div_le_lower_bound; lia).
  assert (Hmh : shr_m q2 <= hi * 2 ^ (- (e + k + k2)))
    by (rewrite Hq2; apply Z.div_le_upper_bound; lia).
  assert (Hp3 : 0 < 2 ^ (- (e + k + k2))) by (apply Z.pow_pos_nonneg; lia).
  destruct (shr_m q2) as [|m'|m']; [nia| |nia].
  rewrite (proj2 (Z.leb_le _ _)) by (unfold f64_prec, f64_emax; lia). by exists m', (e + k + k2).
Qed.

(** The truncated product of two positive numbers lies between the same
    integers as the exact product. *)
Lemma f64_mul_trunc mx ex my ey lo hi : ex + ey <= 0 -> 0 < lo -> hi < 2 ^ 52 ->
  lo * 2 ^ (- (ex + ey)) <= Z.pos mx * Z.pos my <= hi * 2 ^ (- (ex + ey)) ->
  lo <= Z.of_N (f64_to_u128 (f64_mul (S754_finite false mx ex) (S754_finite false my ey))) <= hi.
Proof.
  intros He Hlo Hhi Hb. unfold f64_mul, SFmul. cbn [xorb].
  destruct (round_aux_bounds (Z.pos (mx * my)) (ex + ey) lo hi) as (m' & e' & -> & He' & Hl & Hh);
    [lia..|]. cbn [f64_to_u128].
  assert (Hz : lo <= (if 0 <=? e' then Z.pos m' * 2 ^ e' else Z.pos m' / 2 ^ (- e')) <= hi).
  { assert (0 < 2 ^ (- e')) by (apply Z.pow_pos_nonneg; lia).
    destruct (Z.leb_spec 0 e') as [H0|H0].
    - assert (e' = 0) as -> by lia. change (2 ^ (- 0)) with 1 in *. change (2 ^ 0) with 1. lia.
    - split; [apply Z.div_le_lower_bound|apply Z.div_le_upper_bound]; lia. }
  set (z := if 0 <=? e' then _ else _) in *. clearbody z.
  assert (z <= Z.of_N U128_MAX) by (eapply Z.le_trans; [apply Hz|]; unfold U128_MAX; lia).
  rewrite (proj2 (Z.leb_le _ _)) by done. rewrite Z2N.id by lia. done.
Qed.
