(* ===== verification/BigDecimal.v ===== *)
(** * BigDecimal: the arbitrary-precision decimals of the bigdecimal crate

    The program computes prices, pool estimates and portfolio values with the
    crate [bigdecimal], which is not part of this repository.  The crate is
    therefore a parameter of the development: [BigDecimal D] lists the
    operations the program calls, and [BigDecimalLaws D] states what the crate
    documents of them, through the rational number [bd_val x] that a decimal
    denotes:

    - addition, subtraction, multiplication, negation and the conversions from
      integers are exact, and comparison is the comparison of the values;
    - division keeps 100 significant digits (the crate's default precision): it
      is exact when the quotient has at most 100 of them, and has a relative
      error of at most 10^-99 otherwise;
    - [to_u128] and [to_i64] drop the fractional part, and fail out of range;
      rounding to scale 0 gives the floor, or the truncation, as a decimal.
      Of the conversion to [f64] nothing is assumed.

    The last section gives the rationals themselves as an instance, so that the
    laws are satisfiable and the witnesses of the development can run. *)

From Stdlib Require Import ZArith NArith QArith Qround Qabs Qpower Lia Lqa Bool SpecFloat.
From S2P Require Import Prelude F64.
Local Open Scope Z_scope.

Definition I64_MAX : Z := 2 ^ 63 - 1.
Definition I64_MIN : Z := - 2 ^ 63.
Definition I128_MAX : Z := 2 ^ 127 - 1.
Definition I128_MIN : Z := - 2 ^ 127.

Class BigDecimal (D : Type) := {
  bd_of_Z : Z -> D;
  (** [BigDecimal::new(digits, scale)]. *)
  bd_new : Z -> N -> D;
  bd_add : D -> D -> D;
  bd_sub : D -> D -> D;
  bd_mul : D -> D -> D;
  bd_div : D -> D -> D;
  bd_neg : D -> D;
  bd_abs : D -> D;
  bd_compare : D -> D -> comparison;
  bd_to_u128 : D -> option N;
  bd_to_i64 : D -> option Z;
  bd_to_i128 : D -> option Z;
  (** [with_scale_round(0, RoundingMode::Floor)] and [RoundingMode::Down]. *)
  bd_floor : D -> D;
  bd_trunc : D -> D;
  bd_to_f64 : D -> option f64;
  (** The value written to a NUMERIC column. *)
  bd_numeric : D -> Q;
}.

Section derived.
Context {D : Type} `{BigDecimal D}.

Definition bd_of_N (n : N) : D := bd_of_Z (Z.of_N n).
Definition bd_zero : D := bd_of_Z 0.
Definition bd_one : D := bd_of_Z 1.

Definition bd_eqb (a b : D) : bool :=
  match bd_compare a b with Eq => true | _ => false end.
Definition bd_ltb (a b : D) : bool :=
  match bd_compare a b with Lt => true | _ => false end.
Definition bd_leb (a b : D) : bool :=
  match bd_compare a b with Gt => false | _ => true end.
Definition bd_is_zero (a : D) : bool := bd_eqb a bd_zero.
Definition bd_min (a b : D) : D := if bd_leb a b then a else b.
Definition bd_max (a b : D) : D := if bd_leb a b then b else a.
Definition bd_sum (l : list D) : D := List.fold_left bd_add l bd_zero.

(** Division as the crate's operator: it panics on a zero divisor. *)
Definition bd_quot {E} (a b : D) : outcome E D :=
  if bd_is_zero b then Panic else Ok (bd_div a b).

End derived.

(** The value of a decimal, and what the crate documents of each operation. *)
Class BigDecimalLaws (D : Type) `{BigDecimal D} := {
  bd_val : D -> Q;
  val_of_Z : forall z, bd_val (bd_of_Z z) == inject_Z z;
  val_new : forall m e, bd_val (bd_new m e) == inject_Z m / inject_Z (10 ^ Z.of_N e);
  val_add : forall a b, bd_val (bd_add a b) == bd_val a + bd_val b;
  val_sub : forall a b, bd_val (bd_sub a b) == bd_val a - bd_val b;
  val_mul : forall a b, bd_val (bd_mul a b) == bd_val a * bd_val b;
  val_neg : forall a, bd_val (bd_neg a) == - bd_val a;
  val_abs : forall a, bd_val (bd_abs a) == Qabs (bd_val a);
  val_div_exact : forall a b m e,
    ~ bd_val b == 0 -> Z.abs m < 10 ^ 100 ->
    bd_val a / bd_val b == inject_Z m * Qpower (inject_Z 10) e ->
    bd_val (bd_div a b) == bd_val a / bd_val b;
  val_div_error : forall a b,
    ~ bd_val b == 0 ->
    (Qabs (bd_val (bd_div a b) - bd_val a / bd_val b)
      <= Qabs (bd_val a / bd_val b) * / inject_Z (10 ^ 99))%Q;
  compare_val : forall a b, bd_compare a b = (bd_val a ?= bd_val b)%Q;
  to_u128_negative : forall a, (bd_val a < 0)%Q -> bd_to_u128 a = None;
  to_u128_value : forall a, (0 <= bd_val a)%Q ->
    bd_to_u128 a =
      if Qfloor (bd_val a) <=? Z.of_N U128_MAX
      then Some (Z.to_N (Qfloor (bd_val a))) else None;
  to_i64_value : forall a, (0 <= bd_val a)%Q ->
    bd_to_i64 a =
      if Qfloor (bd_val a) <=? I64_MAX then Some (Qfloor (bd_val a)) else None;
  to_i128_integral : forall a z, bd_val a == inject_Z z ->
    bd_to_i128 a = if (I128_MIN <=? z) && (z <=? I128_MAX) then Some z else None;
  val_floor : forall a, bd_val (bd_floor a) == inject_Z (Qfloor (bd_val a));
  val_trunc : forall a, (0 <= bd_val a)%Q -> bd_val (bd_trunc a) == inject_Z (Qfloor (bd_val a));
  val_numeric : forall a, bd_numeric a == bd_val a;
}.

(** ** Rational arithmetic shared by the components *)

Lemma inject_Z_pos (z : Z) : 0 < z -> (0 < inject_Z z)%Q.
Proof. unfold Qlt, inject_Z; cbn; lia. Qed.

Lemma inject_Z_nonneg (z : Z) : 0 <= z -> (0 <= inject_Z z)%Q.
Proof. unfold Qle, inject_Z; cbn; lia. Qed.

Lemma inject_Z_nonzero (z : Z) : z <> 0 -> ~ (inject_Z z == 0)%Q.
Proof. unfold Qeq, inject_Z; cbn; lia. Qed.

(** The floor is determined by the interval it lies in. *)
Lemma Qfloor_unique (q : Q) (z : Z) :
  (inject_Z z <= q)%Q -> (q < inject_Z (z + 1))%Q -> Qfloor q = z.
Proof.
  intros H1 H2.
  assert (Ha : (inject_Z z < inject_Z (Qfloor q + 1))%Q)
    by (eapply Qle_lt_trans; [exact H1 | apply Qlt_floor]).
  assert (Hb : (inject_Z (Qfloor q) < inject_Z (z + 1))%Q)
    by (eapply Qle_lt_trans; [apply Qfloor_le | exact H2]).
  rewrite <- Zlt_Qlt in Ha, Hb. lia.
Qed.

Lemma Qfloor_quotient (a b : Z) : 0 < b -> Qfloor (inject_Z a / inject_Z b) = a / b.
Proof.
  intros Hb. symmetry. destruct b as [|p|p]; try lia.
  rewrite (Zdiv_Qdiv a (Zpos p)). reflexivity.
Qed.

Lemma Qfloor_of_Z (z : Z) : Qfloor (inject_Z z) = z.
Proof. apply Qfloor_Z. Qed.

Lemma Qfloor_compat (p q : Q) : p == q -> Qfloor p = Qfloor q.
Proof. intros E; rewrite E; reflexivity. Qed.

(** ** Consequences of the laws *)
Section laws.
Context {D : Type} `{BigDecimalLaws D}.

Lemma val_of_N (n : N) : bd_val (bd_of_N n) == inject_Z (Z.of_N n).
Proof. apply val_of_Z. Qed.

Lemma val_zero : bd_val bd_zero == 0.
Proof. unfold bd_zero. rewrite val_of_Z. reflexivity. Qed.

Lemma bd_leb_val (a b : D) : bd_leb a b = true <-> (bd_val a <= bd_val b)%Q.
Proof.
  unfold bd_leb. rewrite compare_val, Qle_alt.
  destruct (_ ?= _)%Q; split; congruence.
Qed.

Lemma bd_ltb_val (a b : D) : bd_ltb a b = true <-> (bd_val a < bd_val b)%Q.
Proof.
  unfold bd_ltb. rewrite compare_val, Qlt_alt.
  destruct (_ ?= _)%Q; split; congruence.
Qed.

Lemma bd_eqb_val (a b : D) : bd_eqb a b = true <-> bd_val a == bd_val b.
Proof.
  unfold bd_eqb. rewrite compare_val, Qeq_alt.
  destruct (_ ?= _)%Q; split; congruence.
Qed.

Lemma bd_leb_false (a b : D) : bd_leb a b = false <-> (bd_val b < bd_val a)%Q.
Proof.
  rewrite <- bd_ltb_val. unfold bd_leb, bd_ltb. rewrite !compare_val.
  rewrite <- (Qcompare_antisym (bd_val a)). destruct (_ ?= _)%Q; cbn; split; congruence.
Qed.

Lemma bd_ltb_false (a b : D) : bd_ltb a b = false <-> (bd_val b <= bd_val a)%Q.
Proof.
  rewrite <- bd_leb_val. unfold bd_leb, bd_ltb. rewrite !compare_val.
  rewrite <- (Qcompare_antisym (bd_val a)). destruct (_ ?= _)%Q; cbn; split; congruence.
Qed.

Lemma bd_is_zero_val (a : D) : bd_is_zero a = true <-> bd_val a == 0.
Proof. unfold bd_is_zero. rewrite bd_eqb_val, val_zero. reflexivity. Qed.

Lemma bd_is_zero_false (a : D) : bd_is_zero a = false <-> ~ bd_val a == 0.
Proof. rewrite <- bd_is_zero_val. destruct (bd_is_zero a); split; congruence. Qed.

Lemma bd_is_zero_of_N (n : N) : bd_is_zero (bd_of_N n) = (n =? 0)%N.
Proof.
  destruct (N.eqb_spec n 0) as [->|Hn].
  - apply bd_is_zero_val, val_zero.
  - apply bd_is_zero_false. rewrite val_of_N. apply inject_Z_nonzero. lia.
Qed.

Lemma bd_leb_of_N (a b : N) : bd_leb (bd_of_N a) (bd_of_N b) = (a <=? b)%N.
Proof.
  destruct (N.leb_spec a b) as [Hl|Hl].
  - apply bd_leb_val. rewrite !val_of_N, <- Zle_Qle. lia.
  - apply bd_leb_false. rewrite !val_of_N, <- Zlt_Qlt. lia.
Qed.

(** An integral quotient of fewer than 100 digits is computed exactly. *)
Lemma val_div_integral (a b : D) (z : Z) :
  ~ bd_val b == 0 -> Z.abs z < 10 ^ 100 ->
  bd_val a == inject_Z z * bd_val b -> bd_val (bd_div a b) == inject_Z z.
Proof.
  intros Hb Hz He.
  assert (Hq : bd_val a / bd_val b == inject_Z z) by (rewrite He; field; exact Hb).
  rewrite <- Hq. apply (val_div_exact a b z 0 Hb Hz). rewrite Hq. cbn. ring.
Qed.

(** The error of a quotient of integers stays below the distance of the exact
    quotient from the next integer, so that truncation is exact. *)
Lemma div_floor (a b : D) (x y : Z) :
  bd_val a == inject_Z x -> bd_val b == inject_Z y ->
  0 <= x < 10 ^ 99 -> 0 < y ->
  (0 <= bd_val (bd_div a b))%Q /\ Qfloor (bd_val (bd_div a b)) = x / y.
Proof.
  intros Ha Hb Hx Hy.
  assert (Hy0 : (0 < inject_Z y)%Q) by (apply inject_Z_pos; lia).
  assert (Hn0 : ~ bd_val b == 0) by (rewrite Hb; apply inject_Z_nonzero; lia).
  pose proof (Z.div_mod x y ltac:(lia)) as Hdm.
  pose proof (Z.mod_pos_bound x y Hy) as Hmb.
  pose proof (Z.div_pos x y ltac:(lia) Hy) as Hq0.
  assert (Hqx : x / y <= x) by (apply Z.div_le_upper_bound; nia).
  destruct (Z.eq_dec (x mod y) 0) as [Hm|Hm].
  - assert (Hv : bd_val (bd_div a b) == inject_Z (x / y)).
    { apply val_div_integral; [exact Hn0 | lia |].
      rewrite Ha, Hb, <- inject_Z_mult. rewrite Hdm at 1. rewrite Hm. f_equiv. lia. }
    split; [rewrite Hv; apply inject_Z_nonneg; lia | rewrite Hv; apply Qfloor_of_Z].
  - pose proof (val_div_error a b Hn0) as He.
    rewrite Ha, Hb in He.
    set (v := bd_val (bd_div a b)) in *. set (P := 10 ^ 99) in *.
    assert (HP0 : (0 < inject_Z P)%Q) by (apply inject_Z_pos; lia).
    assert (Hxy : (0 <= inject_Z x / inject_Z y)%Q)
      by (apply Qle_shift_div_l; [exact Hy0 | rewrite Qmult_0_l; apply inject_Z_nonneg; lia]).
    rewrite (Qabs_pos _ Hxy) in He. apply Qabs_Qle_condition in He.
    assert (Hlt : (inject_Z x / inject_Z y * / inject_Z P < / inject_Z y)%Q).
    { assert (Hr : (inject_Z x * / inject_Z P < 1)%Q).
      { apply Qlt_shift_div_r; [exact HP0|]. rewrite Qmult_1_l. rewrite <- Zlt_Qlt. lia. }
      assert (Hre : (inject_Z x / inject_Z y * / inject_Z P
        == inject_Z x * / inject_Z P * / inject_Z y)%Q) by (field; split; lra).
      rewrite Hre.
      rewrite <- (Qmult_1_l (/ inject_Z y)) at 2.
      apply Qmult_lt_r; [apply Qinv_lt_0_compat; exact Hy0 | exact Hr]. }
    assert (Hlo : (inject_Z (x / y) + / inject_Z y <= inject_Z x / inject_Z y)%Q).
    { apply Qle_shift_div_l; [exact Hy0|]. rewrite Qmult_plus_distr_l.
      rewrite (Qmult_comm (/ inject_Z y)), Qmult_inv_r by lra.
      rewrite <- inject_Z_mult. change 1%Q with (inject_Z 1).
      rewrite <- inject_Z_plus, <- Zle_Qle. nia. }
    assert (Hhi : (inject_Z x / inject_Z y + / inject_Z y <= inject_Z (x / y + 1))%Q).
    { rewrite <- (Qmult_1_l (/ inject_Z y)).
      unfold Qdiv. rewrite <- Qmult_plus_distr_l.
      apply Qle_shift_div_r; [exact Hy0|]. change 1%Q with (inject_Z 1).
      rewrite <- inject_Z_plus, <- inject_Z_mult, <- Zle_Qle. nia. }
    assert (Hf : (0 <= inject_Z (x / y))%Q) by (apply inject_Z_nonneg; lia).
    split; [lra | apply Qfloor_unique; lra].
Qed.

(** Truncating a quotient of integers below 10^99 gives integer division. *)
Lemma to_u128_div (a b : D) (x y : N) :
  bd_val a == inject_Z (Z.of_N x) -> bd_val b == inject_Z (Z.of_N y) ->
  (x < 10 ^ 99)%N -> (0 < y)%N ->
  bd_to_u128 (bd_div a b) = if (x / y <=? U128_MAX)%N then Some (x / y)%N else None.
Proof.
  intros Ha Hb Hx Hy.
  destruct (div_floor a b (Z.of_N x) (Z.of_N y) Ha Hb) as [Hv0 Hf]; [lia | lia |].
  rewrite (to_u128_value _ Hv0), Hf.
  rewrite <- N2Z.inj_div, N2Z.id.
  destruct (N.leb_spec (x / y) U128_MAX) as [Hl|Hl].
  - rewrite (proj2 (Z.leb_le _ _)); [reflexivity | lia].
  - rewrite (proj2 (Z.leb_gt _ _)); [reflexivity | lia].
Qed.

Lemma to_u128_of_N (n : N) : (n <= U128_MAX)%N -> bd_to_u128 (bd_of_N n) = Some n.
Proof.
  intros Hn.
  assert (Hn0 : (0 <= bd_val (bd_of_N n))%Q)
    by (rewrite val_of_N; apply inject_Z_nonneg; lia).
  rewrite (to_u128_value _ Hn0), (Qfloor_compat _ _ (val_of_N n)), Qfloor_of_Z, N2Z.id.
  rewrite (proj2 (Z.leb_le _ _)); [reflexivity | lia].
Qed.

(** [to_u128] truncates: the value lies in [n, n + 1). *)
Lemma to_u128_bounds (a : D) (n : N) :
  bd_to_u128 a = Some n ->
  (inject_Z (Z.of_N n) <= bd_val a < inject_Z (Z.of_N n + 1))%Q /\ (n <= U128_MAX)%N.
Proof.
  intros Hn. destruct (Qlt_le_dec (bd_val a) 0) as [Hneg|Hpos].
  - rewrite to_u128_negative in Hn by exact Hneg. discriminate.
  - rewrite (to_u128_value _ Hpos) in Hn.
    destruct (Z.leb_spec (Qfloor (bd_val a)) (Z.of_N U128_MAX)) as [Hl|]; [|discriminate].
    assert (Hf : 0 <= Qfloor (bd_val a))
      by (apply (Qfloor_resp_le 0); exact Hpos).
    injection Hn as <-. rewrite Z2N.id by exact Hf.
    split; [split; [apply Qfloor_le | apply Qlt_floor] | lia].
Qed.

(** The value of a sum of decimals. *)
Definition sumQ (l : list Q) : Q := List.fold_right Qplus 0%Q l.

Lemma sumQ_nil : sumQ nil = 0%Q.
Proof. reflexivity. Qed.
Lemma sumQ_cons (x : Q) (l : list Q) : sumQ (x :: l) = (x + sumQ l)%Q.
Proof. reflexivity. Qed.

Lemma val_fold_add (l : list D) (acc : D) :
  bd_val (List.fold_left bd_add l acc) == bd_val acc + sumQ (List.map bd_val l).
Proof.
  revert acc; induction l as [|x l IH]; intros acc; cbn.
  - ring.
  - rewrite IH, val_add. unfold sumQ. ring.
Qed.

Lemma val_sum (l : list D) : bd_val (bd_sum l) == sumQ (List.map bd_val l).
Proof. unfold bd_sum. rewrite val_fold_add, val_zero. ring. Qed.

End laws.

Create Rewrite HintDb bd.
#[export] Hint Rewrite @val_add @val_sub @val_mul @val_neg @val_of_Z @val_of_N @val_zero
  using typeclasses eauto : bd.

(** ** The rationals as decimals of unbounded precision *)
Definition Q_to_u128 (q : Q) : option N :=
  if Qle_bool 0 q
  then if Qfloor q <=? Z.of_N U128_MAX then Some (Z.to_N (Qfloor q)) else None
  else None.

Definition Q_to_i64 (q : Q) : option Z :=
  let t := if Qle_bool 0 q then Qfloor q else Qceiling q in
  if (I64_MIN <=? t) && (t <=? I64_MAX) then Some t else None.

Definition Q_to_i128 (q : Q) : option Z :=
  let t := if Qle_bool 0 q then Qfloor q else Qceiling q in
  if (I128_MIN <=? t) && (t <=? I128_MAX) then Some t else None.

#[global] Instance Q_bigdecimal : BigDecimal Q := {
  bd_of_Z := inject_Z;
  bd_new m e := Qred (inject_Z m / inject_Z (10 ^ Z.of_N e));
  bd_add a b := Qred (a + b);
  bd_sub a b := Qred (a - b);
  bd_mul a b := Qred (a * b);
  bd_div a b := Qred (a / b);
  bd_neg := Qopp;
  bd_abs := Qabs;
  bd_compare := Qcompare;
  bd_to_u128 := Q_to_u128;
  bd_to_i64 := Q_to_i64;
  bd_to_i128 := Q_to_i128;
  bd_floor q := inject_Z (Qfloor q);
  bd_trunc q := inject_Z (if Qle_bool 0 q then Qfloor q else Qceiling q);
  bd_to_f64 q := Some (f64_div (f64_of_Z (Qnum q)) (f64_of_Z (Zpos (Qden q))));
  bd_numeric q := q;
}.

#[global] Instance Q_bigdecimal_laws : BigDecimalLaws Q.
Proof.
  refine {| bd_val := fun q => q |}; cbn [bd_of_Z bd_new bd_add bd_sub bd_mul bd_div bd_neg bd_abs
    bd_compare bd_to_u128 bd_to_i64 bd_to_i128 bd_floor bd_trunc Q_bigdecimal]; intros.
  - reflexivity.
  - apply Qred_correct.
  - apply Qred_correct.
  - apply Qred_correct.
  - apply Qred_correct.
  - reflexivity.
  - reflexivity.
  - apply Qred_correct.
  - rewrite Qred_correct.
    assert (H0 : (a / b - a / b == 0)%Q) by ring. rewrite H0.
    apply Qmult_le_0_compat; [apply Qabs_nonneg|].
    apply Qinv_le_0_compat, inject_Z_nonneg. lia.
  - reflexivity.
  - unfold Q_to_u128. destruct (Qle_bool 0 a) eqn:E; [|reflexivity].
    apply Qle_bool_iff in E. lra.
  - unfold Q_to_u128. apply Qle_bool_iff in H. rewrite H. reflexivity.
  - unfold Q_to_i64. pose proof (Qfloor_resp_le _ _ H) as Hf. change (Qfloor 0) with 0 in Hf.
    apply Qle_bool_iff in H. rewrite H.
    replace (I64_MIN <=? Qfloor a) with true; [reflexivity|].
    symmetry; apply Z.leb_le. unfold I64_MIN. lia.
  - unfold Q_to_i128. rewrite (Qfloor_compat _ _ H), Qfloor_of_Z.
    assert (Hc : Qceiling a = z) by (rewrite (Qceiling_comp _ _ H); apply Qceiling_Z).
    rewrite Hc. destruct (Qle_bool 0 a); reflexivity.
  - reflexivity.
  - apply Qle_bool_iff in H. rewrite H. reflexivity.
  - reflexivity.
Defined.
