(* ===== verification/Dex.v ===== *)
(** * Dex: pools, pairs and swap paths (crates/dex)

    [errors.rs], [token_index.rs], [pool_info.rs] and [token_pair.rs]: the pool
    data read from the exchange, the pair of one pool, and the path of several
    pairs, with the estimate of what a swap returns.  The estimate is computed
    with decimals ([BigDecimal]); the theorems show that it is the integer
    constant-product quote, and what a path of such quotes can and cannot do. *)

From Stdlib Require Import QArith.
From S2P Require Import Prelude BigDecimal.
Local Open Scope N_scope.

(** ** errors.rs *)
Inductive Error : Type :=
| TokenNotFound (name : string)
| SwapSameToken
| ZeroAmount
| Overflow
| OutOfIndexOfPools (i : N)
| OutOfIndexOfTokens (i : N)
| DifferentLengthOfTokens (a b : N)
| UnmatchedTokenPath (a b : TokenAccount * TokenAccount)
| PathTooLong (hops max : N).

#[global] Instance Error_eq_dec : EqDecision Error.
Proof. solve_decision. Defined.

(** ** token_index.rs *)
Abbreviation TokenIndex := N (only parsing).
Record TokenIn := mkTokenIn { in_index : TokenIndex }.
Record TokenOut := mkTokenOut { out_index : TokenIndex }.

#[global] Instance TokenIn_eq_dec : EqDecision TokenIn.
Proof. solve_decision. Defined.
#[global] Instance TokenOut_eq_dec : EqDecision TokenOut.
Proof. solve_decision. Defined.
#[global] Instance TokenIn_countable : Countable TokenIn.
Proof. apply (inj_countable' in_index mkTokenIn). by intros []. Defined.
#[global] Instance TokenOut_countable : Countable TokenOut.
Proof. apply (inj_countable' out_index mkTokenOut). by intros []. Defined.

(** [TokenIndex::max]. *)
Definition index_max (a b : TokenIndex) : TokenIndex := if b <? a then a else b.

(** ** pool_info.rs: one pool *)
Definition POOL_KIND_SIMPLE : string := "SIMPLE_POOL".
Definition FEE_DIVISOR : N := 10000.

Record PoolInfoBared := mkPoolInfoBared {
  pool_kind : string;
  token_account_ids : list TokenAccount;
  amounts : list N;
  total_fee : N;
  shares_total_supply : N;
  amp : N;
}.

Record PoolInfo := mkPoolInfo {
  id : N;
  bare : PoolInfoBared;
  timestamp : Z;
}.

#[global] Instance PoolInfoBared_eq_dec : EqDecision PoolInfoBared.
Proof. solve_decision. Defined.
#[global] Instance PoolInfo_eq_dec : EqDecision PoolInfo.
Proof. solve_decision. Defined.

Definition is_simple (p : PoolInfo) : bool := bool_decide (pool_kind (bare p) = POOL_KIND_SIMPLE).
Definition pool_len (p : PoolInfo) : N := len (token_account_ids (bare p)).
Definition tokens (p : PoolInfo) : list TokenAccount := token_account_ids (bare p).

Definition token (p : PoolInfo) (index : TokenIndex) : outcome Error TokenAccount :=
  ok_or (OutOfIndexOfTokens index) (token_account_ids (bare p) !! N.to_nat index).

Definition amount (p : PoolInfo) (index : TokenIndex) : outcome Error N :=
  ok_or (OutOfIndexOfTokens index) (amounts (bare p) !! N.to_nat index).

(** [token_pair.rs]: a pair of tokens of one pool. *)
Record TokenPairId := mkTokenPairId {
  pid_pool : N;
  pid_in : TokenIn;
  pid_out : TokenOut;
}.
Record TokenPair := mkTokenPair {
  pool : PoolInfo;
  token_in : TokenIn;
  token_out : TokenOut;
}.

#[global] Instance TokenPairId_eq_dec : EqDecision TokenPairId.
Proof. solve_decision. Defined.
#[global] Instance TokenPair_eq_dec : EqDecision TokenPair.
Proof. solve_decision. Defined.

Definition get_pair (p : PoolInfo) (ti : TokenIn) (to : TokenOut) : outcome Error TokenPair :=
  if in_index ti =? out_index to then Err SwapSameToken
  else if (pool_len p <=? in_index ti) || (pool_len p <=? out_index to) then
    Err (OutOfIndexOfTokens (index_max (in_index ti) (out_index to)))
  else if (len (amounts (bare p)) <=? in_index ti)
          || (len (amounts (bare p)) <=? out_index to) then
    Err (DifferentLengthOfTokens (len (token_account_ids (bare p))) (len (amounts (bare p))))
  else Ok (mkTokenPair p ti to).

(** The estimate of a swap's return; [FEE_DIVISOR - total_fee] is a [u32]
    subtraction, the rest is decimal arithmetic. *)
Definition estimate_return (D : Type) `{BigDecimal D}
    (p : PoolInfo) (ti : TokenIn) (amount_in : N) (to : TokenOut) : outcome Error N :=
  if in_index ti =? out_index to then Err SwapSameToken
  else
    let? in_amount := amount p (in_index ti) in
    let? out_amount := amount p (out_index to) in
    let in_balance : D := bd_of_N in_amount in
    let out_balance : D := bd_of_N out_amount in
    let amount_in : D := bd_of_N amount_in in
    if bd_leb in_balance bd_zero || bd_leb out_balance bd_zero || bd_leb amount_in bd_zero
    then Err ZeroAmount
    else
      let? fee := expect (checked_sub FEE_DIVISOR (total_fee (bare p))) in
      let amount_with_fee := bd_mul amount_in (bd_of_N fee) in
      let? result :=
        bd_quot (bd_mul amount_with_fee out_balance)
                (bd_add (bd_mul (bd_of_N FEE_DIVISOR) in_balance) amount_with_fee) in
      ok_or Overflow (bd_to_u128 result).

(** ** pool_info.rs: the list of all pools *)
Record PoolInfoList := mkPoolInfoList {
  pools_list : list PoolInfo;
  by_id : gmap N PoolInfo;
}.

Definition by_id_of (src_list : list PoolInfo) : gmap N PoolInfo :=
  foldl (fun m p => <[id p := p]> m) ∅ src_list.

Definition PoolInfoList_new (src_list : list PoolInfo) : PoolInfoList :=
  mkPoolInfoList (sort_by (fun a b => id a <=? id b) src_list) (by_id_of src_list).

Definition pools_get (l : PoolInfoList) (index : N) : outcome Error PoolInfo :=
  ok_or (OutOfIndexOfPools index) (by_id l !! index).

Definition pools_get_pair (l : PoolInfoList) (pair_id : TokenPairId) : outcome Error TokenPair :=
  let? p := pools_get l (pid_pool pair_id) in
  get_pair p (pid_in pair_id) (pid_out pair_id).

(** ** token_pair.rs *)

(** The trait [TokenPairLike]: what the swap builder needs of a pair.  The
    token ids are read with [expect], so they can panic. *)
Class TokenPairLike (T : Type) := {
  tp_pool_id : T -> N;
  tp_token_in_id : T -> outcome Error TokenAccount;
  tp_token_out_id : T -> outcome Error TokenAccount;
  tp_estimate_return : T -> N -> outcome Error N;
}.

(** [Result::expect]. *)
Definition expect_ok {E A} (o : outcome E A) : outcome E A :=
  match o with Ok a => Ok a | _ => Panic end.

Definition token_in_id (p : TokenPair) : outcome Error TokenAccount :=
  expect_ok (token (pool p) (in_index (token_in p))).
Definition token_out_id (p : TokenPair) : outcome Error TokenAccount :=
  expect_ok (token (pool p) (out_index (token_out p))).

Definition pair_estimate (D : Type) `{BigDecimal D} (p : TokenPair) (amount_in : N)
    : outcome Error N :=
  estimate_return D (pool p) (token_in p) amount_in (token_out p).

Definition TokenPair_like (D : Type) `{BigDecimal D} : TokenPairLike TokenPair := {|
  tp_pool_id p := id (pool p);
  tp_token_in_id := token_in_id;
  tp_token_out_id := token_out_id;
  tp_estimate_return := pair_estimate D;
|}.

Definition pair_id (p : TokenPair) : TokenPairId :=
  mkTokenPairId (id (pool p)) (token_in p) (token_out p).

Definition pair_amount_in (p : TokenPair) : outcome Error N :=
  amount (pool p) (in_index (token_in p)).
Definition pair_amount_out (p : TokenPair) : outcome Error N :=
  amount (pool p) (out_index (token_out p)).

(** The estimate at half of the input reserve, used to weigh the edges. *)
Definition estimate_normal_return (D : Type) `{BigDecimal D} (p : TokenPair)
    : outcome Error (N * N) :=
  let? balance_in := amount (pool p) (in_index (token_in p)) in
  if balance_in =? 0 then Err ZeroAmount
  else
    let in_value := balance_in / 2 in
    let? out_value := estimate_return D (pool p) (token_in p) in_value (token_out p) in
    Ok (in_value, out_value).

Definition MAX_HOPS : N := 10.
Abbreviation TokenPath := (list TokenPair) (only parsing).

Definition validate_length (path : TokenPath) : outcome Error unit :=
  let hops := len path in
  if MAX_HOPS <? hops then Err (PathTooLong hops MAX_HOPS) else Ok tt.

Definition push_new (seen : list TokenAccount) (t : TokenAccount) : list TokenAccount :=
  if contains seen t then seen else seen ++ [t].

(** The loop of [all_tokens]; the ids are read before either is pushed. *)
Fixpoint all_tokens_from (seen : list TokenAccount) (path : TokenPath)
    : outcome Error (list TokenAccount) :=
  match path with
  | [] => Ok seen
  | tp :: path =>
      let? ti := token_in_id tp in
      let? to := token_out_id tp in
      all_tokens_from (push_new (push_new seen ti) to) path
  end.
Definition all_tokens (path : TokenPath) : outcome Error (list TokenAccount) :=
  all_tokens_from [] path.

Fixpoint calc_value_from (D : Type) `{BigDecimal D} (value : N) (path : TokenPath)
    : outcome Error N :=
  match path with
  | [] => Ok value
  | tp :: path =>
      let? value := pair_estimate D tp value in
      if value =? 0 then Ok 0 else calc_value_from D value path
  end.
Definition calc_value (D : Type) `{BigDecimal D} (path : TokenPath) (initial : N)
    : outcome Error N :=
  if initial =? 0 then Ok 0 else calc_value_from D initial path.

(** ** The reference: the constant-product quote on integers *)
Definition quote_num (fee o a : N) : N := a * (FEE_DIVISOR - fee) * o.
Definition quote_den (fee i a : N) : N := FEE_DIVISOR * i + a * (FEE_DIVISOR - fee).
(** What a swap of [a] returns from a pool with reserves [i] (in), [o] (out). *)
Definition swap_quote (fee i o a : N) : N := quote_num fee o a / quote_den fee i a.

(** A pool as the exchange stores it: reserves of 128 bits and a fee of at most
    the divisor. *)
Definition pool_wf (p : PoolInfo) : Prop :=
  Forall (fun x => x <= U128_MAX) (amounts (bare p)) /\ total_fee (bare p) <= FEE_DIVISOR.

(** The reserves a pair trades against. *)
Definition reserves (p : TokenPair) : option (N * N) :=
  match amounts (bare (pool p)) !! N.to_nat (in_index (token_in p)),
        amounts (bare (pool p)) !! N.to_nat (out_index (token_out p)) with
  | Some i, Some o => Some (i, o)
  | _, _ => None
  end.

(** ** The quote *)
Lemma quote_den_pos fee i a : 0 < i -> 0 < quote_den fee i a.
Proof.
  intros Hi. unfold quote_den. eapply N.lt_le_trans; [|apply N.le_add_r].
  unfold FEE_DIVISOR. lia.
Qed.

Lemma swap_quote_le fee i o a : 0 < i ->
  swap_quote fee i o a * quote_den fee i a <= quote_num fee o a.
Proof.
  intros Hi. unfold swap_quote. rewrite N.mul_comm. apply N.Div0.mul_div_le.
Qed.

(** The pool's value never falls: the traded-in amount, fee included, is worth
    at least what leaves the pool. *)
Lemma swap_quote_value fee i o a : 0 < i ->
  (i + a) * swap_quote fee i o a <= a * o.
Proof.
  intros Hi. pose proof (swap_quote_le fee i o a Hi) as Hq.
  unfold quote_num, quote_den in Hq. set (q := swap_quote fee i o a) in *.
  set (f := FEE_DIVISOR - fee) in *.
  destruct (N.eq_dec f 0) as [Hf|Hf].
  - assert (Hq0 : q = 0).
    { unfold q, swap_quote, quote_num. fold f. rewrite Hf, N.mul_0_r.
      apply N.Div0.div_0_l. }
    rewrite Hq0. lia.
  - assert (Hle : f <= FEE_DIVISOR) by (unfold f; lia).
    apply (N.mul_le_mono_pos_r _ _ f); [lia|].
    etransitivity; [|etransitivity; [exact Hq|]]; [|lia].
    pose proof (N.mul_le_mono_l f FEE_DIVISOR (q * i) Hle). lia.
Qed.

Lemma swap_quote_lt_reserve fee i o a : 0 < i -> 0 < o -> swap_quote fee i o a < o.
Proof.
  intros Hi Ho. pose proof (swap_quote_value fee i o a Hi) as Hv.
  set (q := swap_quote fee i o a) in *.
  destruct (N.lt_ge_cases q o) as [|Hge]; [done|].
  pose proof (N.mul_le_mono_l o q (i + a) Hge). nia.
Qed.

Lemma swap_quote_mono fee i o a b : 0 < i -> a <= b ->
  swap_quote fee i o a <= swap_quote fee i o b.
Proof.
  intros Hi Hab. unfold swap_quote.
  apply N.div_le_lower_bound; [pose proof (quote_den_pos fee i b Hi); lia|].
  pose proof (swap_quote_le fee i o a Hi) as Hq. unfold swap_quote in Hq.
  set (q := quote_num fee o a / quote_den fee i a) in *.
  unfold quote_num, quote_den in *. set (f := FEE_DIVISOR - fee) in *.
  destruct (N.lt_ge_cases o q) as [Hlt|Hle].
  - exfalso. pose proof (swap_quote_value fee i o a Hi) as Hv.
    unfold swap_quote, quote_num, quote_den in Hv. fold f in Hv. fold q in Hv. nia.
  - assert (exists c, b = a + c) as [c ->] by (exists (b - a); lia).
    pose proof (N.mul_le_mono_l q o (c * f) Hle). lia.
Qed.

(** Going to the other token and back against the same reserves loses. *)
Lemma swap_quote_round_trip fee fee' i o a : 0 < i -> 0 < o -> 0 < a ->
  swap_quote fee' o i (swap_quote fee i o a) < a.
Proof.
  intros Hi Ho Ha.
  pose proof (swap_quote_value fee i o a Hi) as H1.
  set (q := swap_quote fee i o a) in *.
  pose proof (swap_quote_value fee' o i q Ho) as H2.
  set (r := swap_quote fee' o i q) in *.
  destruct (N.lt_ge_cases r a) as [|Hge]; [done|].
  pose proof (N.mul_le_mono_l a r o Hge). nia.
Qed.

(** ** The estimate is the quote *)
Section estimate.
Context (D : Type) `{BigDecimalLaws D}.

(** A concrete bound for the numerator: the decimal division is exact on it. *)
Lemma quote_num_small fee o a : o <= U128_MAX -> a <= U128_MAX -> quote_num fee o a < 10 ^ 99.
Proof.
  intros Ho Ha. unfold quote_num.
  assert (Hf : FEE_DIVISOR - fee <= 10000) by (unfold FEE_DIVISOR; lia).
  apply (N.le_lt_trans _ (U128_MAX * 10000 * U128_MAX)); [|reflexivity].
  apply N.mul_le_mono; [apply N.mul_le_mono; done | done].
Qed.

Lemma amount_Some p i x : amounts (bare p) !! N.to_nat i = Some x -> amount p i = Ok x.
Proof. intros E. unfold amount. by rewrite E. Qed.

Lemma estimate_return_quote p ti to i o a :
  pool_wf p -> in_index ti <> out_index to ->
  amounts (bare p) !! N.to_nat (in_index ti) = Some i ->
  amounts (bare p) !! N.to_nat (out_index to) = Some o ->
  a <= U128_MAX ->
  estimate_return D p ti a to =
    if (i =? 0) || (o =? 0) || (a =? 0) then Err ZeroAmount
    else Ok (swap_quote (total_fee (bare p)) i o a).
Proof.
  intros [Hw Hfee] Hne Hi Ho Ha. unfold estimate_return.
  rewrite (proj2 (N.eqb_neq _ _) Hne), (amount_Some _ _ _ Hi), (amount_Some _ _ _ Ho).
  cbn [obind]. change (@bd_zero D _) with (@bd_of_N D _ 0). rewrite !bd_leb_of_N.
  destruct (N.leb_spec i 0), (N.leb_spec o 0), (N.leb_spec a 0),
    (N.eqb_spec i 0), (N.eqb_spec o 0), (N.eqb_spec a 0); cbn [orb]; try lia; try done.
  assert (Hiu : i <= U128_MAX /\ o <= U128_MAX).
  { rewrite Forall_lookup in Hw. split; eauto. }
  assert (Hsub : checked_sub FEE_DIVISOR (total_fee (bare p))
                 = Some (FEE_DIVISOR - total_fee (bare p))).
  { by apply checked_sub_Some. }
  rewrite Hsub. cbn [expect obind]. unfold bd_quot.
  set (fee := total_fee (bare p)) in *. set (f := FEE_DIVISOR - fee) in *.
  set (num := bd_mul (bd_mul (bd_of_N a) (bd_of_N f)) (bd_of_N o)).
  set (den := bd_add (bd_mul (bd_of_N FEE_DIVISOR) (bd_of_N i)) (bd_mul (bd_of_N a) (bd_of_N f))).
  assert (Hnum : bd_val num == inject_Z (Z.of_N (quote_num fee o a))).
  { unfold num, quote_num. fold f. rewrite !val_mul, !val_of_N, <- !inject_Z_mult.
    by rewrite !N2Z.inj_mul. }
  assert (Hden : bd_val den == inject_Z (Z.of_N (quote_den fee i a))).
  { unfold den, quote_den. fold f. rewrite val_add, !val_mul, !val_of_N, <- !inject_Z_mult.
    rewrite <- inject_Z_plus. by rewrite N2Z.inj_add, !N2Z.inj_mul. }
  pose proof (quote_den_pos fee i a ltac:(lia)) as Hpos.
  assert (Hnz : bd_is_zero den = false).
  { apply bd_is_zero_false. rewrite Hden. apply inject_Z_nonzero. lia. }
  rewrite Hnz. cbn [obind].
  rewrite (to_u128_div num den _ _ Hnum Hden (quote_num_small _ _ _ (proj2 Hiu) Ha) Hpos).
  fold (swap_quote fee i o a).
  pose proof (swap_quote_lt_reserve fee i o a ltac:(lia) ltac:(lia)).
  rewrite (proj2 (N.leb_le _ _)); [done | lia].
Qed.

Lemma pair_estimate_quote p i o a :
  pool_wf (pool p) -> in_index (token_in p) <> out_index (token_out p) ->
  reserves p = Some (i, o) -> a <= U128_MAX ->
  pair_estimate D p a =
    if (i =? 0) || (o =? 0) || (a =? 0) then Err ZeroAmount
    else Ok (swap_quote (total_fee (bare (pool p))) i o a).
Proof.
  unfold reserves. intros Hw Hne Hr Ha.
  destruct (amounts _ !! _) eqn:E1; [|done].
  destruct (amounts _ !! N.to_nat (out_index _)) eqn:E2; [|done].
  injection Hr as -> ->. by apply estimate_return_quote.
Qed.

(** What a successful estimate tells of the pair. *)
Lemma pair_estimate_Ok p a r :
  pool_wf (pool p) -> a <= U128_MAX -> pair_estimate D p a = Ok r ->
  exists i o, reserves p = Some (i, o) /\ 0 < i /\ 0 < o /\ 0 < a /\
    r = swap_quote (total_fee (bare (pool p))) i o a /\ o <= U128_MAX.
Proof.
  intros Hw Ha Hr.
  assert (Hne : in_index (token_in p) <> out_index (token_out p)).
  { intros E. unfold pair_estimate, estimate_return in Hr.
    by rewrite (proj2 (N.eqb_eq _ _) E) in Hr. }
  assert (exists i o, reserves p = Some (i, o)) as (i & o & Hres).
  { unfold pair_estimate, estimate_return, amount in Hr. unfold reserves.
    rewrite (proj2 (N.eqb_neq _ _) Hne) in Hr.
    destruct (amounts _ !! N.to_nat (in_index _)); [|done].
    destruct (amounts _ !! N.to_nat (out_index _)); [|done]. eauto. }
  rewrite (pair_estimate_quote p i o a Hw Hne Hres Ha) in Hr.
  destruct (N.eqb_spec i 0), (N.eqb_spec o 0), (N.eqb_spec a 0); try done.
  injection Hr as <-. exists i, o.
  split; [done|]. do 3 (split; [lia|]). split; [done|].
  unfold reserves in Hres. destruct Hw as [Hw _]. rewrite Forall_lookup in Hw.
  destruct (amounts _ !! N.to_nat (in_index _)); [|done].
  destruct (amounts _ !! N.to_nat (out_index _)) eqn:E; [|done]. simplify_eq. eauto.
Qed.

Lemma pair_estimate_bound p a r :
  pool_wf (pool p) -> a <= U128_MAX -> pair_estimate D p a = Ok r -> r <= U128_MAX.
Proof.
  intros Hw Ha Hr. destruct (pair_estimate_Ok p a r Hw Ha Hr) as (i & o & _ & Hi & Ho & _ & -> & Hb).
  pose proof (swap_quote_lt_reserve (total_fee (bare (pool p))) i o a Hi Ho). lia.
Qed.

Lemma pair_estimate_mono p a b ra rb :
  pool_wf (pool p) -> b <= U128_MAX -> a <= b ->
  pair_estimate D p a = Ok ra -> pair_estimate D p b = Ok rb -> ra <= rb.
Proof.
  intros Hw Hb Hab Ha Hrb.
  destruct (pair_estimate_Ok p a ra Hw ltac:(lia) Ha) as (i & o & Hr & Hi & _ & _ & -> & _).
  destruct (pair_estimate_Ok p b rb Hw Hb Hrb) as (i' & o' & Hr' & _ & _ & _ & -> & _).
  simplify_eq. by apply swap_quote_mono.
Qed.

Lemma pair_estimate_pos p a r :
  pool_wf (pool p) -> a <= U128_MAX -> pair_estimate D p a = Ok r -> a <> 0.
Proof. intros Hw Ha Hr. destruct (pair_estimate_Ok p a r Hw Ha Hr) as (?&?&?&?&?&?&?). lia. Qed.

End estimate.

(** The integer reference of [estimate_return], branch by branch. *)
Definition estimate_ref (p : PoolInfo) (ti : TokenIn) (a : N) (to : TokenOut) : outcome Error N :=
  if in_index ti =? out_index to then Err SwapSameToken
  else match amounts (bare p) !! N.to_nat (in_index ti),
             amounts (bare p) !! N.to_nat (out_index to) with
  | None, _ => Err (OutOfIndexOfTokens (in_index ti))
  | _, None => Err (OutOfIndexOfTokens (out_index to))
  | Some i, Some o =>
      if (i =? 0) || (o =? 0) || (a =? 0) then Err ZeroAmount
      else Ok (swap_quote (total_fee (bare p)) i o a)
  end.

(** ** Paths *)

(** A pair as [get_pair] returns it. *)
Definition pair_valid (p : TokenPair) : Prop :=
  get_pair (pool p) (token_in p) (token_out p) = Ok p.

(** The same pool, traded the other way. *)
Definition back (p : TokenPair) : TokenPair :=
  mkTokenPair (pool p) (mkTokenIn (out_index (token_out p))) (mkTokenOut (in_index (token_in p))).

Definition path_wf (path : TokenPath) : Prop := Forall (fun p => pool_wf (pool p)) path.

Lemma reserves_back p i o : reserves p = Some (i, o) -> reserves (back p) = Some (o, i).
Proof.
  unfold reserves, back; simpl. destruct (amounts _ !! N.to_nat (in_index _)); [|done].
  destruct (amounts _ !! N.to_nat (out_index _)); [|done]. by intros [= -> ->].
Qed.

Section path.
Context (D : Type) `{BigDecimalLaws D}.

Lemma calc_value_from_bound path : path_wf path -> forall v r,
  v <= U128_MAX -> calc_value_from D v path = Ok r -> r <= U128_MAX.
Proof.
  induction 1 as [|p path Hp _ IH]; cbn [calc_value_from]; intros v r Hv E; inv_ok; [done|].
  destruct (a =? 0); simplify_eq; [lia|]. eapply IH; [|done].
  by eapply pair_estimate_bound.
Qed.

Lemma calc_value_from_app path1 path2 v : v <> 0 ->
  calc_value_from D v (path1 ++ path2) =
  let? x := calc_value_from D v path1 in
  if x =? 0 then Ok 0 else calc_value_from D x path2.
Proof.
  revert v. induction path1 as [|p path1 IH]; intros v Hv; cbn [calc_value_from app obind].
  - by rewrite (proj2 (N.eqb_neq _ _) Hv).
  - destruct (pair_estimate D p v) as [x| |]; cbn [obind]; [|done|done].
    destruct (N.eqb_spec x 0) as [->|Hx]; cbn [obind]; [done|]. by apply IH.
Qed.

Lemma calc_value_from_mono path : path_wf path -> forall a b ra rb,
  b <= U128_MAX -> a <= b ->
  calc_value_from D a path = Ok ra -> calc_value_from D b path = Ok rb -> ra <= rb.
Proof.
  induction 1 as [|p path Hp _ IH]; cbn [calc_value_from]; intros a b ra rb Hb Hab Ea Eb;
    inv_ok; [done|].
  rename a0 into vb, a1 into va.
  assert (Hv : va <= vb) by (eapply pair_estimate_mono; eauto).
  assert (vb <= U128_MAX) by (by eapply pair_estimate_bound).
  destruct (N.eqb_spec va 0) as [->|]; simplify_eq; [lia|].
  destruct (N.eqb_spec vb 0) as [->|]; simplify_eq; [lia|]. eauto.
Qed.

Lemma there_and_back_le path : path_wf path -> forall a r,
  a <> 0 -> a <= U128_MAX ->
  calc_value_from D a (path ++ rev (map back path)) = Ok r ->
  r <= a /\ (path <> [] -> r < a).
Proof.
  induction 1 as [|p path Hp Hwf IH]; intros a r Ha0 Ha E.
  - cbn in E. simplify_eq. done.
  - cbn [map rev app calc_value_from] in E. inv_ok. rename a0 into q.
    assert (Hq : q <= U128_MAX) by (by eapply pair_estimate_bound).
    enough (r < a) by (split; [lia|done]).
    destruct (N.eqb_spec q 0) as [->|Hq0]; simplify_eq; [lia|].
    rewrite app_assoc in E. rewrite calc_value_from_app in E by done. inv_ok.
    rename a0 into v. destruct (IH q v Hq0 Hq Hstep0) as [Hv _].
    destruct (N.eqb_spec v 0) as [->|Hv0]; simplify_eq; [lia|].
    cbn [calc_value_from] in E. inv_ok. rename a0 into w.
    enough (w < a) by (destruct (w =? 0); simplify_eq; lia).
    destruct (pair_estimate_Ok D p a q Hp Ha Hstep) as (i & o & Hres & Hi & Ho & _ & Hqq & _).
    destruct (pair_estimate_Ok D (back p) v w Hp ltac:(lia) Hstep1)
      as (o' & i' & Hres' & _ & _ & _ & -> & _).
    rewrite (reserves_back _ _ _ Hres) in Hres'. simplify_eq.
    eapply N.le_lt_trans; [by apply swap_quote_mono|].
    by apply swap_quote_round_trip; [..|lia].
Qed.

Lemma calc_value_from_bounded_by_reserve path p : path_wf (path ++ [p]) -> forall a r,
  a <> 0 -> a <= U128_MAX -> calc_value_from D a (path ++ [p]) = Ok r ->
  r = 0 \/ exists i o, reserves p = Some (i, o) /\ r < o.
Proof.
  intros Hwf a r Ha0 Ha E. rewrite calc_value_from_app in E by done. inv_ok.
  apply Forall_app in Hwf as [Hw1 Hw2]. apply Forall_cons_1 in Hw2 as [Hp _].
  assert (Hb : a0 <= U128_MAX) by (by eapply calc_value_from_bound).
  destruct (a0 =? 0); simplify_eq; [by left|]. cbn [calc_value_from] in E. inv_ok.
  destruct (pair_estimate_Ok D p _ _ Hp Hb Hstep0) as (i & o & Hr & Hi & Ho & _ & -> & _).
  destruct (_ =? 0); simplify_eq; [by left|right]. exists i, o. split; [done|].
  by apply swap_quote_lt_reserve.
Qed.

End path.

(** ** The tokens of a path *)
(** Over pools with distinct ids the map by id agrees with the list. *)
Lemma by_id_fold (l : list PoolInfo) (m : gmap N PoolInfo) p :
  p ∉ l -> id p ∉ (id <$> l) -> foldl (fun m p => <[id p := p]> m) m l !! id p = m !! id p.
Proof.
  revert m. induction l as [|q l IH]; intros m Hp Hid; cbn; [done|].
  rewrite fmap_cons, not_elem_of_cons in Hid. rewrite not_elem_of_cons in Hp.
  rewrite IH by tauto. rewrite lookup_insert_ne; [done|]. destruct Hid as [Hid _]. congruence.
Qed.

Lemma PoolInfoList_new_distinct (all : list PoolInfo) : NoDup (id <$> all) ->
  NoDup (id <$> pools_list (PoolInfoList_new all)) /\
  forall p, p ∈ pools_list (PoolInfoList_new all) -> by_id (PoolInfoList_new all) !! id p = Some p.
Proof.
  intros Hnd. cbn [pools_list by_id PoolInfoList_new]. split.
  - by rewrite (sort_by_perm _ all).
  - intros p Hp. rewrite (sort_by_perm _ all) in Hp. clear -Hnd Hp. unfold by_id_of. revert Hp.
    generalize (∅ : gmap N PoolInfo). induction all as [|q l IH]; intros m Hp; cbn; [by apply elem_of_nil in Hp|].
    rewrite fmap_cons in Hnd. apply list.NoDup_cons in Hnd as [Hq Hnd].
    apply elem_of_cons in Hp as [->|Hp]; [|by apply IH].
    rewrite by_id_fold; [by rewrite lookup_insert_eq| |done].
    intros Hin. apply Hq. apply list_elem_of_fmap. eauto.
Qed.

Lemma get_pair_valid p ti to tp : get_pair p ti to = Ok tp ->
  tp = mkTokenPair p ti to /\ in_index ti <> out_index to /\
  in_index ti < pool_len p /\ out_index to < pool_len p /\
  in_index ti < len (amounts (bare p)) /\ out_index to < len (amounts (bare p)).
Proof.
  unfold get_pair. destruct (N.eqb_spec (in_index ti) (out_index to)); [done|].
  destruct (N.leb_spec (pool_len p) (in_index ti)), (N.leb_spec (pool_len p) (out_index to));
    try done.
  destruct (N.leb_spec (len (amounts (bare p))) (in_index ti)),
    (N.leb_spec (len (amounts (bare p))) (out_index to)); try done.
  intros [= <-]. done.
Qed.

Lemma token_in_range p i : i < pool_len p -> exists t, token p i = Ok t.
Proof.
  intros Hi. unfold token, pool_len, len in *.
  destruct (lookup_lt_is_Some_2 (token_account_ids (bare p)) (N.to_nat i)) as [t Ht]; [lia|].
  exists t. by rewrite Ht.
Qed.

(** A valid pair reads its token ids without panicking. *)
Lemma pair_valid_tokens p : pair_valid p ->
  (exists t, token_in_id p = Ok t) /\ (exists t, token_out_id p = Ok t).
Proof.
  intros Hv. destruct (get_pair_valid _ _ _ _ Hv) as (_ & _ & Hi & Ho & _).
  unfold token_in_id, token_out_id.
  destruct (token_in_range _ _ Hi) as [t ->], (token_in_range _ _ Ho) as [t' ->]; simpl. eauto.
Qed.

Lemma push_new_elem seen t x : x ∈ push_new seen t <-> x ∈ seen \/ x = t.
Proof.
  unfold push_new. destruct (contains seen t) eqn:E; [apply contains_true in E|]; set_solver.
Qed.

Lemma push_new_NoDup seen t : NoDup seen -> NoDup (push_new seen t).
Proof.
  unfold push_new. intros Hn. destruct (contains seen t) eqn:E; [done|].
  apply contains_false in E. apply list.NoDup_app; repeat split; [done| |apply NoDup_singleton].
  intros x Hx Hx'. apply list_elem_of_singleton in Hx'. congruence.
Qed.

Lemma push_new_len seen t : len (push_new seen t) <= len seen + 1.
Proof. unfold push_new. destruct (contains seen t); rewrite ?len_app, ?len_cons, ?len_nil; lia. Qed.

Lemma push_new_seen seen t : t ∈ seen -> push_new seen t = seen.
Proof. intros Ht. unfold push_new. by rewrite (proj2 (contains_true _ _) Ht). Qed.

(** The tokens a path passes through, by its pairs. *)
Definition path_token (path : TokenPath) (t : TokenAccount) : Prop :=
  exists p, p ∈ path /\ (token_in_id p = Ok t \/ token_out_id p = Ok t).

Lemma path_token_nil t : ~ path_token [] t.
Proof. intros (p & Hp & _). by apply not_elem_of_nil in Hp. Qed.

Lemma path_token_cons p path t :
  path_token (p :: path) t <-> token_in_id p = Ok t \/ token_out_id p = Ok t \/ path_token path t.
Proof.
  unfold path_token. split.
  - intros (q & Hq & Ht). apply elem_of_cons in Hq as [->|Hq]; [tauto|]. right; right. eauto.
  - intros [Ht|[Ht|(q & Hq & Ht)]]; [exists p|exists p|exists q]; set_solver.
Qed.

Lemma all_tokens_from_spec path : Forall pair_valid path -> forall seen, NoDup seen ->
  exists ts, all_tokens_from seen path = Ok ts /\ NoDup ts /\
    forall t, t ∈ ts <-> t ∈ seen \/ path_token path t.
Proof.
  induction 1 as [|p path Hp _ IH]; intros seen Hn; cbn [all_tokens_from].
  - exists seen. split; [done|]. split; [done|]. intros t. pose proof (path_token_nil t). tauto.
  - destruct (pair_valid_tokens p Hp) as [[ti Hi] [to Ho]]. rewrite Hi, Ho. cbn [obind].
    destruct (IH (push_new (push_new seen ti) to)) as (ts & -> & Hnd & Hts).
    { by apply push_new_NoDup, push_new_NoDup. }
    exists ts. split; [done|]. split; [done|]. intros t.
    rewrite Hts, !push_new_elem, path_token_cons, Hi, Ho.
    split; intros Hx; destruct_or!; simplify_eq; tauto.
Qed.

(** Each pair starts at the token the previous one ends at. *)
Fixpoint connected (path : TokenPath) : Prop :=
  match path with
  | p :: ((q :: _) as rest) => token_out_id p = token_in_id q /\ connected rest
  | _ => True
  end.

Lemma all_tokens_from_len path : Forall pair_valid path -> connected path ->
  forall seen ts, all_tokens_from seen path = Ok ts ->
  len ts <= len seen + len path +
    (match path with p :: _ => match token_in_id p with
       Ok t => if contains seen t then 0 else 1 | _ => 0 end | [] => 0 end).
Proof.
  induction 1 as [|p path Hp Hpath IH]; intros Hc seen ts E; cbn [all_tokens_from] in E.
  - simplify_eq. rewrite len_nil. lia.
  - inv_ok. rename a into ti, a0 into to.
    assert (Hc' : connected path) by (destruct path; [done|apply Hc]).
    specialize (IH Hc' _ _ E). rewrite len_cons, Hstep.
    assert (Hl1 : len (push_new seen ti) = len seen + (if contains seen ti then 0 else 1)).
    { unfold push_new. destruct (contains seen ti); [lia|]. rewrite len_app. done. }
    pose proof (push_new_len (push_new seen ti) to) as Hl2.
    destruct path as [|q path]; [lia|].
    assert (Hq : token_in_id q = Ok to) by (destruct Hc as [<- _]; done).
    rewrite Hq, (proj2 (contains_true _ _)) in IH by (apply push_new_elem; by right). lia.
Qed.

(** ** Theorems *)
Section theorems.
Context (D : Type) `{BigDecimalLaws D}.

(** C34: On a pool as the exchange stores it and any 128-bit amount, the decimal
    [estimate_return] is the integer reference [estimate_ref] on every branch:
    the two index errors, the zero amounts, and otherwise exactly the floor of
    the constant-product quote; it never reports [Overflow] and never panics,
    however the decimal division rounds. *)
Theorem estimate_return_is_reference p ti a to :
  pool_wf p -> a <= U128_MAX -> estimate_return D p ti a to = estimate_ref p ti a to.
Proof.
  intros Hw Ha. unfold estimate_ref.
  destruct (N.eqb_spec (in_index ti) (out_index to)) as [E|Hne].
  - unfold estimate_return. by rewrite (proj2 (N.eqb_eq _ _) E).
  - destruct (amounts (bare p) !! N.to_nat (in_index ti)) as [i|] eqn:Ei,
      (amounts (bare p) !! N.to_nat (out_index to)) as [o|] eqn:Eo;
      [by apply estimate_return_quote| | |];
      unfold estimate_return, amount; rewrite (proj2 (N.eqb_neq _ _) Hne), Ei, ?Eo; done.
Qed.

(** A successful estimate leaves the pool with a positive output reserve and
    with a product of reserves that has not fallen: the estimate never promises
    the whole reserve and never more than the invariant allows. *)
Theorem estimate_keeps_product p a r :
  pool_wf (pool p) -> a <= U128_MAX -> pair_estimate D p a = Ok r ->
  exists i o, reserves p = Some (i, o) /\ r < o /\ i * o <= (i + a) * (o - r).
Proof.
  intros Hw Ha Hr.
  destruct (pair_estimate_Ok D p a r Hw Ha Hr) as (i & o & Hres & Hi & Ho & _ & -> & _).
  exists i, o. split; [done|]. set (fee := total_fee (bare (pool p))).
  pose proof (swap_quote_lt_reserve fee i o a Hi Ho).
  pose proof (swap_quote_value fee i o a Hi). split; [done|].
  rewrite N.mul_sub_distr_l. lia.
Qed.

(** A larger input never lowers the value of a path, and a path's value is
    either zero or below the output reserve of its last pool. *)
Theorem calc_value_monotone path p a b ra rb :
  path_wf (path ++ [p]) -> b <= U128_MAX -> a <= b ->
  calc_value D (path ++ [p]) a = Ok ra -> calc_value D (path ++ [p]) b = Ok rb ->
  ra <= rb /\ (rb = 0 \/ exists i o, reserves p = Some (i, o) /\ rb < o).
Proof.
  unfold calc_value. intros Hw Hb Hab Ha Hrb.
  destruct (N.eqb_spec a 0) as [->|Ha0], (N.eqb_spec b 0) as [->|Hb0]; simplify_eq; try lia.
  - split; [lia|]. by eapply calc_value_from_bounded_by_reserve.
  - split; [by eapply calc_value_from_mono|]. by eapply calc_value_from_bounded_by_reserve.
Qed.

(** Going along any path of pools and back through the same pools in reverse
    order is valued strictly below the input: the estimates show no gain where
    there is none. *)
Theorem there_and_back_loses path a r :
  path_wf path -> path <> [] -> a <> 0 -> a <= U128_MAX ->
  calc_value D (path ++ rev (map back path)) a = Ok r -> r < a.
Proof.
  intros Hw Hne Ha0 Ha. unfold calc_value. rewrite (proj2 (N.eqb_neq _ _) Ha0).
  intros E. by eapply (there_and_back_le D path Hw a r Ha0 Ha E).
Qed.
End theorems.

(** On a path of pairs obtained from [get_pair], [all_tokens] returns (no
    index panics) the tokens of the path, each exactly once, and at most one more
    than the number of hops when the path is connected. *)
Theorem all_tokens_exact path :
  Forall pair_valid path ->
  exists ts, all_tokens path = Ok ts /\ NoDup ts /\
    (forall t, t ∈ ts <-> path_token path t) /\
    (connected path -> len ts <= len path + 1).
Proof.
  intros Hv. destruct (all_tokens_from_spec path Hv [] (NoDup_nil_2)) as (ts & E & Hn & Hts).
  exists ts. split; [done|]. split; [done|]. split.
  - intros t. rewrite Hts. split; [intros [Ht|]; [by apply not_elem_of_nil in Ht|done]|by right].
  - intros Hc. pose proof (all_tokens_from_len path Hv Hc [] ts E) as Hl.
    rewrite len_nil in Hl. destruct path as [|p path]; [lia|].
    destruct (token_in_id p); simpl in Hl; lia.
Qed.

(** ** Concrete pools *)

(** The pool of the repository's own test of [estimate_return]. *)
Definition sample_pool : PoolInfo :=
  mkPoolInfo 0 (mkPoolInfoBared POOL_KIND_SIMPLE ["token_a"; "wrap.near"]%string
    [49821249287591105626851; 5375219608484426244903787070] 30 0 0) 0.
Definition sample_pair : TokenPair := mkTokenPair sample_pool (mkTokenIn 0) (mkTokenOut 1).
Definition second_pool : PoolInfo :=
  mkPoolInfo 7 (mkPoolInfoBared POOL_KIND_SIMPLE ["wrap.near"; "usdt"]%string
    [10000000000; 40000000] 25 0 0) 0.
Definition second_pair : TokenPair := mkTokenPair second_pool (mkTokenIn 0) (mkTokenOut 1).

Example sample_estimate : pair_estimate Q sample_pair 100 = Ok 10756643.
Proof. vm_compute. reflexivity. Qed.

Example sample_path_value : calc_value Q [sample_pair; second_pair] 100 = Ok 42873.
Proof. vm_compute. reflexivity. Qed.

Example sample_tokens :
  all_tokens [sample_pair; second_pair] = Ok ["token_a"; "wrap.near"; "usdt"]%string.
Proof. vm_compute. reflexivity. Qed.

Lemma sample_wf : path_wf [sample_pair; second_pair].
Proof. repeat constructor; vm_compute; done. Qed.

Lemma estimate_return_is_reference_witness :
  estimate_return Q sample_pool (mkTokenIn 0) 100 (mkTokenOut 1)
    = estimate_ref sample_pool (mkTokenIn 0) 100 (mkTokenOut 1)
  /\ estimate_ref sample_pool (mkTokenIn 0) 100 (mkTokenOut 1) = Ok 10756643.
Proof.
  split; [|vm_compute; reflexivity].
  apply (estimate_return_is_reference Q sample_pool (mkTokenIn 0) 100 (mkTokenOut 1));
    [repeat constructor; vm_compute; done | vm_compute; done].
Defined.

Lemma estimate_keeps_product_witness :
  exists i o, reserves sample_pair = Some (i, o) /\ 10756643 < o /\
    i * o <= (i + 100) * (o - 10756643).
Proof.
  apply (estimate_keeps_product Q sample_pair 100 10756643);
    [repeat constructor; vm_compute; done | vm_compute; done | apply sample_estimate].
Defined.

Lemma calc_value_monotone_witness :
  42873 <= 42873 /\
  (42873 = 0 \/ exists i o, reserves second_pair = Some (i, o) /\ 42873 < o).
Proof.
  apply (calc_value_monotone Q [sample_pair] second_pair 100 100 42873 42873);
    [apply sample_wf | vm_compute; done | lia | apply sample_path_value | apply sample_path_value].
Defined.

Lemma there_and_back_loses_witness : 98 < 100.
Proof.
  apply (there_and_back_loses Q [sample_pair; second_pair] 100 98);
    [apply sample_wf | done | done | vm_compute; done | vm_compute; reflexivity].
Defined.

Lemma all_tokens_exact_witness :
  exists ts, all_tokens [sample_pair; second_pair] = Ok ts /\ NoDup ts /\
    (forall t, t ∈ ts <-> path_token [sample_pair; second_pair] t) /\
    (connected [sample_pair; second_pair] -> len ts <= len [sample_pair; second_pair] + 1).
Proof.
  apply (all_tokens_exact [sample_pair; second_pair]).
  repeat constructor; vm_compute; reflexivity.
Defined.
