(* ===== verification/Swap.v ===== *)
(** * Swap: building and sending swap transactions

    [swap.rs] of [ref_finance] (the actions of a multi-hop swap, the
    transaction, the reading of its result), [path/preview.rs] (cost and gain
    of a candidate) and [swap_each] of [crates/arbitrage/src/lib.rs], which
    sends one candidate. *)

From Stdlib Require Import QArith.
From S2P Require Import Prelude BigDecimal NearClient Dex Storage.
Local Open Scope N_scope.

Record SwapAction : Type := mkSwapAction {
  sa_pool_id : N;
  sa_token_in : AccountId;
  sa_amount_in : option N;
  sa_token_out : AccountId;
  sa_min_amount_out : N;
}.

Record SwapArg : Type := mkSwapArg { initial_in : N; min_out : N }.

Definition METHOD_NAME : string := "swap".

(** The fold of [build_swap_actions]: the actions of the rest of the path and
    its final estimate. *)
Fixpoint build_actions_from {T} `{TokenPairLike T} (first_id last_id : N) (arg : SwapArg)
    (prev_out : N) (path : list T) : outcome Error (list SwapAction * N) :=
  match path with
  | [] => Ok ([], prev_out)
  | tp :: rest =>
      let is_first := tp_pool_id tp =? first_id in
      let min_out := if tp_pool_id tp =? last_id then min_out arg else 0 in
      let? next_out := tp_estimate_return tp prev_out in
      let? ti := tp_token_in_id tp in
      let? to := tp_token_out_id tp in
      let action :=
        mkSwapAction (tp_pool_id tp) ti (if is_first then Some prev_out else None) to min_out in
      let? r := build_actions_from first_id last_id arg next_out rest in
      Ok (action :: r.1, r.2)
  end.

Definition build_swap_actions {T} `{TokenPairLike T} (path : list T) (arg : SwapArg)
    : outcome Error (list SwapAction * N) :=
  match path with
  | [] => Ok ([], initial_in arg)
  | first :: _ =>
      let first_id := tp_pool_id first in
      let last_id := match list.last path with Some l => tp_pool_id l | None => first_id end in
      build_actions_from first_id last_id arg (initial_in arg) path
  end.

(** A dex error as the [anyhow] error it is converted into. *)
Definition dex_error (e : Error) : anyhow :=
  match e with
  | TokenNotFound name => Anyhow ("TokenNotFound: " +:+ name) []
  | SwapSameToken => Anyhow "SwapSameToken" []
  | ZeroAmount => Anyhow "ZeroAmount" []
  | Overflow => Anyhow "Overflow" []
  | OutOfIndexOfPools i => Anyhow "OutOfIndexOfPools" [i]
  | OutOfIndexOfTokens i => Anyhow "OutOfIndexOfTokens" [i]
  | DifferentLengthOfTokens a b => Anyhow "DifferentLengthOfTokens" [a; b]
  | UnmatchedTokenPath _ _ => Anyhow "UnmatchedTokenPath" []
  | PathTooLong hops max => Anyhow "PathTooLong" [hops; max]
  end.
Definition dex_result {A} (o : outcome Error A) : outcome anyhow A :=
  match o with Ok a => Ok a | Err e => Err (dex_error e) | Panic => Panic end.

(** The serialised actions. *)
Definition action_json (a : SwapAction) : json :=
  JObj [("pool_id", JU32 (sa_pool_id a)); ("token_in", JStr (sa_token_in a));
        ("amount_in", match sa_amount_in a with Some n => JU128 n | None => JNull end);
        ("token_out", JStr (sa_token_out a));
        ("min_amount_out", JU128 (sa_min_amount_out a))]%string.
Definition swap_args (actions : list SwapAction) : json :=
  JObj [("actions"%string, JArr (map action_json actions))].

Definition run_swap (D : Type) `{BigDecimal D} {P} (is_mainnet : bool) (w : Wallet)
    (path : TokenPath) (arg : SwapArg) : prog P (TxId * N) :=
  let! r := lift (dex_result (build_swap_actions (H := TokenPair_like D) path arg)) in
  let! tx := exec_contract w (CONTRACT_ADDRESS is_mainnet) METHOD_NAME (swap_args r.1) 1 in
  lift (Ok (tx, r.2)).

(** [extract_actual_output]: the [U128] returned by a successful swap. *)
Definition extract_actual_output {P} `{FromSlice P N} (status : FinalExecutionStatus P)
    : outcome anyhow N :=
  match status with
  | SuccessValue bytes => decode bytes
  | Failure msg => Err (Anyhow ("Transaction failed: " +:+ msg) [])
  | NotStarted | Started => Err (Anyhow "Transaction did not complete" [])
  end.

(** ** preview.rs *)
Definition HEAD : N := 2700 * 10 ^ 9.
Definition BY_STEP : N := 2600 * 10 ^ 9.

Definition checked_u64 {E} (x : N) : outcome E N := if x <=? U64_MAX then Ok x else Panic.
Definition checked_u128 {E} (x : N) : outcome E N := if x <=? U128_MAX then Ok x else Panic.

Definition cost {E} (gas_price depth : N) : outcome E N :=
  let? steps := checked_u64 (BY_STEP * depth) in
  let? gas := checked_u64 (HEAD + steps) in
  checked_u128 (gas * gas_price).

(** [gain]: the profit after gas, zero when there is none. *)
Definition gain {E} (gas_price depth input_value output_value : N) : outcome E N :=
  if output_value <=? input_value then Ok 0
  else
    let g := output_value - input_value in
    let? c := cost gas_price depth in
    if g <=? c then Ok 0 else Ok (g - c).

(** [Preview<M>]; [input_value] is the yocto amount its [M] converts into. *)
Record Preview : Type := mkPreview {
  pv_gas_price : N;
  pv_input_value : N;
  pv_token : TokenAccount;
  pv_depth : N;
  pv_output_value : N;
  pv_gain : N;
}.

Definition Preview_new {E} (gas_price input_value : N) (token : TokenAccount)
    (depth output_value : N) : outcome E Preview :=
  let? g := gain gas_price depth input_value output_value in
  Ok (mkPreview gas_price input_value token depth output_value g).

Record PreviewList : Type := mkPreviewList {
  pl_input_value : N;
  pl_list : list Preview;
  pl_total_gain : N;
}.

Definition PreviewList_new {E} (input_value : N) (previews : list Preview)
    : outcome E (option PreviewList) :=
  let? total_gain := checked_u128 (sumN (map pv_gain previews)) in
  Ok (Some (mkPreviewList input_value previews total_gain)).

(** ** arbitrage: sending one candidate *)
Definition swap_each (D : Type) `{BigDecimal D} {P} (is_mainnet : bool) (w : Wallet)
    (preview : Preview) (path : TokenPath) : prog P unit :=
  let arg := mkSwapArg (pv_input_value preview)
               (saturating_sub (pv_output_value preview) (pv_gain preview)) in
  let! r := run_swap D is_mainnet w path arg in
  let! _ := wait_for_success r.1 in
  lift (Ok tt).

(** ** Lemmas on the built actions *)
Section build.
Context {T : Type} `{TokenPairLike T}.

Lemma build_actions_from_length first last arg path : forall v acts out,
  build_actions_from first last arg v path = Ok (acts, out) -> length acts = length path.
Proof.
  induction path as [|tp path IH]; intros v acts out E; cbn [build_actions_from] in E; inv_ok.
  - done.
  - destruct a2 as [acts out']. cbn. f_equal. eauto.
Qed.

(** The actions follow the path, and the amounts are decided by the pool ids. *)
Definition action_of (first last : N) (arg : SwapArg) (a : SwapAction) (tp : T) : Prop :=
  sa_pool_id a = tp_pool_id tp /\
  tp_token_in_id tp = Ok (sa_token_in a) /\ tp_token_out_id tp = Ok (sa_token_out a) /\
  (sa_amount_in a = None <-> tp_pool_id tp <> first) /\
  sa_min_amount_out a = (if tp_pool_id tp =? last then min_out arg else 0).

Lemma build_actions_from_actions first last arg path : forall v acts out,
  build_actions_from first last arg v path = Ok (acts, out) ->
  Forall2 (action_of first last arg) acts path.
Proof.
  induction path as [|tp path IH]; intros v acts out E; cbn [build_actions_from] in E; inv_ok.
  - constructor.
  - destruct a2 as [acts out']. cbn in *. constructor; [|by eauto].
    unfold action_of; cbn. repeat split; try done.
    + destruct (N.eqb_spec (tp_pool_id tp) first); [done|]. intros _. done.
    + destruct (N.eqb_spec (tp_pool_id tp) first); done.
Qed.

Lemma build_actions_from_head first last arg v tp path acts out :
  build_actions_from first last arg v (tp :: path) = Ok (acts, out) ->
  tp_pool_id tp = first -> exists a rest, acts = a :: rest /\ sa_amount_in a = Some v.
Proof.
  cbn [build_actions_from]. intros E <-. rewrite N.eqb_refl in E. inv_ok. eauto.
Qed.

End build.

(** ** The estimate of the actions is the value of the path *)
Section value.
Context (D : Type) `{BigDecimalLaws D}.

Lemma build_actions_from_value first last arg path : path_wf path -> forall v acts out,
  v <= U128_MAX ->
  build_actions_from (H := TokenPair_like D) first last arg v path = Ok (acts, out) ->
  calc_value_from D v path = Ok out.
Proof.
  induction 1 as [|p path Hp Hw IH]; intros v acts out Hv E;
    cbn [build_actions_from calc_value_from] in *; inv_ok; [done|].
  cbn [tp_estimate_return TokenPair_like] in Hstep. rewrite Hstep. cbn [obind].
  assert (Ha : a <= U128_MAX) by (by eapply pair_estimate_bound).
  destruct a2 as [acts out']. cbn [fst snd] in *.
  destruct (N.eqb_spec a 0) as [->|Ha0]; [|by eauto].
  destruct path as [|q path]; cbn [build_actions_from] in Hstep2; inv_ok; [done|].
  apply Forall_cons_1 in Hw as [Hq _].
  exfalso. by apply (pair_estimate_pos D q 0 a Hq).
Qed.

Lemma build_actions_from_succeeds first last arg path :
  path_wf path -> Forall pair_valid path -> forall v out,
  v <= U128_MAX -> v <> 0 -> out <> 0 -> calc_value_from D v path = Ok out ->
  exists acts, build_actions_from (H := TokenPair_like D) first last arg v path = Ok (acts, out).
Proof.
  induction 1 as [|p path Hp Hw IH]; intros Hval v out Hv Hv0 Hout E;
    cbn [build_actions_from calc_value_from] in *; inv_ok; [by eexists|].
  apply Forall_cons_1 in Hval as [Hvp Hval].
  cbn [tp_estimate_return TokenPair_like tp_token_in_id tp_token_out_id]. rewrite Hstep.
  destruct (pair_valid_tokens p Hvp) as [[ti ->] [to ->]]. cbn [obind].
  destruct (N.eqb_spec a 0) as [->|Ha0]; simplify_eq.
  destruct (IH Hval a out) as [acts ->]; [by eapply pair_estimate_bound|done..|].
  cbn. by eexists.
Qed.

End value.

(** ** Cost and gain *)
Lemma cost_value {E} gas_price depth :
  depth <= U16_MAX -> gas_price <= U64_MAX ->
  cost (E:=E) gas_price depth = Ok ((HEAD + BY_STEP * depth) * gas_price).
Proof.
  intros Hd Hg. unfold cost, checked_u64, checked_u128.
  assert (Hs : BY_STEP * depth <= BY_STEP * U16_MAX) by (apply N.mul_le_mono_l; done).
  assert (Hu : BY_STEP * U16_MAX + HEAD <= U64_MAX) by (vm_compute; done).
  rewrite (proj2 (N.leb_le _ U64_MAX)) by lia. cbn [obind].
  rewrite (proj2 (N.leb_le _ U64_MAX)) by lia. cbn [obind].
  rewrite (proj2 (N.leb_le _ U128_MAX)); [done|].
  apply (N.le_trans _ (U64_MAX * U64_MAX)); [|vm_compute; done].
  apply N.mul_le_mono; lia.
Qed.

(** A positive gain is the output less the input and the cost. *)
Lemma gain_positive {E} gas_price depth i o g c :
  cost (E:=E) gas_price depth = Ok c -> gain (E:=E) gas_price depth i o = Ok g -> 0 < g ->
  o = i + c + g.
Proof.
  unfold gain. intros Hc Hg Hpos.
  destruct (N.leb_spec o i) as [?|Hoi]; simplify_eq; [lia|]. rewrite Hc in Hg. cbn in Hg.
  destruct (N.leb_spec (o - i) c); simplify_eq; lia.
Qed.

(** ** Theorems *)
Section shape.
Context {T : Type} `{TokenPairLike T}.

Lemma build_swap_actions_inv path arg acts out first l :
  build_swap_actions path arg = Ok (acts, out) -> head path = Some first ->
  list.last path = Some l ->
  build_actions_from (tp_pool_id first) (tp_pool_id l) arg (initial_in arg) path = Ok (acts, out).
Proof. destruct path as [|x path]; [done|]. unfold build_swap_actions. intros E [= ->] Hl. by rewrite Hl in E. Qed.

Lemma build_head_last path arg acts out first l :
  build_swap_actions path arg = Ok (acts, out) -> head path = Some first ->
  list.last path = Some l ->
  exists a z, head acts = Some a /\ list.last acts = Some z /\
    sa_amount_in a = Some (initial_in arg) /\ sa_min_amount_out z = min_out arg /\
    action_of (tp_pool_id first) (tp_pool_id l) arg a first /\
    action_of (tp_pool_id first) (tp_pool_id l) arg z l.
Proof.
  intros E Hf Hl. pose proof (build_swap_actions_inv _ _ _ _ _ _ E Hf Hl) as Hb.
  pose proof (build_actions_from_actions _ _ _ _ _ _ _ Hb) as H2.
  destruct path as [|x path]; [done|]. injection Hf as ->.
  destruct (build_actions_from_head _ _ _ _ _ _ _ _ Hb eq_refl) as (a & rest & -> & Ha).
  exists a. rewrite list.last_lookup in Hl.
  assert (Hlen : length (a :: rest) = length (first :: path)) by (by eapply Forall2_length).
  destruct (Forall2_lookup_r _ _ _ _ _ H2 Hl) as (z & Hz & Haz).
  exists z. rewrite list.last_lookup, Hlen. apply Forall2_cons_1 in H2 as [H2 _].
  repeat (split; [done|]). split; [|done].
  destruct Haz as (_ & _ & _ & _ & ->). by rewrite N.eqb_refl.
Qed.

(** On a path through distinct pools the built actions are a well-formed
    multi-hop swap: only the first action carries the input amount, the others
    continue from the previous output, and only the last one demands [min_out]. *)
Theorem build_swap_actions_shape path arg acts out :
  build_swap_actions path arg = Ok (acts, out) -> NoDup (map tp_pool_id path) ->
  forall k a, acts !! k = Some a ->
    sa_amount_in a = (if (k =? 0)%nat then Some (initial_in arg) else None) /\
    sa_min_amount_out a = (if (S k =? length path)%nat then min_out arg else 0).
Proof.
  intros E Hnd k a Hk. destruct path as [|first path]; [unfold build_swap_actions in E; by simplify_eq|].
  destruct (list.last (first :: path)) as [l|] eqn:Hl;
    [|apply list.last_None in Hl; done].
  pose proof (build_swap_actions_inv _ _ _ _ _ _ E eq_refl Hl) as Hb.
  destruct (build_head_last _ _ _ _ _ _ E eq_refl Hl) as (a0 & z & Ha0 & _ & Hin & _ & _ & _).
  pose proof (build_actions_from_actions _ _ _ _ _ _ _ Hb) as H2.
  destruct (Forall2_lookup_l _ _ _ _ _ H2 Hk) as (tp & Htp & _ & _ & _ & Hnone & Hmin).
  assert (Hinj : forall i j x y, (first :: path) !! i = Some x -> (first :: path) !! j = Some y ->
                 tp_pool_id x = tp_pool_id y -> i = j).
  { intros i j x y Hi Hj Hxy. eapply (NoDup_lookup _ i j (tp_pool_id x) Hnd);
      rewrite list_lookup_fmap; [by rewrite Hi|by rewrite Hj, Hxy]. }
  split.
  - destruct (Nat.eqb_spec k 0) as [->|Hk0].
    + destruct acts as [|b acts]; [done|]. by simplify_eq/=.
    + apply Hnone. intros Heq. apply Hk0. by eapply (Hinj k O).
  - rewrite Hmin. rewrite list.last_lookup in Hl. cbn in Hl.
    destruct (N.eqb_spec (tp_pool_id tp) (tp_pool_id l)) as [Heq|Hne];
      destruct (Nat.eqb_spec (S k) (length (first :: path))) as [Hkl|Hkl]; try done.
    + exfalso. apply Hkl. rewrite (Hinj k (length path) tp l Htp Hl Heq). done.
    + exfalso. apply Hne. cbn in Hkl. injection Hkl as ->. by simplify_eq.
Qed.

(** The first and last actions are recognised by pool id, not by position:
    on a path of two or more hops that ends in the pool it began with, the first
    action already demands the final [min_out], and the last one carries an
    explicit amount instead of continuing from the previous output. *)
Theorem build_swap_actions_repeated_pool path arg acts out first l :
  build_swap_actions path arg = Ok (acts, out) -> head path = Some first ->
  list.last path = Some l -> tp_pool_id first = tp_pool_id l ->
  exists a z, head acts = Some a /\ list.last acts = Some z /\
    sa_min_amount_out a = min_out arg /\ sa_amount_in z <> None.
Proof.
  intros E Hf Hl Heq.
  destruct (build_head_last _ _ _ _ _ _ E Hf Hl)
    as (a & z & Ha & Hz & _ & _ & (_ & _ & _ & _ & Hmin) & (_ & _ & _ & Hnone & _)).
  exists a, z. split; [done|]. split; [done|]. split.
  - rewrite Hmin. by rewrite (proj2 (N.eqb_eq _ _) Heq).
  - intros Hn. apply Hnone in Hn. done.
Qed.
End shape.

Section theorems.
Context (D : Type) `{BigDecimalLaws D}.

(** The estimate a swap is sent with is the value the path was chosen for:
    [build_swap_actions] succeeds with a positive estimate exactly when
    [calc_value] gives that value. *)
Theorem build_matches_calc_value path arg out :
  path_wf path -> Forall pair_valid path ->
  initial_in arg <> 0 -> initial_in arg <= U128_MAX -> out <> 0 ->
  calc_value D path (initial_in arg) = Ok out <->
  exists acts, build_swap_actions (H := TokenPair_like D) path arg = Ok (acts, out).
Proof.
  intros Hw Hv Hi0 Hi Ho. unfold calc_value. rewrite (proj2 (N.eqb_neq _ _) Hi0).
  destruct path as [|first path].
  - cbn. split; [intros; simplify_eq; by eexists|by intros (? & ?); simplify_eq].
  - unfold build_swap_actions. split.
    + intros E. by apply build_actions_from_succeeds.
    + intros (acts & E). by eapply build_actions_from_value.
Qed.

(** A candidate is sent in at most one transaction, built for its input and for
    the output less the gain. *)
Lemma swap_each_sends {P} is_mainnet w pv path : path <> [] ->
  wpx (P:=P) (swap_each D is_mainnet w pv path) (fun l r =>
    (l = [] /\ forall u, r <> Ok u) \/
    exists acts out, l = [{| ec_signer := signer w; ec_receiver := CONTRACT_ADDRESS is_mainnet;
                             ec_method := METHOD_NAME; ec_args := swap_args acts; ec_deposit := 1 |}] /\
      build_swap_actions (H := TokenPair_like D) path
        (mkSwapArg (pv_input_value pv) (saturating_sub (pv_output_value pv) (pv_gain pv))) = Ok (acts, out)).
Proof.
  intros Hne. unfold swap_each, run_swap. apply wpx_bind, wpx_bind, wpx_lift.
  destruct (build_swap_actions path _) as [[acts out]| |] eqn:Hb; cbn [dex_result]; [|by left|by left].
  apply wpx_bind, wpx_exec_contract. intros [tx|e|] He; [|right; by exists acts, out|done].
  apply wpx_lift. cbn [app]. apply wpx_bind, wpx_wait.
  intros [v|e|] Hv; [apply wpx_lift| |done]; right; by exists acts, out.
Qed.

(** A positive gain leaves the input and the cost as the least output. *)
Lemma gain_positive_cost {E} gas_price depth i o g :
  gain (E:=E) gas_price depth i o = Ok g -> 0 < g -> exists c, cost (E:=E) gas_price depth = Ok c /\ o = i + c + g.
Proof.
  intros Hg Hpos. destruct (cost gas_price depth) as [c|e|] eqn:Hc.
  - exists c. split; [done|]. by eapply gain_positive.
  - unfold gain in Hg. destruct (o <=? i); [injection Hg as <-; lia|]. by rewrite Hc in Hg.
  - unfold gain in Hg. destruct (o <=? i); [injection Hg as <-; lia|]. by rewrite Hc in Hg.
Qed.

(** An arbitrage candidate with a positive gain is sent in at most one
    transaction, exactly one when it reports success: a [swap] call with a
    deposit of one yocto whose first action spends the candidate's input and
    whose last action accepts no less than that input plus the gas cost. *)
Theorem swap_each_covers_cost {P} is_mainnet w gas_price i tok depth o c pv path t
    (r : outcome anyhow unit) :
  cost (E:=anyhow) gas_price depth = Ok c ->
  Preview_new (E:=anyhow) gas_price i tok depth o = Ok pv -> 0 < pv_gain pv -> path <> [] ->
  run (P:=P) (swap_each D is_mainnet w pv path) t r ->
  (execs t = [] /\ forall u, r <> Ok u) \/
  exists acts a z,
    execs t = [{| ec_signer := signer w; ec_receiver := CONTRACT_ADDRESS is_mainnet;
                  ec_method := METHOD_NAME; ec_args := swap_args acts; ec_deposit := 1 |}] /\
    head acts = Some a /\ list.last acts = Some z /\
    sa_amount_in a = Some i /\ sa_min_amount_out z = i + c.
Proof.
  intros Hc Hpv Hg Hne Hrun. unfold Preview_new in Hpv. inv_ok. cbn in Hg.
  pose proof (gain_positive _ _ _ _ _ _ Hc Hstep Hg) as Ho.
  apply swap_each_sends in Hrun as [Hrun|(acts & out & Ht & Hb)]; [by left|right|done].
  destruct (list.last path) as [l|] eqn:Hl; [|apply list.last_None in Hl; done].
  destruct (head path) as [f|] eqn:Hf; [|destruct path; done].
  destruct (build_head_last (H := TokenPair_like D) _ _ _ _ _ _ Hb Hf Hl)
    as (a0 & z & Ha & Hz & Hin & Hmin & _).
  exists acts, a0, z. repeat (split; [done|]). rewrite Hmin. cbn. unfold saturating_sub. lia.
Qed.
End theorems.

(** ** Concrete swaps *)
Definition sample_arg : SwapArg := mkSwapArg 100 42000.

Example sample_actions :
  build_swap_actions (H := TokenPair_like Q) [sample_pair; second_pair] sample_arg =
  Ok ([mkSwapAction 0 "token_a" (Some 100) "wrap.near" 0;
       mkSwapAction 7 "wrap.near" None "usdt" 42000], 42873)%string.
Proof. vm_compute. reflexivity. Qed.

Example same_pool_actions :
  build_swap_actions (H := TokenPair_like Q) [sample_pair; back sample_pair] sample_arg =
  Ok ([mkSwapAction 0 "token_a" (Some 100) "wrap.near" 42000;
       mkSwapAction 0 "wrap.near" (Some 10756643) "token_a" 42000], 99)%string.
Proof. vm_compute. reflexivity. Qed.

(** A node that accepts everything. *)
Definition agreeable (r : Req) (s : unit) : Resp unit r * unit :=
  (match r return Resp unit r with
   | RView _ _ _ => inl tt
   | RExec _ _ _ _ _ | RTransfer _ _ _ => inl 1
   | RWait _ => inl (SuccessValue tt)
   | RNative _ => inl 0
   | RWaitExecuted _ => inl EmptyString
   | RRecordTrade _ _ _ _ _ _ _ => inl tt
   | RNow | RLoadLastHarvest | RLoadHarvestTime => 0
   | RStoreLastHarvest _ | RStoreHarvestTime _ | RLock _ | RUnlock _
   | RCacheDecimals _ _ | RReplaceDecimals _ | RSleep _ | RReloadConfig => tt
   | RPredict _ _ => inl tt
   | RSetting _ => 0
   | RDb _ => inl tt
   | RUtcNow => 0%Z
   | RReadInputs => (0, 0)
   | RGasPrice => inl 100000000
   | RDecimals _ => None
   end, s).

Definition sample_wallet : Wallet := {| account_id := "me.near"; signer := "me.near" |}.
Definition sample_preview : Preview :=
  mkPreview 100000000 100 "token_a" 2 (10 ^ 24) (10 ^ 24 - 100 - 790000000000000000000).

Lemma build_swap_actions_shape_witness :
  let a := mkSwapAction 7 "wrap.near" None "usdt" 42000 in
  sa_amount_in a = (if (1 =? 0)%nat then Some 100 else None) /\
  sa_min_amount_out a = (if (2 =? 2)%nat then 42000 else 0).
Proof.
  apply (build_swap_actions_shape (H := TokenPair_like Q) [sample_pair; second_pair] sample_arg
    _ 42873 sample_actions); [apply (bool_decide_unpack _); vm_compute; exact I | reflexivity].
Defined.

Lemma build_swap_actions_repeated_pool_witness :
  exists a z, head [mkSwapAction 0 "token_a" (Some 100) "wrap.near" 42000;
       mkSwapAction 0 "wrap.near" (Some 10756643) "token_a" 42000]%string = Some a /\
    list.last [mkSwapAction 0 "token_a" (Some 100) "wrap.near" 42000;
       mkSwapAction 0 "wrap.near" (Some 10756643) "token_a" 42000]%string = Some z /\
    sa_min_amount_out a = 42000 /\ sa_amount_in z <> None.
Proof.
  apply (build_swap_actions_repeated_pool (H := TokenPair_like Q)
    [sample_pair; back sample_pair] sample_arg _ 99 sample_pair (back sample_pair));
    [apply same_pool_actions | reflexivity | reflexivity | reflexivity].
Defined.

Lemma build_matches_calc_value_witness :
  calc_value Q [sample_pair; second_pair] 100 = Ok 42873 <->
  exists acts, build_swap_actions (H := TokenPair_like Q) [sample_pair; second_pair] sample_arg
    = Ok (acts, 42873).
Proof.
  apply (build_matches_calc_value Q [sample_pair; second_pair] sample_arg 42873);
    [apply sample_wf | repeat constructor; vm_compute; reflexivity | done | vm_compute; done | done].
Defined.

Lemma swap_each_covers_cost_witness :
  let t := (interp agreeable (swap_each Q true sample_wallet sample_preview
              [sample_pair; second_pair]) tt).1.2 in
  (execs t = [] /\ forall u : unit, Ok (E:=anyhow) tt <> Ok u) \/
  exists acts a z,
    execs t = [{| ec_signer := "me.near"; ec_receiver := CONTRACT_ADDRESS true;
                  ec_method := METHOD_NAME; ec_args := swap_args acts; ec_deposit := 1 |}] /\
    head acts = Some a /\ list.last acts = Some z /\
    sa_amount_in a = Some 100 /\ sa_min_amount_out z = 100 + 790000000000000000000.
Proof.
  intros t.
  apply (swap_each_covers_cost Q true sample_wallet 100000000 100 "token_a" 2 (10 ^ 24)
    790000000000000000000 sample_preview [sample_pair; second_pair] t (Ok tt));
    [vm_compute; reflexivity | vm_compute; reflexivity | vm_compute; reflexivity | done |].
  assert (E : (interp agreeable (swap_each Q true sample_wallet sample_preview
    [sample_pair; second_pair]) tt).1.1 = Ok tt) by (vm_compute; reflexivity).
  rewrite <- E. apply interp_run.
Defined.
