(* ===== verification/Search.v ===== *)
(** * Search: the three-point search for the best input

    [search_best_path] and [rate_average] of [ref_finance/path.rs], generic in
    the amount type [M] as in the code, with the amount types the program and
    its tests use: [MicroNear] ([types/micro_near.rs]), [MilliNear]
    ([types/milli_near.rs]) and plain [u128].

    The loop is run with fuel; the theorems give a fuel that is always enough. *)

From S2P Require Import Prelude.
Local Open Scope N_scope.

(** ** Amount types

    The trait bounds of [search_best_path]; the operators are the type's own,
    with their panics. *)
Class Amount (M : Type) := {
  am_eq_dec :: EqDecision M;
  am_countable :: Countable M;
  am_ltb : M -> M -> bool;
  am_zero : M;
  am_one : M;
  am_add : M -> M -> outcome anyhow M;
  am_sub : M -> M -> outcome anyhow M;
  am_mul : M -> M -> outcome anyhow M;
  am_div : M -> M -> outcome anyhow M;
  am_from : N -> M;
  am_into : M -> N;
}.

Definition am_leb {M} `{Amount M} (x y : M) : bool := negb (am_ltb y x).
Definition am_eqb {M} `{Amount M} (x y : M) : bool := bool_decide (x = y).
Definition am_max {M} `{Amount M} (x y : M) : M := if am_leb x y then y else x.
Definition am_min {M} `{Amount M} (x y : M) : M := if am_leb x y then x else y.

Definition fits {E} (max x : N) : outcome E N := if x <=? max then Ok x else Panic.

(** *** milli_near.rs *)
Module MilliNear.
Record t := mk { raw : N }.
#[global] Instance t_eq_dec : EqDecision t.
Proof. solve_decision. Defined.
#[global] Instance t_countable : Countable t.
Proof. apply (inj_countable' raw mk). by intros []. Defined.

Definition ONE_MILLINEAR : N := 10 ^ 21.
Definition milli_from_yocto (yocto : N) : t := mk (yocto / ONE_MILLINEAR mod 2 ^ 32).
Definition milli_to_yocto (m : t) : N := raw m * ONE_MILLINEAR.
Definition milli_from_near (near : N) : outcome anyhow t :=
  let? y := fits U128_MAX (near * 10 ^ 24) in Ok (milli_from_yocto y).

Definition milli_add (a b : t) : outcome anyhow t :=
  let? x := fits U32_MAX (raw a + raw b) in Ok (mk x).
Definition milli_sub (a b : t) : outcome anyhow t :=
  if raw a <? raw b then Ok (mk 0) else Ok (mk (raw a - raw b)).
(** The product is computed in 64 bits and cast with [as u32]. *)
Definition milli_mul (a b : t) : outcome anyhow t := Ok (mk (raw a * raw b mod 2 ^ 32)).
Definition milli_div (a b : t) : outcome anyhow t :=
  if raw b =? 0 then Ok (mk 0) else Ok (mk (raw a / raw b)).

#[global] Instance amount : Amount t := {
  am_ltb a b := raw a <? raw b;
  am_zero := mk 0;
  am_one := mk 1;
  am_add := milli_add;
  am_sub := milli_sub;
  am_mul := milli_mul;
  am_div := milli_div;
  am_from := milli_from_yocto;
  am_into := milli_to_yocto;
}.
End MilliNear.

(** *** micro_near.rs *)
Module MicroNear.
Record t := mk { raw : N }.
#[global] Instance t_eq_dec : EqDecision t.
Proof. solve_decision. Defined.
#[global] Instance t_countable : Countable t.
Proof. apply (inj_countable' raw mk). by intros []. Defined.

Definition ONE_MICRONEAR : N := 10 ^ 18.
(** The quotient is cast with [as u64]. *)
Definition micro_from_yocto (yocto : N) : t := mk (yocto / ONE_MICRONEAR mod 2 ^ 64).
Definition micro_to_yocto (m : t) : N := raw m * ONE_MICRONEAR.
Definition micro_from_near (near : N) : outcome anyhow t :=
  let? y := fits U128_MAX (near * 10 ^ 24) in Ok (micro_from_yocto y).
Definition micro_from_milli (v : MilliNear.t) : t := micro_from_yocto (MilliNear.milli_to_yocto v).

Definition micro_add (a b : t) : outcome anyhow t :=
  let? x := fits U64_MAX (raw a + raw b) in Ok (mk x).
Definition micro_sub (a b : t) : outcome anyhow t :=
  if raw a <? raw b then Ok (mk 0) else Ok (mk (raw a - raw b)).
Definition micro_mul (a b : t) : outcome anyhow t :=
  let? x := fits U64_MAX (raw a * raw b) in Ok (mk x).
Definition micro_div (a b : t) : outcome anyhow t :=
  if raw b =? 0 then Ok (mk 0) else Ok (mk (raw a / raw b)).

#[global] Instance amount : Amount t := {
  am_ltb a b := raw a <? raw b;
  am_zero := mk 0;
  am_one := mk 1;
  am_add := micro_add;
  am_sub := micro_sub;
  am_mul := micro_mul;
  am_div := micro_div;
  am_from := micro_from_yocto;
  am_into := micro_to_yocto;
}.
End MicroNear.

(** *** u128 *)
Module U128.
Record t := mk { raw : N }.
#[global] Instance t_eq_dec : EqDecision t.
Proof. solve_decision. Defined.
#[global] Instance t_countable : Countable t.
Proof. apply (inj_countable' raw mk). by intros []. Defined.

Definition add (a b : t) : outcome anyhow t :=
  let? x := fits U128_MAX (raw a + raw b) in Ok (mk x).
Definition sub (a b : t) : outcome anyhow t :=
  let? x := expect (checked_sub (raw a) (raw b)) in Ok (mk x).
Definition mul (a b : t) : outcome anyhow t :=
  let? x := fits U128_MAX (raw a * raw b) in Ok (mk x).
Definition div (a b : t) : outcome anyhow t :=
  if raw b =? 0 then Panic else Ok (mk (raw a / raw b)).

#[global] Instance amount : Amount t := {
  am_ltb a b := raw a <? raw b;
  am_zero := mk 0;
  am_one := mk 1;
  am_add := add;
  am_sub := sub;
  am_mul := mul;
  am_div := div;
  am_from := mk;
  am_into := raw;
}.
End U128.

(** ** path.rs *)

(** [rate_average]: the geometric mean of the two amounts, rounded down. *)
Definition rate_average {M} `{Amount M} (min max : M) : outcome anyhow N :=
  let min := am_into min in
  let max := am_into max in
  if min =? 0 then Panic
  else fits U128_MAX (N.sqrt (max / min) * min).

Section search.
Context {M : Type} `{Amount M} {A : Type}.
Context (calc_res : M -> outcome anyhow (option A)) (get_gain : A -> N).

Abbreviation cache_t := (gmap M (option A)) (only parsing).

(** The gain of a result, converted into [M] as the code does. *)
Definition gain_of (r : option A) : M :=
  match r with Some a => am_from (get_gain a) | None => am_zero end.

(** The cached evaluation of one input: only successes enter the cache. *)
Definition evaluate (cache : cache_t) (input : M) : outcome anyhow (M * cache_t) :=
  match cache !! input with
  | Some r => Ok (gain_of r, cache)
  | None =>
      let? result := calc_res input in
      Ok (gain_of result, <[input := result]> cache)
  end.

Record points := mkPoints { in_a : M; in_b : M; in_c : M }.

(** The next three points, [None] when all gains are zero. *)
Definition next_points (min max : M) (s : points) (a b c : M) : outcome anyhow (option points) :=
  let m2 : M := am_from 2 in
  if am_eqb a b && am_eqb b c && am_eqb a am_zero then Ok None
  else if am_leb b a && am_leb c a then
    let? d := am_sub (in_b s) (in_a s) in
    let? step := am_div d m2 in
    if am_ltb min (in_a s) then
      let? c' := am_add (in_a s) step in
      let? a' := am_sub (in_a s) step in
      Ok (Some (mkPoints (am_max min a') (in_a s) c'))
    else
      let? b' := am_add (in_a s) step in
      let? step2 := am_mul m2 step in
      let? c' := am_add (in_a s) step2 in
      Ok (Some (mkPoints (in_a s) b' c'))
  else if am_leb a b && am_leb c b then
    let? d := am_sub (in_b s) (in_a s) in
    let? step := am_div d m2 in
    let? a' := am_sub (in_b s) step in
    let? d' := am_sub (in_c s) (in_b s) in
    let? step' := am_div d' m2 in
    let? c' := am_add (in_b s) step' in
    Ok (Some (mkPoints a' (in_b s) c'))
  else
    let? d := am_sub (in_c s) (in_b s) in
    let? step := am_div d m2 in
    if am_ltb (in_c s) max then
      let? a' := am_sub (in_c s) step in
      let? c' := am_add (in_c s) step in
      Ok (Some (mkPoints a' (in_c s) (am_min max c')))
    else
      let? b' := am_sub (in_c s) step in
      let? step2 := am_mul m2 step in
      let? a' := am_sub (in_c s) step2 in
      Ok (Some (mkPoints a' b' (in_c s))).

(** The loop; [None] when the fuel runs out. *)
Fixpoint search_loop (fuel : nat) (min max : M) (cache : cache_t) (s : points)
    : option (outcome anyhow (option A)) :=
  if am_ltb (in_a s) (in_c s) then
    match fuel with
    | O => None
    | S fuel =>
        match evaluate cache (in_a s) with
        | Ok (a, cache) =>
            match evaluate cache (in_b s) with
            | Ok (b, cache) =>
                match evaluate cache (in_c s) with
                | Ok (c, cache) =>
                    match next_points min max s a b c with
                    | Ok None => Some (Ok None)
                    | Ok (Some s') => search_loop fuel min max cache s'
                    | Err e => Some (Err e)
                    | Panic => Some Panic
                    end
                | Err e => Some (Err e)
                | Panic => Some Panic
                end
            | Err e => Some (Err e)
            | Panic => Some Panic
            end
        | Err e => Some (Err e)
        | Panic => Some Panic
        end
    end
  else Some (Ok (match cache !! in_a s with Some r => r | None => None end)).

Definition search_best_path (fuel : nat) (min average max : M)
    : option (outcome anyhow (option A)) :=
  search_loop fuel min max ∅ (mkPoints min average max).
End search.

(** ** The cache *)
Section cache.
Context {M : Type} `{Amount M} {A : Type}.
Context (calc_res : M -> outcome anyhow (option A)) (get_gain : A -> N).

Definition cache_ok (cache : gmap M (option A)) : Prop :=
  forall x r, cache !! x = Some r -> calc_res x = Ok r.

Lemma evaluate_Ok cache x r : cache_ok cache -> calc_res x = Ok r ->
  exists cache', evaluate calc_res get_gain cache x = Ok (gain_of get_gain r, cache') /\
    cache_ok cache' /\ cache ⊆ cache' /\ cache' !! x = Some r /\
    (forall y q, cache' !! y = Some q -> cache !! y = Some q \/ (y = x /\ q = r)).
Proof.
  intros Hc Hx. unfold evaluate. destruct (cache !! x) as [r'|] eqn:E.
  - assert (r' = r) as -> by (apply Hc in E; congruence).
    exists cache. split; [done|]. split; [done|]. split; [done|]. split; [done|]. by left.
  - rewrite Hx. cbn [obind]. exists (<[x:=r]> cache). split; [done|].
    split; [|split; [by apply insert_subseteq|split; [by rewrite lookup_insert_eq|]]].
    + intros y q Hy. destruct (decide (y = x)) as [->|Hne].
      * rewrite lookup_insert_eq in Hy. congruence.
      * rewrite lookup_insert_ne in Hy by done. by apply Hc.
    + intros y q Hy. destruct (decide (y = x)) as [->|Hne].
      * rewrite lookup_insert_eq in Hy. simplify_eq. by right.
      * rewrite lookup_insert_ne in Hy by done. by left.
Qed.

(** One iteration: the three points are evaluated and cached. *)
Lemma search_loop_step fuel min max cache s ra rb rc :
  cache_ok cache -> am_ltb (in_a s) (in_c s) = true ->
  calc_res (in_a s) = Ok ra -> calc_res (in_b s) = Ok rb -> calc_res (in_c s) = Ok rc ->
  exists cache', cache_ok cache' /\ cache ⊆ cache' /\
    cache' !! in_a s = Some ra /\ cache' !! in_b s = Some rb /\ cache' !! in_c s = Some rc /\
    (forall y q, cache' !! y = Some q -> cache !! y = Some q \/ q = ra \/ q = rb \/ q = rc) /\
    search_loop calc_res get_gain (S fuel) min max cache s =
    match next_points min max s (gain_of get_gain ra) (gain_of get_gain rb) (gain_of get_gain rc) with
    | Ok None => Some (Ok None)
    | Ok (Some s') => search_loop calc_res get_gain fuel min max cache' s'
    | Err e => Some (Err e)
    | Panic => Some Panic
    end.
Proof.
  intros Hc Hlt Ha Hb Hcc.
  destruct (evaluate_Ok cache (in_a s) ra Hc Ha) as (c1 & E1 & H1 & S1 & L1 & O1).
  destruct (evaluate_Ok c1 (in_b s) rb H1 Hb) as (c2 & E2 & H2 & S2 & L2 & O2).
  destruct (evaluate_Ok c2 (in_c s) rc H2 Hcc) as (c3 & E3 & H3 & S3 & L3 & O3).
  exists c3. split; [done|].
  split; [by etrans; [exact S1|etrans; [exact S2|exact S3]]|].
  split; [eapply lookup_weaken; [exact L1|by etrans]|].
  split; [eapply lookup_weaken; [exact L2|done]|]. split; [done|]. split.
  - intros y q Hy. apply O3 in Hy as [Hy|[_ ->]]; [|tauto].
    apply O2 in Hy as [Hy|[_ ->]]; [|tauto]. apply O1 in Hy as [Hy|[_ ->]]; tauto.
  - cbn [search_loop]. by rewrite Hlt, E1, E2, E3.
Qed.
(** A result of the search was computed for some input. *)
Lemma evaluate_keeps cache x g cache' : cache_ok cache -> evaluate calc_res get_gain cache x = Ok (g, cache') ->
  cache_ok cache'.
Proof.
  intros Hc. unfold evaluate. destruct (cache !! x); [by intros [= _ <-]|].
  destruct (calc_res x) as [r|e|] eqn:Hx; cbn [obind]; [|done..]. intros [= _ <-] y q.
  destruct (decide (y = x)) as [->|Hne]; [rewrite lookup_insert_eq; by intros [= <-]|].
  rewrite lookup_insert_ne by done. apply Hc.
Qed.

Lemma search_loop_computed fuel min max : forall cache s r, cache_ok cache ->
  search_loop calc_res get_gain fuel min max cache s = Some (Ok (Some r)) -> exists x, calc_res x = Ok (Some r).
Proof.
  induction fuel as [|fuel IH]; intros cache s r Hc; cbn [search_loop].
  - destruct (am_ltb _ _); [done|]. destruct (cache !! in_a s) as [q|] eqn:Hq; [|done].
    intros [= ->]. exists (in_a s). by apply Hc.
  - destruct (am_ltb _ _).
    + destruct (evaluate _ _ cache (in_a s)) as [[a c1]|e|] eqn:E1; [|done..]. apply evaluate_keeps in E1; [|done].
      destruct (evaluate _ _ c1 (in_b s)) as [[b c2]|e|] eqn:E2; [|done..]. apply evaluate_keeps in E2; [|done].
      destruct (evaluate _ _ c2 (in_c s)) as [[c c3]|e|] eqn:E3; [|done..]. apply evaluate_keeps in E3; [|done].
      destruct (next_points min max s a b c) as [[s'|]|e|]; [|done..]. by apply IH.
    + destruct (cache !! in_a s) as [q|] eqn:Hq; [|done]. intros [= ->]. exists (in_a s). by apply Hc.
Qed.
End cache.

(** ** The search at [MicroNear] *)
Section micro.
Context {A : Type} (calc_res : MicroNear.t -> outcome anyhow (option A)) (get_gain : A -> N).

(** The conversion [2.into()] takes yoctoNEAR, so the divisor of the steps is 0
    and every step is 0. *)
Lemma micro_two : (am_from 2 : MicroNear.t) = MicroNear.mk 0.
Proof. reflexivity. Qed.

Lemma micro_add_0 x : MicroNear.raw x <= U64_MAX ->
  MicroNear.micro_add x (MicroNear.mk 0) = Ok x.
Proof.
  destruct x as [x]. unfold MicroNear.micro_add, fits; cbn. intros Hx. rewrite N.add_0_r.
  by rewrite (proj2 (N.leb_le _ _) Hx).
Qed.
Lemma micro_sub_0 x : MicroNear.micro_sub x (MicroNear.mk 0) = Ok x.
Proof.
  destruct x as [x]. unfold MicroNear.micro_sub; cbn.
  destruct (N.ltb_spec x 0); [lia|]. by rewrite N.sub_0_r.
Qed.
Lemma micro_div_0 x : MicroNear.micro_div x (MicroNear.mk 0) = Ok (MicroNear.mk 0).
Proof. done. Qed.
Lemma micro_sub_total x y : exists d, MicroNear.micro_sub x y = Ok d.
Proof. unfold MicroNear.micro_sub. destruct (_ <? _); eauto. Qed.

(** The best of the three initial points, earlier points first. *)
Definition best_of_three (ra rb rc : option A) : option A :=
  let a := gain_of (M:=MicroNear.t) get_gain ra in
  let b := gain_of get_gain rb in
  let c := gain_of get_gain rc in
  if am_eqb a b && am_eqb b c && am_eqb a am_zero then None
  else if am_leb b a && am_leb c a then ra
  else if am_leb a b && am_leb c b then rb
  else rc.

Lemma micro_next_points (min max : MicroNear.t) s a b c :
  in_a s = min -> in_c s = max ->
  MicroNear.raw (in_a s) <= U64_MAX -> MicroNear.raw (in_b s) <= U64_MAX ->
  next_points (M:=MicroNear.t) min max s a b c =
  Ok (if am_eqb a b && am_eqb b c && am_eqb a am_zero then None
      else let x := if am_leb b a && am_leb c a then min
                    else if am_leb a b && am_leb c b then in_b s else max in
           Some (mkPoints x x x)).
Proof.
  intros <- <- Ha Hb. unfold next_points. rewrite micro_two.
  destruct (_ && _ && _); [done|].
  destruct (am_leb b a && am_leb c a); [|destruct (am_leb a b && am_leb c b)];
    cbn [am_sub am_div am_add am_mul am_ltb MicroNear.amount].
  - destruct (micro_sub_total (in_b s) (in_a s)) as [d ->]. cbn [obind].
    rewrite micro_div_0. cbn [obind]. rewrite N.ltb_irrefl, !micro_add_0 by done. cbn [obind].
    change (MicroNear.micro_mul (MicroNear.mk 0) (MicroNear.mk 0))
      with (Ok (E:=anyhow) (MicroNear.mk 0)). cbn [obind]. by rewrite micro_add_0.
  - destruct (micro_sub_total (in_b s) (in_a s)) as [d ->].
    destruct (micro_sub_total (in_c s) (in_b s)) as [d' ->]. cbn [obind].
    rewrite !micro_div_0. cbn [obind]. rewrite micro_sub_0. cbn [obind].
    by rewrite micro_add_0 by done.
  - destruct (micro_sub_total (in_c s) (in_b s)) as [d ->]. cbn [obind].
    rewrite micro_div_0. cbn [obind]. rewrite N.ltb_irrefl, !micro_sub_0. cbn [obind].
    change (MicroNear.micro_mul (MicroNear.mk 0) (MicroNear.mk 0))
      with (Ok (E:=anyhow) (MicroNear.mk 0)). cbn [obind]. by rewrite micro_sub_0.
Qed.

Lemma search_loop_done fuel min max cache (x : MicroNear.t) r : cache !! x = Some r ->
  search_loop calc_res get_gain fuel min max cache (mkPoints x x x) = Some (Ok r).
Proof.
  intros Hx. destruct fuel; cbn [search_loop in_a in_c am_ltb MicroNear.amount];
    rewrite N.ltb_irrefl, Hx; done.
Qed.

(** The search ends after one iteration, whatever the evaluation answers. *)
Lemma search_micro_ends fuel min average max : MicroNear.raw min <= U64_MAX -> MicroNear.raw average <= U64_MAX ->
  MicroNear.raw max <= U64_MAX ->
  is_Some (search_best_path calc_res get_gain (S fuel) min average max).
Proof.
  intros Hm Ha Hx. unfold search_best_path. cbn [search_loop in_a in_b in_c]. destruct (am_ltb min max) eqn:Hlt; [|done].
  destruct (evaluate _ _ ∅ min) as [[a c1]|e|]; [|done..].
  destruct (evaluate _ _ c1 average) as [[b c2]|e|]; [|done..].
  destruct (evaluate _ _ c2 max) as [[c c3]|e|]; [|done..].
  rewrite micro_next_points by done. destruct (_ && _ && _); [done|].
  assert (Hdone : forall x cache, is_Some (search_loop calc_res get_gain fuel min max cache (mkPoints x x x))).
  { intros x cache. destruct fuel; cbn [search_loop in_a in_c am_ltb MicroNear.amount]; by rewrite N.ltb_irrefl. }
  destruct (_ && _); [apply Hdone|]. destruct (_ && _); apply Hdone.
Qed.

(** At [MicroNear], the amount type the arbitrage loop searches with, the
    search evaluates nothing but its three initial points and returns the best of
    them after a single iteration: [2.into()] converts 2 yoctoNEAR into 0
    microNEAR, so the halved steps that should narrow the range are all zero. *)
Theorem search_micro_best_of_three fuel min average max ra rb rc :
  am_ltb min max = true ->
  MicroNear.raw min <= U64_MAX -> MicroNear.raw average <= U64_MAX ->
  calc_res min = Ok ra -> calc_res average = Ok rb -> calc_res max = Ok rc ->
  search_best_path calc_res get_gain (S fuel) min average max
    = Some (Ok (best_of_three ra rb rc)).
Proof.
  intros Hlt Hm Ha Hra Hrb Hrc. unfold search_best_path.
  destruct (search_loop_step calc_res get_gain fuel min max ∅ (mkPoints min average max) ra rb rc)
    as (cache & _ & _ & La & Lb & Lc & _ & ->); [|done..|].
  { intros x r Hx. by rewrite lookup_empty in Hx. }
  rewrite micro_next_points by done. unfold best_of_three.
  destruct (_ && _ && _); [done|].
  destruct (_ && _); [by apply search_loop_done|].
  destruct (_ && _); by apply search_loop_done.
Qed.
End micro.

(** ** The search at [u128], where 2 is 2 *)
Section u128.
Import U128.

Definition U127 : N := 2 ^ 127.

Lemma u128_add x y : x + y <= U128_MAX -> add (mk x) (mk y) = Ok (mk (x + y)).
Proof. intros Hx. unfold add, fits; cbn [raw]. by rewrite (proj2 (N.leb_le _ _) Hx). Qed.
Lemma u128_sub x y : y <= x -> sub (mk x) (mk y) = Ok (mk (x - y)).
Proof. intros Hx. unfold sub, checked_sub; cbn [raw]. by rewrite (proj2 (N.leb_le _ _) Hx). Qed.
Lemma u128_mul x y : x * y <= U128_MAX -> mul (mk x) (mk y) = Ok (mk (x * y)).
Proof. intros Hx. unfold mul, fits; cbn [raw]. by rewrite (proj2 (N.leb_le _ _) Hx). Qed.
Lemma u128_half x : div (mk x) (mk 2) = Ok (mk (x / 2)).
Proof. done. Qed.
Lemma half_bounds d : 2 * (d / 2) <= d < 2 * (d / 2) + 2.
Proof.
  split; [apply N.Div0.mul_div_le|].
  pose proof (N.mul_succ_div_gt d 2 ltac:(lia)) as Hd. rewrite N.mul_succ_r in Hd. exact Hd.
Qed.

(** The points stay ordered and inside the range. *)
Definition ordered (min max : t) (s : points (M:=t)) : Prop :=
  raw min <= raw (in_a s) <= raw (in_b s) /\ raw (in_b s) <= raw (in_c s) <= raw max.

(** Twice the width, plus one while the middle point touches an end. *)
Definition measure (s : points (M:=t)) : N :=
  2 * (raw (in_c s) - raw (in_a s)) +
  (if (raw (in_a s) =? raw (in_b s)) || (raw (in_b s) =? raw (in_c s)) then 1 else 0).

Definition among (x : t) (s : points (M:=t)) : Prop := x = in_a s \/ x = in_b s \/ x = in_c s.

(** A point of [s] with the greatest of the three gains survives in [s']. *)
Definition survives (s s' : points (M:=t)) (ga gb gc : t) : Prop :=
  exists x g, among x s' /\
    raw ga <= raw g /\ raw gb <= raw g /\ raw gc <= raw g /\
    ((x = in_a s /\ g = ga) \/ (x = in_b s /\ g = gb) \/ (x = in_c s /\ g = gc)).

Lemma u128_eqb (x y : t) : am_eqb x y = (raw x =? raw y).
Proof.
  unfold am_eqb. destruct x as [x], y as [y]; cbn.
  destruct (N.eqb_spec x y) as [->|Hne].
  - by rewrite bool_decide_eq_true.
  - rewrite bool_decide_eq_false. congruence.
Qed.

Lemma measure_lt (a b c a' b' c' : N) :
  a < c -> a' <= c' ->
  (c' - a' < c - a \/
   (c' - a' = c - a /\ (a = b \/ b = c) /\ a' < b' < c')) ->
  measure (mkPoints (mk a') (mk b') (mk c')) < measure (mkPoints (mk a) (mk b) (mk c)).
Proof.
  intros H1 H2 H3. unfold measure; cbn.
  destruct (N.eqb_spec a' b'), (N.eqb_spec b' c'), (N.eqb_spec a b), (N.eqb_spec b c);
    cbn iota beta delta [orb]; lia.
Qed.

(** The three moves of the search.  Moving down from the lowest point can
    underflow when that point is not [min] and lies below half the gap to the
    middle; it cannot when [max] is at most three times [min]. *)
Lemma move_to_a mi ma a b c h : mi <= a <= b -> b <= c <= ma -> ma <= U127 -> a < c ->
  2 * h <= b - a < 2 * h + 2 ->
  let next := if mi <? a
     then let? c' := add (mk a) (mk h) in let? a' := sub (mk a) (mk h) in
          Ok (Some (mkPoints (am_max (mk mi) a') (mk a) c'))
     else let? b' := add (mk a) (mk h) in let? h2 := mul (mk 2) (mk h) in
          let? c' := add (mk a) h2 in Ok (Some (mkPoints (mk a) b' c')) in
  (next = Panic /\ 3 * mi < ma) \/
  exists s', next = Ok (E:=anyhow) (Some s') /\
    ordered (mk mi) (mk ma) s' /\ measure s' < measure (mkPoints (mk a) (mk b) (mk c)) /\
    among (mk a) s'.
Proof.
  intros H1 H2 Hma Hlt Hh next. assert (HU : U127 + U127 = U128_MAX + 1) by reflexivity.
  unfold next. clear next. destruct (N.ltb_spec mi a) as [Hmi|Hmi].
  - rewrite u128_add by lia. cbn [obind]. destruct (N.le_gt_cases h a) as [Hha|Hha].
    + right. rewrite u128_sub by lia. cbn [obind]. eexists. split; [done|].
      unfold am_max, am_leb; cbn [am_ltb amount raw].
      destruct (N.ltb_spec (a - h) mi); cbn [negb]; (split; [unfold ordered; cbn; lia|]);
        (split; [apply measure_lt; lia|]); unfold among; cbn; tauto.
    + left. unfold sub, checked_sub; cbn [raw].
      rewrite (proj2 (N.leb_gt _ _) Hha). split; [done|lia].
  - right. rewrite u128_add, u128_mul by lia. cbn [obind]. rewrite u128_add by lia. cbn [obind].
    eexists. split; [done|]. split; [unfold ordered; cbn; lia|].
    split; [apply measure_lt; lia|]. unfold among; cbn; tauto.
Qed.

Lemma move_to_b mi ma a b c h1 h2 : mi <= a <= b -> b <= c <= ma -> ma <= U127 -> a < c ->
  2 * h1 <= b - a < 2 * h1 + 2 -> 2 * h2 <= c - b < 2 * h2 + 2 ->
  exists s', (let? a' := sub (mk b) (mk h1) in let? c' := add (mk b) (mk h2) in
     Ok (Some (mkPoints a' (mk b) c'))) = Ok (E:=anyhow) (Some s') /\
    ordered (mk mi) (mk ma) s' /\ measure s' < measure (mkPoints (mk a) (mk b) (mk c)) /\
    among (mk b) s'.
Proof.
  intros H1 H2 Hma Hlt Hh1 Hh2. assert (HU : U127 + U127 = U128_MAX + 1) by reflexivity.
  rewrite u128_sub, u128_add by lia. cbn [obind]. eexists. split; [done|].
  split; [unfold ordered; cbn; lia|]. split; [apply measure_lt; lia|]. unfold among; cbn; tauto.
Qed.

Lemma move_to_c mi ma a b c h : mi <= a <= b -> b <= c <= ma -> ma <= U127 -> a < c ->
  2 * h <= c - b < 2 * h + 2 ->
  exists s', (if c <? ma
     then let? a' := sub (mk c) (mk h) in let? c' := add (mk c) (mk h) in
          Ok (Some (mkPoints a' (mk c) (am_min (mk ma) c')))
     else let? b' := sub (mk c) (mk h) in let? h2 := mul (mk 2) (mk h) in
          let? a' := sub (mk c) h2 in Ok (Some (mkPoints a' b' (mk c)))) = Ok (E:=anyhow) (Some s') /\
    ordered (mk mi) (mk ma) s' /\ measure s' < measure (mkPoints (mk a) (mk b) (mk c)) /\
    among (mk c) s'.
Proof.
  intros H1 H2 Hma Hlt Hh. assert (HU : U127 + U127 = U128_MAX + 1) by reflexivity.
  destruct (N.ltb_spec c ma) as [Hc|Hc].
  - rewrite u128_add, u128_sub by lia. cbn [obind]. eexists. split; [done|].
    unfold am_min, am_leb; cbn [am_ltb amount raw].
    destruct (N.ltb_spec (c + h) ma); cbn [negb]; (split; [unfold ordered; cbn; lia|]);
      (split; [apply measure_lt; lia|]); unfold among; cbn; tauto.
  - rewrite u128_sub, u128_mul by lia. cbn [obind]. rewrite u128_sub by lia. cbn [obind].
    eexists. split; [done|]. split; [unfold ordered; cbn; lia|].
    split; [apply measure_lt; lia|]. unfold among; cbn; tauto.
Qed.

Lemma u128_next_points (min max : t) s ga gb gc :
  raw max <= U127 -> ordered min max s -> raw (in_a s) < raw (in_c s) ->
  (next_points min max s ga gb gc = Ok None /\ raw ga = 0 /\ raw gb = 0 /\ raw gc = 0) \/
  (next_points min max s ga gb gc = Panic /\ 3 * raw min < raw max) \/
  exists s', next_points min max s ga gb gc = Ok (Some s') /\
    ordered min max s' /\ measure s' < measure s /\ survives s s' ga gb gc.
Proof.
  intros Hmax Hord Hlt. destruct s as [[a] [b] [c]], min as [mi], max as [ma],
    ga as [ga], gb as [gb], gc as [gc]. unfold ordered in Hord. cbn in *.
  destruct Hord as [H1 H2]. unfold next_points, am_leb. rewrite !u128_eqb.
  cbn [am_ltb am_add am_sub am_mul am_div am_from am_zero amount raw in_a in_b in_c].
  rewrite !u128_sub by lia. cbn [obind]. rewrite !u128_half. cbn [obind].
  destruct (_ && _ && _) eqn:Ez.
  { left. rewrite !andb_true_iff, !N.eqb_eq in Ez. repeat split; lia. }
  right. clear Ez.
  destruct (negb (ga <? gb) && negb (ga <? gc)) eqn:Ea;
    [|destruct (negb (gb <? ga) && negb (gb <? gc)) eqn:Eb];
    rewrite ?andb_true_iff, ?andb_false_iff, ?negb_true_iff, ?negb_false_iff,
      ?N.ltb_lt, ?N.ltb_ge in Ea;
    try (rewrite ?andb_true_iff, ?andb_false_iff, ?negb_true_iff, ?negb_false_iff,
      ?N.ltb_lt, ?N.ltb_ge in Eb).
  - destruct (move_to_a mi ma a b c _ H1 H2 Hmax Hlt (half_bounds _))
      as [[Hs Hp]|(s' & Hs & Ho & Hm & Hx)]; rewrite Hs; [by left|right].
    exists s'. do 3 (split; [done|]). exists (mk a), (mk ga). cbn.
    repeat split; try done; try lia; tauto.
  - destruct (move_to_b mi ma a b c _ _ H1 H2 Hmax Hlt (half_bounds _) (half_bounds _))
      as (s' & Hs & Ho & Hm & Hx). right. exists s'. rewrite Hs. do 3 (split; [done|]). exists (mk b), (mk gb). cbn.
    repeat split; try done; try lia; tauto.
  - destruct (move_to_c mi ma a b c _ H1 H2 Hmax Hlt (half_bounds _))
      as (s' & Hs & Ho & Hm & Hx). right. exists s'. rewrite Hs. do 3 (split; [done|]). exists (mk c), (mk gc). cbn.
    repeat split; try done; try lia; tauto.
Qed.

Section best.
Context {A : Type} (calc_res : t -> outcome anyhow (option A)) (get_gain : A -> N).
Context (f : t -> option A) (min max : t).
Context (Hcalc : forall x, raw min <= raw x <= raw max -> calc_res x = Ok (f x)).
Context (Hmax : raw max <= U127).

Definition gain_raw (r : option A) : N := raw (gain_of get_gain r).

(** The best point seen so far is one of the current points. *)
Definition best_kept (cache : gmap t (option A)) (s : points (M:=t)) : Prop :=
  cache = ∅ \/
  exists p, among p s /\ cache !! p = Some (f p) /\
    forall y q, cache !! y = Some q -> gain_raw q <= gain_raw (f p).

Definition good_result (cache : gmap t (option A)) (s : points (M:=t)) (q : option A) : Prop :=
  (q = None \/ exists x, raw min <= raw x <= raw max /\ q = f x) /\
  (forall y p, cache !! y = Some p -> gain_raw p <= gain_raw q) /\
  (raw (in_a s) < raw (in_c s) -> forall x, among x s -> gain_raw (f x) <= gain_raw q).

Lemma ordered_range s x : ordered min max s -> among x s -> raw min <= raw x <= raw max.
Proof. unfold ordered. intros [? ?] [->|[->| ->]]; lia. Qed.

Lemma ordered_collapsed s x y : ordered min max s -> ~ raw (in_a s) < raw (in_c s) ->
  among x s -> among y s -> x = y.
Proof.
  unfold ordered, among. intros Ho Hn Hx Hy.
  assert (forall u v : t, raw u = raw v -> u = v) as Hinj by (intros [] []; cbn; congruence).
  apply Hinj. destruct Hx as [->|[->| ->]], Hy as [->|[->| ->]]; lia.
Qed.

Lemma best_kept_step cache cache' s s' :
  best_kept cache s -> cache ⊆ cache' ->
  (forall x, among x s -> cache' !! x = Some (f x)) ->
  (forall y q, cache' !! y = Some q -> cache !! y = Some q \/ exists x, among x s /\ q = f x) ->
  survives s s' (gain_of get_gain (f (in_a s))) (gain_of get_gain (f (in_b s)))
    (gain_of get_gain (f (in_c s))) ->
  best_kept cache' s'.
Proof.
  intros Hb Hsub Hin Hout (x & g & Hx' & Ha & Hbb & Hc & Hg). right. exists x.
  assert (Hxs : among x s) by (unfold among; naive_solver).
  assert (Hgx : raw g = gain_raw (f x)) by (unfold gain_raw; naive_solver).
  split; [done|]. split; [by apply Hin|].
  assert (Hpts : forall z, among z s -> gain_raw (f z) <= gain_raw (f x)).
  { intros z Hz. rewrite <- Hgx. unfold gain_raw. destruct Hz as [->|[->| ->]]; done. }
  intros y q Hy. apply Hout in Hy as [Hy|(z & Hz & ->)]; [|by apply Hpts].
  destruct Hb as [->|(p & Hp & Hcp & Hle)]; [by rewrite lookup_empty in Hy|].
  etransitivity; [by apply (Hle y)|]. by apply Hpts.
Qed.

Lemma search_loop_u128 fuel : forall cache s,
  measure s < N.of_nat fuel -> ordered min max s -> cache_ok calc_res cache -> best_kept cache s ->
  exists r, search_loop calc_res get_gain fuel min max cache s = Some r /\
    ((r = Panic /\ 3 * raw min < raw max) \/ exists q, r = Ok q /\ good_result cache s q).
Proof.
  induction fuel as [|fuel IH]; intros cache s Hm Ho Hc Hb; [lia|].
  destruct (am_ltb (in_a s) (in_c s)) eqn:Hlt.
  - pose proof Hlt as Hlt'. apply N.ltb_lt in Hlt'.
    assert (Hpt : forall x, among x s -> calc_res x = Ok (f x))
      by (intros x Hx; apply Hcalc; by apply (ordered_range s)).
    destruct (search_loop_step calc_res get_gain fuel min max cache s _ _ _ Hc Hlt
      (Hpt (in_a s) ltac:(by left)) (Hpt (in_b s) ltac:(right; by left))
      (Hpt (in_c s) ltac:(right; by right)))
      as (cache' & Hc' & Hsub & La & Lb & Lc & Hout & ->).
    assert (Hin : forall x, among x s -> cache' !! x = Some (f x))
      by (intros x [->|[->| ->]]; done).
    assert (Hbnd : forall q s', good_result cache' s' q -> good_result cache s q).
    { intros q s' (Hq & Hcq & _). split; [done|]. split.
      - intros y p Hy. apply (Hcq y). by eapply lookup_weaken.
      - intros _ x Hx. by apply (Hcq x), Hin. }
    destruct (u128_next_points min max s (gain_of get_gain (f (in_a s)))
      (gain_of get_gain (f (in_b s))) (gain_of get_gain (f (in_c s))) Hmax Ho Hlt')
      as [(-> & Ha & Hbz & Hcz)|[[-> Hp]|(s' & -> & Ho' & Hm' & Hs)]].
    + eexists. split; [done|]. right. exists None. split; [done|]. split; [by left|].
      assert (Hz : forall x, among x s -> gain_raw (f x) <= gain_raw None)
        by (unfold gain_raw; intros x [->|[->| ->]]; cbn; lia).
      split; [|by intros _].
      intros y p Hy. destruct Hb as [->|(z & Hz' & _ & Hle)]; [by rewrite lookup_empty in Hy|].
      etransitivity; [by apply (Hle y)|by apply Hz].
    + eexists. split; [done|]. by left.
    + destruct (IH cache' s') as (r & -> & Hr); [lia|done|done| |].
      { eapply best_kept_step; [exact Hb|done|done| |exact Hs].
        intros y q Hy. apply Hout in Hy as [?|[->|[->| ->]]]; [by left|right..];
          eexists; (split; [|reflexivity]); unfold among; tauto. }
      exists r. split; [done|]. destruct Hr as [?|(q & -> & Hq)]; [by left|right]. eauto.
  - cbn [search_loop]. rewrite Hlt. eexists. split; [done|]. right. eexists. split; [done|].
    apply N.ltb_ge in Hlt.
    destruct Hb as [->|(p & Hp & Hcp & Hle)].
    + rewrite lookup_empty. split; [by left|]. split; [by intros y p Hy; rewrite lookup_empty in Hy|lia].
    + assert (p = in_a s) as -> by (eapply ordered_collapsed; eauto; [lia|by left]).
      cbn [am_eq_dec am_countable amount]. rewrite Hcp.
      split; [right; eexists; split; [|done]; by apply (ordered_range s)|].
      split; [done|lia].
Qed.
End best.

(** With an amount type in which 2 is 2 ([u128], as in the tests), the search
    always ends within a number of iterations linear in the range.  Its result is
    [calc_res] at some point of the range, or none, and has a gain no lower than
    the lower end, the average and the upper end.  The only other way to end is a
    subtraction below zero, which cannot happen when the upper end is at most
    three times the lower one. *)
Theorem search_u128_finds_best {A} (calc_res : t -> outcome anyhow (option A)) get_gain f
    min average max :
  raw min <= raw average <= raw max -> raw min < raw max -> raw max <= U127 ->
  (forall x, raw min <= raw x <= raw max -> calc_res x = Ok (f x)) ->
  exists r,
    search_best_path calc_res get_gain (N.to_nat (2 * (raw max - raw min) + 2)) min average max
      = Some r /\
    ((r = Panic /\ 3 * raw min < raw max) \/
     exists q, r = Ok q /\
       (q = None \/ exists x, raw min <= raw x <= raw max /\ q = f x) /\
       gain_raw get_gain (f min) <= gain_raw get_gain q /\
       gain_raw get_gain (f average) <= gain_raw get_gain q /\
       gain_raw get_gain (f max) <= gain_raw get_gain q).
Proof.
  intros Havg Hlt Hmax Hcalc. unfold search_best_path.
  destruct (search_loop_u128 calc_res get_gain f min max Hcalc Hmax
    (N.to_nat (2 * (raw max - raw min) + 2)) ∅ (mkPoints min average max)) as (r & -> & Hr).
  - unfold measure; cbn. destruct (_ || _); lia.
  - unfold ordered; cbn; lia.
  - intros x q Hx. by rewrite lookup_empty in Hx.
  - by left.
  - exists r. split; [done|]. destruct Hr as [?|(q & -> & Hq & _ & Hpts)]; [by left|right].
    exists q. split; [done|]. split; [done|]. specialize (Hpts Hlt).
    repeat split; apply Hpts; unfold among; cbn; tauto.
Qed.
End u128.

(** ** The average *)

(** The starting average of the search lies between its ends, and its square
    is at most the product of the ends: the integer geometric mean. *)
Theorem rate_average_between {M} `{Amount M} (min max : M) :
  0 < am_into min -> am_into min <= am_into max -> am_into max <= U128_MAX ->
  exists r, rate_average min max = Ok r /\
    am_into min <= r <= am_into max /\ r * r <= am_into min * am_into max.
Proof.
  intros Hmin Hle Hmax. unfold rate_average, fits.
  set (mi := am_into min) in *. set (ma := am_into max) in *.
  rewrite (proj2 (N.eqb_neq mi 0)) by lia.
  pose proof (N.Div0.mul_div_le ma mi) as Hd.
  destruct (N.sqrt_spec' (ma / mi)) as [Hs _].
  assert (Hq1 : 1 <= ma / mi) by (apply N.div_le_lower_bound; lia).
  assert (Hs1 : 1 <= N.sqrt (ma / mi)) by (apply (N.sqrt_le_square (ma / mi) 1); lia).
  set (s := N.sqrt (ma / mi)) in *. set (q := ma / mi) in *.
  assert (Hsq : s <= q) by nia.
  assert (Hr : s * mi <= ma) by nia.
  rewrite (proj2 (N.leb_le _ _)) by lia. exists (s * mi). split; [done|]. split; [nia|].
  apply (N.le_trans _ (q * mi * mi)); nia.
Qed.

(** ** Concrete searches *)

(** A gain with its peak at 30, as in the repository's tests. *)
Definition peak (x : N) : N := if x <=? 30 then 10 * x else if x <=? 60 then 600 - 10 * x else 0.
Definition peak_u128 (x : U128.t) : outcome anyhow (option N) := Ok (Some (peak (U128.raw x))).
(** The same in microNEAR. *)
Definition peak_micro (x : MicroNear.t) : outcome anyhow (option N) :=
  Ok (Some (peak (MicroNear.raw x) * MicroNear.ONE_MICRONEAR)).

Example u128_finds_peak :
  search_best_path peak_u128 id 20 (U128.mk 1) (U128.mk 40) (U128.mk 100) = Some (Ok (Some 300)).
Proof. vm_compute. reflexivity. Qed.

Example micro_misses_peak :
  search_best_path peak_micro id 20 (MicroNear.mk 1) (MicroNear.mk 40) (MicroNear.mk 100)
    = Some (Ok (Some (200 * MicroNear.ONE_MICRONEAR))).
Proof. vm_compute. reflexivity. Qed.

(** The underflow: a narrow peak just above the lower end. *)
Example u128_underflow :
  search_best_path (fun x => Ok (Some (if U128.raw x =? 2 then 9 else if U128.raw x =? 100 then 5 else 0)))
    id 20 (U128.mk 1) (U128.mk 1) (U128.mk 100) = Some Panic.
Proof. vm_compute. reflexivity. Qed.

Lemma search_micro_best_of_three_witness :
  search_best_path peak_micro id 20 (MicroNear.mk 1) (MicroNear.mk 40) (MicroNear.mk 100)
    = Some (Ok (best_of_three id (Some (10 * MicroNear.ONE_MICRONEAR))
        (Some (200 * MicroNear.ONE_MICRONEAR)) (Some 0))).
Proof.
  apply (search_micro_best_of_three peak_micro id 19 (MicroNear.mk 1) (MicroNear.mk 40)
    (MicroNear.mk 100)); vm_compute; done.
Defined.

Lemma search_u128_finds_best_witness :
  exists r,
    search_best_path peak_u128 id 122%nat (U128.mk 40) (U128.mk 50) (U128.mk 100) = Some r /\
    ((r = Panic /\ 3 * 40 < 100) \/
     exists q, r = Ok q /\
       (q = None \/ exists x, 40 <= U128.raw x <= 100 /\ q = Some (peak (U128.raw x))) /\
       gain_raw id (Some (peak 40)) <= gain_raw id q /\
       gain_raw id (Some (peak 50)) <= gain_raw id q /\
       gain_raw id (Some (peak 100)) <= gain_raw id q).
Proof.
  apply (search_u128_finds_best peak_u128 id (fun x => Some (peak (U128.raw x)))
    (U128.mk 40) (U128.mk 50) (U128.mk 100));
    [vm_compute; split; done | vm_compute; done | vm_compute; done | intros x _; reflexivity].
Defined.

Lemma rate_average_between_witness :
  exists r, rate_average (MicroNear.mk 1) (MicroNear.mk 100) = Ok r /\
    am_into (MicroNear.mk 1) <= r <= am_into (MicroNear.mk 100) /\
    r * r <= am_into (MicroNear.mk 1) * am_into (MicroNear.mk 100).
Proof.
  apply (rate_average_between (MicroNear.mk 1) (MicroNear.mk 100)); vm_compute; done.
Defined.
