(* ===== verification/Units.v ===== *)
(** * Units: typed prices, amounts and values

    [crates/common/src/types]: [near_units.rs] (prices, yocto and NEAR amounts
    and values), [token_types.rs] (exchange rates, token amounts with decimals)
    and [token_smallest_units.rs].  Every type is a newtype around a decimal;
    the operators check for zero divisors where the code does.  The owned and
    the borrowed form of an operator are one definition. *)

From Stdlib Require Import QArith Qabs Qpower Lqa.
From S2P Require Import Prelude BigDecimal.
Local Open Scope N_scope.

Definition YOCTO_PER_NEAR : N := 1000000000000000000000000.

Section units.
Context {D : Type} `{BigDecimal D}.

Record TokenPrice := mkTokenPrice { price_bd : D }.
Record YoctoAmount := mkYoctoAmount { yocto_amount_bd : D }.
Record NearAmount := mkNearAmount { near_amount_bd : D }.
Record YoctoValue := mkYoctoValue { yocto_value_bd : D }.
Record NearValue := mkNearValue { near_value_bd : D }.
Record TokenSmallestUnits := mkTokenSmallestUnits { smallest_bd : D }.
Record ExchangeRate := mkExchangeRate { raw_rate : D; rate_decimals : N }.
Record TokenAmount := mkTokenAmount { smallest_units : D; amount_decimals : N }.

(** The ratio of two quantities of one kind: zero for a zero divisor. *)
Definition ratio (a b : D) : D := if bd_is_zero b then bd_zero else bd_div a b.

(** ** near_units.rs: TokenPrice *)
Definition price_zero : TokenPrice := mkTokenPrice bd_zero.
Definition from_near_per_token (near_per_token : D) : TokenPrice := mkTokenPrice near_per_token.
Definition price_is_zero (p : TokenPrice) : bool := bd_is_zero (price_bd p).
Definition price_add (a b : TokenPrice) : TokenPrice := mkTokenPrice (bd_add (price_bd a) (price_bd b)).
Definition price_sub (a b : TokenPrice) : TokenPrice := mkTokenPrice (bd_sub (price_bd a) (price_bd b)).
Definition price_ratio (a b : TokenPrice) : D := ratio (price_bd a) (price_bd b).
Definition price_scale (p : TokenPrice) (scalar : D) : TokenPrice :=
  mkTokenPrice (bd_mul (price_bd p) scalar).
Definition price_div_scalar (p : TokenPrice) (scalar : D) : TokenPrice :=
  if bd_is_zero scalar then price_zero else mkTokenPrice (bd_div (price_bd p) scalar).
Definition price_div_i64 (p : TokenPrice) (scalar : Z) : TokenPrice :=
  if (scalar =? 0)%Z then price_zero else mkTokenPrice (bd_div (price_bd p) (bd_of_Z scalar)).
Definition price_sum (l : list TokenPrice) : TokenPrice := foldl price_add price_zero l.

(** ** near_units.rs: YoctoAmount *)
Definition yocto_amount_zero : YoctoAmount := mkYoctoAmount bd_zero.
Definition yocto_amount_from_u128 (value : N) : YoctoAmount := mkYoctoAmount (bd_of_N value).
(** The assertion on the sign is a [debug_assert]. *)
Definition yocto_amount_to_u128 {E} (a : YoctoAmount) : outcome E N :=
  if bd_ltb (yocto_amount_bd a) bd_zero then Panic
  else Ok (match bd_to_u128 (yocto_amount_bd a) with Some n => n | None => 0 end).
Definition yocto_amount_to_near (a : YoctoAmount) : NearAmount :=
  mkNearAmount (bd_div (yocto_amount_bd a) (bd_of_N YOCTO_PER_NEAR)).
Definition yocto_amount_is_zero (a : YoctoAmount) : bool := bd_is_zero (yocto_amount_bd a).
Definition yocto_amount_to_value (a : YoctoAmount) : YoctoValue := mkYoctoValue (yocto_amount_bd a).
Definition yocto_amount_to_token_amount (a : YoctoAmount) : TokenAmount :=
  mkTokenAmount (yocto_amount_bd a) 24.
Definition yocto_amount_add (a b : YoctoAmount) : YoctoAmount :=
  mkYoctoAmount (bd_add (yocto_amount_bd a) (yocto_amount_bd b)).
Definition yocto_amount_sub (a b : YoctoAmount) : YoctoAmount :=
  let result := bd_sub (yocto_amount_bd a) (yocto_amount_bd b) in
  if bd_ltb result bd_zero then yocto_amount_zero else mkYoctoAmount result.
Definition yocto_amount_ratio (a b : YoctoAmount) : D := ratio (yocto_amount_bd a) (yocto_amount_bd b).
Definition yocto_amount_mul_u128 (a : YoctoAmount) (scalar : N) : YoctoAmount :=
  mkYoctoAmount (bd_mul (yocto_amount_bd a) (bd_of_N scalar)).
Definition yocto_amount_scale (a : YoctoAmount) (scalar : D) : YoctoAmount :=
  mkYoctoAmount (bd_mul (yocto_amount_bd a) scalar).

(** ** near_units.rs: NearAmount *)
Definition near_amount_zero : NearAmount := mkNearAmount bd_zero.
Definition near_amount_to_yocto (a : NearAmount) : YoctoAmount :=
  mkYoctoAmount (bd_mul (near_amount_bd a) (bd_of_N YOCTO_PER_NEAR)).
Definition near_amount_is_zero (a : NearAmount) : bool := bd_is_zero (near_amount_bd a).
Definition near_amount_to_i64 (a : NearAmount) : Z :=
  match bd_to_i64 (near_amount_bd a) with Some z => z | None => 0%Z end.
Definition near_amount_add (a b : NearAmount) : NearAmount :=
  mkNearAmount (bd_add (near_amount_bd a) (near_amount_bd b)).
Definition near_amount_sub (a b : NearAmount) : NearAmount :=
  mkNearAmount (bd_sub (near_amount_bd a) (near_amount_bd b)).
Definition near_amount_ratio (a b : NearAmount) : D := ratio (near_amount_bd a) (near_amount_bd b).

(** ** near_units.rs: YoctoValue *)
Definition yocto_value_zero : YoctoValue := mkYoctoValue bd_zero.
Definition from_yocto (yocto : D) : YoctoValue := mkYoctoValue yocto.
Definition yocto_value_to_near (v : YoctoValue) : NearValue :=
  mkNearValue (bd_div (yocto_value_bd v) (bd_of_N YOCTO_PER_NEAR)).
Definition yocto_value_to_amount (v : YoctoValue) : YoctoAmount := mkYoctoAmount (yocto_value_bd v).
Definition yocto_value_saturating_sub (a b : YoctoValue) : YoctoValue :=
  if bd_leb (yocto_value_bd b) (yocto_value_bd a)
  then mkYoctoValue (bd_sub (yocto_value_bd a) (yocto_value_bd b)) else yocto_value_zero.
Definition yocto_value_is_zero (v : YoctoValue) : bool := bd_is_zero (yocto_value_bd v).
Definition yocto_value_add (a b : YoctoValue) : YoctoValue :=
  mkYoctoValue (bd_add (yocto_value_bd a) (yocto_value_bd b)).
Definition yocto_value_sub (a b : YoctoValue) : YoctoValue :=
  mkYoctoValue (bd_sub (yocto_value_bd a) (yocto_value_bd b)).
Definition yocto_value_ratio (a b : YoctoValue) : D := ratio (yocto_value_bd a) (yocto_value_bd b).
Definition yocto_value_div_price (v : YoctoValue) (p : TokenPrice) : YoctoAmount :=
  if bd_is_zero (price_bd p) then yocto_amount_zero
  else mkYoctoAmount (bd_div (yocto_value_bd v) (price_bd p)).
Definition yocto_value_div_amount (v : YoctoValue) (a : YoctoAmount) : TokenPrice :=
  if bd_is_zero (yocto_amount_bd a) then price_zero
  else mkTokenPrice (bd_div (yocto_value_bd v) (yocto_amount_bd a)).
Definition yocto_value_scale (v : YoctoValue) (scalar : D) : YoctoValue :=
  mkYoctoValue (bd_mul (yocto_value_bd v) scalar).

(** ** near_units.rs: NearValue *)
Definition near_value_zero : NearValue := mkNearValue bd_zero.
Definition near_value_one : NearValue := mkNearValue bd_one.
Definition from_near (near : D) : NearValue := mkNearValue near.
Definition near_value_to_yocto (v : NearValue) : YoctoValue :=
  mkYoctoValue (bd_mul (near_value_bd v) (bd_of_N YOCTO_PER_NEAR)).
Definition near_value_is_zero (v : NearValue) : bool := bd_is_zero (near_value_bd v).
Definition near_value_abs (v : NearValue) : NearValue := mkNearValue (bd_abs (near_value_bd v)).
Definition near_value_add (a b : NearValue) : NearValue :=
  mkNearValue (bd_add (near_value_bd a) (near_value_bd b)).
Definition near_value_sum (l : list NearValue) : NearValue := foldl near_value_add near_value_zero l.
Definition near_value_sub (a b : NearValue) : NearValue :=
  mkNearValue (bd_sub (near_value_bd a) (near_value_bd b)).
Definition near_value_scale (v : NearValue) (scalar : D) : NearValue :=
  mkNearValue (bd_mul (near_value_bd v) scalar).
Definition near_value_neg (v : NearValue) : NearValue := mkNearValue (bd_neg (near_value_bd v)).
Definition near_value_ratio (a b : NearValue) : D := ratio (near_value_bd a) (near_value_bd b).
Definition near_value_div_price (v : NearValue) (p : TokenPrice) : NearAmount :=
  if bd_is_zero (price_bd p) then near_amount_zero
  else mkNearAmount (bd_div (near_value_bd v) (price_bd p)).
Definition near_value_div_amount (v : NearValue) (a : NearAmount) : TokenPrice :=
  if bd_is_zero (near_amount_bd a) then price_zero
  else mkTokenPrice (bd_div (near_value_bd v) (near_amount_bd a)).

(** ** token_types.rs *)
Fixpoint pow10_loop (n : nat) (result : D) : D :=
  match n with O => result | S n => pow10_loop n (bd_mul result (bd_of_Z 10)) end.
Definition pow10 (n : N) : D := pow10_loop (N.to_nat n) (bd_of_Z 1).

Definition from_raw_rate (r : D) (decimals : N) : ExchangeRate := mkExchangeRate r decimals.
Definition from_price (p : TokenPrice) (decimals : N) : ExchangeRate :=
  if price_is_zero p then mkExchangeRate bd_zero decimals
  else mkExchangeRate (bd_div (pow10 decimals) (price_bd p)) decimals.
Definition rate_is_zero (r : ExchangeRate) : bool := bd_is_zero (raw_rate r).
Definition to_price (r : ExchangeRate) : TokenPrice :=
  if bd_is_zero (raw_rate r) then price_zero
  else from_near_per_token (bd_div (pow10 (rate_decimals r)) (raw_rate r)).
Definition is_effectively_zero (r : ExchangeRate) : bool := bd_ltb (raw_rate r) (bd_of_Z 1).
Definition wnear_rate : ExchangeRate := mkExchangeRate (bd_of_N YOCTO_PER_NEAR) 24.

Definition token_amount_zero (decimals : N) : TokenAmount := mkTokenAmount bd_zero decimals.
Definition from_smallest_units (u : D) (decimals : N) : TokenAmount := mkTokenAmount u decimals.
Definition to_whole (a : TokenAmount) : D := bd_div (smallest_units a) (pow10 (amount_decimals a)).
Definition token_amount_is_zero (a : TokenAmount) : bool := bd_is_zero (smallest_units a).
Definition to_smallest_units (a : TokenAmount) : TokenSmallestUnits :=
  mkTokenSmallestUnits (smallest_units a).

(** [TokenAmount / ExchangeRate]; equal decimals are a [debug_assert]. *)
Definition amount_div_rate {E} (a : TokenAmount) (r : ExchangeRate) : outcome E NearValue :=
  if amount_decimals a =? rate_decimals r then
    if rate_is_zero r then Ok near_value_zero
    else Ok (from_near (bd_div (smallest_units a) (raw_rate r)))
  else Panic.
Definition amount_mul_price (a : TokenAmount) (p : TokenPrice) : NearValue :=
  from_near (bd_mul (to_whole a) (price_bd p)).
Definition amount_div_near (a : TokenAmount) (n : NearAmount) : ExchangeRate :=
  if near_amount_is_zero n then from_raw_rate bd_zero (amount_decimals a)
  else from_raw_rate (bd_div (smallest_units a) (near_amount_bd n)) (amount_decimals a).
Definition rate_scale (r : ExchangeRate) (k : D) : ExchangeRate :=
  from_raw_rate (bd_mul (raw_rate r) k) (rate_decimals r).
(** [NearValue * ExchangeRate] (near_units.rs). *)
Definition near_value_mul_rate (v : NearValue) (r : ExchangeRate) : TokenAmount :=
  from_smallest_units (if rate_is_zero r then bd_zero else bd_mul (near_value_bd v) (raw_rate r))
    (rate_decimals r).
(** [TokenPrice * Amount] (near_units.rs). *)
Definition price_mul_yocto (p : TokenPrice) (a : YoctoAmount) : YoctoValue :=
  mkYoctoValue (bd_mul (price_bd p) (yocto_amount_bd a)).
Definition price_mul_near (p : TokenPrice) (a : NearAmount) : NearValue :=
  mkNearValue (bd_mul (price_bd p) (near_amount_bd a)).

(** ** token_smallest_units.rs *)
Definition smallest_zero : TokenSmallestUnits := mkTokenSmallestUnits bd_zero.
Definition smallest_from_bigdecimal (v : D) : TokenSmallestUnits := mkTokenSmallestUnits v.
Definition smallest_from_u128 (n : N) : TokenSmallestUnits := mkTokenSmallestUnits (bd_of_N n).
Definition with_decimals (u : TokenSmallestUnits) (decimals : N) : TokenAmount :=
  mkTokenAmount (smallest_bd u) decimals.
Definition smallest_is_zero (u : TokenSmallestUnits) : bool := bd_is_zero (smallest_bd u).
Definition smallest_add (a b : TokenSmallestUnits) : TokenSmallestUnits :=
  mkTokenSmallestUnits (bd_add (smallest_bd a) (smallest_bd b)).
Definition smallest_sub (a b : TokenSmallestUnits) : TokenSmallestUnits :=
  mkTokenSmallestUnits (bd_sub (smallest_bd a) (smallest_bd b)).
Definition smallest_scale (a : TokenSmallestUnits) (k : D) : TokenSmallestUnits :=
  mkTokenSmallestUnits (bd_mul (smallest_bd a) k).
(** These two divide without a guard. *)
Definition smallest_div_scalar {E} (a : TokenSmallestUnits) (k : D) : outcome E TokenSmallestUnits :=
  let? q := bd_quot (smallest_bd a) k in Ok (mkTokenSmallestUnits q).
Definition smallest_ratio {E} (a b : TokenSmallestUnits) : outcome E D :=
  bd_quot (smallest_bd a) (smallest_bd b).
End units.
Arguments TokenPrice D : clear implicits.
Arguments YoctoAmount D : clear implicits.
Arguments NearAmount D : clear implicits.
Arguments YoctoValue D : clear implicits.
Arguments NearValue D : clear implicits.
Arguments TokenSmallestUnits D : clear implicits.
Arguments ExchangeRate D : clear implicits.
Arguments TokenAmount D : clear implicits.

(** ** Lemmas *)
Section laws.
Context {D : Type} `{BigDecimalLaws D}.

Lemma pow10_loop_val n (x : D) :
  bd_val (pow10_loop n x) == bd_val x * inject_Z (10 ^ Z.of_nat n).
Proof.
  revert x. induction n as [|n IH]; intros x; cbn [pow10_loop].
  - change (10 ^ Z.of_nat 0)%Z with 1%Z. ring.
  - rewrite IH, val_mul, val_of_Z, Nat2Z.inj_succ, Z.pow_succ_r by lia.
    rewrite inject_Z_mult. ring.
Qed.

Lemma pow10_val (n : N) : bd_val (pow10 (D:=D) n) == inject_Z (10 ^ Z.of_N n).
Proof. unfold pow10. rewrite pow10_loop_val, val_of_Z, N_nat_Z. ring. Qed.

Lemma pow10_pos (n : N) : (0 < bd_val (pow10 (D:=D) n))%Q.
Proof. rewrite pow10_val. apply inject_Z_pos. lia. Qed.

(** An integer of at most 100 digits over a power of ten is exact. *)
Lemma div_pow10_exact (a b : D) (z : Z) (n : N) :
  bd_val a == inject_Z z -> bd_val b == inject_Z (10 ^ Z.of_N n) -> (Z.abs z < 10 ^ 100)%Z ->
  bd_val (bd_div a b) == inject_Z z / inject_Z (10 ^ Z.of_N n).
Proof.
  intros Ha Hb Hz.
  assert (Hp : ~ inject_Z (10 ^ Z.of_N n) == 0).
  { apply inject_Z_nonzero. pose proof (Z.pow_pos_nonneg 10 (Z.of_N n)). lia. }
  assert (Hq : bd_val a / bd_val b == inject_Z z / inject_Z (10 ^ Z.of_N n))
    by (by rewrite Ha, Hb).
  rewrite <- Hq. apply (val_div_exact a b z (- Z.of_N n)); [by rewrite Hb|done|].
  rewrite Hq, Qpower_opp. unfold Qdiv. by rewrite Zpower_Qpower by lia.
Qed.

Lemma YOCTO_PER_NEAR_pow : inject_Z (Z.of_N YOCTO_PER_NEAR) = inject_Z (10 ^ Z.of_N 24).
Proof. reflexivity. Qed.

Lemma u128_digits n : n <= U128_MAX -> (Z.abs (Z.of_N n) < 10 ^ 100)%Z.
Proof.
  intros Hn. rewrite Z.abs_eq by lia. apply (Z.le_lt_trans _ (Z.of_N U128_MAX)); [lia|done].
Qed.

(** A non-negative integral decimal converts to itself. *)
Lemma to_u128_integral (a : D) n : bd_val a == inject_Z (Z.of_N n) -> n <= U128_MAX ->
  bd_to_u128 a = Some n /\ bd_ltb a bd_zero = false.
Proof.
  intros Ha Hn. assert (H0' : (0 <= bd_val a)%Q) by (rewrite Ha; apply inject_Z_nonneg; lia).
  split.
  - rewrite (to_u128_value _ H0'), (Qfloor_compat _ _ Ha), Qfloor_of_Z, N2Z.id.
    rewrite (proj2 (Z.leb_le _ _)); [done|lia].
  - apply bd_ltb_false. by rewrite val_zero.
Qed.

Lemma yocto_amount_to_u128_integral {E} (a : YoctoAmount D) n :
  bd_val (yocto_amount_bd a) == inject_Z (Z.of_N n) -> n <= U128_MAX ->
  yocto_amount_to_u128 (E:=E) a = Ok n.
Proof.
  intros Ha Hn. unfold yocto_amount_to_u128.
  destruct (to_u128_integral _ _ Ha Hn) as [-> ->]. done.
Qed.

(** The subtraction of amounts is never negative. *)
Lemma yocto_amount_sub_nonneg (a b : YoctoAmount D) :
  (0 <= bd_val (yocto_amount_bd (yocto_amount_sub a b)))%Q.
Proof.
  unfold yocto_amount_sub. destruct (bd_ltb _ _) eqn:E; cbn.
  - rewrite val_zero. apply Qle_refl.
  - apply bd_ltb_false in E. by rewrite val_zero in E.
Qed.

(** Relative errors of a quotient, as a bound on the product form. *)
Lemma div_error_bound (a b : D) : ~ bd_val b == 0 ->
  exists e, (Qabs e <= / inject_Z (10 ^ 99))%Q /\
    bd_val (bd_div a b) == bd_val a / bd_val b * (1 + e).
Proof.
  intros Hb. pose proof (val_div_error a b Hb) as He.
  set (q := (bd_val a / bd_val b)%Q) in *. set (v := bd_val (bd_div a b)) in *.
  assert (HP : (0 < / inject_Z (10 ^ 99))%Q) by reflexivity.
  set (P := (/ inject_Z (10 ^ 99))%Q) in *. clearbody P.
  destruct (Qeq_dec q 0) as [Hq|Hq].
  - exists 0%Q. split; [change (Qabs 0) with 0%Q; lra|]. rewrite Hq in He |- *.
    change (Qabs 0) with 0%Q in He.
    assert (Hz : (Qabs (v - 0) <= 0)%Q) by lra.
    apply Qabs_Qle_condition in Hz. lra.
  - exists (v / q - 1)%Q. split; [|field; done].
    assert (Hq0 : (0 < Qabs q)%Q).
    { pose proof (Qabs_nonneg q) as Hn. apply Qle_lteq in Hn as [Hn|Hn]; [done|].
      exfalso. apply Hq. symmetry in Hn. revert Hn. apply Qabs_case; intros; lra. }
    apply (Qmult_le_l _ _ (Qabs q) Hq0). rewrite <- Qabs_Qmult.
    assert (Heq : (q * (v / q - 1) == v - q)%Q) by (field; done). rewrite Heq. exact He.
Qed.
End laws.

(** ** Theorems *)
Section theorems.
Context (D : Type) `{BigDecimalLaws D}.

(** Converting a 128-bit yocto amount to NEAR and back loses nothing: the
    result read as an integer is the amount itself. *)
Theorem yocto_near_round_trip n :
  n <= U128_MAX ->
  yocto_amount_to_u128 (E:=anyhow)
    (near_amount_to_yocto (yocto_amount_to_near (yocto_amount_from_u128 (D:=D) n))) = Ok n.
Proof.
  intros Hn. apply yocto_amount_to_u128_integral; [|done].
  cbn [near_amount_to_yocto yocto_amount_to_near yocto_amount_from_u128 yocto_amount_bd
    near_amount_bd].
  rewrite val_mul, (div_pow10_exact _ _ (Z.of_N n) 24); [|apply val_of_N| |by apply u128_digits].
  - rewrite val_of_N, YOCTO_PER_NEAR_pow. field. apply inject_Z_nonzero. done.
  - rewrite val_of_N. by rewrite YOCTO_PER_NEAR_pow.
Qed.

(** Subtracting amounts is the saturating subtraction of the integers they
    hold; the result is a valid amount, so reading it back does not panic. *)
Theorem yocto_amount_sub_saturates a b :
  a <= U128_MAX -> b <= U128_MAX ->
  yocto_amount_to_u128 (E:=anyhow)
    (yocto_amount_sub (yocto_amount_from_u128 (D:=D) a) (yocto_amount_from_u128 b))
  = Ok (saturating_sub a b).
Proof.
  intros Ha Hb. apply yocto_amount_to_u128_integral; [|unfold saturating_sub; lia].
  unfold yocto_amount_sub, saturating_sub. cbn [yocto_amount_from_u128 yocto_amount_bd].
  destruct (bd_ltb _ _) eqn:E; cbn [yocto_amount_zero yocto_amount_bd].
  - apply bd_ltb_val in E. rewrite val_zero, val_sub, !val_of_N in E.
    rewrite val_zero. assert (Hlt : (inject_Z (Z.of_N a) < inject_Z (Z.of_N b))%Q) by lra.
    rewrite <- Zlt_Qlt in Hlt. replace (a - b) with 0 by lia. reflexivity.
  - apply bd_ltb_false in E. rewrite val_zero, val_sub, !val_of_N in E.
    assert (Hle : (inject_Z (Z.of_N b) <= inject_Z (Z.of_N a))%Q) by lra.
    rewrite <- Zle_Qle in Hle. rewrite val_sub, !val_of_N.
    rewrite N2Z.inj_sub by lia. unfold Qminus. by rewrite <- inject_Z_opp, <- inject_Z_plus.
Qed.

(** The two ways the program values a holding agree: dividing the smallest
    units by the exchange rate, and multiplying the whole tokens by the price
    derived from that rate, differ by at most two parts in 10^99. *)
Theorem valuation_routes_agree n d (r : ExchangeRate D) v :
  n <= U128_MAX -> rate_decimals r = d -> (0 < bd_val (raw_rate r))%Q ->
  amount_div_rate (E:=anyhow) (mkTokenAmount (bd_of_N n) d) r = Ok v ->
  (Qabs (bd_val (near_value_bd v)
         - bd_val (near_value_bd (amount_mul_price (mkTokenAmount (bd_of_N n) d) (to_price r))))
   <= inject_Z (Z.of_N n) / bd_val (raw_rate r) * (2 / inject_Z (10 ^ 99)))%Q.
Proof.
  intros Hn Hd Hr Hv.
  assert (Hr0 : ~ bd_val (raw_rate r) == 0) by lra.
  assert (Hz : bd_is_zero (raw_rate r) = false) by (by apply bd_is_zero_false).
  unfold amount_div_rate, rate_is_zero in Hv. cbn [amount_decimals smallest_units] in Hv.
  rewrite Hd, N.eqb_refl, Hz in Hv. injection Hv as <-.
  unfold amount_mul_price, to_price. rewrite Hz, Hd.
  cbn [near_value_bd from_near price_bd from_near_per_token to_whole smallest_units amount_decimals].
  destruct (div_error_bound (bd_of_N n) (raw_rate r) Hr0) as (e1 & He1 & ->).
  destruct (div_error_bound (pow10 d) (raw_rate r) Hr0) as (e2 & He2 & Hv2).
  pose proof (div_pow10_exact (bd_of_N n) (pow10 d) (Z.of_N n) d (val_of_N n) (pow10_val d)
    (u128_digits n Hn)) as Hw.
  rewrite val_mul, Hv2, Hw, val_of_N, pow10_val.
  assert (Hp : (0 < inject_Z (10 ^ Z.of_N d))%Q) by (apply inject_Z_pos; lia).
  set (T := inject_Z (10 ^ Z.of_N d)) in *. set (x := inject_Z (Z.of_N n)) in *.
  set (rv := bd_val (raw_rate r)) in *.
  assert (Heq : (x / rv * (1 + e1) - x / T * (T / rv * (1 + e2)) == x / rv * (e1 - e2))%Q)
    by (field; split; lra).
  rewrite Heq, Qabs_Qmult.
  assert (Hx : (0 <= x / rv)%Q).
  { apply Qle_shift_div_l; [done|]. rewrite Qmult_0_l. apply inject_Z_nonneg. lia. }
  rewrite (Qabs_pos (x / rv)) by done.
  apply Qabs_Qle_condition in He1. apply Qabs_Qle_condition in He2.
  assert (Hs : (Qabs (e1 - e2) <= 2 / inject_Z (10 ^ 99))%Q).
  { apply Qabs_Qle_condition. unfold Qdiv.
    set (P := (/ inject_Z (10 ^ 99))%Q) in *. clearbody P. split; lra. }
  rewrite (Qmult_comm (x / rv)), (Qmult_comm (x / rv)). by apply Qmult_le_compat_r.
Qed.
End theorems.

Lemma yocto_near_round_trip_witness :
  yocto_amount_to_u128 (E:=anyhow)
    (near_amount_to_yocto (yocto_amount_to_near (yocto_amount_from_u128 (D:=Q) 12345678901)))
  = Ok 12345678901.
Proof. apply (yocto_near_round_trip Q 12345678901). vm_compute. done. Defined.

Lemma yocto_amount_sub_saturates_witness :
  yocto_amount_to_u128 (E:=anyhow)
    (yocto_amount_sub (yocto_amount_from_u128 (D:=Q) 5) (yocto_amount_from_u128 8)) = Ok 0.
Proof. apply (yocto_amount_sub_saturates Q 5 8); vm_compute; done. Defined.

Definition usdt_rate : ExchangeRate Q := mkExchangeRate (5000000 # 1) 6.

Lemma valuation_routes_agree_witness :
  (Qabs (bd_val (near_value_bd (mkNearValue (20 # 1))) - bd_val (near_value_bd
      (amount_mul_price (mkTokenAmount (bd_of_N 100000000) 6) (to_price usdt_rate))))
   <= inject_Z (Z.of_N 100000000) / bd_val (raw_rate usdt_rate) * (2 / inject_Z (10 ^ 99)))%Q.
Proof.
  apply (valuation_routes_agree Q 100000000 6 usdt_rate (mkNearValue (20 # 1)));
    [vm_compute; done | reflexivity | vm_compute; done | vm_compute; reflexivity].
Defined.
