(* ===== verification/Rounding.v ===== *)
(** * Rounding: accumulated relative errors

    A division of decimals has a relative error of at most 10^-99.  [near n a b]
    says that two positive numbers differ by at most [n] such errors, as a
    factor; it composes along products, quotients and sums, so that a chain of
    operations is bounded by counting its divisions. *)

From Stdlib Require Import QArith Qabs Lqa.
From S2P Require Import Prelude BigDecimal Units.
Local Open Scope Q_scope.

#[export] Instance Qeq_default : DefaultRelation Qeq := {}.

(** One step of error: [1 - 10^-99]. *)
Definition grain : Q := 1 - / inject_Z (10 ^ 99).
Fixpoint grains (n : nat) : Q := match n with O => 1 | S n => grain * grains n end.

Definition near (n : nat) (a b : Q) : Prop :=
  0 < a /\ 0 < b /\ a * grains n <= b /\ b * grains n <= a.

Lemma grain_bounds : 0 < grain /\ grain < 1.
Proof. split; vm_compute; reflexivity. Qed.

Lemma grains_bounds n : 0 < grains n /\ grains n <= 1.
Proof.
  destruct grain_bounds as [Hg Hg1]. induction n as [|n [IH IH1]]; cbn [grains]; [split; lra|].
  split; [by apply Qmult_lt_0_compat|]. setoid_replace 1 with (1 * 1) by ring.
  apply Qmult_le_compat_nonneg; split; try lra.
Qed.

Lemma grains_add n m : grains (n + m) == grains n * grains m.
Proof. induction n as [|n IH]; cbn [grains Nat.add]; [ring|]. rewrite IH. ring. Qed.

Lemma grains_mono n m : (n <= m)%nat -> grains m <= grains n.
Proof.
  intros Hle. replace m with ((m - n) + n)%nat by lia. rewrite grains_add.
  destruct (grains_bounds (m - n)) as [H0 H1], (grains_bounds n) as [H2 _].
  setoid_replace (grains n) with (1 * grains n) at 2 by ring. apply Qmult_le_compat_r; lra.
Qed.

#[global] Instance near_proper n : Proper (Qeq ==> Qeq ==> iff) (near n).
Proof. intros a a' Ha b b' Hb. unfold near. by rewrite Ha, Hb. Qed.

Lemma near_refl a : 0 < a -> near 0 a a.
Proof. intros Ha. unfold near. cbn. repeat split; lra. Qed.

Lemma near_sym n a b : near n a b -> near n b a.
Proof. unfold near. tauto. Qed.

Lemma near_weaken n m a b : (n <= m)%nat -> near n a b -> near m a b.
Proof.
  intros Hle (Ha & Hb & Hab & Hba). pose proof (grains_mono n m Hle) as Hg.
  repeat split; [done|done| |].
  - eapply Qle_trans; [|exact Hab]. rewrite !(Qmult_comm a). apply Qmult_le_compat_r; lra.
  - eapply Qle_trans; [|exact Hba]. rewrite !(Qmult_comm b). apply Qmult_le_compat_r; lra.
Qed.

Lemma near_mul n m a b c d : near n a b -> near m c d -> near (n + m) (a * c) (b * d).
Proof.
  intros (Ha & Hb & Hab & Hba) (Hc & Hd & Hcd & Hdc).
  destruct (grains_bounds n) as [Gn _], (grains_bounds m) as [Gm _].
  repeat split; [by apply Qmult_lt_0_compat|by apply Qmult_lt_0_compat| |]; rewrite grains_add.
  - setoid_replace (a * c * (grains n * grains m)) with (a * grains n * (c * grains m)) by ring.
    apply Qmult_le_compat_nonneg; split; try done; apply Qlt_le_weak, Qmult_lt_0_compat; done.
  - setoid_replace (b * d * (grains n * grains m)) with (b * grains n * (d * grains m)) by ring.
    apply Qmult_le_compat_nonneg; split; try done; apply Qlt_le_weak, Qmult_lt_0_compat; done.
Qed.

Lemma inv_le_scaled a b g : 0 < a -> 0 < b -> b * g <= a -> / a * g <= / b.
Proof.
  intros Ha Hb Hg. setoid_replace (/ b) with (1 / b) by (field; lra).
  apply Qle_shift_div_l; [done|]. setoid_replace (/ a * g * b) with (b * g / a) by (field; lra).
  apply Qle_shift_div_r; lra.
Qed.

Lemma near_inv n a b : near n a b -> near n (/ a) (/ b).
Proof.
  intros (Ha & Hb & Hab & Hba).
  repeat split; try by apply Qinv_lt_0_compat. all: by apply inv_le_scaled.
Qed.

Lemma near_div n m a b c d : near n a b -> near m c d -> near (n + m) (a / c) (b / d).
Proof. intros H1 H2. apply near_mul; [done|by apply near_inv]. Qed.

Lemma near_add n a b c d : near n a b -> near n c d -> near n (a + c) (b + d).
Proof.
  intros (Ha & Hb & Hab & Hba) (Hc & Hd & Hcd & Hdc). repeat split; lra.
Qed.

Section division.
Context {D : Type} `{BigDecimalLaws D}.

Lemma near_bd_div (a b : D) : 0 < bd_val a -> 0 < bd_val b ->
  near 1 (bd_val a / bd_val b) (bd_val (bd_div a b)).
Proof.
  intros Ha Hb. destruct (div_error_bound a b) as (e & He & Hv); [lra|].
  assert (Hq : 0 < bd_val a / bd_val b) by (apply Qlt_shift_div_l; lra).
  rewrite Hv. set (q := bd_val a / bd_val b) in *. clearbody q. unfold near.
  cbn [grains]. apply Qabs_Qle_condition in He. unfold grain.
  assert (Hu : 0 < / inject_Z (10 ^ 99)) by reflexivity.
  assert (Hu1 : / inject_Z (10 ^ 99) < 1) by reflexivity.
  set (u := / inject_Z (10 ^ 99)) in *. clearbody u.
  repeat split; [done|apply Qmult_lt_0_compat; lra| |].
  - rewrite !(Qmult_comm q). apply Qmult_le_compat_r; lra.
  - setoid_replace (q * (1 + e) * ((1 - u) * 1)) with ((1 + e) * (1 - u) * q) by ring.
    setoid_replace q with (1 * q) at 2 by ring. apply Qmult_le_compat_r; [|lra].
    assert ((1 + e) * (1 - u) <= (1 + u) * (1 - u)) by (apply Qmult_le_compat_r; lra).
    assert (0 <= u * u) by (apply Qmult_le_0_compat; lra). lra.
Qed.

(** A division of inputs that carry errors of their own. *)
Lemma near_quotient n m x y (a b : D) :
  near n x (bd_val a) -> near m y (bd_val b) -> near (S (n + m)) (x / y) (bd_val (bd_div a b)).
Proof.
  intros Hx Hy.
  assert (Hd : near 1 (bd_val a / bd_val b) (bd_val (bd_div a b)))
    by (apply near_bd_div; [apply Hx|apply Hy]).
  pose proof (near_div _ _ _ _ _ _ Hx Hy) as (H0' & H1 & H2 & H3).
  destruct Hd as (_ & H4 & H5 & H6).
  destruct (grains_bounds (n + m)) as [Gn _], (grains_bounds 1) as [G1 _].
  replace (S (n + m)) with (n + m + 1)%nat by lia.
  repeat split; [done|done| |]; rewrite grains_add.
  - eapply Qle_trans; [|exact H5].
    setoid_replace (x / y * (grains (n + m) * grains 1)) with (x / y * grains (n + m) * grains 1) by ring.
    apply Qmult_le_compat_r; lra.
  - eapply Qle_trans; [|exact H3].
    setoid_replace (bd_val (bd_div a b) * (grains (n + m) * grains 1))
      with (bd_val (bd_div a b) * grains 1 * grains (n + m)) by ring.
    apply Qmult_le_compat_r; lra.
Qed.
End division.
