(* ===== verification/Matching.v ===== *)
(** * Matching: direct swaps of a rebalance

    [crates/trade/src/execution/matching.rs]: the sells and buys of a rebalance
    are matched greedily, largest first, into direct swaps; what is left over
    goes through wNEAR.  The order in which [sort_unstable_by] leaves equal
    values is unspecified, so the sorting functions are parameters. *)

From Stdlib Require Import QArith Lqa.
From S2P Require Import Prelude BigDecimal Units.
Local Open Scope N_scope.

Section model.
Context {D : Type} `{BigDecimal D}.

Record SellOperation := mkSell {
  sell_token : TokenAccount;
  sell_value : NearValue D;
  sell_rate : ExchangeRate D;
}.
Record BuyOperation := mkBuy {
  buy_token : TokenAccount;
  buy_value : NearValue D;
}.
Record DirectSwap := mkDirectSwap {
  swap_sell_token : TokenAccount;
  swap_buy_token : TokenAccount;
  swap_value : NearValue D;
  swap_sell_rate : ExchangeRate D;
}.
Record MatchResult := mkMatchResult {
  direct_swaps : list DirectSwap;
  remaining_sells : list SellOperation;
  remaining_buys : list BuyOperation;
}.

Definition nv_leb (a b : NearValue D) : bool := bd_leb (near_value_bd a) (near_value_bd b).
Definition nv_ltb (a b : NearValue D) : bool := bd_ltb (near_value_bd a) (near_value_bd b).
Definition nv_eqb (a b : NearValue D) : bool := bd_eqb (near_value_bd a) (near_value_bd b).
Definition nv_min (a b : NearValue D) : NearValue D := if nv_leb a b then a else b.

Definition push_swap (cs : SellOperation) (cb : BuyOperation) (v : NearValue D) (r : MatchResult)
    : MatchResult :=
  if nv_ltb near_value_zero v
  then mkMatchResult (mkDirectSwap (sell_token cs) (buy_token cb) v (sell_rate cs) :: direct_swaps r)
         (remaining_sells r) (remaining_buys r)
  else r.

(** All sells are used up: the rest of the buys. *)
Definition rest_buys (cb : BuyOperation) (br : NearValue D) (buys : list BuyOperation)
    : MatchResult :=
  mkMatchResult [] []
    (if nv_ltb near_value_zero br then mkBuy (buy_token cb) br :: buys else buys).
(** All buys are used up: the rest of the sells. *)
Definition rest_sells (cs : SellOperation) (sr : NearValue D) (sells : list SellOperation)
    : MatchResult :=
  mkMatchResult []
    (if nv_ltb near_value_zero sr then mkSell (sell_token cs) sr (sell_rate cs) :: sells else sells)
    [].

(** The greedy loop: the current sell and buy with what remains of them, and
    the operations still to come.  [None] when the fuel runs out. *)
Fixpoint match_loop (fuel : nat) (cs : SellOperation) (sr : NearValue D) (sells : list SellOperation)
    (cb : BuyOperation) (br : NearValue D) (buys : list BuyOperation)
    : option (outcome anyhow MatchResult) :=
  match fuel with
  | O => None
  | S fuel =>
      let match_value := nv_min sr br in
      let sr := near_value_sub sr match_value in
      let br := near_value_sub br match_value in
      let finish (o : option (outcome anyhow MatchResult)) :=
        match o with
        | Some (Ok r) => Some (Ok (push_swap cs cb match_value r))
        | _ => o
        end in
      if nv_ltb sr near_value_zero || nv_ltb br near_value_zero then Some Panic
      else
        let next_buy (cs : SellOperation) (sr : NearValue D) (sells : list SellOperation) :=
          if nv_eqb br near_value_zero then
            match buys with
            | [] => Some (Ok (rest_sells cs sr sells))
            | b :: buys => match_loop fuel cs sr sells b (buy_value b) buys
            end
          else match_loop fuel cs sr sells cb br buys in
        finish
          (if nv_eqb sr near_value_zero then
             match sells with
             | [] => Some (Ok (rest_buys cb br buys))
             | s :: sells => next_buy s (sell_value s) sells
             end
           else next_buy cs sr sells)
  end.

Definition match_rebalance_operations
    (sort_sells : list SellOperation -> list SellOperation)
    (sort_buys : list BuyOperation -> list BuyOperation)
    (sells : list SellOperation) (buys : list BuyOperation) : option (outcome anyhow MatchResult) :=
  match sells, buys with
  | [], _ | _, [] => Some (Ok (mkMatchResult [] sells buys))
  | _, _ =>
      match sort_sells sells, sort_buys buys with
      | s :: ss, b :: bs =>
          match_loop (length sells + length buys) s (sell_value s) ss b (buy_value b) bs
      | _, _ => Some Panic
      end
  end.

(** The orders the sorts use, for instances of the parameters. *)
Definition sells_desc : list SellOperation -> list SellOperation :=
  sort_by (fun a b => nv_leb (sell_value b) (sell_value a)).
Definition buys_desc : list BuyOperation -> list BuyOperation :=
  sort_by (fun a b => nv_leb (buy_value b) (buy_value a)).
End model.
Arguments SellOperation D : clear implicits.
Arguments BuyOperation D : clear implicits.
Arguments DirectSwap D : clear implicits.
Arguments MatchResult D : clear implicits.

(** ** Conservation *)
Section laws.
Context {D : Type} `{BigDecimalLaws D}.

Definition nv (v : NearValue D) : Q := bd_val (near_value_bd v).

(** The value of the operations whose token satisfies [f]. *)
Definition sells_sum (f : TokenAccount -> bool) (l : list (SellOperation D)) : Q :=
  sumQ (map (fun s => if f (sell_token s) then nv (sell_value s) else 0%Q) l).
Definition buys_sum (f : TokenAccount -> bool) (l : list (BuyOperation D)) : Q :=
  sumQ (map (fun b => if f (buy_token b) then nv (buy_value b) else 0%Q) l).
Definition swaps_sold (f : TokenAccount -> bool) (l : list (DirectSwap D)) : Q :=
  sumQ (map (fun s => if f (swap_sell_token s) then nv (swap_value s) else 0%Q) l).
Definition swaps_bought (f : TokenAccount -> bool) (l : list (DirectSwap D)) : Q :=
  sumQ (map (fun s => if f (swap_buy_token s) then nv (swap_value s) else 0%Q) l).

Lemma nv_ltb_val a b : nv_ltb a b = true <-> (nv a < nv b)%Q.
Proof. apply bd_ltb_val. Qed.
Lemma nv_ltb_false a b : nv_ltb a b = false <-> (nv b <= nv a)%Q.
Proof. apply bd_ltb_false. Qed.
Lemma nv_eqb_val a b : nv_eqb a b = true <-> nv a == nv b.
Proof. apply bd_eqb_val. Qed.
Lemma nv_zero : nv near_value_zero == 0.
Proof. apply val_zero. Qed.
Lemma nv_sub a b : nv (near_value_sub a b) == nv a - nv b.
Proof. apply val_sub. Qed.
Lemma nv_min_cases a b :
  (nv_min a b = a /\ (nv a <= nv b)%Q) \/ (nv_min a b = b /\ (nv b < nv a)%Q).
Proof.
  unfold nv_min, nv_leb. destruct (bd_leb _ _) eqn:E; [left|right]; (split; [done|]).
  - by apply bd_leb_val.
  - by apply bd_leb_false.
Qed.

(** What a result accounts for, given the operations that were left. *)
Record accounts (r : MatchResult D) (f : TokenAccount -> bool) (sold bought : Q) : Prop := {
  acc_sold : swaps_sold f (direct_swaps r) + sells_sum f (remaining_sells r) == sold;
  acc_bought : swaps_bought f (direct_swaps r) + buys_sum f (remaining_buys r) == bought;
}.

Lemma push_swap_accounts cs cb v r f sold bought : (0 <= nv v)%Q ->
  accounts r f sold bought ->
  accounts (push_swap cs cb v r) f
    ((if f (sell_token cs) then nv v else 0%Q) + sold)
    ((if f (buy_token cb) then nv v else 0%Q) + bought).
Proof.
  intros Hv [Hs Hb]. unfold push_swap. destruct (nv_ltb near_value_zero v) eqn:E.
  - split; cbn [direct_swaps remaining_sells remaining_buys].
    + rewrite <- Hs. unfold swaps_sold. cbn [map swap_sell_token swap_value]. rewrite sumQ_cons. ring.
    + rewrite <- Hb. unfold swaps_bought. cbn [map swap_buy_token swap_value]. rewrite sumQ_cons. ring.
  - apply nv_ltb_false in E. rewrite nv_zero in E.
    assert (Hz : nv v == 0) by lra.
    split; [rewrite Hs|rewrite Hb]; destruct (f _); rewrite ?Hz; ring.
Qed.

Lemma rest_sells_accounts cs sr sells f : (0 <= nv sr)%Q ->
  accounts (rest_sells cs sr sells) f
    ((if f (sell_token cs) then nv sr else 0%Q) + sells_sum f sells) 0.
Proof.
  intros Hsr. unfold rest_sells. destruct (nv_ltb near_value_zero sr) eqn:E;
    split; cbn [direct_swaps remaining_sells remaining_buys];
    unfold swaps_sold, swaps_bought, sells_sum, buys_sum;
    cbn [map sell_token sell_value buy_token buy_value]; rewrite ?sumQ_cons, ?sumQ_nil; try ring.
  apply nv_ltb_false in E. rewrite nv_zero in E. assert (Hz : nv sr == 0) by lra.
  destruct (f _); rewrite ?Hz; ring.
Qed.

Lemma rest_buys_accounts cb br buys f : (0 <= nv br)%Q ->
  accounts (rest_buys cb br buys) f
    0 ((if f (buy_token cb) then nv br else 0%Q) + buys_sum f buys).
Proof.
  intros Hbr. unfold rest_buys. destruct (nv_ltb near_value_zero br) eqn:E;
    split; cbn [direct_swaps remaining_sells remaining_buys];
    unfold swaps_sold, swaps_bought, sells_sum, buys_sum;
    cbn [map sell_token sell_value buy_token buy_value]; rewrite ?sumQ_cons, ?sumQ_nil; try ring.
  apply nv_ltb_false in E. rewrite nv_zero in E. assert (Hz : nv br == 0) by lra.
  destruct (f _); rewrite ?Hz; ring.
Qed.

Lemma accounts_proper r f s s' b b' : s == s' -> b == b' -> accounts r f s b -> accounts r f s' b'.
Proof. intros Hs Hb [H1 H2]. split; [by rewrite H1|by rewrite H2]. Qed.

(** The shape of a result: positive swaps, and one side used up. *)
Definition result_shape (r : MatchResult D) (n : nat) : Prop :=
  Forall (fun s => 0 < nv (swap_value s))%Q (direct_swaps r) /\
  (remaining_sells r = [] \/ remaining_buys r = []) /\
  (length (direct_swaps r) <= n)%nat.

Lemma push_swap_shape cs cb v r n : result_shape r n -> result_shape (push_swap cs cb v r) (S n).
Proof.
  intros (Hp & Hr & Hl). unfold push_swap, result_shape.
  destruct (nv_ltb near_value_zero v) eqn:E; cbn [direct_swaps remaining_sells remaining_buys];
    [|repeat split; [done|done|lia]].
  apply nv_ltb_val in E. rewrite nv_zero in E.
  repeat split; [by constructor|done|cbn; lia].
Qed.

Definition nonneg_sells (l : list (SellOperation D)) : Prop :=
  Forall (fun s => 0 <= nv (sell_value s))%Q l.
Definition nonneg_buys (l : list (BuyOperation D)) : Prop :=
  Forall (fun b => 0 <= nv (buy_value b))%Q l.

Lemma sells_sum_cons f s l :
  sells_sum f (s :: l) = ((if f (sell_token s) then nv (sell_value s) else 0) + sells_sum f l)%Q.
Proof. reflexivity. Qed.
Lemma buys_sum_cons f b l :
  buys_sum f (b :: l) = ((if f (buy_token b) then nv (buy_value b) else 0) + buys_sum f l)%Q.
Proof. reflexivity. Qed.
Lemma sells_sum_nil f : sells_sum f [] = 0%Q.
Proof. reflexivity. Qed.
Lemma buys_sum_nil f : buys_sum f [] = 0%Q.
Proof. reflexivity. Qed.

(** What the loop promises from a given position. *)
Definition loop_ok (o : option (outcome anyhow (MatchResult D))) (cs : SellOperation D)
    (sr : NearValue D) (sells : list (SellOperation D)) (cb : BuyOperation D) (br : NearValue D)
    (buys : list (BuyOperation D)) (n : nat) : Prop :=
  exists r, o = Some (Ok r) /\ result_shape r n /\
    forall f, accounts r f
      ((if f (sell_token cs) then nv sr else 0) + sells_sum f sells)%Q
      ((if f (buy_token cb) then nv br else 0) + buys_sum f buys)%Q.

Lemma result_shape_le r n m : result_shape r n -> (n <= m)%nat -> result_shape r m.
Proof. intros (? & ? & ?) ?. repeat split; [done|done|lia]. Qed.

(** One step: the matched value is taken from both sides. *)
Lemma loop_ok_push o cs sr cb br m r n (sold bought : (TokenAccount -> bool) -> Q) :
  (0 <= nv m)%Q -> o = Some (Ok r) -> result_shape r n ->
  (forall f : TokenAccount -> bool, accounts r f (sold f) (bought f)) ->
  forall sells buys,
  (forall f : TokenAccount -> bool, (if f (sell_token cs) then nv m else 0) + sold f
             == (if f (sell_token cs) then nv sr else 0) + sells_sum f sells)%Q ->
  (forall f : TokenAccount -> bool, (if f (buy_token cb) then nv m else 0) + bought f
             == (if f (buy_token cb) then nv br else 0) + buys_sum f buys)%Q ->
  loop_ok (match o with
           | Some (Ok r) => Some (Ok (push_swap cs cb m r))
           | _ => o
           end) cs sr sells cb br buys (S n).
Proof.
  intros Hm -> Hshape Hacc sells buys Hs Hb. exists (push_swap cs cb m r).
  split; [done|]. split; [by apply push_swap_shape|]. intros f.
  eapply accounts_proper; [apply Hs|apply Hb|]. by apply push_swap_accounts.
Qed.

(** What is matched is taken from both sides and uses one of them up. *)
Lemma matched_split sr br : (0 <= nv sr)%Q -> (0 <= nv br)%Q ->
  let m := nv_min sr br in
  let sr' := near_value_sub sr m in
  let br' := near_value_sub br m in
  (nv sr' == nv sr - nv m)%Q /\ (nv br' == nv br - nv m)%Q /\
  (0 <= nv m)%Q /\ (0 <= nv sr')%Q /\ (0 <= nv br')%Q /\ (nv sr' == 0 \/ nv br' == 0)%Q.
Proof.
  intros Hs Hb m sr' br'.
  assert (Esr : (nv sr' == nv sr - nv m)%Q) by apply nv_sub.
  assert (Ebr : (nv br' == nv br - nv m)%Q) by apply nv_sub.
  split; [done|]. split; [done|].
  destruct (nv_min_cases sr br) as [[E Hle]|[E Hle]]; fold m in E; rewrite E in Esr, Ebr |- *;
    (do 3 (split; [lra|])); [left|right]; lra.
Qed.

(** Closes the equations between sums after one step. *)
Ltac settle :=
  intros f; rewrite ?sells_sum_cons, ?buys_sum_cons, ?sells_sum_nil, ?buys_sum_nil; cbn beta;
  repeat destruct (f _); lra.

Lemma match_loop_ok fuel : forall cs sr sells cb br buys,
  (length sells + length buys < fuel)%nat ->
  (0 <= nv sr)%Q -> (0 <= nv br)%Q -> nonneg_sells sells -> nonneg_buys buys ->
  loop_ok (match_loop fuel cs sr sells cb br buys) cs sr sells cb br buys
    (S (length sells + length buys)).
Proof.
  induction fuel as [|fuel IH]; intros cs sr sells cb br buys Hf Hsr Hbr Hss Hbs; [lia|].
  cbn [match_loop]. destruct (matched_split sr br Hsr Hbr) as (Esr & Ebr & Hm & Hsr' & Hbr' & Hzero).
  cbn zeta in *. set (m := nv_min sr br) in *.
  set (sr' := near_value_sub sr m) in *. set (br' := near_value_sub br m) in *.
  assert (Hp1 : nv_ltb sr' near_value_zero = false) by (apply nv_ltb_false; rewrite nv_zero; done).
  assert (Hp2 : nv_ltb br' near_value_zero = false) by (apply nv_ltb_false; rewrite nv_zero; done).
  rewrite Hp1, Hp2. cbn [orb].
  destruct (nv_eqb sr' near_value_zero) eqn:Es.
  - apply nv_eqb_val in Es. rewrite nv_zero in Es. destruct sells as [|s sells].
    + eapply (loop_ok_push _ _ _ _ _ _ _ _ _ _ Hm eq_refl);
        [|intros f; by apply rest_buys_accounts| |].
      * repeat split; [constructor|by left|cbn; lia].
      * settle.
      * settle.
    + apply Forall_cons_1 in Hss as [Hs Hss]. destruct (nv_eqb br' near_value_zero) eqn:Eb.
      * apply nv_eqb_val in Eb. rewrite nv_zero in Eb. destruct buys as [|b buys].
        -- eapply (loop_ok_push _ _ _ _ _ _ _ _ _ _ Hm eq_refl);
             [|intros f; by apply rest_sells_accounts| |].
           ++ repeat split; [constructor|by right|cbn; lia].
           ++ settle.
           ++ settle.
        -- apply Forall_cons_1 in Hbs as [Hb Hbs]. cbn [length] in *.
           destruct (IH s (sell_value s) sells b (buy_value b) buys) as (r & Hr & Hsh & Hacc);
             [lia|done..|].
           eapply (loop_ok_push _ _ _ _ _ _ _ _ _ _ Hm Hr);
             [by eapply result_shape_le; [exact Hsh|lia]|exact Hacc|settle|settle].
      * cbn [length] in *.
        destruct (IH s (sell_value s) sells cb br' buys) as (r & Hr & Hsh & Hacc); [lia|done..|].
        eapply (loop_ok_push _ _ _ _ _ _ _ _ _ _ Hm Hr);
          [by eapply result_shape_le; [exact Hsh|lia]|exact Hacc|settle|settle].
  - assert (Hb0 : nv br' == 0).
    { destruct Hzero as [Hz|?]; [|done]. exfalso.
      assert (nv_eqb sr' near_value_zero = true) by (apply nv_eqb_val; by rewrite nv_zero).
      congruence. }
    assert (Eb : nv_eqb br' near_value_zero = true) by (apply nv_eqb_val; by rewrite nv_zero).
    rewrite Eb. destruct buys as [|b buys].
    + eapply (loop_ok_push _ _ _ _ _ _ _ _ _ _ Hm eq_refl);
        [|intros f; by apply rest_sells_accounts| |].
      * repeat split; [constructor|by right|cbn; lia].
      * settle.
      * settle.
    + apply Forall_cons_1 in Hbs as [Hb Hbs]. cbn [length] in *.
      destruct (IH cs sr' sells b (buy_value b) buys) as (r & Hr & Hsh & Hacc); [lia|done..|].
      eapply (loop_ok_push _ _ _ _ _ _ _ _ _ _ Hm Hr);
        [by eapply result_shape_le; [exact Hsh|lia]|exact Hacc|settle|settle].
Qed.
End laws.

(** ** Theorem *)
Lemma sumQ_perm (l l' : list Q) : l ≡ₚ l' -> sumQ l == sumQ l'.
Proof.
  induction 1; rewrite ?sumQ_cons; [reflexivity|by rewrite IHPermutation|ring|by etransitivity].
Qed.

Section theorems.
Context (D : Type) `{BigDecimalLaws D}.

Lemma sells_sum_perm f l l' : l ≡ₚ l' -> sells_sum (D:=D) f l == sells_sum f l'.
Proof. intros Hp. apply sumQ_perm. by apply Permutation_map. Qed.
Lemma buys_sum_perm f l l' : l ≡ₚ l' -> buys_sum (D:=D) f l == buys_sum f l'.
Proof. intros Hp. apply sumQ_perm. by apply Permutation_map. Qed.

(** C31: Matching always returns, whatever order the sorts leave equal values in,
    and nothing is lost or invented: for any set of tokens, in particular for
    each single token and for all together, the value sold in direct swaps plus
    the remaining sells is the value of the original sells, and the same for the
    buys.  Every direct swap has a positive value, one of the two remainders is
    empty, and there are fewer swaps than operations. *)
Theorem match_conserves sort_sells sort_buys sells buys :
  (forall l, sort_sells l ≡ₚ l) -> (forall l, sort_buys l ≡ₚ l) ->
  nonneg_sells sells -> nonneg_buys buys ->
  exists r,
    match_rebalance_operations (D:=D) sort_sells sort_buys sells buys = Some (Ok r) /\
    (forall f, swaps_sold f (direct_swaps r) + sells_sum f (remaining_sells r)
                 == sells_sum f sells /\
               swaps_bought f (direct_swaps r) + buys_sum f (remaining_buys r)
                 == buys_sum f buys) /\
    Forall (fun s => 0 < nv (swap_value s))%Q (direct_swaps r) /\
    (remaining_sells r = [] \/ remaining_buys r = []) /\
    (length (direct_swaps r) <= length sells + length buys - 1)%nat.
Proof.
  intros Hps Hpb Hs Hb. unfold match_rebalance_operations.
  destruct sells as [|s0 sells']; [|destruct buys as [|b0 buys']].
  1-2: eexists; split; [done|]; split; [|repeat split; [constructor|tauto|cbn; lia]];
    intros f; unfold swaps_sold, swaps_bought; cbn [direct_swaps remaining_sells remaining_buys map];
    rewrite sumQ_nil; split; ring.
  specialize (Hps (s0 :: sells')). specialize (Hpb (b0 :: buys')).
  set (sells := s0 :: sells') in *. set (buys := b0 :: buys') in *.
  pose proof (Permutation_length Hps) as Hls. pose proof (Permutation_length Hpb) as Hlb.
  destruct (sort_sells sells) as [|s ss] eqn:Es; [by cbn in Hls|].
  destruct (sort_buys buys) as [|b bs] eqn:Eb; [by cbn in Hlb|].
  unfold nonneg_sells in Hs. unfold nonneg_buys in Hb. rewrite <- Hps in Hs. rewrite <- Hpb in Hb.
  apply Forall_cons_1 in Hs as [Hs0 Hs]. apply Forall_cons_1 in Hb as [Hb0 Hb].
  cbn [length] in Hls, Hlb.
  destruct (match_loop_ok (length sells + length buys) s (sell_value s) ss b (buy_value b) bs)
    as (r & -> & (Hpos & Hrem & Hlen) & Hacc); [rewrite <- Hls, <- Hlb; lia|done..|].
  exists r. split; [done|]. split; [|split; [done|split; [done|rewrite <- Hls, <- Hlb; lia]]].
  intros f. destruct (Hacc f) as [-> ->].
  rewrite <- (sells_sum_perm f _ _ Hps), <- (buys_sum_perm f _ _ Hpb).
  rewrite sells_sum_cons, buys_sum_cons. split; reflexivity.
Qed.
End theorems.

(** ** A concrete rebalance *)
Definition sample_rate : ExchangeRate Q := mkExchangeRate (5000000 # 1) 6.
Definition sample_sells : list (SellOperation Q) :=
  [mkSell "a.near" (mkNearValue (30 # 1)) sample_rate;
   mkSell "b.near" (mkNearValue (50 # 1)) sample_rate]%string.
Definition sample_buys : list (BuyOperation Q) :=
  [mkBuy "x.near" (mkNearValue (40 # 1)); mkBuy "y.near" (mkNearValue (20 # 1))]%string.

Example sample_match :
  match_rebalance_operations sells_desc buys_desc sample_sells sample_buys =
  Some (Ok (mkMatchResult
    [mkDirectSwap "b.near" "x.near" (mkNearValue (40 # 1)) sample_rate;
     mkDirectSwap "b.near" "y.near" (mkNearValue (10 # 1)) sample_rate;
     mkDirectSwap "a.near" "y.near" (mkNearValue (10 # 1)) sample_rate]
    [mkSell "a.near" (mkNearValue (20 # 1)) sample_rate] []))%string.
Proof. vm_compute. reflexivity. Qed.

Lemma match_conserves_witness :
  exists r,
    match_rebalance_operations sells_desc buys_desc sample_sells sample_buys = Some (Ok r) /\
    (forall f, swaps_sold f (direct_swaps r) + sells_sum f (remaining_sells r)
                 == sells_sum f sample_sells /\
               swaps_bought f (direct_swaps r) + buys_sum f (remaining_buys r)
                 == buys_sum f sample_buys) /\
    Forall (fun s => 0 < nv (swap_value s))%Q (direct_swaps r) /\
    (remaining_sells r = [] \/ remaining_buys r = []) /\
    (length (direct_swaps r) <= length sample_sells + length sample_buys - 1)%nat.
Proof.
  apply (match_conserves Q sells_desc buys_desc sample_sells sample_buys);
    [intros l; apply sort_by_perm | intros l; apply sort_by_perm
    | repeat constructor; vm_compute; discriminate
    | repeat constructor; vm_compute; discriminate].
Defined.
