(* ===== verification/Portfolio.v ===== *)
(** * Portfolio: the simulated portfolio and its books

    [crates/simulate/src/portfolio_state.rs]: cash, holdings, cost basis and
    realised profit of a simulated account, with the swaps and liquidations that
    change them.  The code keeps every figure as a decimal; [Books] below is the
    same account on integers, the section [refinement] shows that the code
    implements it, and the theorems are about the account over any sequence of
    operations. *)

From Stdlib Require Import QArith Qround SpecFloat.
From S2P Require Import Prelude F64 BigDecimal Units.
Local Open Scope N_scope.

(** Rates for the day of the simulation: the answers of a [RateProvider]. *)
Abbreviation Rates D := (TokenAccount -> option (ExchangeRate D)) (only parsing).

Inductive TradeAction := Buy | Sell | Liquidation.
Inductive SwapMethod := PoolBased | DbRate.

Definition DEFAULT_DECIMALS : N := 24.

Record SwapResult := mkSwapResult { actual_in : N; actual_out : N }.

(** [a.checked_add(b)] of [i128], saturating in the direction of [b]. *)
Definition checked_add_or_saturate (a b : Z) : Z :=
  if ((I128_MIN <=? a + b) && (a + b <=? I128_MAX))%Z then (a + b)%Z
  else if (0 <? b)%Z then I128_MAX else I128_MIN.

Definition pnl_to_near (pnl_yocto : Z) : f64 := f64_div (f64_of_Z pnl_yocto) (f64_of_Z (10 ^ 24)).
Definition yocto_to_near (yocto : N) : f64 := f64_div (f64_of_N yocto) (f64_of_Z (10 ^ 24)).

Section model.
Context {D : Type} `{BigDecimal D}.

Definition to_u128_or_warn (value : D) : N :=
  match bd_to_u128 value with Some n => n | None => 0 end.
Definition to_i128_or_warn (value : D) : Z :=
  match bd_to_i128 value with Some z => z | None => 0%Z end.
Definition to_f64_or_warn (value : D) : f64 :=
  match bd_to_f64 value with Some x => x | None => f64_zero end.

Record PortfolioSnapshot := mkSnapshot {
  snap_timestamp : Z;
  snap_total_value_near : f64;
  snap_holdings : gmap string (TokenAmount D);
  snap_cash_balance : YoctoValue D;
  snap_realized_pnl_near : f64;
}.

Record TradeRecord := mkTradeRecord {
  trade_timestamp : Z;
  trade_action : TradeAction;
  trade_token : TokenAccount;
  trade_amount : TokenAmount D;
  trade_price_near : f64;
  trade_realized_pnl_near : option f64;
}.

Record SwapEvent := mkSwapEvent {
  event_timestamp : Z;
  event_token_in : TokenAccount;
  event_amount_in : TokenAmount D;
  event_token_out : TokenAccount;
  event_amount_out : TokenAmount D;
  event_swap_method : SwapMethod;
  event_pool_ids : list N;
}.

Record PortfolioState := mkPortfolio {
  cash_balance : YoctoValue D;
  holdings : gmap string (TokenAmount D);
  snapshots : list PortfolioSnapshot;
  trades : list TradeRecord;
  cost_basis : gmap string (YoctoValue D);
  realized_pnl : Z;
  realized_pnl_by_token : gmap string Z;
  swap_events : list SwapEvent;
}.

Definition portfolio_new (initial_capital : YoctoValue D) : PortfolioState :=
  mkPortfolio initial_capital ∅ [] [] ∅ 0 ∅ [].

Definition set_cash (s : PortfolioState) (c : YoctoValue D) : PortfolioState :=
  mkPortfolio c (holdings s) (snapshots s) (trades s) (cost_basis s) (realized_pnl s)
    (realized_pnl_by_token s) (swap_events s).
Definition set_holdings (s : PortfolioState) (h : gmap string (TokenAmount D)) : PortfolioState :=
  mkPortfolio (cash_balance s) h (snapshots s) (trades s) (cost_basis s) (realized_pnl s)
    (realized_pnl_by_token s) (swap_events s).
Definition set_basis (s : PortfolioState) (b : gmap string (YoctoValue D)) : PortfolioState :=
  mkPortfolio (cash_balance s) (holdings s) (snapshots s) (trades s) b (realized_pnl s)
    (realized_pnl_by_token s) (swap_events s).
Definition set_pnl (s : PortfolioState) (p : Z) (by_token : gmap string Z) : PortfolioState :=
  mkPortfolio (cash_balance s) (holdings s) (snapshots s) (trades s) (cost_basis s) p
    by_token (swap_events s).
Definition push_trade (s : PortfolioState) (t : TradeRecord) : PortfolioState :=
  mkPortfolio (cash_balance s) (holdings s) (snapshots s) (trades s ++ [t]) (cost_basis s)
    (realized_pnl s) (realized_pnl_by_token s) (swap_events s).
Definition push_snapshot (s : PortfolioState) (t : PortfolioSnapshot) : PortfolioState :=
  mkPortfolio (cash_balance s) (holdings s) (snapshots s ++ [t]) (trades s) (cost_basis s)
    (realized_pnl s) (realized_pnl_by_token s) (swap_events s).
Definition push_event (s : PortfolioState) (e : SwapEvent) : PortfolioState :=
  mkPortfolio (cash_balance s) (holdings s) (snapshots s) (trades s) (cost_basis s)
    (realized_pnl s) (realized_pnl_by_token s) (swap_events s ++ [e]).

Definition scale_output (to_amount actual requested : N) : outcome anyhow N :=
  if requested =? 0 then Panic
  else if actual =? requested then Ok to_amount
  else
    let? scaled := bd_quot (bd_mul (bd_of_N to_amount) (bd_of_N actual)) (bd_of_N requested) in
    Ok (to_u128_or_warn (bd_trunc (D:=D) scaled)).

Definition add_to_cost_basis (s : PortfolioState) (t : TokenAccount) (amount : YoctoValue D)
    : PortfolioState :=
  let current := match cost_basis s !! t with Some b => b | None => yocto_value_zero end in
  set_basis s (<[t := yocto_value_add current amount]> (cost_basis s)).

(** The share of the cost basis that belongs to the sold part. *)
Definition average_cost_of_sold (s : PortfolioState) (t : TokenAccount)
    (sell_amount total_holding : N) : YoctoValue D :=
  let total_cost := match cost_basis s !! t with Some b => b | None => yocto_value_zero end in
  if yocto_value_is_zero total_cost || (sell_amount =? 0) then yocto_value_zero
  else if sell_amount =? total_holding then total_cost
  else if 0 <? total_holding then
    from_yocto (bd_floor (bd_div (bd_mul (yocto_value_bd total_cost) (bd_of_N sell_amount))
                                 (bd_of_N total_holding)))
  else yocto_value_zero.

Definition holding_units (s : PortfolioState) (t : TokenAccount) : N :=
  match holdings s !! t with Some a => to_u128_or_warn (smallest_units a) | None => 0 end.
Definition holding_closed (s : PortfolioState) (t : TokenAccount) : bool :=
  match holdings s !! t with Some a => token_amount_is_zero a | None => true end.

Definition record_sell_pnl (s : PortfolioState) (t : TokenAccount) (sell_amount : N)
    (sell_proceeds_yocto : YoctoValue D) : outcome anyhow (f64 * PortfolioState) :=
  let? total_holding := expect (checked_add (holding_units s t) sell_amount) in
  let cost_of_sold := average_cost_of_sold s t sell_amount total_holding in
  let pnl_bd :=
    bd_floor (bd_sub (yocto_value_bd sell_proceeds_yocto) (yocto_value_bd cost_of_sold)) in
  let pnl := to_i128_or_warn pnl_bd in
  let s :=
    match cost_basis s !! t with
    | Some basis =>
        set_basis s (<[t := yocto_value_saturating_sub basis cost_of_sold]> (cost_basis s))
    | None => s
    end in
  let token_pnl := match realized_pnl_by_token s !! t with Some p => p | None => 0%Z end in
  let s := set_pnl s (checked_add_or_saturate (realized_pnl s) pnl)
             (<[t := checked_add_or_saturate token_pnl pnl]> (realized_pnl_by_token s)) in
  let s := if holding_closed s t then set_basis s (delete t (cost_basis s)) else s in
  Ok (pnl_to_near pnl, s).

(** Taking the sold amount out of the holdings of [from]. *)
Definition deduct_holding (s : PortfolioState) (from : TokenAccount) (actual_from : N)
    : PortfolioState :=
  match holdings s !! from with
  | Some h =>
      let new_units := bd_max (bd_sub (smallest_units h) (bd_of_N actual_from)) bd_zero in
      set_holdings s (<[from := from_smallest_units new_units (amount_decimals h)]> (holdings s))
  | None => s
  end.

Definition execute_simulated_swap (wnear : TokenAccount) (s : PortfolioState)
    (from : TokenAccount) (from_amount : N) (to : TokenAccount) (to_amount : N) (to_decimals : N)
    : outcome anyhow (option SwapResult * PortfolioState) :=
  let from_balance :=
    if bool_decide (from = wnear) then to_u128_or_warn (yocto_value_bd (cash_balance s))
    else holding_units s from in
  let actual_from := N.min from_amount from_balance in
  if actual_from =? 0 then Ok (None, s)
  else
    let? actual_to := scale_output to_amount actual_from from_amount in
    if actual_to =? 0 then Ok (None, s)
    else
      let spent := from_yocto (bd_of_N actual_from) in
      let received := from_yocto (bd_of_N actual_to) in
      let transferred_cost :=
        if bool_decide (from <> wnear) && bool_decide (to <> wnear)
        then average_cost_of_sold s from actual_from from_balance else yocto_value_zero in
      let? s :=
        if bool_decide (from = wnear) then
          Ok (set_cash s (yocto_value_saturating_sub (cash_balance s) spent))
        else
          let s := deduct_holding s from actual_from in
          let sell_proceeds_yocto :=
            if bool_decide (to = wnear) then from_yocto (bd_of_N actual_to)
            else transferred_cost in
          let? r := record_sell_pnl s from actual_from sell_proceeds_yocto in
          let s := r.2 in
          Ok (if holding_closed s from then set_holdings s (delete from (holdings s)) else s) in
      let s :=
        if bool_decide (to = wnear) then set_cash s (yocto_value_add (cash_balance s) received)
        else
          let entry := match holdings s !! to with
                       | Some a => a | None => token_amount_zero to_decimals end in
          let new_units := bd_add (smallest_units entry) (bd_of_N actual_to) in
          let s := set_holdings s
            (<[to := from_smallest_units new_units (amount_decimals entry)]> (holdings s)) in
          if bool_decide (from = wnear) then add_to_cost_basis s to spent
          else if negb (yocto_value_is_zero transferred_cost)
               then add_to_cost_basis s to transferred_cost
               else s in
      Ok (Some (mkSwapResult actual_from actual_to), s).

Definition token_amount_to_yocto (rates : Rates D) (t : TokenAccount) (a : TokenAmount D)
    : outcome anyhow N :=
  match rates t with
  | Some rate =>
      if rate_is_zero rate then Ok 0
      else
        let? near_value := amount_div_rate a rate in
        Ok (to_u128_or_warn (yocto_value_bd (near_value_to_yocto near_value)))
  | None => Ok 0
  end.

(** One round of [liquidate_all]. *)
Definition liquidate_one (rates : Rates D) (sim_day : Z) (s : PortfolioState)
    (t : TokenAccount) (a : TokenAmount D) : outcome anyhow PortfolioState :=
  let amount_raw := to_u128_or_warn (smallest_units a) in
  let? sell_yocto := token_amount_to_yocto rates t a in
  if sell_yocto =? 0 then Ok s
  else
    let s := set_holdings s (delete t (holdings s)) in
    let sell_yocto_value := from_yocto (bd_of_N sell_yocto) in
    let? r := record_sell_pnl s t amount_raw sell_yocto_value in
    let s := set_cash r.2 (yocto_value_add (cash_balance r.2) sell_yocto_value) in
    Ok (push_trade s (mkTradeRecord sim_day Liquidation t a (yocto_to_near sell_yocto)
                        (Some r.1))).

Fixpoint liquidate_each (rates : Rates D) (sim_day : Z) (s : PortfolioState)
    (l : list (TokenAccount * TokenAmount D)) : outcome anyhow PortfolioState :=
  match l with
  | [] => Ok s
  | (t, a) :: l =>
      let? s := liquidate_one rates sim_day s t a in
      liquidate_each rates sim_day s l
  end.

Definition liquidate_all (rates : Rates D) (sim_day : Z) (s : PortfolioState)
    : outcome anyhow PortfolioState :=
  liquidate_each rates sim_day s
    (bfilter (fun p => negb (token_amount_is_zero p.2)) (btree_iter (holdings s))).

Fixpoint total_value_from (rates : Rates D) (total : f64) (l : list (TokenAccount * TokenAmount D))
    : outcome anyhow f64 :=
  match l with
  | [] => Ok total
  | (t, a) :: l =>
      if token_amount_is_zero a then total_value_from rates total l
      else match rates t with
           | Some rate =>
               let? near_value := amount_div_rate a rate in
               total_value_from rates (f64_add total (to_f64_or_warn (near_value_bd near_value))) l
           | None => total_value_from rates total l
           end
  end.

Definition calculate_total_value_near (rates : Rates D) (s : PortfolioState) : outcome anyhow f64 :=
  total_value_from rates
    (f64_div (to_f64_or_warn (yocto_value_bd (cash_balance s))) (f64_of_Z (10 ^ 24)))
    (btree_iter (holdings s)).

Definition record_snapshot (rates : Rates D) (sim_day : Z) (s : PortfolioState)
    : outcome anyhow PortfolioState :=
  let? total_value := calculate_total_value_near rates s in
  Ok (push_snapshot s (mkSnapshot sim_day total_value (holdings s) (cash_balance s)
                         (pnl_to_near (realized_pnl s)))).
End model.
Arguments PortfolioState D : clear implicits.

(** ** The account on integers *)
Record Books := mkBooks {
  b_cash : N;
  b_hold : gmap string N;
  b_basis : gmap string N;
  b_pnl : Z;
  b_pnl_by : gmap string Z;
}.

(** Conversions that fall back to zero out of range. *)
Definition cap (n : N) : N := if n <=? U128_MAX then n else 0.
Definition i128_or_zero (z : Z) : Z :=
  if ((I128_MIN <=? z) && (z <=? I128_MAX))%Z then z else 0%Z.

Definition get (m : gmap string N) (t : TokenAccount) : N := default 0 (m !! t).

Definition books_new (capital : N) : Books := mkBooks capital ∅ ∅ 0 ∅.

(** The cost of the sold part: its share of the basis, rounded down. *)
Definition books_cost (b : Books) (t : TokenAccount) (sold total : N) : N :=
  let c := get (b_basis b) t in
  if (c =? 0) || (sold =? 0) then 0
  else if sold =? total then c
  else if 0 <? total then c * sold / total else 0.

Definition books_closed (b : Books) (t : TokenAccount) : bool := get (b_hold b) t =? 0.

Definition books_record (b : Books) (t : TokenAccount) (sold proceeds : N) : outcome anyhow Books :=
  let? total := expect (checked_add (cap (get (b_hold b) t)) sold) in
  let cost := books_cost b t sold total in
  let pnl := i128_or_zero (Z.of_N proceeds - Z.of_N cost) in
  let basis := match b_basis b !! t with
               | Some c => <[t := c - cost]> (b_basis b) | None => b_basis b end in
  let token_pnl := match b_pnl_by b !! t with Some p => p | None => 0%Z end in
  Ok (mkBooks (b_cash b) (b_hold b) (if books_closed b t then delete t basis else basis)
        (checked_add_or_saturate (b_pnl b) pnl)
        (<[t := checked_add_or_saturate token_pnl pnl]> (b_pnl_by b))).

Definition books_deduct (b : Books) (t : TokenAccount) (sold : N) : Books :=
  match b_hold b !! t with
  | Some h => mkBooks (b_cash b) (<[t := h - sold]> (b_hold b)) (b_basis b) (b_pnl b) (b_pnl_by b)
  | None => b
  end.

Definition books_drop_closed (b : Books) (t : TokenAccount) : Books :=
  if books_closed b t
  then mkBooks (b_cash b) (delete t (b_hold b)) (b_basis b) (b_pnl b) (b_pnl_by b) else b.

Definition books_set_cash (b : Books) (c : N) : Books :=
  mkBooks c (b_hold b) (b_basis b) (b_pnl b) (b_pnl_by b).

Definition books_receive (b : Books) (t : TokenAccount) (amount cost : N) (track : bool) : Books :=
  mkBooks (b_cash b) (<[t := get (b_hold b) t + amount]> (b_hold b))
    (if track then <[t := get (b_basis b) t + cost]> (b_basis b) else b_basis b)
    (b_pnl b) (b_pnl_by b).

Definition books_scale (to_amount actual requested : N) : outcome anyhow N :=
  if requested =? 0 then Panic
  else if actual =? requested then Ok to_amount else Ok (cap (to_amount * actual / requested)).

Definition books_swap (wnear : TokenAccount) (b : Books) (from : TokenAccount) (from_amount : N)
    (to : TokenAccount) (to_amount : N) : outcome anyhow (option SwapResult * Books) :=
  let balance := if bool_decide (from = wnear) then cap (b_cash b) else cap (get (b_hold b) from) in
  let sold := N.min from_amount balance in
  if sold =? 0 then Ok (None, b)
  else
    let? bought := books_scale to_amount sold from_amount in
    if bought =? 0 then Ok (None, b)
    else
      let moved := if bool_decide (from <> wnear) && bool_decide (to <> wnear)
                   then books_cost b from sold balance else 0 in
      let? b :=
        if bool_decide (from = wnear) then Ok (books_set_cash b (b_cash b - sold))
        else
          let? b := books_record (books_deduct b from sold) from sold
                      (if bool_decide (to = wnear) then bought else moved) in
          Ok (books_drop_closed b from) in
      let b :=
        if bool_decide (to = wnear) then books_set_cash b (b_cash b + bought)
        else if bool_decide (from = wnear) then books_receive b to bought sold true
        else books_receive b to bought moved (negb (moved =? 0)) in
      Ok (Some (mkSwapResult sold bought), b).

(** Selling the whole position of [n] units for [proceeds]. *)
Definition books_liquidate (b : Books) (t : TokenAccount) (n proceeds : N) : outcome anyhow Books :=
  if proceeds =? 0 then Ok b
  else
    let b := mkBooks (b_cash b) (delete t (b_hold b)) (b_basis b) (b_pnl b) (b_pnl_by b) in
    let? b := books_record b t (cap n) proceeds in
    Ok (books_set_cash b (b_cash b + proceeds)).

(** ** The code implements the integer account *)
Section refinement.
Context {D : Type} `{BigDecimalLaws D}.

Definition ints (v : D) (n : N) : Prop := bd_val v == inject_Z (Z.of_N n).

Lemma ints_of_N n : ints (bd_of_N n) n.
Proof. apply val_of_N. Qed.
Lemma ints_zero : ints bd_zero 0.
Proof. apply val_zero. Qed.
Lemma ints_add a b x y : ints a x -> ints b y -> ints (bd_add a b) (x + y).
Proof.
  unfold ints. intros Ha Hb. rewrite val_add, Ha, Hb, <- inject_Z_plus, N2Z.inj_add. reflexivity.
Qed.
Lemma ints_sub a b x y : y <= x -> ints a x -> ints b y -> ints (bd_sub a b) (x - y).
Proof.
  unfold ints. intros Hle Ha Hb. rewrite val_sub, Ha, Hb, N2Z.inj_sub by done.
  unfold Qminus. by rewrite <- inject_Z_opp, <- inject_Z_plus.
Qed.
Lemma ints_leb a b x y : ints a x -> ints b y -> bd_leb a b = (x <=? y).
Proof.
  unfold ints. intros Ha Hb. destruct (N.leb_spec x y) as [Hl|Hl].
  - apply bd_leb_val. rewrite Ha, Hb, <- Zle_Qle. lia.
  - apply bd_leb_false. rewrite Ha, Hb, <- Zlt_Qlt. lia.
Qed.
Lemma ints_is_zero a x : ints a x -> bd_is_zero a = (x =? 0).
Proof.
  unfold ints. intros Ha. destruct (N.eqb_spec x 0) as [->|Hx].
  - by apply bd_is_zero_val.
  - apply bd_is_zero_false. rewrite Ha. apply inject_Z_nonzero. lia.
Qed.
Lemma ints_to_u128 a x : ints a x -> to_u128_or_warn a = cap x.
Proof.
  unfold ints, to_u128_or_warn, cap. intros Ha.
  assert (H0' : (0 <= bd_val a)%Q) by (rewrite Ha; apply inject_Z_nonneg; lia).
  rewrite (to_u128_value _ H0'), (Qfloor_compat _ _ Ha), Qfloor_of_Z, N2Z.id.
  destruct (N.leb_spec x U128_MAX) as [Hl|Hl].
  - rewrite (proj2 (Z.leb_le _ _)); [done|lia].
  - rewrite (proj2 (Z.leb_gt _ _)); [done|lia].
Qed.
Lemma ints_max_sub a b x y : ints a x -> ints b y -> ints (bd_max (bd_sub a b) bd_zero) (x - y).
Proof.
  intros Ha Hb. unfold bd_max. destruct (N.le_gt_cases y x) as [Hle|Hgt].
  - pose proof (ints_sub _ _ _ _ Hle Ha Hb) as Hs. rewrite (ints_leb _ _ _ _ Hs ints_zero).
    destruct (N.leb_spec (x - y) 0) as [Hz|]; [|done].
    replace (x - y) with 0 by lia. apply ints_zero.
  - replace (x - y) with 0 by lia.
    assert (Hb' : bd_leb (bd_sub a b) bd_zero = true).
    { apply bd_leb_val. unfold ints in *. rewrite val_sub, val_zero, Ha, Hb.
      apply (Qplus_le_l _ _ (inject_Z (Z.of_N y))).
      assert (E : (inject_Z (Z.of_N x) - inject_Z (Z.of_N y) + inject_Z (Z.of_N y)
                   == inject_Z (Z.of_N x))%Q) by ring.
      rewrite E, Qplus_0_l, <- Zle_Qle. lia. }
    rewrite Hb'. apply ints_zero.
Qed.
Lemma ints_saturating_sub a b x y :
  ints (yocto_value_bd a) x -> ints (yocto_value_bd b) y ->
  ints (yocto_value_bd (yocto_value_saturating_sub a b)) (x - y).
Proof.
  intros Ha Hb. unfold yocto_value_saturating_sub. rewrite (ints_leb _ _ _ _ Hb Ha).
  destruct (N.leb_spec y x) as [Hle|Hgt]; cbn.
  - by apply ints_sub.
  - replace (x - y) with 0 by lia. apply ints_zero.
Qed.
Lemma ints_mul a b x y : ints a x -> ints b y -> ints (bd_mul a b) (x * y).
Proof.
  unfold ints. intros Ha Hb. rewrite val_mul, Ha, Hb, <- inject_Z_mult, N2Z.inj_mul. reflexivity.
Qed.
Lemma div_ints_floor a b x y : ints a x -> ints b y -> x < 10 ^ 99 -> 0 < y ->
  (0 <= bd_val (bd_div a b))%Q /\ Qfloor (bd_val (bd_div a b)) = Z.of_N (x / y).
Proof.
  intros Ha Hb Hx Hy. rewrite N2Z.inj_div.
  apply (div_floor a b (Z.of_N x) (Z.of_N y) Ha Hb); lia.
Qed.
Lemma ints_floor_div a b x y : ints a x -> ints b y -> x < 10 ^ 99 -> 0 < y ->
  ints (bd_floor (bd_div a b)) (x / y).
Proof.
  intros Ha Hb Hx Hy. destruct (div_ints_floor _ _ _ _ Ha Hb Hx Hy) as [_ Hf].
  unfold ints. rewrite val_floor, Hf. reflexivity.
Qed.
Lemma ints_trunc_div a b x y : ints a x -> ints b y -> x < 10 ^ 99 -> 0 < y ->
  ints (bd_trunc (bd_div a b)) (x / y).
Proof.
  intros Ha Hb Hx Hy. destruct (div_ints_floor _ _ _ _ Ha Hb Hx Hy) as [H0' Hf].
  unfold ints. rewrite val_trunc, Hf by done. reflexivity.
Qed.
Lemma ints_pnl a b x y : ints a x -> ints b y ->
  to_i128_or_warn (bd_floor (bd_sub a b)) = i128_or_zero (Z.of_N x - Z.of_N y).
Proof.
  unfold ints. intros Ha Hb.
  assert (Hs : bd_val (bd_sub a b) == inject_Z (Z.of_N x - Z.of_N y)).
  { rewrite val_sub, Ha, Hb. unfold Qminus, Z.sub. by rewrite <- inject_Z_opp, <- inject_Z_plus. }
  assert (Hf : bd_val (bd_floor (bd_sub a b)) == inject_Z (Z.of_N x - Z.of_N y)).
  { rewrite val_floor, (Qfloor_compat _ _ Hs), Qfloor_of_Z. reflexivity. }
  unfold to_i128_or_warn, i128_or_zero. rewrite (to_i128_integral _ _ Hf).
  by destruct (_ && _)%bool.
Qed.

(** Maps with related values under the same keys. *)
Definition orel {A} (R : A -> N -> Prop) (o : option A) (o' : option N) : Prop :=
  match o, o' with Some a, Some n => R a n | None, None => True | _, _ => False end.
Definition mrel {A} (R : A -> N -> Prop) (m : gmap string A) (m' : gmap string N) : Prop :=
  forall t, orel R (m !! t) (m' !! t).

Lemma mrel_insert {A} (R : A -> N -> Prop) m m' t a n :
  mrel R m m' -> R a n -> mrel R (<[t := a]> m) (<[t := n]> m').
Proof.
  intros Hm Ha u. destruct (decide (u = t)) as [->|Hne].
  - by rewrite !lookup_insert_eq.
  - rewrite !lookup_insert_ne by done. apply Hm.
Qed.
Lemma mrel_delete {A} (R : A -> N -> Prop) m m' t :
  mrel R m m' -> mrel R (delete t m) (delete t m').
Proof.
  intros Hm u. destruct (decide (u = t)) as [->|Hne].
  - by rewrite !lookup_delete_eq.
  - rewrite !lookup_delete_ne by done. apply Hm.
Qed.

Record repr (s : PortfolioState D) (b : Books) : Prop := {
  repr_cash : ints (yocto_value_bd (cash_balance s)) (b_cash b);
  repr_hold : mrel (fun a => ints (smallest_units a)) (holdings s) (b_hold b);
  repr_basis : mrel (fun c => ints (yocto_value_bd c)) (cost_basis s) (b_basis b);
  repr_pnl : realized_pnl s = b_pnl b;
  repr_pnl_by : realized_pnl_by_token s = b_pnl_by b;
}.

(** Two outcomes that agree, with related results. *)
Definition agree {A B} (R : A -> B -> Prop) (o : outcome anyhow A) (o' : outcome anyhow B) : Prop :=
  match o, o' with
  | Ok a, Ok b => R a b
  | Err e, Err e' => e = e'
  | Panic, Panic => True
  | _, _ => False
  end.

Lemma agree_bind {A B A' B'} (R : A -> B -> Prop) (R' : A' -> B' -> Prop) o o' k k' :
  agree R o o' -> (forall a b, R a b -> agree R' (k a) (k' b)) ->
  agree R' (obind o k) (obind o' k').
Proof. destruct o, o'; cbn; intros Ho Hk; try done; auto. Qed.

(** Bases small enough for the decimal division to be exact. *)
Definition small (b : Books) : Prop := forall t, get (b_basis b) t < 10 ^ 60.

Lemma repr_new c n : ints (yocto_value_bd c) n -> repr (portfolio_new c) (books_new n).
Proof. intros Hc. split; cbn; try done; intros t; by rewrite !lookup_empty. Qed.

Lemma repr_get_basis s b t : repr s b ->
  ints (yocto_value_bd (match cost_basis s !! t with Some c => c | None => yocto_value_zero end))
       (get (b_basis b) t).
Proof.
  intros Hr. pose proof (repr_basis s b Hr t) as Ht. unfold get, orel in *.
  destruct (cost_basis s !! t), (b_basis b !! t); cbn; try done. apply ints_zero.
Qed.

Lemma repr_units s b t : repr s b -> holding_units s t = cap (get (b_hold b) t).
Proof.
  intros Hr. pose proof (repr_hold s b Hr t) as Ht. unfold holding_units, get, orel in *.
  destruct (holdings s !! t), (b_hold b !! t); cbn; try done. by apply ints_to_u128.
Qed.

Lemma repr_closed s b t : repr s b -> holding_closed s t = books_closed b t.
Proof.
  intros Hr. pose proof (repr_hold s b Hr t) as Ht. unfold holding_closed, books_closed, get, orel in *.
  destruct (holdings s !! t), (b_hold b !! t); cbn; try done. by apply ints_is_zero.
Qed.

Lemma repr_cost s b t sold total : repr s b -> small b -> sold <= U128_MAX ->
  ints (yocto_value_bd (average_cost_of_sold s t sold total)) (books_cost b t sold total).
Proof.
  intros Hr Hs Hsold. pose proof (repr_get_basis s b t Hr) as Hc.
  unfold average_cost_of_sold, books_cost. unfold yocto_value_is_zero.
  rewrite (ints_is_zero _ _ Hc).
  destruct (_ || _); [apply ints_zero|]. destruct (sold =? total); [done|].
  destruct (N.ltb_spec 0 total) as [Hpos|]; [|apply ints_zero].
  apply ints_floor_div; [by apply ints_mul; [|apply ints_of_N]|apply ints_of_N| |done].
  specialize (Hs t). apply (N.le_lt_trans _ (10 ^ 60 * U128_MAX)); [|reflexivity].
  apply N.mul_le_mono; [lia|done].
Qed.

Lemma repr_record s b t sold proceeds n : repr s b -> small b -> sold <= U128_MAX ->
  ints (yocto_value_bd proceeds) n ->
  agree (fun r => repr r.2) (record_sell_pnl s t sold proceeds) (books_record b t sold n).
Proof.
  intros Hr Hs Hsold Hp. unfold record_sell_pnl, books_record. rewrite (repr_units s b t Hr).
  destruct (checked_add _ _) as [total|]; cbn [expect obind]; [|done].
  pose proof (repr_cost s b t sold total Hr Hs Hsold) as Hc.
  rewrite (ints_pnl _ _ _ _ Hp Hc).
  set (c := average_cost_of_sold s t sold total) in *. set (cn := books_cost b t sold total) in *.
  set (pnl := i128_or_zero _).
  assert (Hb : mrel (fun c => ints (yocto_value_bd c))
     (match cost_basis s !! t with
      | Some basis => <[t := yocto_value_saturating_sub basis c]> (cost_basis s)
      | None => cost_basis s end)
     (match b_basis b !! t with
      | Some x => <[t := x - cn]> (b_basis b) | None => b_basis b end)).
  { pose proof (repr_basis s b Hr) as Hm. pose proof (Hm t) as Ht. unfold orel in Ht.
    destruct (cost_basis s !! t), (b_basis b !! t); try done.
    by apply mrel_insert, ints_saturating_sub. }
  set (s1 := match cost_basis s !! t with
             | Some basis => set_basis s (<[t := yocto_value_saturating_sub basis c]> (cost_basis s))
             | None => s end).
  assert (Hs1 : holdings s1 = holdings s /\ cash_balance s1 = cash_balance s /\
    realized_pnl s1 = b_pnl b /\ realized_pnl_by_token s1 = b_pnl_by b /\
    cost_basis s1 = match cost_basis s !! t with
      | Some basis => <[t := yocto_value_saturating_sub basis c]> (cost_basis s)
      | None => cost_basis s end).
  { unfold s1. destruct (cost_basis s !! t); cbn; destruct Hr; done. }
  destruct Hs1 as (E1 & E2 & E3 & E4 & E5). cbn [agree snd].
  set (s2 := set_pnl s1 _ _).
  assert (Hcl : holding_closed s2 t = books_closed b t).
  { rewrite <- (repr_closed s b t Hr). unfold holding_closed, s2; cbn. by rewrite E1. }
  rewrite Hcl. unfold s2. rewrite E3, E4. destruct (books_closed b t);
    (split; cbn; [rewrite E2; apply Hr|rewrite E1; apply Hr| |done|done]); rewrite E5;
    [by apply mrel_delete|done].
Qed.

Lemma repr_deduct s b t sold : repr s b -> repr (deduct_holding s t sold) (books_deduct b t sold).
Proof.
  intros Hr. unfold deduct_holding, books_deduct.
  pose proof (repr_hold s b Hr t) as Ht. unfold orel in Ht.
  destruct (holdings s !! t) as [h|], (b_hold b !! t) as [n|]; try done.
  destruct Hr as [Hcash Hhold Hbasis Hpnl Hby]. split; cbn; try done.
  apply mrel_insert; [done|]. cbn. apply ints_max_sub; [done|apply ints_of_N].
Qed.

Lemma repr_drop_closed s b t : repr s b ->
  repr (if holding_closed s t then set_holdings s (delete t (holdings s)) else s)
       (books_drop_closed b t).
Proof.
  intros Hr. unfold books_drop_closed. rewrite (repr_closed s b t Hr).
  destruct (books_closed b t); [|done]. destruct Hr; split; cbn; try done. by apply mrel_delete.
Qed.

Lemma repr_set_cash s b v n : repr s b -> ints (yocto_value_bd v) n ->
  repr (set_cash s v) (books_set_cash b n).
Proof. intros [] Hv. split; cbn; done. Qed.

Lemma repr_receive s b t amount cost v (track : bool) dec : repr s b -> ints (yocto_value_bd v) cost ->
  repr (let entry := match holdings s !! t with Some a => a | None => token_amount_zero dec end in
        let s := set_holdings s (<[t := from_smallest_units
                   (bd_add (smallest_units entry) (bd_of_N amount)) (amount_decimals entry)]>
                   (holdings s)) in
        if track then add_to_cost_basis s t v else s)
       (books_receive b t amount cost track).
Proof.
  intros Hr Hv. cbn zeta. pose proof (repr_get_basis s b t Hr) as Hc.
  pose proof (repr_hold s b Hr t) as Ht. unfold books_receive.
  assert (He : ints (smallest_units (match holdings s !! t with
                 | Some a => a | None => token_amount_zero dec end)) (get (b_hold b) t)).
  { unfold get, orel in *. destruct (holdings s !! t), (b_hold b !! t); cbn; try done.
    apply ints_zero. }
  destruct Hr as [Hcash Hhold Hbasis Hpnl Hby].
  destruct track; split; cbn; try done;
    try (apply mrel_insert; [done|]; apply ints_add; [done|apply ints_of_N]).
  apply mrel_insert; [done|]. cbn. by apply ints_add.
Qed.

Lemma repr_scale to_amount actual requested : to_amount <= U128_MAX -> actual <= U128_MAX ->
  scale_output (D:=D) to_amount actual requested = books_scale to_amount actual requested.
Proof.
  intros Ht Ha. unfold scale_output, books_scale.
  destruct (N.eqb_spec requested 0) as [|Hr]; [done|].
  destruct (actual =? requested); [done|]. unfold bd_quot.
  rewrite (ints_is_zero _ _ (ints_of_N requested)), (proj2 (N.eqb_neq _ _) Hr). cbn [obind].
  f_equal. apply ints_to_u128, ints_trunc_div;
    [apply ints_mul; apply ints_of_N|apply ints_of_N| |lia].
  apply (N.le_lt_trans _ (U128_MAX * U128_MAX)); [by apply N.mul_le_mono|reflexivity].
Qed.
End refinement.

(** ** Sums over maps *)
Definition msum {V} (f : V -> Z) (m : gmap string V) : Z := sumZ (f <$> (map_to_list m).*2).
Definition mget {V} (f : V -> Z) (m : gmap string V) (t : string) : Z := from_option f 0%Z (m !! t).

Lemma msum_empty {V} (f : V -> Z) : msum f ∅ = 0%Z.
Proof. unfold msum. by rewrite map_to_list_empty. Qed.
Lemma msum_insert_fresh {V} (f : V -> Z) m t v : m !! t = None ->
  msum f (<[t := v]> m) = (f v + msum f m)%Z.
Proof. intros Ht. unfold msum. by rewrite map_to_list_insert. Qed.
Lemma msum_delete {V} (f : V -> Z) m t : msum f (delete t m) = (msum f m - mget f m t)%Z.
Proof.
  unfold mget. destruct (m !! t) as [v|] eqn:E; cbn.
  - rewrite <- (insert_delete_id m t v E) at 2.
    rewrite msum_insert_fresh by apply lookup_delete_eq. lia.
  - rewrite delete_id by done. lia.
Qed.
Lemma msum_insert {V} (f : V -> Z) m t v :
  msum f (<[t := v]> m) = (msum f m - mget f m t + f v)%Z.
Proof.
  rewrite <- insert_delete_eq, msum_insert_fresh by apply lookup_delete_eq.
  rewrite msum_delete. lia.
Qed.
Lemma msum_nonneg m t : (0 <= mget Z.of_N m t <= msum Z.of_N m)%Z.
Proof.
  assert (Hp : forall m', (0 <= msum Z.of_N m')%Z).
  { intros m'. unfold msum. induction ((map_to_list m').*2) as [|x l IH]; [done|].
    change (0 <= Z.of_N x + sumZ (Z.of_N <$> l))%Z. lia. }
  pose proof (Hp (delete t m)) as Hd. rewrite msum_delete in Hd.
  unfold mget in *. destruct (m !! t); cbn in *; lia.
Qed.
Lemma mget_get m t : mget Z.of_N m t = Z.of_N (get m t).
Proof. unfold mget, get. by destruct (m !! t). Qed.

(** ** The books balance *)

(** What the account is worth at cost: cash plus the cost of the positions. *)
Definition book_value (b : Books) : Z := (Z.of_N (b_cash b) + msum Z.of_N (b_basis b))%Z.

(** The accounting identity. *)
Definition balanced (capital : N) (b : Books) : Prop :=
  book_value b = (Z.of_N capital + b_pnl b)%Z.

(** Figures within the machine types the code converts to. *)
Definition fits_books (b : Books) : Prop :=
  (book_value b <= I128_MAX)%Z /\ forall t, get (b_hold b) t <= U128_MAX.

Lemma i128_range : (I128_MIN <= - I128_MAX)%Z /\ (I128_MAX < 10 ^ 60)%Z.
Proof. split; vm_compute; congruence. Qed.

Lemma fits_small b : fits_books b -> small b.
Proof.
  intros [Hb _] t. pose proof (msum_nonneg (b_basis b) t) as Hm. rewrite mget_get in Hm.
  unfold book_value in Hb. pose proof i128_range. lia.
Qed.

Lemma add_exact a z : (- I128_MAX <= a + z <= I128_MAX)%Z -> checked_add_or_saturate a z = (a + z)%Z.
Proof.
  intros Hz. unfold checked_add_or_saturate. pose proof i128_range.
  rewrite (proj2 (Z.leb_le I128_MIN _)), (proj2 (Z.leb_le _ I128_MAX)) by lia. done.
Qed.
Lemma i128_exact z : (- I128_MAX <= z <= I128_MAX)%Z -> i128_or_zero z = z.
Proof.
  intros Hz. unfold i128_or_zero. pose proof i128_range.
  rewrite (proj2 (Z.leb_le I128_MIN _)), (proj2 (Z.leb_le _ I128_MAX)) by lia. done.
Qed.
Lemma cap_fits n : n <= U128_MAX -> cap n = n.
Proof. intros Hn. unfold cap. by rewrite (proj2 (N.leb_le _ _) Hn). Qed.
Lemma cap_le n : cap n <= n /\ cap n <= U128_MAX.
Proof. unfold cap. destruct (N.leb_spec n U128_MAX); lia. Qed.

Lemma books_cost_le b t sold total : sold <= total -> books_cost b t sold total <= get (b_basis b) t.
Proof.
  intros Hle. unfold books_cost. set (c := get (b_basis b) t).
  destruct (_ || _); [lia|]. destruct (sold =? total); [lia|].
  destruct (N.ltb_spec 0 total); [|lia].
  apply N.Div0.div_le_upper_bound. rewrite (N.mul_comm total). by apply N.mul_le_mono_l.
Qed.

(** Selling the rest of a position takes all of its cost. *)
Lemma books_cost_all b t sold : sold <> 0 -> books_cost b t sold sold = get (b_basis b) t.
Proof.
  intros Hs. unfold books_cost. rewrite N.eqb_refl, (proj2 (N.eqb_neq _ _) Hs).
  rewrite orb_false_r. destruct (N.eqb_spec (get (b_basis b) t) 0); [congruence|done].
Qed.

(** What recording a sale does to the books. *)
Lemma books_record_spec b t sold proceeds b' :
  sold <> 0 -> get (b_hold b) t <= U128_MAX -> books_record b t sold proceeds = Ok b' ->
  let cost := books_cost b t sold (get (b_hold b) t + sold) in
  let pnl := i128_or_zero (Z.of_N proceeds - Z.of_N cost) in
  b_cash b' = b_cash b /\ b_hold b' = b_hold b /\
  msum Z.of_N (b_basis b') = (msum Z.of_N (b_basis b) - Z.of_N cost)%Z /\
  cost <= get (b_basis b) t /\
  b_pnl b' = checked_add_or_saturate (b_pnl b) pnl.
Proof.
  intros Hs Hh Hr. cbn zeta. unfold books_record in Hr. rewrite (cap_fits _ Hh) in Hr. inv_ok.
  apply checked_add_Some in Heqo as [-> _]. cbn.
  set (cost := books_cost b t sold (get (b_hold b) t + sold)).
  assert (Hc : cost <= get (b_basis b) t) by (apply books_cost_le; lia).
  repeat (split; [done|]). split; [|done].
  set (basis := match b_basis b !! t with Some c => <[t := c - cost]> (b_basis b)
                | None => b_basis b end).
  assert (Hb : msum Z.of_N basis = (msum Z.of_N (b_basis b) - Z.of_N cost)%Z /\
               mget Z.of_N basis t = (Z.of_N (get (b_basis b) t) - Z.of_N cost)%Z).
  { unfold basis, get in *. destruct (b_basis b !! t) as [c|] eqn:E; cbn in Hc.
    - rewrite msum_insert. unfold mget. rewrite E, lookup_insert_eq. cbn. lia.
    - unfold mget. rewrite E. cbn. lia. }
  destruct Hb as [Hb1 Hb2]. unfold books_closed.
  destruct (N.eqb_spec (get (b_hold b) t) 0) as [Hz|_]; [|done].
  rewrite msum_delete, Hb1, Hb2. unfold cost. rewrite Hz, N.add_0_l, books_cost_all by done. lia.
Qed.

Lemma deduct_basis b t sold : b_basis (books_deduct b t sold) = b_basis b /\
  b_cash (books_deduct b t sold) = b_cash b /\ b_pnl (books_deduct b t sold) = b_pnl b.
Proof. unfold books_deduct. by destruct (b_hold b !! t). Qed.

Lemma deduct_hold b t sold : sold <= get (b_hold b) t -> sold <> 0 ->
  get (b_hold (books_deduct b t sold)) t = get (b_hold b) t - sold.
Proof.
  unfold books_deduct, get. intros Hs H0. destruct (b_hold b !! t); cbn in *; [|lia].
  by rewrite lookup_insert_eq.
Qed.

Lemma drop_closed_same b t : b_basis (books_drop_closed b t) = b_basis b /\
  b_cash (books_drop_closed b t) = b_cash b /\ b_pnl (books_drop_closed b t) = b_pnl b.
Proof. unfold books_drop_closed. by destruct (books_closed b t). Qed.

Lemma receive_book_value b t amount cost track : (track = false -> cost = 0) ->
  book_value (books_receive b t amount cost track) = (book_value b + Z.of_N cost)%Z.
Proof.
  intros Ht. unfold book_value; cbn. destruct track; [|rewrite Ht by done; lia].
  rewrite msum_insert, mget_get. lia.
Qed.

Lemma books_cost_basis b b' t sold total :
  b_basis b = b_basis b' -> books_cost b t sold total = books_cost b' t sold total.
Proof. unfold books_cost. by intros ->. Qed.

(** The sale leg of a swap: the position shrinks, its cost leaves the basis, and
    the difference to the proceeds becomes profit. *)
Lemma sale_leg b from sold proceeds b' :
  get (b_hold b) from <= U128_MAX -> sold <> 0 -> sold <= get (b_hold b) from ->
  obind (books_record (books_deduct b from sold) from sold proceeds)
        (fun b => Ok (books_drop_closed b from)) = Ok b' ->
  let cost := books_cost b from sold (get (b_hold b) from) in
  b_cash b' = b_cash b /\
  msum Z.of_N (b_basis b') = (msum Z.of_N (b_basis b) - Z.of_N cost)%Z /\
  b_pnl b' = checked_add_or_saturate (b_pnl b) (i128_or_zero (Z.of_N proceeds - Z.of_N cost)) /\
  (Z.of_N cost <= msum Z.of_N (b_basis b))%Z.
Proof.
  intros Hh Hs Hle E cost. inv_ok. rename a into b2.
  destruct (deduct_basis b from sold) as (Eb & Ec & Ep).
  pose proof (deduct_hold b from sold Hle Hs) as Eh.
  destruct (books_record_spec _ _ _ _ _ Hs ltac:(rewrite Eh; lia) Hstep)
    as (Hc & _ & Hm & Hcost & Hp).
  rewrite Eh in Hm, Hcost, Hp.
  replace (get (b_hold b) from - sold + sold) with (get (b_hold b) from) in * by lia.
  rewrite (books_cost_basis _ b _ _ _ Eb) in Hm, Hcost, Hp. fold cost in Hm, Hcost, Hp.
  destruct (drop_closed_same b2 from) as (Eb2 & Ec2 & Ep2). rewrite Eb in Hm, Hcost.
  rewrite Eb2, Ec2, Ep2, Hc, Ec, Hm, Hp, Ep.
  pose proof (msum_nonneg (b_basis b) from) as Hmn. rewrite mget_get in Hmn.
  repeat (split; [done|]). lia.
Qed.

(** Balancing after a sale whose proceeds [p] enter the books. *)
Lemma sale_balances capital b b' cost p :
  balanced capital b -> (Z.of_N capital <= I128_MAX)%Z -> (book_value b <= I128_MAX)%Z ->
  (Z.of_N cost <= msum Z.of_N (b_basis b))%Z ->
  book_value b' = (book_value b - Z.of_N cost + Z.of_N p)%Z -> (book_value b' <= I128_MAX)%Z ->
  b_pnl b' = checked_add_or_saturate (b_pnl b) (i128_or_zero (Z.of_N p - Z.of_N cost)) ->
  balanced capital b'.
Proof.
  unfold balanced. intros Hbal Hcap Hfit Hcost Hbv Hfit' Hp.
  assert (Hcash : (0 <= book_value b - msum Z.of_N (b_basis b))%Z) by (unfold book_value; lia).
  rewrite Hp, i128_exact by lia. rewrite add_exact by lia. lia.
Qed.

Lemma books_swap_balanced wnear capital b from fa to ta r b' :
  ~ (from = wnear /\ to = wnear) -> (Z.of_N capital <= I128_MAX)%Z ->
  balanced capital b -> fits_books b -> (book_value b' <= I128_MAX)%Z ->
  books_swap wnear b from fa to ta = Ok (r, b') -> balanced capital b'.
Proof.
  intros Hw Hcap Hbal Hfit Hfit' E. unfold books_swap in E.
  set (balance := if bool_decide (from = wnear) then _ else _) in *.
  destruct (N.eqb_spec (N.min fa balance) 0) as [_|Hs]; [by simplify_eq|].
  set (sold := N.min fa balance) in *. inv_ok. rename a into bought.
  destruct (N.eqb_spec bought 0) as [_|Hb]; [by simplify_eq|].
  destruct (bool_decide_reflect (from = wnear)) as [->|Hfw].
  - inv_ok. rewrite bool_decide_eq_false_2 in * by tauto.
    unfold balanced in *. rewrite receive_book_value by done. cbn.
    unfold book_value in *; cbn in *. pose proof (cap_le (b_cash b)). unfold balance in *. lia.
  - rewrite (bool_decide_eq_true_2 (from <> wnear) Hfw) in E. cbn [andb] in E.
    pose proof (proj2 Hfit from) as Hh.
    assert (Hbal' : balance = get (b_hold b) from) by (unfold balance; by apply cap_fits).
    clearbody balance. subst balance.
    assert (Hle : sold <= get (b_hold b) from) by (unfold sold; lia). clearbody sold.
    apply obind_Ok_inv in E as (b1 & Hleg & E). injection E as <- <-.
    destruct (sale_leg _ _ _ _ _ Hh Hs Hle Hleg) as (Ec & Em & Ep & Hc).
    destruct (bool_decide_reflect (to = wnear)) as [Htw|Htw].
    + eapply sale_balances; [exact Hbal|done|apply Hfit|exact Hc| |done|exact Ep].
      unfold book_value; cbn. rewrite Ec, Em. lia.
    + rewrite (bool_decide_eq_true_2 (to <> wnear) Htw) in *.
      eapply sale_balances; [exact Hbal|done|apply Hfit|exact Hc| |done|exact Ep].
      rewrite receive_book_value by (intros Hn; by apply negb_false_iff, N.eqb_eq in Hn).
      unfold book_value. rewrite Ec, Em. lia.
Qed.

Lemma books_liquidate_balanced capital b t proceeds b' :
  (Z.of_N capital <= I128_MAX)%Z -> balanced capital b -> fits_books b ->
  get (b_hold b) t <> 0 -> (book_value b' <= I128_MAX)%Z ->
  books_liquidate b t (get (b_hold b) t) proceeds = Ok b' -> balanced capital b'.
Proof.
  intros Hcap Hbal [Hfit Hh] Hn0 Hfit' E. unfold books_liquidate in E.
  destruct (proceeds =? 0); [by simplify_eq|]. specialize (Hh t).
  rewrite (cap_fits _ Hh) in E. inv_ok. rename a into b2.
  set (b1 := mkBooks _ _ _ _ _) in Hstep.
  assert (Hd : get (b_hold b1) t = 0) by (unfold get; cbn; by rewrite lookup_delete_eq).
  destruct (books_record_spec b1 t _ proceeds b2 Hn0) as (Ec & _ & Em & Hc & Ep);
    [rewrite Hd; lia|done|].
  rewrite Hd, N.add_0_l, books_cost_all in * by done. cbn [b1 b_basis b_cash b_pnl] in *.
  pose proof (msum_nonneg (b_basis b) t) as Hmn. rewrite mget_get in Hmn.
  eapply sale_balances; [exact Hbal|done|done| | |done|exact Ep]; [lia|].
  unfold book_value; cbn. rewrite Ec, Em. lia.
Qed.

(** ** The code follows the books *)
Section follow.
Context {D : Type} `{BigDecimalLaws D}.

Lemma repr_swap wnear (s : PortfolioState D) b from fa to ta dec :
  repr s b -> small b -> ta <= U128_MAX ->
  agree (fun r r' => r.1 = r'.1 /\ repr r.2 r'.2)
    (execute_simulated_swap wnear s from fa to ta dec) (books_swap wnear b from fa to ta).
Proof.
  intros Hr Hs Hta. unfold execute_simulated_swap, books_swap.
  rewrite (ints_to_u128 _ _ (repr_cash s b Hr)), (repr_units s b from Hr).
  set (balance := if bool_decide (from = wnear) then _ else _).
  assert (Hbal : balance <= U128_MAX) by (unfold balance; case_bool_decide; apply cap_le).
  set (sold := N.min fa balance). assert (Hsold : sold <= U128_MAX) by (unfold sold; lia).
  clearbody balance. destruct (sold =? 0); [done|].
  rewrite (repr_scale ta sold fa Hta Hsold).
  destruct (books_scale ta sold fa) as [bought| |]; cbn [obind]; [|done|done].
  destruct (bought =? 0); [done|].
  set (moved := if _ && _ then average_cost_of_sold _ _ _ _ else _).
  set (moved' := if _ && _ then books_cost _ _ _ _ else _).
  assert (Hmoved : ints (yocto_value_bd moved) moved').
  { unfold moved, moved'. destruct (_ && _); [by apply repr_cost|apply ints_zero]. }
  eapply (agree_bind repr).
  - destruct (bool_decide (from = wnear)); cbn [agree].
    + apply repr_set_cash; [done|]. apply ints_saturating_sub; [apply Hr|apply ints_of_N].
    + eapply (agree_bind (fun r => repr r.2)).
      * apply repr_record; [by apply repr_deduct| |done|].
        { intros t. rewrite (proj1 (deduct_basis b from sold)). apply Hs. }
        { destruct (bool_decide (to = wnear)); [apply ints_of_N|done]. }
      * intros [x s1] b1 Hr1. cbn [agree snd] in *. by apply repr_drop_closed.
  - intros s1 b1 Hr1. cbn [agree fst snd]. split; [done|].
    destruct (bool_decide (to = wnear)).
    + apply repr_set_cash; [done|]. apply ints_add; [apply Hr1|apply ints_of_N].
    + unfold yocto_value_is_zero. rewrite (ints_is_zero _ _ Hmoved).
      destruct (bool_decide (from = wnear)).
      * apply (repr_receive s1 b1 to bought sold (from_yocto (bd_of_N sold)) true dec Hr1).
        apply ints_of_N.
      * apply (repr_receive s1 b1 to bought moved' moved (negb (moved' =? 0)) dec Hr1 Hmoved).
Qed.

Lemma repr_push_trade s b x : repr (D:=D) s b -> repr (push_trade s x) b.
Proof. intros []. by split. Qed.

Lemma repr_liquidate rates day (s : PortfolioState D) b t a p :
  repr s b -> small b -> holdings s !! t = Some a -> token_amount_to_yocto rates t a = Ok p ->
  agree repr (liquidate_one rates day s t a) (books_liquidate b t (get (b_hold b) t) p).
Proof.
  intros Hr Hs Ht Hp. unfold liquidate_one, books_liquidate. rewrite Hp. cbn [obind].
  destruct (p =? 0); [done|].
  pose proof (repr_hold s b Hr t) as Ho. rewrite Ht in Ho. unfold orel in Ho.
  unfold get. destruct (b_hold b !! t) as [n|] eqn:En; [|done]. cbn [default from_option].
  rewrite (ints_to_u128 _ _ Ho). eapply (agree_bind (fun r => repr r.2)).
  - apply repr_record; [|exact Hs|apply cap_le|apply ints_of_N].
    destruct Hr; split; cbn; try done. by apply mrel_delete.
  - intros [x s1] b1 Hr1. cbn [agree snd fst] in *. apply repr_push_trade, repr_set_cash; [done|].
    cbn. apply ints_add; [apply Hr1|apply ints_of_N].
Qed.

(** The value at cost of the decimal account. *)
Definition book_value_of (s : PortfolioState D) : Q :=
  (bd_val (yocto_value_bd (cash_balance s))
   + sumQ ((fun c => bd_val (yocto_value_bd c)) <$> (map_to_list (cost_basis s)).*2))%Q.

Lemma sumQ_ints {A} (f : A -> D) (g : A -> N) l : Forall (fun a => ints (f a) (g a)) l ->
  sumQ ((fun a => bd_val (f a)) <$> l) == inject_Z (sumZ ((fun a => Z.of_N (g a)) <$> l)).
Proof.
  induction 1 as [|a l Ha _ IH]; [reflexivity|]. rewrite !fmap_cons, sumQ_cons, IH.
  unfold ints in Ha. rewrite Ha. change (sumZ (?x :: ?l)) with (x + sumZ l)%Z.
  by rewrite inject_Z_plus.
Qed.

Lemma repr_book_value s b : repr s b -> book_value_of s == inject_Z (book_value b).
Proof.
  intros Hr. pose proof (repr_basis s b Hr) as Hm.
  set (f := fun c : YoctoValue D => Z.to_N (Qfloor (bd_val (yocto_value_bd c)))).
  assert (Hf : forall t c, cost_basis s !! t = Some c -> ints (yocto_value_bd c) (f c) /\
                b_basis b !! t = Some (f c)).
  { intros t c Ht. specialize (Hm t). rewrite Ht in Hm. unfold orel in Hm.
    destruct (b_basis b !! t) as [n|]; [|done].
    assert (En : f c = n) by (unfold f; rewrite (Qfloor_compat _ _ Hm), Qfloor_of_Z; apply N2Z.id).
    rewrite En. done. }
  assert (Eb : b_basis b = f <$> cost_basis s).
  { apply map_eq. intros t. rewrite lookup_fmap. destruct (cost_basis s !! t) as [c|] eqn:E; cbn.
    - by destruct (Hf t c E).
    - specialize (Hm t). rewrite E in Hm. unfold orel in Hm. by destruct (b_basis b !! t). }
  unfold book_value_of, book_value, msum. rewrite inject_Z_plus.
  rewrite Eb, map_to_list_fmap.
  pose proof (repr_cash s b Hr) as Hc. unfold ints in Hc. rewrite Hc. f_equiv.
  rewrite (sumQ_ints _ f).
  - f_equiv. f_equal. rewrite <- !list_fmap_compose. apply list_fmap_ext. by intros ? [].
  - apply Forall_elem. intros c Hin. apply list_elem_of_fmap in Hin as ([t c'] & -> & Hin).
    apply elem_of_map_to_list in Hin. by destruct (Hf _ _ Hin).
Qed.
End follow.

(** ** Accounts over time *)
Section reachable.
Context {D : Type} `{BigDecimalLaws D}.

(** Figures that fit the integer types the code converts them to: at most
    [i128::MAX] yoctoNEAR at cost, and at most [u128::MAX] units per token. *)
Definition within (s : PortfolioState D) : Prop :=
  (book_value_of s <= inject_Z I128_MAX)%Q /\
  forall t a, holdings s !! t = Some a ->
    (bd_val (smallest_units a) <= inject_Z (Z.of_N U128_MAX))%Q.

(** The states of an account opened with [capital] yoctoNEAR: swaps (other than
    wNEAR for wNEAR) and the events that record them, rounds of a liquidation, and
    snapshots, in any order. *)
Inductive reachable (wnear : TokenAccount) (capital : N) : PortfolioState D -> Prop :=
| reach_new c :
    ints (yocto_value_bd c) capital -> reachable wnear capital (portfolio_new c)
| reach_swap s from fa to ta dec r s' :
    reachable wnear capital s -> ~ (from = wnear /\ to = wnear) -> ta <= U128_MAX ->
    execute_simulated_swap wnear s from fa to ta dec = Ok (r, s') -> within s' ->
    reachable wnear capital s'
| reach_liquidate rates day s t a s' :
    reachable wnear capital s -> holdings s !! t = Some a -> token_amount_is_zero a = false ->
    liquidate_one rates day s t a = Ok s' -> within s' -> reachable wnear capital s'
| reach_snapshot s snapshot :
    reachable wnear capital s -> reachable wnear capital (push_snapshot s snapshot)
| reach_event s e : reachable wnear capital s -> reachable wnear capital (push_event s e).

Lemma within_fits s b : repr s b -> within s -> fits_books b.
Proof.
  intros Hr [Hb Hh]. split.
  - rewrite (repr_book_value s b Hr) in Hb. by rewrite <- Zle_Qle in Hb.
  - intros t. pose proof (repr_hold s b Hr t) as Ht. unfold orel, get in *.
    destruct (b_hold b !! t) as [n|] eqn:En; cbn; [|lia].
    destruct (holdings s !! t) as [a|] eqn:Ea; [|done]. specialize (Hh t a Ea).
    unfold ints in Ht. rewrite Ht, <- Zle_Qle in Hh. lia.
Qed.

Lemma reachable_books wnear capital s : (Z.of_N capital <= I128_MAX)%Z ->
  reachable wnear capital s -> exists b, repr s b /\ balanced capital b /\ fits_books b.
Proof.
  intros Hcap. induction 1 as [c Hc|s from fa to ta dec r s' _ IH Hw Hta E Hin
    |rates day s t a s' _ IH Ht Hz E Hin|s snapshot _ IH|s e _ IH].
  - exists (books_new capital). split; [by apply repr_new|].
    assert (Hbv : book_value (books_new capital) = Z.of_N capital)
      by (unfold book_value; cbn; rewrite msum_empty; lia).
    split; [unfold balanced; rewrite Hbv; cbn; lia|]. split; [by rewrite Hbv|].
    intros t. unfold get; cbn. rewrite lookup_empty. cbn. lia.
  - destruct IH as (b & Hr & Hbal & Hfit).
    pose proof (repr_swap wnear s b from fa to ta dec Hr (fits_small b Hfit) Hta) as Ha.
    rewrite E in Ha. destruct (books_swap wnear b from fa to ta) as [[r' b']| |] eqn:Eb; try done.
    destruct Ha as [_ Hr']. cbn in Hr'. pose proof (within_fits s' b' Hr' Hin) as Hfit'.
    exists b'. split; [done|]. split; [|done].
    eapply books_swap_balanced; [exact Hw|done|done|done|apply Hfit'|exact Eb].
  - destruct IH as (b & Hr & Hbal & Hfit).
    assert (exists p, token_amount_to_yocto rates t a = Ok p) as [p Hp].
    { unfold liquidate_one in E. inv_ok. eauto. }
    pose proof (repr_liquidate rates day s b t a p Hr (fits_small b Hfit) Ht Hp) as Ha.
    rewrite E in Ha. destruct (books_liquidate b t (get (b_hold b) t) p) as [b'| |] eqn:Eb; try done.
    cbn in Ha. pose proof (within_fits s' b' Ha Hin) as Hfit'.
    exists b'. split; [done|]. split; [|done].
    eapply books_liquidate_balanced; [done|done|done| |apply Hfit'|exact Eb].
    pose proof (repr_hold s b Hr t) as Ho. rewrite Ht in Ho. unfold orel, get in *.
    destruct (b_hold b !! t) as [n|]; [|done]. cbn.
    unfold token_amount_is_zero in Hz. rewrite (ints_is_zero _ _ Ho) in Hz. by apply N.eqb_neq.
  - destruct IH as (b & Hr & Hbal & Hfit). exists b. split; [|done].
    destruct Hr; by split.
  - destruct IH as (b & Hr & Hbal & Hfit). exists b. split; [|done]. destruct Hr; by split.
Qed.

(** What is left after a liquidation. *)
Lemma liquidate_one_holdings rates day s t a s' :
  liquidate_one (D:=D) rates day s t a = Ok s' ->
  (token_amount_to_yocto rates t a = Ok 0 /\ s' = s) \/ holdings s' = delete t (holdings s).
Proof.
  unfold liquidate_one. intros E. inv_ok. destruct (N.eqb_spec a0 0) as [->|_];
    [left; by simplify_eq|right]. inv_ok. cbn. unfold record_sell_pnl in Hstep0. inv_ok. cbn.
  destruct (cost_basis s !! t); destruct (holding_closed _ _); done.
Qed.

Lemma liquidate_each_holdings rates day l : forall s s', NoDup l.*1 ->
  liquidate_each (D:=D) rates day s l = Ok s' ->
  forall t a, holdings s' !! t = Some a ->
    holdings s !! t = Some a /\ forall x, (t, x) ∈ l -> token_amount_to_yocto rates t x = Ok 0.
Proof.
  induction l as [|[u x] l IH]; intros s s' Hnd E t a Ht; cbn [liquidate_each] in E.
  - simplify_eq. split; [done|]. set_solver.
  - inv_ok. cbn in Hnd. apply list.NoDup_cons in Hnd as [Hu Hnd].
    destruct (IH _ _ Hnd E t a Ht) as [Ha Hl].
    destruct (liquidate_one_holdings _ _ _ _ _ _ Hstep) as [[H0' ->]|Hd].
    + split; [done|]. intros y Hy. apply elem_of_cons in Hy as [[= -> ->]|Hy]; [done|by apply Hl].
    + rewrite Hd in Ha. apply lookup_delete_Some in Ha as [Hne Ha]. split; [done|].
      intros y Hy. apply elem_of_cons in Hy as [[= -> ->]|Hy]; [done|by apply Hl].
Qed.
End reachable.

(** ** Theorems *)
Section theorems.
Context (D : Type) `{BigDecimalLaws D}.

(** A simulated swap on the decimal account is the swap on the integer
    account: same result, same clamping to the balance, same rounding of the
    scaled output and of the cost of the sold part, same panics, and the account
    afterwards again holds those integers. *)
Theorem swap_implements_books wnear (s : PortfolioState D) b from fa to ta dec :
  repr s b -> small b -> ta <= U128_MAX ->
  agree (fun r r' => r.1 = r'.1 /\ repr r.2 r'.2)
    (execute_simulated_swap wnear s from fa to ta dec) (books_swap wnear b from fa to ta).
Proof. apply repr_swap. Qed.

(** The books balance: after any sequence of swaps, liquidations and
    snapshots whose figures fit the integer types, cash plus the cost of the open
    positions is the opening capital plus the realised profit, to the yocto. *)
Theorem books_balance wnear capital (s : PortfolioState D) :
  (Z.of_N capital <= I128_MAX)%Z -> reachable wnear capital s ->
  book_value_of s == inject_Z (Z.of_N capital + realized_pnl s).
Proof.
  intros Hcap Hr. destruct (reachable_books wnear capital s Hcap Hr) as (b & Hrep & Hbal & _).
  rewrite (repr_book_value s b Hrep), Hbal. by rewrite (repr_pnl s b Hrep).
Qed.

(** A liquidation leaves nothing behind that could be sold: a position that
    is still there afterwards is one it did not touch, and it either was empty or
    brought no proceeds at the given rates. *)
Theorem liquidate_all_sells rates day (s s' : PortfolioState D) :
  liquidate_all rates day s = Ok s' ->
  forall t a, holdings s' !! t = Some a ->
    holdings s !! t = Some a /\
    (token_amount_is_zero a = true \/ token_amount_to_yocto rates t a = Ok 0).
Proof.
  intros E t a Ht. unfold liquidate_all in E.
  assert (Hnd : NoDup ((bfilter (fun p : string * TokenAmount D => negb (token_amount_is_zero p.2))
    (btree_iter (holdings s))).*1)).
  { eapply sublist_NoDup; [apply (btree_iter_NoDup_keys (holdings s))|].
    apply fmap_sublist, sublist_bfilter. }
  destruct (liquidate_each_holdings _ _ _ _ _ Hnd E t a Ht) as [Ha Hl]. split; [done|].
  destruct (token_amount_is_zero a) eqn:Ez; [by left|right]. apply Hl.
  apply elem_of_bfilter. split; [by apply btree_iter_elem|]. cbn. by rewrite Ez.
Qed.
End theorems.

(** ** A concrete account *)
Definition wrap : TokenAccount := "wrap.near".
Definition acct0 : PortfolioState Q := portfolio_new (mkYoctoValue (1000 # 1)).
Definition after (o : outcome anyhow (option SwapResult * PortfolioState Q)) : PortfolioState Q :=
  match o with Ok (_, s) => s | _ => acct0 end.
(** 600 for 301 units of a token, then 100 of them back for 250. *)
Definition acct1 : PortfolioState Q :=
  Eval vm_compute in after (execute_simulated_swap wrap acct0 wrap 600 "usdt" 301 6).
Definition acct2 : PortfolioState Q :=
  Eval vm_compute in after (execute_simulated_swap wrap acct1 "usdt" 100 wrap 250 24).

Example acct2_figures :
  yocto_value_bd (cash_balance acct2) = (650 # 1)%Q /\ realized_pnl acct2 = 51%Z /\
  (yocto_value_bd <$> cost_basis acct2 !! "usdt"%string) = Some (401 # 1)%Q.
Proof. vm_compute. done. Qed.

Definition books0 : Books := books_new 1000.
Definition usdt_rates : Rates Q :=
  fun t => if bool_decide (t = "usdt"%string) then Some (mkExchangeRate (100 # 1) 6) else None.

Lemma acct0_repr : repr acct0 books0.
Proof. apply repr_new. reflexivity. Qed.
Lemma books0_small : small books0.
Proof. intros t. unfold get; cbn. rewrite lookup_empty. reflexivity. Qed.

(** Bounds of a state with concrete figures. *)
Definition within_check (s : PortfolioState Q) : bool :=
  Qle_bool (book_value_of s) (inject_Z I128_MAX) &&
  forallb (fun p : string * TokenAmount Q =>
    Qle_bool (smallest_units p.2) (inject_Z (Z.of_N U128_MAX))) (map_to_list (holdings s)).
Lemma within_check_true s : within_check s = true -> within s.
Proof.
  unfold within_check. rewrite andb_true_iff, forallb_forall. intros [Hb Hh]. split.
  - by apply Qle_bool_iff.
  - intros t a Ht. apply elem_of_map_to_list, list_elem_of_In, Hh in Ht. by apply Qle_bool_iff.
Qed.

Lemma acct2_reachable : reachable wrap 1000 acct2.
Proof.
  eapply (reach_swap wrap 1000 acct1 "usdt" 100 wrap 250 24 (Some (mkSwapResult 100 250)));
    [|intros [[=] _]|vm_compute; discriminate|vm_compute; reflexivity
     |apply within_check_true; vm_compute; reflexivity].
  eapply (reach_swap wrap 1000 acct0 wrap 600 "usdt" 301 6 (Some (mkSwapResult 600 301)));
    [apply reach_new; reflexivity|intros [_ [=]]|vm_compute; discriminate|vm_compute; reflexivity
     |apply within_check_true; vm_compute; reflexivity].
Qed.

Lemma swap_implements_books_witness :
  agree (fun r r' => r.1 = r'.1 /\ repr r.2 r'.2)
    (execute_simulated_swap wrap acct0 wrap 600 "usdt" 301 6)
    (books_swap wrap books0 wrap 600 "usdt" 301).
Proof.
  apply (swap_implements_books Q wrap acct0 books0 wrap 600 "usdt" 301 6);
    [apply acct0_repr | apply books0_small | vm_compute; discriminate].
Defined.

Lemma books_balance_witness :
  book_value_of acct2 == inject_Z (Z.of_N 1000 + realized_pnl acct2).
Proof.
  apply (books_balance Q wrap 1000 acct2); [vm_compute; discriminate | apply acct2_reachable].
Defined.

Definition acct3 : PortfolioState Q :=
  Eval vm_compute in
    match liquidate_all usdt_rates 0 acct2 with Ok s => s | _ => acct0 end.

Lemma liquidate_all_sells_witness :
  (holdings acct3 !! "usdt"%string = None) /\
  (forall a, holdings acct3 !! "usdt"%string = Some a ->
    holdings acct2 !! "usdt"%string = Some a /\
    (token_amount_is_zero a = true \/ token_amount_to_yocto usdt_rates "usdt" a = Ok 0)).
Proof.
  split; [vm_compute; reflexivity|].
  apply (liquidate_all_sells Q usdt_rates 0 acct2 acct3); vm_compute; reflexivity.
Defined.
