(* ===== verification/Rpc.v ===== *)
(** * Rpc: endpoints, retries and polling

    [jsonrpc/endpoint_pool.rs] (weighted selection and failure tracking),
    [jsonrpc/rpc.rs] (classification of errors and the retry loop) and the
    polling of [jsonrpc/sent_tx.rs].  The clock, the random draws and the
    answers of the nodes are an environment [Env] indexed by the number of
    interactions so far, about which nothing is assumed but the range of the
    draws; sleeping only lets the clock move, so the delays are not modelled. *)

From S2P Require Import Prelude NearClient.
Local Open Scope N_scope.

(** ** endpoint_pool.rs *)
Record RpcEndpoint := mkEndpoint { url : string; weight : N; max_retries : N }.
#[global] Instance RpcEndpoint_eq_dec : EqDecision RpcEndpoint.
Proof. solve_decision. Defined.

(** The pool with the reset times of the failed endpoints, in nanoseconds. *)
Record EndpointPool := mkPool {
  endpoints : list RpcEndpoint;
  failures : gmap string N;
  failure_reset_seconds : N;
}.

Definition default_endpoint (is_mainnet : bool) : RpcEndpoint :=
  mkEndpoint (if is_mainnet then "https://rpc.mainnet.near.org" else "https://rpc.testnet.near.org")
    100 3.

Definition pool_new (rpc_endpoints : list RpcEndpoint) (is_mainnet : bool)
    (rpc_failure_reset_seconds : N) : EndpointPool :=
  mkPool (match rpc_endpoints with [] => [default_endpoint is_mainnet] | l => l end) ∅
    rpc_failure_reset_seconds.

Definition NANOS : N := 10 ^ 9.

(** The clock's own range (2^63 seconds) is not modelled. *)
Definition mark_failed (p : EndpointPool) (now : N) (u : string) : EndpointPool :=
  mkPool (endpoints p) (<[u := now + failure_reset_seconds p * NANOS]> (failures p))
    (failure_reset_seconds p).

Definition is_available (p : EndpointPool) (now : N) (ep : RpcEndpoint) : bool :=
  match failures p !! url ep with Some reset_time => reset_time <=? now | None => true end.
Definition available_endpoints (p : EndpointPool) (now : N) : list RpcEndpoint :=
  bfilter (is_available p now) (endpoints p).

(** The walk along the weights with the drawn number. *)
Fixpoint pick_weighted (random : N) (l : list RpcEndpoint) : option RpcEndpoint :=
  match l with
  | [] => None
  | ep :: l => if random <? weight ep then Some ep else pick_weighted (random - weight ep) l
  end.

Definition total_weight (l : list RpcEndpoint) : N := sumN (map weight l).

(** [draw n] is the number drawn from [0..n]; the [u32] sum can overflow. *)
Definition weighted_random_select {E} (draw : N -> N) (l : list RpcEndpoint)
    : outcome E (option RpcEndpoint) :=
  match l with
  | [] => Ok None
  | first :: _ =>
      if U32_MAX <? total_weight l then Panic
      else if total_weight l =? 0 then Ok (Some first)
      else Ok (match pick_weighted (draw (total_weight l)) l with
               | Some ep => Some ep | None => list.last l end)
  end.

Definition next_endpoint {E} (p : EndpointPool) (now : N) (draw : N -> N)
    : outcome E (option RpcEndpoint * EndpointPool) :=
  let available := available_endpoints p now in
  match available with
  | [] => Ok (head (endpoints p), mkPool (endpoints p) ∅ (failure_reset_seconds p))
  | _ => let? selected := weighted_random_select draw available in Ok (selected, p)
  end.

(** ** rpc.rs *)

(** The errors of the JSON-RPC client, as far as the code tells them apart. *)
Inductive JsonRpcError : Type :=
| TooManyRequests
| RequestValidationError
| HandlerError
| InternalError
| NonContextualError
| Unauthorized
| UnexpectedStatus (status : N)
| OtherStatus
| PayloadSendError
| PayloadSerializeError
| UnexpectedServerResponse
| PayloadRecvError
| PayloadParseError
| ResponseParseError.

#[global] Instance JsonRpcError_eq_dec : EqDecision JsonRpcError.
Proof. solve_decision. Defined.

Inductive MaybeRetry (R : Type) : Type :=
| Through (r : R + JsonRpcError)
| Retry (err : JsonRpcError)
| SwitchEndpoint (err : JsonRpcError).
Arguments Through {R} r.
Arguments Retry {R} err.
Arguments SwitchEndpoint {R} err.

(** [StatusCode::is_server_error]. *)
Definition is_server_error (status : N) : bool := (500 <=? status) && (status <? 600).

(** What to do with an answer; too many requests also fails the endpoint. *)
Definition call_maybe_retry {R} (p : EndpointPool) (now : N) (u : string) (res : R + JsonRpcError)
    : MaybeRetry R * EndpointPool :=
  match res with
  | inl r => (Through (inl r), p)
  | inr err =>
      match err with
      | TooManyRequests => (SwitchEndpoint err, mark_failed p now u)
      | RequestValidationError | HandlerError => (Through (inr err), p)
      | InternalError | NonContextualError => (Retry err, p)
      | Unauthorized => (Through (inr err), p)
      | UnexpectedStatus status =>
          if is_server_error status then (Retry err, p) else (Through (inr err), p)
      | OtherStatus => (Through (inr err), p)
      | PayloadSendError => (Retry err, p)
      | PayloadSerializeError | UnexpectedServerResponse => (Through (inr err), p)
      | PayloadRecvError | PayloadParseError | ResponseParseError => (Retry err, p)
      end
  end.

(** The environment: clock, draws and answers at each interaction. *)
Record Env (R : Type) := mkEnv {
  now_at : nat -> N;
  draw_at : nat -> N -> N;
  reply_at : nat -> string -> R + JsonRpcError;
}.
Arguments now_at {R}.
Arguments draw_at {R}.
Arguments reply_at {R}.

(** Where the nested loops of [call] stand: choosing an endpoint, or calling one. *)
Inductive position := Selecting | Calling (u : string) (max_retries endpoint_retry_count : N).

(** One pass of the loop bodies: a result, or the next position.  [sent] lists
    the endpoints asked so far, last first. *)
Record call_state := mkCall {
  c_pool : EndpointPool;
  c_total : N;
  c_pos : position;
  c_tick : nat;
  c_sent : list string;
}.

Definition call_step {R} (env : Env R) (retry_limit : N) (s : call_state)
    : outcome JsonRpcError (R + JsonRpcError + call_state) :=
  let now := now_at env (c_tick s) in
  let tick := S (c_tick s) in
  match c_pos s with
  | Selecting =>
      let? r := next_endpoint (c_pool s) now (draw_at env (c_tick s)) in
      match r.1 with
      | None => Ok (inr (mkCall r.2 (c_total s) Selecting tick (c_sent s)))
      | Some ep =>
          Ok (inr (mkCall r.2 (c_total s) (Calling (url ep) (max_retries ep) 0) tick (c_sent s)))
      end
  | Calling u mr count =>
      let '(verdict, pool) := call_maybe_retry (c_pool s) now u (reply_at env (c_tick s) u) in
      let sent := u :: c_sent s in
      match verdict with
      | Through res => Ok (inl res)
      | Retry err =>
          if c_total s =? U16_MAX then Panic
          else
            let total := c_total s + 1 in
            if retry_limit <? total then Ok (inl (inr err))
            else
              let count := count + 1 in
              if mr <? count
              then Ok (inr (mkCall (mark_failed pool now u) total Selecting tick sent))
              else Ok (inr (mkCall pool total (Calling u mr count) tick sent))
      | SwitchEndpoint err =>
          if c_total s =? U16_MAX then Panic
          else
            let total := c_total s + 1 in
            if retry_limit <? total then Ok (inl (inr err))
            else Ok (inr (mkCall pool total Selecting tick sent))
      end
  end.

(** The loop; [None] when the fuel runs out.  Also returns the last state. *)
Fixpoint call_loop {R} (fuel : nat) (env : Env R) (retry_limit : N) (s : call_state)
    : option (outcome JsonRpcError (R + JsonRpcError) * call_state) :=
  match fuel with
  | O => None
  | S fuel =>
      match call_step env retry_limit s with
      | Ok (inl res) => Some (Ok res, s)
      | Ok (inr s') => call_loop fuel env retry_limit s'
      | Err e => Some (Err e, s)
      | Panic => Some (Panic, s)
      end
  end.

Definition rpc_call {R} (fuel : nat) (env : Env R) (retry_limit : N) (p : EndpointPool)
    : option (outcome JsonRpcError (R + JsonRpcError) * call_state) :=
  call_loop fuel env retry_limit (mkCall p 0 Selecting 0 []).

(** ** sent_tx.rs: polling for a transaction *)

(** A poll's answer: the execution status reached and the outcome, or an error
    with its message. *)
Inductive TxExecutionStatus := TxNone | TxIncluded | TxExecutedOptimistic | TxIncludedFinal
  | TxExecuted | TxFinal.
Definition is_final (s : TxExecutionStatus) : bool := match s with TxFinal => true | _ => false end.

Definition MAX_ATTEMPTS : nat := 30.

(** [str::contains] of the two messages that mean "not there yet". *)
Fixpoint contains_str (needle hay : string) : bool :=
  String.prefix needle hay ||
  match hay with EmptyString => false | String _ rest => contains_str needle rest end.
Definition not_yet (msg : string) : bool :=
  contains_str "doesn't exist" msg || contains_str "UNKNOWN_TRANSACTION" msg.

Fixpoint poll {P} (answers : nat -> (TxExecutionStatus * option (FinalExecutionStatus P)) + string)
    (attempt : nat) (remaining : nat) : outcome anyhow (FinalExecutionStatus P) :=
  match remaining with
  | O => Err (Anyhow "Transaction polling timeout" [N.of_nat MAX_ATTEMPTS; N.of_nat MAX_ATTEMPTS * 2])
  | S remaining =>
      match answers attempt with
      | inr msg => if not_yet msg then poll answers (S attempt) remaining else Err (External msg)
      | inl (status, outcome) =>
          if is_final status then
            match outcome with
            | Some (Failure err) => Err (External err)
            | Some (SuccessValue v) => Ok (SuccessValue v)
            | Some NotStarted | Some Started | None => poll answers (S attempt) remaining
            end
          else poll answers (S attempt) remaining
      end
  end.
(** The one-shot variant: the outcome of a transaction executed on the node's side. *)
Definition wait_for_executed {O} (answer : (TxExecutionStatus * option O) + string)
    : outcome anyhow O :=
  match answer with
  | inr msg => Err (External msg)
  | inl (_, Some outcome) => Ok outcome
  | inl (_, None) => Err (Anyhow "No outcome of tx" [])
  end.

Definition wait_for_success_poll {P}
    (answers : nat -> (TxExecutionStatus * option (FinalExecutionStatus P)) + string)
    : outcome anyhow (FinalExecutionStatus P) := poll answers 0 MAX_ATTEMPTS.

(** ** Selection *)
Lemma pick_weighted_spec l : forall random, random < total_weight l ->
  exists ep, pick_weighted random l = Some ep /\ ep ∈ l /\ 0 < weight ep.
Proof.
  induction l as [|ep l IH]; intros random Hr; unfold total_weight in *; cbn [map] in Hr.
  - rewrite sumN_nil in Hr. lia.
  - rewrite sumN_cons in Hr. cbn [pick_weighted].
    destruct (N.ltb_spec random (weight ep)) as [Hlt|Hge].
    + exists ep. split; [done|]. split; [left|lia].
    + destruct (IH (random - weight ep)) as (ep' & -> & Hin & Hw); [lia|].
      exists ep'. split; [done|]. split; [by right|done].
Qed.

Lemma total_weight_sublist l k : l `sublist_of` k -> total_weight l <= total_weight k.
Proof.
  unfold total_weight. induction 1 as [|x l k _ IH|x l k _ IH]; cbn [map];
    rewrite ?sumN_cons; lia.
Qed.

(** Draws stay in their range. *)
Definition draw_ok (draw : N -> N) : Prop := forall n, 0 < n -> draw n < n.

Lemma weighted_select_spec {E} draw l : l <> [] -> total_weight l <= U32_MAX -> draw_ok draw ->
  exists ep, weighted_random_select (E:=E) draw l = Ok (Some ep) /\ ep ∈ l /\
    (0 < weight ep \/ total_weight l = 0).
Proof.
  intros Hl Hw Hd. unfold weighted_random_select. destruct l as [|first l]; [done|].
  destruct (N.ltb_spec U32_MAX (total_weight (first :: l))); [lia|].
  destruct (N.eqb_spec (total_weight (first :: l)) 0) as [Hz|Hz].
  - exists first. split; [done|]. split; [left|by right].
  - destruct (pick_weighted_spec (first :: l) (draw (total_weight (first :: l))))
      as (ep & -> & Hin & Hp); [apply Hd; lia|].
    exists ep. split; [done|]. split; [done|by left].
Qed.

Lemma next_endpoint_spec {E} p now draw :
  endpoints p <> [] -> total_weight (endpoints p) <= U32_MAX -> draw_ok draw ->
  exists ep p', next_endpoint (E:=E) p now draw = Ok (Some ep, p') /\
    ep ∈ endpoints p /\ endpoints p' = endpoints p /\
    (if decide (available_endpoints p now = []) then failures p' = ∅
     else p' = p /\ is_available p now ep = true /\
          (0 < weight ep \/ total_weight (available_endpoints p now) = 0)).
Proof.
  intros Hne Hw Hd. unfold next_endpoint.
  assert (Hsub : available_endpoints p now `sublist_of` endpoints p) by apply sublist_bfilter.
  assert (Hin : forall e, e ∈ available_endpoints p now ->
    e ∈ endpoints p /\ is_available p now e = true) by (intros e; apply elem_of_bfilter).
  destruct (available_endpoints p now) as [|a0 l] eqn:Ea.
  - destruct (endpoints p) as [|e l]; [done|]. exists e, (mkPool (e :: l) ∅ (failure_reset_seconds p)).
    split; [done|]. split; [left|]. split; [done|]. by rewrite decide_True.
  - destruct (weighted_select_spec (E:=E) draw (a0 :: l)) as (ep & -> & Hep & Hpos);
      [done|pose proof (total_weight_sublist _ _ Hsub); lia|done|].
    destruct (Hin ep Hep) as [H1 H2]. exists ep, p. cbn [obind].
    split; [done|]. split; [done|]. split; [done|]. by rewrite decide_False.
Qed.

(** ** The retry loop *)
Lemma mark_failed_endpoints p now u : endpoints (mark_failed p now u) = endpoints p.
Proof. done. Qed.

Lemma call_maybe_retry_endpoints {R} p now u (res : R + JsonRpcError) v p' :
  call_maybe_retry p now u res = (v, p') -> endpoints p' = endpoints p.
Proof.
  unfold call_maybe_retry. destruct res as [r|[]]; try destruct (is_server_error _);
    intros; simplify_eq; done.
Qed.

(** A verdict carries the answer it was made from. *)
Lemma call_maybe_retry_answer {R} p now u (res : R + JsonRpcError) v p' :
  call_maybe_retry p now u res = (v, p') ->
  match v with Through r => r = res | Retry e | SwitchEndpoint e => res = inr e end.
Proof.
  unfold call_maybe_retry. destruct res as [r|[]]; try destruct (is_server_error _);
    intros; simplify_eq; done.
Qed.

Section loop.
Context {R : Type} (env : Env R) (retry_limit : N) (eps : list RpcEndpoint).
Context (Hne : eps <> []) (Hw : total_weight eps <= U32_MAX) (Hlimit : retry_limit < U16_MAX).
Context (Hdraw : forall k, draw_ok (draw_at env k)).

(** Every continued request has been counted; only pool endpoints are asked. *)
Record call_inv (s : call_state) : Prop := {
  inv_eps : endpoints (c_pool s) = eps;
  inv_total : c_total s <= retry_limit;
  inv_sent : len (c_sent s) = c_total s;
  inv_urls : Forall (fun u => u ∈ map url eps) (c_sent s);
  inv_pos : match c_pos s with Calling u _ _ => u ∈ map url eps | Selecting => True end;
}.

Definition call_measure (s : call_state) : N :=
  2 * (retry_limit - c_total s) + match c_pos s with Selecting => 2 | Calling _ _ _ => 1 end.

(** One pass ends with the answer of the endpoint that was called, or goes on. *)
Lemma call_step_spec s : call_inv s ->
  (exists u mr n, c_pos s = Calling u mr n /\
     call_step env retry_limit s = Ok (inl (reply_at env (c_tick s) u))) \/
  (exists s', call_step env retry_limit s = Ok (inr s') /\ call_inv s' /\
     call_measure s' < call_measure s).
Proof.
  intros [He Ht Hs Hu Hp]. unfold call_step. destruct (c_pos s) as [|u mr n] eqn:Epos.
  - right. destruct (next_endpoint_spec (E:=JsonRpcError) (c_pool s) (now_at env (c_tick s))
      (draw_at env (c_tick s))) as (ep & p' & -> & Hin & He' & _); [by rewrite He..|done|].
    cbn [obind fst snd]. eexists. split; [done|]. split.
    + split; cbn; [congruence|done|done|done|]. rewrite He in Hin.
      apply list_elem_of_fmap. eauto.
    + unfold call_measure; cbn. rewrite Epos. lia.
  - destruct (call_maybe_retry (c_pool s) (now_at env (c_tick s)) u (reply_at env (c_tick s) u))
      as [v p'] eqn:Ev.
    pose proof (call_maybe_retry_endpoints _ _ _ _ _ _ Ev) as Hep.
    pose proof (call_maybe_retry_answer _ _ _ _ _ _ Ev) as Hans.
    assert (Hmax : (c_total s =? U16_MAX) = false) by (apply N.eqb_neq; lia).
    assert (Hsent : len (u :: c_sent s) = c_total s + 1) by (rewrite len_cons; lia).
    destruct v as [r|e|e]; [left; exists u, mr, n; subst r; done| |]; rewrite Hmax;
      (destruct (N.ltb_spec retry_limit (c_total s + 1)) as [Hlt|Hge];
        [left; exists u, mr, n; by rewrite Hans|right]).
    + destruct (mr <? n + 1); (eexists; split; [done|]; split;
        [split; cbn; [congruence|done|done|by constructor|done]
        |unfold call_measure; cbn; rewrite Epos; lia]).
    + eexists. split; [done|]. split;
        [split; cbn; [congruence|done|done|by constructor|done]
        |unfold call_measure; cbn; rewrite Epos; lia].
Qed.

Lemma call_loop_spec fuel : forall s, call_inv s -> call_measure s < N.of_nat fuel ->
  exists u mr n s', call_loop fuel env retry_limit s = Some (Ok (reply_at env (c_tick s') u), s') /\
    call_inv s' /\ c_pos s' = Calling u mr n.
Proof.
  induction fuel as [|fuel IH]; intros s Hs Hm; [lia|]. cbn [call_loop].
  destruct (call_step_spec s Hs) as [(u & mr & n & Hp & ->)|(s' & -> & Hs' & Hlt)].
  - exists u, mr, n, s. done.
  - apply IH; [done|lia].
Qed.
End loop.

(** With the largest limit the test on the counter can never succeed, and the
    retry after the last one the counter can hold overflows it. *)
Lemma call_step_counter_overflow {R} (env : Env R) u mr n (s : call_state) :
  c_pos s = Calling u mr n -> c_total s = U16_MAX ->
  reply_at env (c_tick s) u = inr InternalError -> call_step env U16_MAX s = Panic.
Proof. intros Hp Ht Hr. unfold call_step. by rewrite Hp, Hr; cbn; rewrite Ht. Qed.

(** ** Polling *)
Section polling.
Context {P : Type}.

(** An answer after which the polling goes on. *)
Definition pending (a : (TxExecutionStatus * option (FinalExecutionStatus P)) + string) : bool :=
  match a with
  | inr msg => not_yet msg
  | inl (status, outcome) =>
      negb (is_final status) ||
      match outcome with Some (Failure _) | Some (SuccessValue _) => false | _ => true end
  end.

Lemma poll_step answers k n :
  poll answers k (S n) =
  if pending (answers k) then poll answers (S k) n
  else match answers k with
       | inr msg => Err (External msg)
       | inl (_, Some (SuccessValue v)) => Ok (SuccessValue v)
       | inl (_, Some (Failure e)) => Err (External e)
       | inl _ => Panic
       end.
Proof.
  cbn [poll]. destruct (answers k) as [[status [[]|]]|msg]; cbn; try destruct (is_final status); cbn;
    try done.
Qed.

Lemma poll_success answers n : forall k v,
  poll answers k n = Ok v <->
  exists j bytes, (j < n)%nat /\ (forall i, (i < j)%nat -> pending (answers (k + i)%nat) = true) /\
    answers (k + j)%nat = inl (TxFinal, Some (SuccessValue bytes)) /\ v = SuccessValue bytes.
Proof.
  induction n as [|n IH]; intros k v; [split; [done|intros (?&?&?&?); lia]|].
  rewrite poll_step. destruct (pending (answers k)) eqn:Ep.
  - rewrite IH. split; intros (j & bytes & Hj & Hi & Ha & Hv).
    + exists (S j), bytes. split; [lia|]. split; [|by rewrite Nat.add_succ_r].
      intros [|i] Hlt; [by rewrite Nat.add_0_r|]. rewrite Nat.add_succ_r. apply Hi. lia.
    + destruct j as [|j].
      * rewrite Nat.add_0_r in Ha. by rewrite Ha in Ep.
      * exists j, bytes. split; [lia|]. split; [|by rewrite Nat.add_succ_r in Ha].
        intros i Hlt. specialize (Hi (S i)). rewrite Nat.add_succ_r in Hi. apply Hi. lia.
  - split.
    + intros E. exists O. rewrite Nat.add_0_r.
      destruct (answers k) as [[status [[]|]]|msg]; try done; cbn in Ep.
      destruct status; try done. simplify_eq. exists bytes. split; [lia|]. split; [lia|done].
    + intros (j & bytes & Hj & Hi & Ha & ->). destruct j as [|j].
      * rewrite Nat.add_0_r in Ha. by rewrite Ha.
      * specialize (Hi O ltac:(lia)). rewrite Nat.add_0_r in Hi. congruence.
Qed.
End polling.

(** ** Theorems *)

(** Selecting from a configured pool always yields one of its endpoints.
    While some endpoint is available, the selected one is, so an endpoint marked
    as failed is not used before its reset time; an endpoint of weight zero is
    only chosen when all available weights are zero; and when every endpoint has
    failed, the failures are forgotten. *)
Theorem next_endpoint_avoids_failed rpc_endpoints is_mainnet reset fs now draw :
  let p := mkPool (endpoints (pool_new rpc_endpoints is_mainnet reset)) fs reset in
  total_weight (endpoints p) <= U32_MAX -> draw_ok draw ->
  exists ep p', next_endpoint (E:=anyhow) p now draw = Ok (Some ep, p') /\
    ep ∈ endpoints p /\ endpoints p' = endpoints p /\
    (if decide (available_endpoints p now = []) then failures p' = ∅
     else p' = p /\ is_available p now ep = true /\
          (0 < weight ep \/ total_weight (available_endpoints p now) = 0)).
Proof.
  intros p Hw Hd. apply next_endpoint_spec; [|done|done].
  unfold p, pool_new; cbn. by destruct rpc_endpoints.
Qed.

(** C36: A call ends after at most [retry_limit + 1] requests, whatever the nodes
    answer, whatever is drawn and whatever the clock says, provided the limit is
    below the maximum of its 16-bit counter and the weights of the endpoints add up
    within 32 bits: the counter never overflows, only endpoints of the pool are
    asked, and the result is the answer to the last request. *)
Theorem rpc_call_bounded {R} (env : Env R) retry_limit rpc_endpoints is_mainnet reset :
  let p := pool_new rpc_endpoints is_mainnet reset in
  total_weight (endpoints p) <= U32_MAX -> retry_limit < U16_MAX ->
  (forall k, draw_ok (draw_at env k)) ->
  exists u s,
    rpc_call (N.to_nat (2 * retry_limit + 3)) env retry_limit p
      = Some (Ok (reply_at env (c_tick s) u), s) /\
    len (c_sent s) <= retry_limit /\
    u ∈ map url (endpoints p) /\ Forall (fun v => v ∈ map url (endpoints p)) (c_sent s).
Proof.
  intros p Hw Hl Hd.
  assert (Hne : endpoints p <> []) by (unfold p, pool_new; cbn; by destruct rpc_endpoints).
  destruct (call_loop_spec env retry_limit (endpoints p) Hne Hw Hl Hd
    (N.to_nat (2 * retry_limit + 3)) (mkCall p 0 Selecting 0 []))
    as (u & mr & n & s & E & [_ Ht Hs Hu Hp] & Hpos).
  - split; cbn; [done|lia|done|constructor|done].
  - unfold call_measure; cbn. lia.
  - exists u, s. split; [exact E|]. split; [lia|]. split; [by rewrite Hpos in Hp|done].
Qed.

(** Waiting for a transaction succeeds exactly when one of the thirty polls
    reports final success and every poll before it was pending (not found yet, not
    final, or without an outcome): a failure or another error ends it at once. *)
Theorem wait_for_success_exact {P} answers (v : FinalExecutionStatus P) :
  wait_for_success_poll answers = Ok v <->
  exists j bytes, (j < MAX_ATTEMPTS)%nat /\
    (forall i, (i < j)%nat -> pending (answers i) = true) /\
    answers j = inl (TxFinal, Some (SuccessValue bytes)) /\ v = SuccessValue bytes.
Proof. apply (poll_success answers MAX_ATTEMPTS 0 v). Qed.

(** ** A concrete environment *)
Definition two_endpoints : list RpcEndpoint :=
  [mkEndpoint "https://a" 70 1; mkEndpoint "https://b" 30 2]%string.

(** Draws the middle of the range; [a] is overloaded, [b] answers at last. *)
Definition sample_env : Env N :=
  mkEnv N (fun k => N.of_nat k * NANOS) (fun _ n => n / 2)
    (fun k u => if bool_decide (u = "https://a"%string) then inr TooManyRequests
                else if (k <? 6)%nat then inr InternalError else inl 42).

Lemma sample_draws k : draw_ok (draw_at sample_env k).
Proof. intros n Hn. cbn. apply N.Div0.div_lt_upper_bound. lia. Qed.

Example sample_call :
  option_map (fun r => (r.1, c_sent r.2))
    (rpc_call 20 sample_env 5 (pool_new two_endpoints true 300))
  = Some (Ok (inl 42), ["https://a"; "https://b"; "https://b"; "https://b"; "https://a"]%string).
Proof. vm_compute. reflexivity. Qed.

Lemma next_endpoint_avoids_failed_witness :
  exists ep p', next_endpoint (E:=anyhow)
      (mkPool two_endpoints {[ "https://a"%string := 500 ]} 300) 100 (fun n => n / 2)
      = Ok (Some ep, p') /\
    ep ∈ two_endpoints /\ endpoints p' = two_endpoints /\
    (if decide (available_endpoints
          (mkPool two_endpoints {[ "https://a"%string := 500 ]} 300) 100 = [])
     then failures p' = ∅
     else p' = mkPool two_endpoints {[ "https://a"%string := 500 ]} 300 /\
          is_available (mkPool two_endpoints {[ "https://a"%string := 500 ]} 300) 100 ep = true /\
          (0 < weight ep \/ total_weight (available_endpoints
            (mkPool two_endpoints {[ "https://a"%string := 500 ]} 300) 100) = 0)).
Proof.
  apply (next_endpoint_avoids_failed two_endpoints true 300 {[ "https://a"%string := 500 ]} 100
    (fun n => n / 2)); [vm_compute; discriminate | exact (sample_draws 0)].
Defined.

Lemma rpc_call_bounded_witness :
  exists u s,
    rpc_call 13 sample_env 5 (pool_new two_endpoints true 300)
      = Some (Ok (reply_at sample_env (c_tick s) u), s) /\
    len (c_sent s) <= 5 /\
    u ∈ map url two_endpoints /\ Forall (fun v => v ∈ map url two_endpoints) (c_sent s).
Proof.
  apply (rpc_call_bounded sample_env 5 two_endpoints true 300);
    [vm_compute; discriminate | vm_compute; reflexivity | apply sample_draws].
Defined.
