(* ===== verification/Balances.v ===== *)
(** * Balances: keeping the exchange account funded

    [ref_finance/balances.rs] and the token calls of [ref_finance/deposit.rs]
    it makes: topping the exchange deposit up from wrapped and native NEAR
    while a reserve stays on the account, and sending the excess to the
    harvest account.  The programs are [prog]s of [NearClient]; the
    [LAST_HARVEST] atomic and the clock are requests.  [ft_balance_of] and
    [get_deposits] are views, decoded by the abstract [FromSlice]. *)

From S2P Require Import Prelude NearClient StoragePlanner Storage SimExchange.

(** What the code reads from its configuration: amounts in yoctoNEAR, and the
    harvest account, [None] when it is missing or does not parse. *)
Record BalancesConfig := mkBalancesConfig {
  trade_account_reserve : N;
  harvest_interval_seconds : N;
  harvest_balance_multiplier : N;
  harvest_account_id : option AccountId;
}.

(** [history.rs]: statistics of past inputs. *)
Record Statistics := mkStatistics { stat_max : N; stat_average : N }.
Definition Statistics_default : Statistics := mkStatistics 0 0.

Definition DEFAULT_REQUIRED_BALANCE : N := 10 ^ 24.

Section Balances.
Context {P : Type} `{!FromSlice P (gmap TokenAccount N)} `{!FromSlice P N}.
Context (is_mainnet : bool) (w : Wallet) (cfg : BalancesConfig).

(** ** deposit.rs *)
Definition wnear_balance_of (account : AccountId) : prog P N :=
  let! result := view_contract (WNEAR_TOKEN is_mainnet) "ft_balance_of"
    (JObj [("account_id", JStr account)]) in
  lift (decode result).

Definition wrap (amount : N) : prog P TxId :=
  exec_contract w (WNEAR_TOKEN is_mainnet) "near_deposit" (JObj []) amount.

Definition unwrap (amount : N) : prog P TxId :=
  exec_contract w (WNEAR_TOKEN is_mainnet) "near_withdraw" (JObj [("amount", JU128 amount)]) 1.

Definition deposit (token : TokenAccount) (amount : N) : prog P TxId :=
  exec_contract w token "ft_transfer_call"
    (JObj [("receiver_id", JStr (CONTRACT_ADDRESS is_mainnet)); ("amount", JU128 amount);
           ("msg", JStr "")]) 1.

Definition withdraw (token : TokenAccount) (amount : N) : prog P TxId :=
  exec_contract w (CONTRACT_ADDRESS is_mainnet) "withdraw"
    (JObj [("token_id", JStr token); ("amount", JU128 amount); ("skip_unwrap_near", JBool false)]) 1.

(** ** balances.rs *)

(** [expect] on the configured account. *)
Definition harvest_account : prog P AccountId :=
  match harvest_account_id cfg with Some a => Ret (Ok a) | None => Ret Panic end.

(** The [u64] difference underflows when the clock is behind the last harvest. *)
Definition is_time_to_harvest : prog P bool :=
  let! last := load_last_harvest in
  let! now := now_secs in
  match checked_sub now last with
  | Some elapsed => Ret (Ok (harvest_interval_seconds cfg <? elapsed))
  | None => Ret Panic
  end.

Definition update_last_harvest : prog P unit :=
  let! now := now_secs in store_last_harvest now.

Definition multiply_by_balance_multiplier (token : N) : N :=
  saturating_mul token (harvest_balance_multiplier cfg).

Definition balance_of_start_token (token : TokenAccount) : prog P N :=
  let! deposits := get_deposits is_mainnet (account_id w) in
  Ret (Ok (default 0 (deposits !! token))).

(** The amount wrapped out of the native balance: what is wanted, or what is
    available above the reserve. *)
Definition wrap_up_to (wrapping : N) : prog P N :=
  let! native_balance := get_native_amount (account_id w) in
  let available := saturating_sub native_balance (trade_account_reserve cfg) in
  let amount := if available <? wrapping then available else wrapping in
  if 0 <? amount then
    let! tx := wrap amount in
    let! _ := wait_for_success tx in
    Ret (Ok amount)
  else Ret (Ok amount).

Definition refill (want : N) : prog P unit :=
  let! wrapped_balance := wnear_balance_of (account_id w) in
  let! actual_wrapping :=
    if wrapped_balance <? want then wrap_up_to (saturating_sub want wrapped_balance)
    else Ret (Ok 0) in
  let total_deposit := saturating_add wrapped_balance actual_wrapping in
  if 0 <? total_deposit then
    let! tx := deposit (WNEAR_TOKEN is_mainnet) total_deposit in
    let! _ := wait_for_success tx in
    Ret (Ok tt)
  else Ret (Ok tt).

Definition deposit_wrap_near_to_ref (amount : N) : prog P unit :=
  let! deposited_balance := balance_of_start_token (WNEAR_TOKEN is_mainnet) in
  if amount <=? deposited_balance then Ret (Ok tt)
  else
    let shortage := saturating_sub amount deposited_balance in
    let! wrapped_balance := wnear_balance_of (account_id w) in
    let! _ :=
      if wrapped_balance <? shortage then wrap_up_to (saturating_sub shortage wrapped_balance)
      else Ret (Ok 0) in
    let! final_wrapped_balance := wnear_balance_of (account_id w) in
    if final_wrapped_balance =? 0 then
      Ret (Err (Anyhow "No wrap.near balance available to deposit" []))
    else
      let deposit_amount :=
        if shortage <? final_wrapped_balance then shortage else final_wrapped_balance in
      let! tx := deposit (WNEAR_TOKEN is_mainnet) deposit_amount in
      let! _ := wait_for_success tx in
      Ret (Ok tt).

(** The second half of [harvest]: pay what is above the upper limit. *)
Definition pay_excess (required native_balance : N) : prog P unit :=
  let upper := multiply_by_balance_multiplier required in
  let! harvesting := if upper <? native_balance then is_time_to_harvest else Ret (Ok false) in
  if harvesting : bool then
    let! target := harvest_account in
    let! tx := transfer_native_token w target (saturating_sub native_balance upper) in
    let! _ := wait_for_success tx in
    update_last_harvest
  else Ret (Ok tt).

Definition harvest (token : TokenAccount) (amount required : N) : prog P unit :=
  let! before_withdraw := get_native_amount (account_id w) in
  let! withdrawing :=
    if before_withdraw <? trade_account_reserve cfg then Ret (Ok true) else is_time_to_harvest in
  let! added :=
    if withdrawing : bool then
      let! tx := withdraw token amount in
      let! _ := wait_for_success tx in
      Ret (Ok amount)
    else Ret (Ok 0) in
  let native_balance := saturating_add before_withdraw added in
  pay_excess required native_balance.

(** [required_balance] and its default. *)
Definition required_or_default (inputs : Statistics) (required_balance : option N) : N :=
  match required_balance with
  | Some r => r
  | None => if stat_max inputs =? 0 then DEFAULT_REQUIRED_BALANCE else stat_max inputs
  end.

Definition start (inputs : Statistics) (token : TokenAccount) (required_balance : option N)
    : prog P N :=
  let required := required_or_default inputs required_balance in
  let! deposited_wnear := balance_of_start_token token in
  if deposited_wnear <? required then
    let! _ := refill (saturating_sub required deposited_wnear) in
    balance_of_start_token token
  else
    let upper := multiply_by_balance_multiplier required in
    let! _ :=
      if upper <? deposited_wnear then
        let! _ := attempt (harvest (WNEAR_TOKEN is_mainnet)
          (saturating_sub deposited_wnear upper) required) in
        Ret (Ok tt)
      else Ret (Ok tt) in
    Ret (Ok deposited_wnear).
End Balances.

(** ** What a run can do, whatever the node answers *)
Section Proofs.
Context {P : Type} `{!FromSlice P (gmap TokenAccount N)} `{!FromSlice P N}.
Context (is_mainnet : bool) (w : Wallet) (cfg : BalancesConfig).

(** A wrapping must follow a report of the native balance, with no newer one
    in between, and leave the reserve of it. *)
Definition wrap_guard (pre : list (event P)) (r : Req) : Prop :=
  match r with
  | RExec _ _ method _ d => method = "near_deposit" ->
      exists pre1 native mid,
        pre = pre1 ++ ev (RNative (account_id w)) (inl native) :: mid /\
        d + trade_account_reserve cfg <= native /\
        Forall (fun e => projT1 e <> RNative (account_id w)) mid
  | _ => True
  end.

Definition wrap_guarded : list (event P) -> Prop := guarded wrap_guard.

#[local] Instance wrap_guard_app : Guard wrap_guard.
Proof.
  intros t pre r. unfold wrap_guard. destruct r; try done.
  intros H Hm. destruct (H Hm) as (pre1 & n & mid & -> & Hrest).
  exists (t ++ pre1), n, mid. split; [by rewrite app_assoc|done].
Qed.

Ltac no_wrap := repeat keeps_step ltac:(by apply keeps_free).

(** The report, then a wrapping of at most what it leaves, then the wait. *)
Lemma wrap_up_to_guarded wrapping :
  keeps (wrap_up_to (P:=P) is_mainnet w cfg wrapping) wrap_guarded.
Proof.
  unfold wrap_up_to. apply wp_bind, wp_call. intros [native|e]; simpl;
    [|by apply guarded_one].
  set (amount := if saturating_sub native _ <? _ then _ else _).
  destruct (N.ltb_spec 0 amount) as [Hpos|Hz]; [|apply wp_ret, guarded_one; done].
  assert (Hamount : amount + trade_account_reserve cfg <= native).
  { unfold amount, saturating_sub in *. destruct (N.ltb_spec (native - trade_account_reserve cfg) wrapping); lia. }
  assert (Hg : forall x rest, Forall (fun e => exists tx, projT1 e = RWait tx) rest ->
    wrap_guarded (ev (RNative (account_id w)) (inl native) ::
      ev (RExec (signer w) (WNEAR_TOKEN is_mainnet) "near_deposit" (JObj []) amount) x :: rest)).
  { intros x rest Hrest pre r y post Heq.
    destruct pre as [|e0 [|e1 pre]]; [by injection Heq as <-| |].
    - injection Heq as <- <- _. intros _. by exists [], native, [].
    - injection Heq as _ _ ->. apply Forall_app in Hrest as [_ Hr].
      apply Forall_inv in Hr as [tx Hr]. cbn in Hr. by subst r. }
  apply wp_bind, wp_call. intros [tx|e]; simpl; [|by apply Hg].
  apply wp_bind, wp_call. intros [v|e]; simpl; [apply wp_ret|]; apply Hg; repeat constructor; by exists tx.
Qed.

Lemma refill_guarded want : keeps (refill (P:=P) is_mainnet w cfg want) wrap_guarded.
Proof.
  unfold refill. apply keeps_bind; [apply _|no_wrap|intros wrapped].
  apply keeps_bind; [apply _| |intros actual; no_wrap].
  destruct (_ <? _); [apply wrap_up_to_guarded|no_wrap].
Qed.

Lemma deposit_wrap_guarded amount :
  keeps (deposit_wrap_near_to_ref (P:=P) is_mainnet w cfg amount) wrap_guarded.
Proof.
  unfold deposit_wrap_near_to_ref. apply keeps_bind; [apply _|no_wrap|intros dep].
  destruct (_ <=? _); [no_wrap|]. apply keeps_bind; [apply _|no_wrap|intros wrapped].
  apply keeps_bind; [apply _| |intros _; no_wrap].
  destruct (_ <? _); [apply wrap_up_to_guarded|no_wrap].
Qed.

Lemma harvest_guarded token amount required :
  keeps (harvest (P:=P) is_mainnet w cfg token amount required) wrap_guarded.
Proof. unfold harvest, pay_excess, harvest_account, is_time_to_harvest, update_last_harvest. no_wrap. Qed.

Lemma start_guarded inputs token required :
  keeps (start (P:=P) is_mainnet w cfg inputs token required) wrap_guarded.
Proof.
  unfold start. apply keeps_bind; [apply _|no_wrap|intros dep].
  destruct (_ <? _).
  - apply keeps_bind; [apply _|apply refill_guarded|intros _; no_wrap].
  - apply keeps_bind; [apply _| |intros _; no_wrap].
    destruct (_ <? _); [|no_wrap]. apply keeps_bind; [apply _| |intros _; no_wrap].
    apply keeps_attempt, harvest_guarded.
Qed.

(** *** Harvesting *)

(** A request that neither pays out nor moves the time of the last harvest. *)
Definition pays_nothing (r : Req) : Prop :=
  match r with RTransfer _ _ _ | RStoreLastHarvest _ => False | _ => True end.
Definition quiet_trace (t : list (event P)) : Prop := Forall (fun e => pays_nothing (projT1 e)) t.

Definition withdraw_request (amount : N) : Req :=
  RExec (signer w) (CONTRACT_ADDRESS is_mainnet) "withdraw"
    (JObj [("token_id", JStr (WNEAR_TOKEN is_mainnet)); ("amount", JU128 amount);
           ("skip_unwrap_near", JBool false)]) 1.

(** The exchange deposit was lowered by [added], or nothing was withdrawn. *)
Definition withdrawn (added : N) (t : list (event P)) : Prop :=
  added = 0 \/
  exists tx v, ev (withdraw_request added) (inl tx) ∈ t /\ ev (RWait tx) (inl v) ∈ t.

(** Payments go to the harvest account, once, of what the reported native
    balance and the amount withdrawn have above the upper limit, and only when
    the interval had passed; the time of the last harvest moves only after a
    payment that succeeded. *)
Definition harvest_sound (required : N) (t : list (event P)) : Prop :=
  (forall pre s target amount x post,
     t = pre ++ ev (RTransfer s target amount) x :: post ->
     s = signer w /\ harvest_account_id cfg = Some target /\ 0 < amount /\
     (forall s' target' amount' x', ev (RTransfer s' target' amount') x' ∉ post) /\
     exists pre1 native added last now,
       pre = pre1 ++ [ev RLoadLastHarvest last; ev RNow now] /\
       last + harvest_interval_seconds cfg < now /\
       ev (RNative (account_id w)) (inl native) ∈ pre1 /\ withdrawn added pre1 /\
       amount + multiply_by_balance_multiplier cfg required = saturating_add native added) /\
  (forall pre secs x post, t = pre ++ ev (RStoreLastHarvest secs) x :: post ->
     exists pre1 target amount tx v,
       pre = pre1 ++ [ev (RTransfer (signer w) target amount) (inl tx);
                      ev (RWait tx) (inl v); ev RNow secs]).

Lemma quiet_split t1 t2 pre e post :
  quiet_trace t1 -> ~ pays_nothing (projT1 e) -> t1 ++ t2 = pre ++ e :: post ->
  exists pre', pre = t1 ++ pre' /\ t2 = pre' ++ e :: post.
Proof.
  intros Hq He Heq. apply app_eq_inv in Heq as [(k & -> & Hk)|(k & -> & Hk)].
  - destruct k as [|e' k]; [exists []; by rewrite !app_nil_r|].
    injection Hk as <- ->. by apply Forall_app in Hq as [_ Hq%Forall_inv].
  - eauto.
Qed.

Lemma quiet_sound required t : quiet_trace t -> harvest_sound required t.
Proof.
  intros Hq. split; intros pre **; exfalso.
  all: assert (Hin : t ++ [] = pre ++ _ :: post) by (rewrite app_nil_r; eassumption).
  all: apply quiet_split in Hin as (pre' & _ & Heq); [by destruct pre'|done|by intros []].
Qed.

Lemma quiet_sound_app required t1 t2 :
  quiet_trace t1 -> harvest_sound required t2 -> harvest_sound required (t1 ++ t2).
Proof.
  intros Hq [Hpay Hstore]. split.
  - intros pre s target amount x post Heq.
    apply quiet_split in Heq as (pre' & -> & Heq); [|done|by intros []].
    destruct (Hpay _ _ _ _ _ _ Heq)
      as (Hs & Ht & Hp & Ho & pre1 & native & added & last & now & -> & Hl & Hn & Hw & Ha).
    split_and!; [done..|]. exists (t1 ++ pre1), native, added, last, now.
    split_and!; [by rewrite app_assoc|done|set_solver| |done].
    destruct Hw as [?|(tx & v & ? & ?)]; [by left|right; exists tx, v; set_solver].
  - intros pre secs x post Heq.
    apply quiet_split in Heq as (pre' & -> & Heq); [|done|by intros []].
    destruct (Hstore _ _ _ _ Heq) as (pre1 & target & amount & tx & v & ->).
    exists (t1 ++ pre1), target, amount, tx, v. by rewrite app_assoc.
Qed.

(** The trace of a payment: what came before it, the check of the interval,
    the payment and the events after it. *)
Lemma payment_sound required native added t1 last now target amount x rest :
  quiet_trace t1 -> harvest_account_id cfg = Some target ->
  last + harvest_interval_seconds cfg < now ->
  ev (RNative (account_id w)) (inl native) ∈ t1 -> withdrawn added t1 ->
  0 < amount ->
  amount + multiply_by_balance_multiplier cfg required = saturating_add native added ->
  (quiet_trace rest \/ exists tx v secs y, x = inl tx /\
     rest = [ev (RWait tx) (inl v); ev RNow secs; ev (RStoreLastHarvest secs) y]) ->
  harvest_sound required (t1 ++ ev RLoadLastHarvest last :: ev RNow now ::
    ev (RTransfer (signer w) target amount) x :: rest).
Proof.
  intros Hq Ht Hl Hn Hw Hp Ha Hrest.
  assert (Hlast : quiet_trace (t1 ++ [ev RLoadLastHarvest last; ev RNow now]))
    by (apply Forall_app_2; [done|by repeat constructor]).
  assert (Hone : forall s' target' amount' x', ev (RTransfer s' target' amount') x' ∉ rest).
  { intros s' target' amount' x' Hin. destruct Hrest as [Hr|(tx & v & secs & y & _ & ->)];
      [by apply (proj1 (Forall_elem _ _) Hr) in Hin|set_solver]. }
  replace (t1 ++ ev RLoadLastHarvest last :: ev RNow now :: ev (RTransfer (signer w) target amount) x :: rest)
    with ((t1 ++ [ev RLoadLastHarvest last; ev RNow now]) ++ ev (RTransfer (signer w) target amount) x :: rest)
    by (by rewrite <- app_assoc).
  split.
  - intros pre s target' amount' x' post Heq.
    apply quiet_split in Heq as (pre' & -> & Heq); [|done|by intros []].
    destruct pre' as [|e pre'].
    + injection Heq as <- <- <- <-. rewrite app_nil_r. split_and!; [done..|].
      exists t1, native, added, last, now. by split_and!.
    + injection Heq as _ Hin. exfalso.
      apply (Hone s target' amount' x'). rewrite Hin. set_solver.
  - intros pre secs y post Heq.
    apply quiet_split in Heq as (pre' & -> & Heq); [|done|by intros []].
    destruct pre' as [|e pre']; [discriminate|]. injection Heq as <- Hin.
    destruct Hrest as [Hr|(tx & v & secs' & y' & -> & ->)].
    + rewrite Hin in Hr. by apply Forall_app in Hr as [_ Hr%Forall_inv].
    + destruct pre' as [|e1 [|e2 [|e3 pre']]]; [discriminate..| |].
      * injection Hin as <- <- <- _. eexists _, target, amount, tx, v. done.
      * injection Hin as _ _ _ Hnil. by destruct pre'.
Qed.

(** The part of [harvest] after the withdrawal. *)
Lemma harvest_pay_sound required native added t1 :
  quiet_trace t1 -> ev (RNative (account_id w)) (inl native) ∈ t1 -> withdrawn added t1 ->
  wp (pay_excess (P:=P) w cfg required (saturating_add native added))
    (fun t2 _ => harvest_sound required (t1 ++ t2)).
Proof.
  intros Hq Hn Hw. unfold pay_excess. set (native_balance := saturating_add native added).
  set (upper := multiply_by_balance_multiplier cfg required).
  assert (Hquiet : forall t2, quiet_trace t2 -> harvest_sound required (t1 ++ t2))
    by (intros t2 Ht2; apply quiet_sound, Forall_app_2; done).
  apply wp_bind, wp_if; intros Hupper; [|by apply wp_ret, wp_ret, Hquiet; constructor].
  apply N.ltb_lt in Hupper.
  apply wp_bind, wp_call. intros last. apply wp_bind, wp_call. intros now. cbn.
  destruct (checked_sub now last) as [elapsed|] eqn:Hel; [|by apply wp_ret, Hquiet; repeat constructor].
  apply checked_sub_Some in Hel as [Hle ->].
  apply wp_ret, wp_if; intros Hi; [|apply wp_ret, Hquiet; by repeat constructor].
  apply N.ltb_lt in Hi.
  apply wp_bind. unfold harvest_account. destruct (harvest_account_id cfg) as [target|] eqn:Ht;
    apply wp_ret; [|apply Hquiet; by repeat constructor].
  assert (Hpay : forall x rest,
    (quiet_trace rest \/ exists tx v secs y, x = inl tx /\
      rest = [ev (RWait tx) (inl v); ev RNow secs; ev (RStoreLastHarvest secs) y]) ->
    harvest_sound required (t1 ++ ev RLoadLastHarvest last :: ev RNow now ::
      ev (RTransfer (signer w) target (saturating_sub native_balance upper)) x :: rest)).
  { intros x rest Hrest. apply (payment_sound required native added);
      [done|done|lia|done|done| | |done]; unfold saturating_sub; fold upper native_balance; lia. }
  apply wp_bind, wp_call. intros [tx|e]; cbn; [|apply Hpay; by left; constructor].
  apply wp_op. intros [v|e]; cbn; [|apply wp_ret, Hpay; left; by repeat constructor].
  apply wp_op. intros secs. apply wp_op. intros y. apply wp_ret, Hpay. right. by eexists _, _, _, _.
Qed.

(** The part of [harvest] after the decision to withdraw. *)
Lemma harvest_rest_sound required native amount t1 (withdrawing : bool) :
  quiet_trace t1 -> ev (RNative (account_id w)) (inl native) ∈ t1 ->
  wp (let! added :=
        if withdrawing then
          let! tx := withdraw is_mainnet w (WNEAR_TOKEN is_mainnet) amount in
          let! _ := wait_for_success tx in
          Ret (Ok amount)
        else Ret (Ok 0) in
      pay_excess (P:=P) w cfg required (saturating_add native added))
    (fun t2 _ => harvest_sound required (t1 ++ t2)).
Proof.
  intros Hq Hn.
  assert (Hquiet : forall t2, quiet_trace t2 -> quiet_trace (t1 ++ t2))
    by (intros; by apply Forall_app_2).
  apply wp_bind, wp_if; intros _.
  - apply wp_bind, wp_call. intros [tx|e]; cbn;
      [|by apply quiet_sound, Hquiet; repeat constructor].
    apply wp_op. intros [v|e]; cbn; apply wp_ret; cbn;
      [|by apply quiet_sound, Hquiet; repeat constructor].
    eapply wp_mono; [apply (harvest_pay_sound required native amount 
      (t1 ++ [ev (withdraw_request amount) (inl tx); ev (RWait tx) (inl v)]))|];
      [apply Hquiet; by constructor; [|constructor]|set_solver| |].
    + right. exists tx, v. split; set_solver.
    + intros t3 o. cbn. by rewrite <- app_assoc.
  - apply wp_ret. by apply harvest_pay_sound; [|..|left].
Qed.

Lemma harvest_is_sound amount required :
  wp (harvest (P:=P) is_mainnet w cfg (WNEAR_TOKEN is_mainnet) amount required)
    (fun t _ => harvest_sound required t).
Proof.
  unfold harvest. apply wp_bind, wp_call. intros [native|e]; cbn;
    [|by apply quiet_sound; repeat constructor].
  apply wp_bind, wp_if; intros _.
  - apply wp_ret. apply (harvest_rest_sound required native amount
      [ev (RNative (account_id w)) (inl native)] true); [by repeat constructor|set_solver].
  - apply wp_bind, wp_call. intros last. apply wp_bind, wp_call. intros now. cbn.
    destruct (checked_sub now last) as [el|]; [|by apply wp_ret, quiet_sound; repeat constructor].
    apply wp_ret. apply (harvest_rest_sound required native amount
      [ev (RNative (account_id w)) (inl native); ev RLoadLastHarvest last; ev RNow now]);
      [by repeat constructor|set_solver].
Qed.

(** Programs that only make quiet requests have quiet traces. *)
#[local] Instance quiet_composable : Composable quiet_trace.
Proof. split; [constructor|intros; by apply Forall_app_2]. Qed.

Lemma keeps_quiet {A} r (f : Resp P r -> outcome anyhow A) :
  pays_nothing r -> keeps (Op r (fun x => Ret (f x))) quiet_trace.
Proof. intros Hr. apply keeps_call. intros x. by repeat constructor. Qed.

Ltac no_pay := repeat keeps_step ltac:(by apply keeps_quiet).

Lemma refill_quiet want : keeps (refill (P:=P) is_mainnet w cfg want) quiet_trace.
Proof. unfold refill, wrap_up_to. no_pay. Qed.

Lemma start_is_sound inputs token required :
  wp (start (P:=P) is_mainnet w cfg inputs token required)
    (fun t _ => harvest_sound (required_or_default inputs required) t).
Proof.
  unfold start. apply wp_bind.
  assert (Hbal : keeps (balance_of_start_token is_mainnet w token) quiet_trace) by no_pay.
  eapply wp_mono; [exact Hbal|]. intros t1 [dep|e|] Hq; [|by apply quiet_sound..].
  apply wp_if; intros _.
  - eapply wp_mono; [apply (keeps_bind quiet_trace); [apply refill_quiet|intros _; exact Hbal]|].
    intros t2 o Hq2. apply quiet_sound, Forall_app_2; done.
  - apply wp_bind, wp_if; intros _; [|apply wp_ret, wp_ret, quiet_sound_app;
      [done|apply quiet_sound; constructor]].
    apply wp_bind, wp_attempt. eapply wp_mono; [apply harvest_is_sound|].
    intros t2 [[]|e|] Ht2; [apply wp_ret, wp_ret; rewrite !app_nil_r..|]; by apply quiet_sound_app.
Qed.

(** C32: Whatever the node answers, funding the account never takes the native
    balance below the reserve: in every run of [start] and of
    [deposit_wrap_near_to_ref], each wrapping follows a report of the native
    balance, with no newer one in between, and leaves at least
    [trade_account_reserve] of it. *)
Theorem funding_keeps_reserve inputs token required amount t o o' :
  run (P:=P) (start is_mainnet w cfg inputs token required) t o \/
  run (P:=P) (deposit_wrap_near_to_ref is_mainnet w cfg amount) t o' ->
  wrap_guarded t.
Proof. intros [Hr|Hr]; [by eapply start_guarded|by eapply deposit_wrap_guarded]. Qed.

(** Whatever the node answers, a run of [start] pays out at most once, to
    the configured harvest account, after checking that the interval had passed
    since the last harvest, and exactly what the reported native balance and the
    amount it withdrew have above the required balance times the multiplier; the
    time of the last harvest is moved only right after a successful payment. *)
Theorem harvest_pays_excess inputs token required t o :
  run (P:=P) (start is_mainnet w cfg inputs token required) t o ->
  harvest_sound (required_or_default inputs required) t.
Proof. apply start_is_sound. Qed.
End Proofs.

(** ** Against a ledger that keeps its word

    [answer] is a node in front of the wrapped-NEAR and exchange contracts;
    [native], [wrapped] and [deposited] are what the account holds natively, as
    wrapped NEAR and deposited on the exchange.  The hypotheses are the
    documented behaviour of the contracts: views tell the truth and change
    nothing; a transaction that can pay its gas ([fee] at most) moves the
    attached or named amount. *)
Section Ledger.
Context {P : Type} `{!FromSlice P (gmap TokenAccount N)} `{!FromSlice P N}.
Context (is_mainnet : bool) (w : Wallet) (cfg : BalancesConfig).
Context {S : Type} (answer : forall r, S -> Resp P r * S) (native wrapped deposited : S -> N).

Definition same_funds (s s' : S) : Prop :=
  native s' = native s /\ wrapped s' = wrapped s /\ deposited s' = deposited s.

Definition wnear_view : Req :=
  RView (WNEAR_TOKEN is_mainnet) "ft_balance_of" (JObj [("account_id", JStr (account_id w))]).
Definition wrap_request (amount : N) : Req :=
  RExec (signer w) (WNEAR_TOKEN is_mainnet) "near_deposit" (JObj []) amount.
Definition deposit_request (amount : N) : Req :=
  RExec (signer w) (WNEAR_TOKEN is_mainnet) "ft_transfer_call"
    (JObj [("receiver_id", JStr (CONTRACT_ADDRESS is_mainnet)); ("amount", JU128 amount);
           ("msg", JStr "")]) 1.

Record ledger_laws (fee : N) : Prop := {
  ll_deposits : forall s, exists raw m s',
    answer (deposits_view is_mainnet w) s = (inl raw, s') /\ same_funds s s' /\
    from_slice raw = Some m /\ default 0 (m !! WNEAR_TOKEN is_mainnet) = deposited s;
  ll_wrapped : forall s, exists raw s',
    answer wnear_view s = (inl raw, s') /\ same_funds s s' /\ from_slice raw = Some (wrapped s);
  ll_native : forall s, exists s',
    answer (RNative (account_id w)) s = (inl (native s), s') /\ same_funds s s';
  ll_wrap : forall amount s, amount + fee <= native s -> exists tx s1 v s2,
    answer (wrap_request amount) s = (inl tx, s1) /\ answer (RWait tx) s1 = (inl v, s2) /\
    wrapped s2 = wrapped s + amount /\ deposited s2 = deposited s /\
    native s <= native s2 + amount + fee;
  ll_deposit : forall amount s, amount <= wrapped s -> 1 + fee <= native s -> exists tx s1 v s2,
    answer (deposit_request amount) s = (inl tx, s1) /\ answer (RWait tx) s1 = (inl v, s2) /\
    wrapped s2 = wrapped s - amount /\ deposited s2 = deposited s + amount
}.

Context (fee : N) (laws : ledger_laws fee).
Context (Hfee : 2 * fee + 1 <= trade_account_reserve cfg).

Lemma iwp_start_balance s Q :
  (forall s', same_funds s s' -> Q (Ok (deposited s)) s') ->
  iwp answer (balance_of_start_token (P:=P) is_mainnet w (WNEAR_TOKEN is_mainnet)) s Q.
Proof.
  intros HQ. destruct (ll_deposits _ laws s) as (raw & m & s' & Ha & Hs & Hm & Hd).
  apply iwp_bind, iwp_bind, iwp_op. fold (deposits_view is_mainnet w). rewrite Ha. apply iwp_ret. cbn.
  apply iwp_ret. unfold decode. rewrite Hm. cbn. apply iwp_ret. rewrite Hd. by apply HQ.
Qed.

Lemma iwp_wnear_balance s Q :
  (forall s', same_funds s s' -> Q (Ok (wrapped s)) s') ->
  iwp answer (wnear_balance_of (P:=P) is_mainnet (account_id w)) s Q.
Proof.
  intros HQ. destruct (ll_wrapped _ laws s) as (raw & s' & Ha & Hs & Hm).
  apply iwp_bind, iwp_op. fold wnear_view. rewrite Ha. apply iwp_ret. cbn.
  apply iwp_ret. unfold decode. rewrite Hm. by apply HQ.
Qed.

(** What a wrapping yields: the wanted amount, up to what the reserve leaves. *)
Definition wrappable (s : S) (wrapping : N) : N :=
  N.min (native s - trade_account_reserve cfg) wrapping.

Lemma iwp_wrap_up_to s wrapping Q :
  (forall s', wrapped s' = wrapped s + wrappable s wrapping -> deposited s' = deposited s ->
     (1 + fee <= native s -> 1 + fee <= native s') -> Q (Ok (wrappable s wrapping)) s') ->
  iwp answer (wrap_up_to (P:=P) is_mainnet w cfg wrapping) s Q.
Proof.
  intros HQ. destruct (ll_native _ laws s) as (s1 & Ha & Hn & Hw & Hd).
  apply iwp_bind, iwp_op. rewrite Ha. apply iwp_ret. cbn.
  assert ((if saturating_sub (native s) (trade_account_reserve cfg) <? wrapping
    then saturating_sub (native s) (trade_account_reserve cfg) else wrapping)
    = wrappable s wrapping) as ->.
  { unfold wrappable, saturating_sub.
    destruct (N.ltb_spec (native s - trade_account_reserve cfg) wrapping); lia. }
  destruct (N.ltb_spec 0 (wrappable s wrapping)) as [Hpos|Hz].
  - assert (Hroom : wrappable s wrapping + trade_account_reserve cfg <= native s)
      by (unfold wrappable in *; lia).
    destruct (ll_wrap _ laws (wrappable s wrapping) s1) as (tx & s2 & v & s3 & Hx & Hv & Hw3 & Hd3 & Hn3);
      [lia|].
    apply iwp_bind, iwp_op. fold (wrap_request (wrappable s wrapping)). rewrite Hx. apply iwp_ret. cbn.
    apply iwp_op. rewrite Hv. cbn. apply iwp_ret. apply HQ; lia.
  - apply iwp_ret, HQ; lia.
Qed.

(** Wrapping only when the wrapped balance does not suffice. *)
Lemma iwp_wrap_missing s want Q :
  (forall s', wrapped s' = wrapped s + wrappable s (want - wrapped s) -> deposited s' = deposited s ->
     (1 + fee <= native s -> 1 + fee <= native s') -> Q (Ok (wrappable s (want - wrapped s))) s') ->
  iwp answer (if wrapped s <? want
      then wrap_up_to (P:=P) is_mainnet w cfg (saturating_sub want (wrapped s))
      else Ret (Ok 0)) s Q.
Proof.
  intros HQ. destruct (N.ltb_spec (wrapped s) want) as [Hlt|Hge]; [by apply iwp_wrap_up_to|].
  assert (wrappable s (want - wrapped s) = 0) as Hz by (unfold wrappable; lia).
  rewrite Hz in HQ. apply iwp_ret, HQ; lia.
Qed.

Lemma iwp_deposit_wait {A} s amount (k : prog P A) Q :
  amount <= wrapped s -> 1 + fee <= native s ->
  (forall s', wrapped s' = wrapped s - amount -> deposited s' = deposited s + amount ->
     iwp answer k s' Q) ->
  iwp answer (let! tx := deposit is_mainnet w (WNEAR_TOKEN is_mainnet) amount in
              let! _ := wait_for_success tx in k) s Q.
Proof.
  intros Ha Hn Hk. destruct (ll_deposit _ laws amount s Ha Hn) as (tx & s1 & v & s2 & Hx & Hv & Hw & Hd).
  apply iwp_bind, iwp_op. fold (deposit_request amount). rewrite Hx. apply iwp_ret. cbn.
  apply iwp_op. rewrite Hv. by apply Hk.
Qed.

(** On a ledger that keeps its word, with native funds for the gas, [start]
    on an account below the required balance succeeds and returns the exchange
    balance it leaves: the old one, all of the wrapped balance, and of the native
    balance above the reserve what was still missing.  The required balance is
    reached exactly when these funds suffice for it. *)
Theorem start_funds_exactly inputs required s :
  let r := required_or_default inputs required in
  deposited s < r -> fee + 1 <= native s ->
  native s + wrapped s + deposited s <= U128_MAX ->
  exists t s',
    interp answer (start (P:=P) is_mainnet w cfg inputs (WNEAR_TOKEN is_mainnet) required) s
      = (Ok (deposited s'), t, s') /\
    deposited s' = deposited s + wrapped s + wrappable s (r - deposited s - wrapped s) /\
    (r <= deposited s' <->
     r <= deposited s + wrapped s + (native s - trade_account_reserve cfg)).
Proof.
  intros r Hlt Hgas Hsup.
  assert (H : iwp answer (start (P:=P) is_mainnet w cfg inputs (WNEAR_TOKEN is_mainnet) required) s
    (fun o s' => o = Ok (deposited s') /\
       deposited s' = deposited s + wrapped s + wrappable s (r - deposited s - wrapped s))).
  { unfold start. fold r. apply iwp_bind, iwp_start_balance. intros s1 (Hn1 & Hw1 & Hd1).
    rewrite (proj2 (N.ltb_lt _ _) Hlt). apply iwp_bind. unfold refill, saturating_sub at 1.
    apply iwp_bind, iwp_wnear_balance. intros s2 (Hn2 & Hw2 & Hd2). apply iwp_bind.
    assert (Hw : wrapped s1 = wrapped s2) by done. rewrite Hw.
    apply iwp_wrap_missing. intros s3 Hw3 Hd3 Hn3. unfold wrappable in *.
    rewrite Hw2, Hw1, Hn2, Hn1 in *. unfold saturating_add.
    set (m := N.min (native s - _) _) in *.
    assert (Hm : m <= native s) by (unfold m; lia).
    rewrite N.min_l by lia.
    destruct (N.ltb_spec 0 (wrapped s + m)) as [Hpos|Hz].
    - apply iwp_deposit_wait; [lia|lia|]. intros s4 Hw4 Hd4. apply iwp_ret.
      apply iwp_start_balance. intros s5 (_ & _ & Hd5). split; [by rewrite Hd5|lia].
    - apply iwp_ret, iwp_start_balance. intros s5 (_ & _ & Hd5). split; [by rewrite Hd5|lia]. }
  unfold iwp in H. destruct (interp answer _ s) as [[o t] s'] eqn:Hi. cbn in H.
  destruct H as [-> Hd]. exists t, s'. split; [done|]. split; [done|].
  rewrite Hd. unfold wrappable. lia.
Qed.

(** On a ledger that keeps its word, [deposit_wrap_near_to_ref] brings the
    exchange balance up to the requested amount, or as near to it as the wrapped
    balance and the native balance above the reserve allow, and fails, having
    moved nothing, exactly when there is nothing to move; it never deposits more
    than what is missing. *)
Theorem deposit_wrap_exactly amount s :
  fee + 1 <= native s ->
  let shortage := amount - deposited s in
  let funds := wrapped s + wrappable s (shortage - wrapped s) in
  exists t s',
    interp answer (deposit_wrap_near_to_ref (P:=P) is_mainnet w cfg amount) s
      = (if (0 <? shortage) && (funds =? 0)
         then Err (Anyhow "No wrap.near balance available to deposit" []) else Ok tt, t, s') /\
    deposited s' = deposited s + N.min shortage funds /\
    deposited s' = N.max (deposited s)
      (N.min amount (deposited s + wrapped s + (native s - trade_account_reserve cfg))).
Proof.
  intros Hgas shortage funds.
  assert (H : iwp answer (deposit_wrap_near_to_ref (P:=P) is_mainnet w cfg amount) s
    (fun o s' =>
       o = (if (0 <? shortage) && (funds =? 0)
         then Err (Anyhow "No wrap.near balance available to deposit" []) else Ok tt) /\
       deposited s' = deposited s + N.min shortage funds)).
  { unfold deposit_wrap_near_to_ref. apply iwp_bind, iwp_start_balance. intros s1 (Hn1 & Hw1 & Hd1).
    destruct (N.leb_spec amount (deposited s)) as [Hle|Hgt].
    { apply iwp_ret. assert (Hz : shortage = 0) by (unfold shortage; lia). rewrite Hz. split; [done|lia]. }
    rewrite (proj2 (N.ltb_lt 0 shortage)) by (unfold shortage; lia).
    change (saturating_sub amount (deposited s)) with shortage.
    apply iwp_bind, iwp_wnear_balance. intros s2 (Hn2 & Hw2 & Hd2). apply iwp_bind.
    assert (Hw : wrapped s1 = wrapped s2) by done. rewrite Hw.
    apply iwp_wrap_missing. intros s3 Hw3 Hd3 Hn3.
    apply iwp_bind, iwp_wnear_balance. intros s4 (Hn4 & Hw4 & Hd4).
    assert (Hf : wrapped s3 = funds).
    { rewrite Hw3. unfold funds, wrappable. by rewrite Hw2, Hw1, Hn2, Hn1. }
    rewrite Hf. cbn [andb]. destruct (N.eqb_spec funds 0) as [Hz|Hz].
    { apply iwp_ret. split; [done|]. rewrite Hd4, Hd3, Hd2, Hd1, Hz. lia. }
    assert (Hmin : (if shortage <? funds then shortage else funds) = N.min shortage funds)
      by (destruct (N.ltb_spec shortage funds); lia).
    rewrite Hmin. apply iwp_deposit_wait; [lia|lia|]. intros s5 Hw5 Hd5. apply iwp_ret.
    split; [done|]. lia. }
  unfold iwp in H. destruct (interp answer _ s) as [[o t] s'] eqn:Hi. cbn in H.
  destruct H as [-> Hd]. exists t, s'. split; [done|]. split; [done|].
  rewrite Hd. unfold funds, shortage, wrappable. lia.
Qed.
End Ledger.

(** ** A concrete ledger *)
Record ledger := mkLedger { l_native : N; l_wrapped : N; l_deposited : N; l_last_harvest : N }.

Definition json_amount (args : json) : N :=
  match args with
  | JObj fields => match List.find (fun f => String.eqb f.1 "amount") fields with
                   | Some (_, JU128 a) => a | _ => 0 end
  | _ => 0
  end.

(** Gas is free here; a payment larger than the funds is refused. *)
Definition ledger_exec (m : string) (args : json) (d : N) (l : ledger) : option ledger :=
  let a := json_amount args in
  if l_native l <? d then None
  else if String.eqb m "near_deposit" then
    Some (mkLedger (l_native l - d) (l_wrapped l + d) (l_deposited l) (l_last_harvest l))
  else if String.eqb m "ft_transfer_call" then
    if l_wrapped l <? a then None
    else Some (mkLedger (l_native l - d) (l_wrapped l - a) (l_deposited l + a) (l_last_harvest l))
  else if String.eqb m "withdraw" then
    if l_deposited l <? a then None
    else Some (mkLedger (l_native l - d + a) (l_wrapped l) (l_deposited l - a) (l_last_harvest l))
  else if String.eqb m "near_withdraw" then
    if l_wrapped l <? a then None
    else Some (mkLedger (l_native l - d + a) (l_wrapped l - a) (l_deposited l) (l_last_harvest l))
  else None.

Definition ledger_answer (r : Req) (l : ledger) : Resp payload r * ledger :=
  match r with
  | RView _ m _ =>
      (inl (if String.eqb m "ft_balance_of" then PU128 (l_wrapped l)
            else PDeposits {[ "wrap.near" := l_deposited l ]}), l)
  | RExec _ _ m args d =>
      match ledger_exec m args d l with Some l' => (inl 1, l') | None => (inr (External "failed"), l) end
  | RTransfer _ _ amount =>
      if l_native l <? amount then (inr (External "failed"), l)
      else (inl 2, mkLedger (l_native l - amount) (l_wrapped l) (l_deposited l) (l_last_harvest l))
  | RWait _ => (inl (SuccessValue PUnit), l)
  | RNative _ => (inl (l_native l), l)
  | RNow => (1000000, l)
  | RLoadLastHarvest => (l_last_harvest l, l)
  | RStoreLastHarvest secs => (tt, mkLedger (l_native l) (l_wrapped l) (l_deposited l) secs)
  | RLoadHarvestTime => (0, l)
  | RWaitExecuted _ => (inl "hash", l)
  | RRecordTrade _ _ _ _ _ _ _ => (inl tt, l)
  | RStoreHarvestTime _ | RLock _ | RUnlock _ | RCacheDecimals _ _ | RReplaceDecimals _ | RSleep _ | RReloadConfig => (tt, l)
  | RPredict _ _ => (inr (External "no predictor"), l)
  | RSetting _ => (0, l)
  | RDb _ => (inr (External "no database"), l)
  | RUtcNow => (1000000000000000%Z, l)
  | RReadInputs => ((0, 0), l)
  | RGasPrice => (inl 100000000, l)
  | RDecimals _ => (None, l)
  end.

Definition the_wallet : Wallet := {| account_id := "me.near"; signer := "me.near" |}.
Definition the_config : BalancesConfig := mkBalancesConfig 50 86400 128 (Some "harvest.near").

Lemma ledger_keeps_word :
  ledger_laws true the_wallet ledger_answer l_native l_wrapped l_deposited 0.
Proof.
  split.
  - intros s. do 3 eexists. split; [done|]. split; [done|]. split; [done|]. by cbn.
  - intros s. do 2 eexists. done.
  - intros s. eexists. done.
  - intros amount s Hn. exists 1. cbn. unfold ledger_exec.
    destruct (N.ltb_spec (l_native s) amount); [lia|]. cbn. do 3 eexists.
    split; [done|]. split; [done|]. cbn. lia.
  - intros amount s Hw Hn. exists 1. cbn. unfold ledger_exec.
    destruct (N.ltb_spec (l_native s) 1); [lia|]. cbn.
    destruct (N.ltb_spec (l_wrapped s) amount); [lia|]. do 3 eexists.
    split; [done|]. split; [done|]. by cbn.
Qed.

(** 40 deposited of 100 required: 10 wrapped and 50 of the native balance move. *)
Lemma start_funds_exactly_witness :
  exists t s',
    interp ledger_answer (start (P:=payload) true the_wallet the_config Statistics_default "wrap.near"
      (Some 100)) (mkLedger 300 10 40 0) = (Ok (l_deposited s'), t, s') /\
    l_deposited s' = 100 /\
    (100 <= l_deposited s' <-> 100 <= 40 + 10 + (300 - 50)).
Proof.
  apply (start_funds_exactly true the_wallet the_config ledger_answer l_native l_wrapped l_deposited
    0 ledger_keeps_word ltac:(cbn; lia) Statistics_default (Some 100) (mkLedger 300 10 40 0));
    cbn; [lia|lia|vm_compute; discriminate].
Defined.

Lemma deposit_wrap_exactly_witness :
  exists t s',
    interp ledger_answer (deposit_wrap_near_to_ref (P:=payload) true the_wallet the_config 500)
      (mkLedger 300 10 40 0) = (Ok tt, t, s') /\
    l_deposited s' = 300 /\ l_deposited s' = N.max 40 (N.min 500 (40 + 10 + (300 - 50))).
Proof.
  apply (deposit_wrap_exactly true the_wallet the_config ledger_answer l_native l_wrapped l_deposited
    0 ledger_keeps_word ltac:(cbn; lia) 500 (mkLedger 300 10 40 0)).
  cbn. lia.
Defined.

(** A run that withdraws and pays out.  The balance it returns is the one before
    the withdrawal, 2000, while 1280 are left on the exchange. *)
Definition harvest_run :=
  interp ledger_answer (start (P:=payload) true the_wallet the_config Statistics_default "wrap.near"
    (Some 10)) (mkLedger 3000 0 2000 0).

Example start_returns_stale_balance :
  harvest_run.1.1 = Ok 2000 /\ l_deposited harvest_run.2 = 1280 /\
  l_native harvest_run.2 = 1279 /\ l_last_harvest harvest_run.2 = 1000000.
Proof. by vm_compute. Qed.

Lemma harvest_pays_excess_witness :
  harvest_sound (P:=payload) true the_wallet the_config 10 harvest_run.1.2.
Proof.
  apply (harvest_pays_excess true the_wallet the_config Statistics_default "wrap.near" (Some 10)
    harvest_run.1.2 harvest_run.1.1). apply interp_run.
Defined.

Lemma funding_keeps_reserve_witness :
  wrap_guarded (P:=payload) the_wallet the_config
    (interp ledger_answer (start (P:=payload) true the_wallet the_config Statistics_default "wrap.near"
      (Some 100)) (mkLedger 300 10 40 0)).1.2.
Proof.
  apply (funding_keeps_reserve true the_wallet the_config Statistics_default "wrap.near" (Some 100) 0
    _ (Ok 100) (Ok tt)). left. apply (interp_run ledger_answer).
Defined.
