(* ===== verification/Slippage.v ===== *)
(** * Slippage: the least output a swap accepts

    [crates/trade/src/slippage.rs]: the expected return of a trade, clamped to
    0.5% .. 15%, is what a swap may lose against its estimate.  The budget is
    computed with [f64] ([F64]), the least output with integers. *)

From Stdlib Require Import SpecFloat.
From S2P Require Import Prelude F64.

Definition MIN_SLIPPAGE_BUDGET : f64 := f64_literal 5 3.
Definition MAX_SLIPPAGE_BUDGET : f64 := f64_literal 15 2.

(** [ExpectedReturn] is the ratio itself. *)
Inductive SlippagePolicy : Type :=
| FromExpectedReturn (expected : f64)
| Unprotected.

Definition slippage_bps (expected : f64) : N :=
  let budget := f64_clamp (f64_abs expected) MIN_SLIPPAGE_BUDGET MAX_SLIPPAGE_BUDGET in
  f64_to_u128 (f64_mul budget (f64_of_Z 10000)).

Definition calculate_min_out (estimated_output : N) (policy : SlippagePolicy) : outcome anyhow N :=
  match policy with
  | Unprotected => Ok 0
  | FromExpectedReturn expected =>
      let protection_bps := saturating_sub 10000 (slippage_bps expected) in
      match checked_mul estimated_output protection_bps with
      | Some v => Ok (v / 10000)
      | None => Err (Anyhow "min_out overflow" [estimated_output; protection_bps])
      end
  end.

(** ** The budget *)

(** An [f64] value: finite ones have the mantissa and exponent of the format. *)
Definition is_f64 (x : f64) : bool := valid_binary f64_prec f64_emax x.
Definition is_nan (x : f64) : bool := match x with S754_nan => true | _ => false end.

Definition lo_m : positive := 5764607523034235.
Definition hi_m : positive := 5404319552844595.
Lemma min_budget : MIN_SLIPPAGE_BUDGET = S754_finite false lo_m (-60).
Proof. vm_compute. reflexivity. Qed.
Lemma max_budget : MAX_SLIPPAGE_BUDGET = S754_finite false hi_m (-55).
Proof. vm_compute. reflexivity. Qed.
Lemma ten_thousand : f64_of_Z 10000 = S754_finite false 5497558138880000 (-39).
Proof. vm_compute. reflexivity. Qed.

(** Comparisons of positive numbers of the format. *)
Lemma ltb_finite_false m1 e1 m2 e2 :
  f64_ltb (S754_finite false m1 e1) (S754_finite false m2 e2) = false ->
  (e2 < e1 \/ e1 = e2 /\ Z.pos m2 <= Z.pos m1)%Z.
Proof.
  unfold f64_ltb, SFltb, SFcompare. destruct (Z.compare_spec e1 e2) as [->|Hlt|Hgt]; [|done|by left].
  change (Pos.compare_cont Eq m1 m2) with (Pos.compare m1 m2).
  destruct (Pos.compare_spec m1 m2) as [->|Hlt|Hgt]; [| done|]; intros _; right; split; lia.
Qed.

(** In the range of the budget the numbers of the format have 53 digits. *)
Lemma normal_mantissa m e : bounded f64_prec f64_emax m e = true -> (-60 <= e)%Z ->
  (2 ^ 52 <= Z.pos m < 2 ^ 53)%Z.
Proof.
  unfold bounded, canonical_mantissa, fexp, emin, f64_prec, f64_emax.
  intros [Hc%Z.eqb_eq _]%andb_true_iff He. pose proof (digits2_bounds m) as Hd.
  assert (H53 : Z.pos (digits2_pos m) = 53%Z) by lia. rewrite H53 in Hd. exact Hd.
Qed.

Lemma slippage_bps_finite m e :
  bounded f64_prec f64_emax m e = true ->
  50 <= slippage_bps (S754_finite false m e) <= 1500.
Proof.
  intros Hv. unfold slippage_bps, f64_clamp. cbn [f64_abs SFabs]. rewrite min_budget, max_budget, ten_thousand.
  destruct (f64_ltb (S754_finite false m e) _) eqn:Hlo; [by vm_compute|].
  destruct (f64_ltb _ (S754_finite false m e)) eqn:Hhi; [by vm_compute|].
  apply ltb_finite_false in Hlo, Hhi.
  pose proof (normal_mantissa m e Hv ltac:(lia)) as Hm.
  enough (50 <= Z.of_N (f64_to_u128 (f64_mul (S754_finite false m e)
    (S754_finite false 5497558138880000 (-39)))) <= 1500)%Z by lia.
  unfold lo_m, hi_m in *.
  apply f64_mul_trunc; [lia|done|done|].
  assert (He : (e = -60 \/ e = -59 \/ e = -58 \/ e = -57 \/ e = -56 \/ e = -55)%Z) by lia.
  destruct He as [->|[->|[->|[->|[->| ->]]]]]; cbn -[Z.mul]; lia.
Qed.

Lemma slippage_bps_range expected : is_f64 expected = true ->
  if is_nan expected then slippage_bps expected = 0 else 50 <= slippage_bps expected <= 1500.
Proof.
  destruct expected as [s|s| |s m e]; intros Hv; [by vm_compute..|].
  change (slippage_bps (S754_finite s m e)) with (slippage_bps (S754_finite false m e)).
  by apply slippage_bps_finite.
Qed.

(** C35: A protected swap accepts no less than 85% of its estimate, and leaves
    between 0.5% and 15% for slippage: for every [f64] expected return the least
    output is the estimate times a number of basis points from 8500 to 9950,
    rounded down, or an error when that product exceeds 128 bits.  A return that
    is not a number leaves nothing for slippage: exactly 10000 basis points. *)
Theorem min_out_protects estimated_output expected :
  is_f64 expected = true ->
  exists bps, (if is_nan expected then bps = 10000 else 8500 <= bps <= 9950) /\
    calculate_min_out estimated_output (FromExpectedReturn expected) =
      if estimated_output * bps <=? U128_MAX then Ok (estimated_output * bps / 10000)
      else Err (Anyhow "min_out overflow" [estimated_output; bps]).
Proof.
  intros Hv. pose proof (slippage_bps_range expected Hv) as Hr.
  exists (saturating_sub 10000 (slippage_bps expected)).
  split; [unfold saturating_sub; destruct (is_nan expected); lia|].
  unfold calculate_min_out, checked_mul. by destruct (_ <=? _).
Qed.

(** A 5% expected return: 95% of the estimate. *)
Lemma min_out_protects_witness :
  exists bps, 8500 <= bps <= 9950 /\
    calculate_min_out 1000000 (FromExpectedReturn (f64_literal 5 2)) =
      if 1000000 * bps <=? U128_MAX then Ok (1000000 * bps / 10000)
      else Err (Anyhow "min_out overflow" [1000000; bps]).
Proof. apply (min_out_protects 1000000 (f64_literal 5 2)). vm_compute. reflexivity. Defined.

Example min_out_samples :
  calculate_min_out 1000000 (FromExpectedReturn (f64_literal 5 2)) = Ok 950000 /\
  calculate_min_out 1000000 (FromExpectedReturn (f64_neg (f64_literal 9 0))) = Ok 850000 /\
  calculate_min_out 1000000 (FromExpectedReturn S754_nan) = Ok 1000000 /\
  calculate_min_out 1000000 Unprotected = Ok 0.
Proof. by vm_compute. Qed.
