(* ===== verification/Harvest.v ===== *)
(** * Harvest: taking profit at the end of an evaluation period

    [crates/trade/src/harvest.rs]: when the portfolio is worth more than twice
    what the period began with, a tenth of the excess is withdrawn from the
    exchange, unwrapped and sent to the harvest account, keeping a reserve.
    The time of the last harvest ([LAST_HARVEST_TIME]) and the trade table are
    requests of [NearClient]; the parser of account ids is a parameter. *)

From Stdlib Require Import QArith Qround Lqa.
From S2P Require Import Prelude NearClient StoragePlanner Storage SimExchange BigDecimal Units Balances.
Local Open Scope N_scope.

(** The configuration: whole NEAR for the amounts, as in the code. *)
Record HarvestConfig := mkHarvestConfig {
  hc_account_id : option string;
  hc_min_amount : N;
  hc_reserve_amount : N;
  hc_interval_seconds : N;
}.

Definition NEAR_TOKEN : TokenAccount := "near".

Section model.
Context {D : Type} `{BigDecimal D} {P : Type}.
Context (is_mainnet : bool) (w : Wallet) (cfg : HarvestConfig) (valid_account : string -> bool).

(** The default is used when the setting is missing; an id that does not parse panics. *)
Definition target_account : outcome anyhow AccountId :=
  let value := default "harvest.near" (hc_account_id cfg) in
  if valid_account value then Ok value else Panic.

(** [to_string().parse::<NearAmount>()] of a number of NEAR is that number. *)
Definition near_setting (near : N) : YoctoAmount D :=
  near_amount_to_yocto (mkNearAmount (bd_of_N near)).
Definition harvest_min_amount : YoctoAmount D := near_setting (hc_min_amount cfg).
Definition harvest_reserve_amount : YoctoAmount D := near_setting (hc_reserve_amount cfg).

Definition time_to_harvest : prog P bool :=
  let! last := load_harvest_time in
  let! now := now_secs in
  match checked_sub now last with
  | Some elapsed => Ret (Ok (hc_interval_seconds cfg <? elapsed))
  | None => Ret Panic
  end.

Definition update_last_harvest_time : prog P unit :=
  let! now := now_secs in store_harvest_time now.

(** An error of the wait is reported with the step it happened in. *)
Definition wait_step (step : string) (tx : TxId) : prog P unit :=
  let! result := attempt (wait_for_success tx) in
  match result with inl _ => Ret (Ok tt) | inr _ => Ret (Err (Anyhow step [])) end.

Definition execute_harvest_transfer (target : AccountId) (harvest_amount : YoctoAmount D)
    (period_id : string) : prog P unit :=
  let! amount := lift (yocto_amount_to_u128 harvest_amount) in
  let! tx := withdraw is_mainnet w (WNEAR_TOKEN is_mainnet) amount in
  let! _ := wait_step "Harvest failed at withdrawal step" tx in
  let! tx := unwrap is_mainnet w amount in
  let! _ := wait_step "Harvest failed at unwrap step" tx in
  let! current_native_balance := get_native_amount (account_id w) in
  let! reserve := lift (yocto_amount_to_u128 harvest_reserve_amount) in
  if reserve <? current_native_balance then
    let available := saturating_sub current_native_balance reserve in
    let actual := if amount <? available then amount else available in
    let! tx := transfer_native_token w target actual in
    let! tx_hash := wait_executed tx in
    record_trade tx_hash (WNEAR_TOKEN is_mainnet) actual NEAR_TOKEN actual (Some actual) period_id
  else Ret (Ok tt).

Definition check_and_execute_harvest (initial_value current_value : YoctoValue D)
    (period_id : string) : prog P (YoctoAmount D) :=
  if yocto_value_is_zero initial_value then Ret (Ok yocto_amount_zero)
  else
    let harvest_threshold := yocto_value_scale initial_value (bd_of_Z 2) in
    if bd_ltb (yocto_value_bd harvest_threshold) (yocto_value_bd current_value) then
      let excess := yocto_value_sub current_value harvest_threshold in
      let harvest_value := yocto_value_scale excess (bd_new 1 1) in
      let harvest_amount := yocto_value_to_amount harvest_value in
      let! target := lift target_account in
      if bd_ltb (yocto_amount_bd harvest_amount) (yocto_amount_bd harvest_min_amount) then
        Ret (Ok yocto_amount_zero)
      else
        let! on_time := time_to_harvest in
        if on_time : bool then
          let! _ := execute_harvest_transfer target harvest_amount period_id in
          let! _ := update_last_harvest_time in
          Ret (Ok harvest_amount)
        else Ret (Ok yocto_amount_zero)
    else Ret (Ok yocto_amount_zero).
End model.

(** ** Amounts *)
Section amounts.
Context {D : Type} `{BigDecimalLaws D}.

(** A tenth of what the value exceeds twice the initial value by. *)
Definition tenth (initial current : YoctoValue D) : Q :=
  ((bd_val (yocto_value_bd current) - 2 * bd_val (yocto_value_bd initial)) / 10)%Q.

Lemma harvest_amount_value initial current :
  bd_val (yocto_value_bd (yocto_value_scale (yocto_value_sub current
    (yocto_value_scale initial (bd_of_Z 2))) (bd_new 1 1))) == tenth initial current.
Proof.
  unfold tenth; cbn.
  rewrite val_mul, val_sub, val_mul, val_of_Z, val_new.
  change (inject_Z (10 ^ Z.of_N 1)) with 10%Q. change (inject_Z 2) with 2%Q.
  change (inject_Z 1) with 1%Q. field.
Qed.

Lemma tenth_pos initial current :
  bd_ltb (yocto_value_bd (yocto_value_scale initial (bd_of_Z 2))) (yocto_value_bd current) = true ->
  (0 < tenth initial current)%Q.
Proof.
  rewrite bd_ltb_val. unfold tenth; cbn. rewrite val_mul, val_of_Z. intros Hlt.
  apply Qlt_shift_div_l; [reflexivity|]. change (inject_Z 2) with 2%Q in Hlt. lra.
Qed.

(** The integer that is moved is at most the amount. *)
Lemma to_u128_floor {E} (a : YoctoAmount D) q :
  bd_val (yocto_amount_bd a) == q -> (0 <= q)%Q ->
  exists n, yocto_amount_to_u128 (E:=E) a = Ok n /\ (inject_Z (Z.of_N n) <= q)%Q.
Proof.
  intros Ha Hq. unfold yocto_amount_to_u128.
  assert (H0' : (0 <= bd_val (yocto_amount_bd a))%Q) by (by rewrite Ha).
  rewrite (proj2 (bd_ltb_false _ _)) by (by rewrite val_zero).
  rewrite (to_u128_value _ H0'). eexists. split; [done|]. rewrite <- Ha.
  pose proof (Qfloor_resp_le _ _ H0') as Hf. change (Qfloor 0) with 0%Z in Hf.
  destruct (_ <=? _)%Z; [rewrite Z2N.id by done; apply Qfloor_le|done].
Qed.

(** What is at most an amount the reserve leaves is left by the reserve. *)
Lemma reserve_leaves n reserve native q : (inject_Z (Z.of_N n) <= q)%Q ->
  (inject_Z (Z.of_N reserve) + q <= inject_Z (Z.of_N native))%Q -> n <= native - reserve.
Proof.
  intros Hn Hq. assert (Hz : (inject_Z (Z.of_N reserve + Z.of_N n) <= inject_Z (Z.of_N native))%Q)
    by (rewrite inject_Z_plus; lra).
  rewrite <- Zle_Qle in Hz. lia.
Qed.

(** A setting of whole NEAR that fits [u32] is exact in yoctoNEAR. *)
Lemma near_setting_exact {E} n : n <= U32_MAX ->
  yocto_amount_to_u128 (E:=E) (near_setting (D:=D) n) = Ok (n * YOCTO_PER_NEAR).
Proof.
  intros Hn. apply yocto_amount_to_u128_integral.
  - unfold near_setting, near_amount_to_yocto; cbn. rewrite val_mul, !val_of_N.
    by rewrite N2Z.inj_mul, inject_Z_mult.
  - unfold U32_MAX, YOCTO_PER_NEAR, U128_MAX in *. lia.
Qed.
End amounts.

(** ** Runs *)
Section runs.
Context {D : Type} `{BigDecimalLaws D} {P : Type}.
Context (is_mainnet : bool) (w : Wallet) (cfg : HarvestConfig) (valid_account : string -> bool).

Definition is_transfer (e : event P) : Prop :=
  match projT1 e with RTransfer _ _ _ => True | _ => False end.
Definition is_store (e : event P) : Prop :=
  match projT1 e with RStoreHarvestTime _ => True | _ => False end.
Definition no_transfer (t : list (event P)) : Prop := Forall (fun e => ~ is_transfer e) t.
Definition no_store (t : list (event P)) : Prop := Forall (fun e => ~ is_store e) t.

Definition unwrap_request (amount : N) : Req :=
  RExec (signer w) (WNEAR_TOKEN is_mainnet) "near_withdraw" (JObj [("amount", JU128 amount)]) 1.

(** What precedes a payment: the withdrawal and the unwrapping of [amount],
    both successful, and a report of the native balance. *)
Definition prepared (amount native : N) (t : list (event P)) : Prop :=
  exists tx1 v1 tx2 v2,
    t = [ev (withdraw_request is_mainnet w amount) (inl tx1); ev (RWait tx1) (inl v1);
         ev (unwrap_request amount) (inl tx2); ev (RWait tx2) (inl v2);
         ev (RNative (account_id w)) (inl native)].

(** At most one payment: to [target], of [amount] or what the reserve leaves. *)
Definition pays_within (reserve amount : N) (target : AccountId) (t : list (event P)) : Prop :=
  forall pre s acct paid x post, t = pre ++ ev (RTransfer s acct paid) x :: post ->
    s = signer w /\ acct = target /\ no_transfer post /\
    exists native, prepared amount native pre /\
      paid = N.min amount (native - reserve) /\ paid + reserve <= native.

(** Closes [no_transfer] and [no_store] of a list of known requests. *)
Ltac known := repeat (constructor; [by intros []|]); by constructor.

Lemma no_transfer_pays reserve amount target t :
  no_transfer t -> pays_within reserve amount target t.
Proof.
  intros Ht pre s acct paid x post ->. apply Forall_app in Ht as [_ Hx%Forall_inv].
  by destruct Hx.
Qed.

Lemma pays_app reserve amount target t1 t2 :
  pays_within reserve amount target t1 -> no_transfer t2 ->
  pays_within reserve amount target (t1 ++ t2).
Proof.
  intros H1 H2 pre s acct paid x post Heq.
  apply app_eq_inv in Heq as [(k & -> & Hk)|(k & -> & Hk)].
  - destruct k as [|e k]; [exfalso; cbn in Hk; subst t2; apply Forall_inv in H2; by apply H2|].
    injection Hk as <- ->. destruct (H1 _ _ _ _ _ _ eq_refl) as (-> & -> & Hp & Hrest).
    split_and!; [done|done|by apply Forall_app_2|done].
  - exfalso. rewrite Hk in H2. apply Forall_app in H2 as [_ Hx%Forall_inv]. by apply Hx.
Qed.

Lemma prepared_pays reserve amount target native pre x rest :
  prepared amount native pre -> reserve < native -> no_transfer rest ->
  pays_within reserve amount target (pre ++
    ev (RTransfer (signer w) target (N.min amount (native - reserve))) x :: rest).
Proof.
  intros Hpre Hn Hrest pre' s acct paid x' post Heq.
  assert (Hq : no_transfer pre).
  { destruct Hpre as (? & ? & ? & ? & ->). known. }
  apply (split_unique is_transfer) in Heq as (-> & He & ->); [|done|done|done].
  injection He as -> -> ->. split_and!; [done..|]. exists native. split_and!; [done..|lia].
Qed.

(** What a completed transfer came to: a payment of [amount] or what the reserve
    leaves of the reported native balance, or nothing when that is not above the
    reserve. *)
Definition paid_out (reserve amount : N) (target : AccountId) (t : list (event P)) : Prop :=
  exists native, ev (RNative (account_id w)) (inl native) ∈ t /\
    if reserve <? native
    then exists pre tx post, t = pre ++ ev (RTransfer (signer w) target (N.min amount (native - reserve))) (inl tx) :: post
    else no_transfer t.

Lemma execute_pays target amount period n :
  hc_reserve_amount cfg <= U32_MAX -> yocto_amount_to_u128 (D:=D) (E:=anyhow) amount = Ok n ->
  wp (execute_harvest_transfer (P:=P) is_mainnet w cfg target amount period)
    (fun t o => pays_within (hc_reserve_amount cfg * YOCTO_PER_NEAR) n target t /\
                no_store t /\ o <> Panic /\
                (o = Ok tt -> paid_out (hc_reserve_amount cfg * YOCTO_PER_NEAR) n target t)).
Proof.
  intros Hr Hn. unfold execute_harvest_transfer. rewrite Hn. apply wp_bind, wp_ret.
  set (reserve := hc_reserve_amount cfg * YOCTO_PER_NEAR).
  assert (Hquiet : forall t o, no_transfer t -> no_store t -> o <> Panic -> o <> Ok tt ->
    pays_within reserve n target t /\ no_store t /\ o <> (Panic : outcome anyhow unit) /\
    (o = Ok tt -> paid_out reserve n target t))
    by (intros; split_and!; [by apply no_transfer_pays|done|done|done]).
  apply wp_bind, wp_call. intros [tx1|e]; [|by apply Hquiet; [known|known| |]].
  apply wp_bind, wp_bind, wp_attempt, wp_call. intros [v1|e]; apply wp_ret; [|by apply Hquiet; [known|known| |]].
  apply wp_bind, wp_call. intros [tx2|e]; [|by apply Hquiet; [known|known| |]].
  apply wp_bind, wp_bind, wp_attempt, wp_call. intros [v2|e]; apply wp_ret; [|by apply Hquiet; [known|known| |]].
  apply wp_bind, wp_call. intros [native|e]; [|by apply Hquiet; [known|known| |]].
  unfold harvest_reserve_amount. rewrite near_setting_exact by done. apply wp_bind, wp_ret.
  fold reserve. apply wp_if; intros Hlt; 
    [|apply wp_ret; split_and!; [apply no_transfer_pays; known|known|done|]; intros _;
      exists native; rewrite Hlt; split; [cbn [app]; do 4 right; left|known]].
  pose proof Hlt as Hltb. apply N.ltb_lt in Hlt.
  assert (Hmin : (if n <? saturating_sub native reserve then n else saturating_sub native reserve)
    = N.min n (native - reserve)).
  { unfold saturating_sub. destruct (N.ltb_spec n (native - reserve)); lia. }
  rewrite Hmin. cbn [app].
  assert (Hpay : forall x rest (o : outcome anyhow unit), no_transfer rest -> no_store rest -> o <> Panic ->
    (o = Ok tt -> exists tx, x = inl tx) ->
    let t := [ev (withdraw_request is_mainnet w n) (inl tx1); ev (RWait tx1) (inl v1);
         ev (unwrap_request n) (inl tx2); ev (RWait tx2) (inl v2);
         ev (RNative (account_id w)) (inl native)] ++
         ev (RTransfer (signer w) target (N.min n (native - reserve))) x :: rest in
    pays_within reserve n target t /\ no_store t /\ o <> Panic /\ (o = Ok tt -> paid_out reserve n target t)).
  { intros x rest o Hrt Hrs Ho Hx. split; [apply prepared_pays; [by eexists _, _, _, _|done|done]|].
    split; [repeat (constructor; [by intros []|]); done|]. split; [done|]. intros Hok. destruct (Hx Hok) as [tx ->].
    exists native. rewrite Hltb. split; [cbn [app]; do 4 right; left|by eexists _, _, _]. }
  apply wp_bind, wp_call. intros [tx|e]; [|by apply Hpay; [known|known| |]].
  apply wp_bind, wp_call. intros [hash|e]; [|by apply (Hpay _ [_]); [known|known| |]].
  apply wp_call. intros [[]|e]; apply (Hpay _ [_; _]); [known|known|done|by eauto|known|known|done|done].
Qed.

(** What a call does, by its outcome: [Ok] of nothing without a transaction;
    [Ok] with the transfer completed and the time of the harvest stored last, and
    where the reserve leaves the whole tenth, [Ok] of that tenth, which is what
    was paid, rounded down; or a failure that leaves the time alone. *)
Definition accounted (initial current : YoctoValue D) (t : list (event P))
    (o : outcome anyhow (YoctoAmount D)) : Prop :=
  let reserve := hc_reserve_amount cfg * YOCTO_PER_NEAR in
  match o with
  | Ok r =>
      (bd_val (yocto_amount_bd r) == 0 /\ no_transfer t /\ no_store t /\ execs t = []) \/
      ((exists t1 now, t = t1 ++ [ev RNow now; ev (RStoreHarvestTime now) tt] /\ no_store t1) /\
       exists native, ev (RNative (account_id w)) (inl native) ∈ t /\
         if reserve <? native then
           exists pre target paid tx post, t = pre ++ ev (RTransfer (signer w) target paid) (inl tx) :: post /\
             ((inject_Z (Z.of_N reserve) + tenth initial current <= inject_Z (Z.of_N native))%Q ->
              bd_val (yocto_amount_bd r) == tenth initial current /\
              yocto_amount_to_u128 (E:=anyhow) r = Ok paid)
         else no_transfer t)
  | _ => no_store t
  end.

(** Payments of a call: a payment follows the check of the interval. *)
Definition pays_a_tenth (initial current : YoctoValue D) (t : list (event P)) : Prop :=
  no_transfer t \/
  exists last now amount target t1,
    t = ev RLoadHarvestTime last :: ev RNow now :: t1 /\
    last + hc_interval_seconds cfg < now /\
    target_account cfg valid_account = Ok target /\
    (inject_Z (Z.of_N amount) <= tenth initial current)%Q /\
    pays_within (hc_reserve_amount cfg * YOCTO_PER_NEAR) amount target t1.

(** C30: A harvest takes at most a tenth of what the portfolio is worth above
    twice the initial value of the period, whatever the node answers, for a reserve
    that fits its 32 bits: it pays at most once, to the configured account, only when
    the interval has passed and after withdrawing and unwrapping the amount, and
    never so much that the reported native balance falls below the reserve.  When it
    returns, it sent nothing and returned zero, or it went through, stored the time
    of the harvest and paid, unless the native balance was not above the reserve;
    where the reserve left the whole tenth, the amount it returns is that tenth and
    what was paid is the same amount rounded down.  After a failure the time of the
    last harvest is unchanged. *)
Theorem harvest_takes_a_tenth initial current period t o :
  hc_reserve_amount cfg <= U32_MAX ->
  run (check_and_execute_harvest (D:=D) (P:=P) is_mainnet w cfg valid_account initial current period) t o ->
  pays_a_tenth initial current t /\ accounted initial current t o.
Proof.
  intros Hr. revert t o.
  change (wp (check_and_execute_harvest (P:=P) is_mainnet w cfg valid_account initial current period)
    (fun t o => pays_a_tenth initial current t /\ accounted initial current t o)).
  assert (Hnone : forall t, no_transfer t -> no_store t -> execs t = [] ->
    pays_a_tenth initial current t /\ accounted initial current t (Ok yocto_amount_zero)).
  { intros t Ht Hs He. split; [by left|]. left. split; [apply val_zero|done]. }
  unfold check_and_execute_harvest. apply wp_if; intros _; [by apply wp_ret, Hnone; constructor|].
  apply wp_if; intros Hlt; [|by apply wp_ret, Hnone; constructor].
  apply tenth_pos in Hlt. set (amount := yocto_value_to_amount _).
  assert (Hval : bd_val (yocto_amount_bd amount) == tenth initial current) by apply harvest_amount_value.
  destruct (to_u128_floor (E:=anyhow) amount _ Hval ltac:(lra)) as (n & Hn & Hfloor).
  apply wp_bind, wp_ret. destruct (target_account cfg valid_account) as [target|e|] eqn:Htarget;
    [|split; [left|]; constructor..].
  apply wp_if; intros _; [by apply wp_ret, Hnone; constructor|].
  apply wp_bind, wp_bind, wp_call. intros last. apply wp_bind, wp_call. intros now. cbn.
  destruct (checked_sub now last) as [el|] eqn:Hel; [|by apply wp_ret; split; [left|]; known].
  apply checked_sub_Some in Hel as [Hle ->].
  apply wp_ret, wp_if; intros Ht; [|by apply wp_ret, Hnone; [known|known|]].
  apply N.ltb_lt in Ht.
  assert (Hout : forall t1 t2 k, paid_out (hc_reserve_amount cfg * YOCTO_PER_NEAR) n target t1 -> no_transfer t2 ->
    no_transfer k -> exists native, ev (RNative (account_id w)) (inl native) ∈ t2 ++ t1 ++ k /\
      if hc_reserve_amount cfg * YOCTO_PER_NEAR <? native then
        exists pre target paid tx post, t2 ++ t1 ++ k = pre ++ ev (RTransfer (signer w) target paid) (inl tx) :: post /\
          ((inject_Z (Z.of_N (hc_reserve_amount cfg * YOCTO_PER_NEAR)) + tenth initial current <= inject_Z (Z.of_N native))%Q ->
           bd_val (yocto_amount_bd amount) == tenth initial current /\ yocto_amount_to_u128 (E:=anyhow) amount = Ok paid)
      else no_transfer (t2 ++ t1 ++ k)).
  { intros t1 t2 k (native & Hin & Hp) H2' Hk. exists native. split; [rewrite !elem_of_app; tauto|].
    destruct (_ <? _); [|by apply Forall_app_2; [|apply Forall_app_2]]. destruct Hp as (pre & tx & post & ->).
    eexists (t2 ++ pre), target, _, tx, (post ++ k). split; [by rewrite <- !app_assoc|]. intros Hle'. split; [done|].
    rewrite Hn. f_equal. symmetry. apply N.min_l. apply (reserve_leaves _ _ _ (tenth initial current)); done. }
  assert (Hpaid : forall t1, pays_within (hc_reserve_amount cfg * YOCTO_PER_NEAR) n target t1 ->
    pays_a_tenth initial current (ev RLoadHarvestTime last :: ev RNow now :: t1))
    by (intros t1 Ht1; right; exists last, now, n, target, t1; split_and!; [done|lia|done..]).
  apply wp_bind. eapply wp_mono; [by apply (execute_pays target amount period n)|].
  intros t1 [[]|e|] (Hpay & Hs & Ho & Hpo); [|by split; [apply Hpaid|repeat (constructor; [by intros []|])]|done].
  apply wp_op. intros now'. apply wp_op. intros []. apply wp_ret. split.
  - apply (Hpaid (t1 ++ [ev RNow now'; ev (RStoreHarvestTime now') tt])), pays_app; [done|known].
  - right. split.
    + exists (ev RLoadHarvestTime last :: ev RNow now :: t1), now'. split; [done|]. by repeat (constructor; [by intros []|]).
    + apply (Hout t1 [_; _] [_; _]); [by apply Hpo|known|known].
Qed.
End runs.

(** ** Concrete runs

    The portfolio went from 100 to 1000 yocto: a tenth of the excess is 80. *)
Definition value_of (z : Z) : YoctoValue Q := mkYoctoValue (inject_Z z).
Definition harvest_config (reserve : N) : HarvestConfig :=
  mkHarvestConfig (Some "harvest.near") 0 reserve 86400.
Definition period_run (reserve : N) (l : ledger) :=
  interp ledger_answer (check_and_execute_harvest (D:=Q) (P:=payload) true the_wallet
    (harvest_config reserve) (fun _ => true) (value_of 100) (value_of 1000) "period") l.

(** With wrapped NEAR at hand, 80 are withdrawn, unwrapped and paid. *)
Example period_run_pays :
  (period_run 0 (mkLedger 500 100 1000 0)).1.1 = Ok (mkYoctoAmount (inject_Z 80)) /\
  (period_run 0 (mkLedger 500 100 1000 0)).2 = mkLedger (500 - 2 + 80) 20 920 0.
Proof. by vm_compute. Qed.

(** The withdrawal unwraps by itself here, as [balances.rs] counts on; the
    second unwrapping then has nothing to unwrap and the harvest fails half way. *)
Example period_run_unwraps_twice :
  (period_run 0 (mkLedger 500 0 1000 0)).1.1 = Err (External "failed") /\
  (period_run 0 (mkLedger 500 0 1000 0)).2 = mkLedger (500 - 1 + 80) 0 920 0.
Proof. by vm_compute. Qed.

(** Below the reserve nothing is paid, and the planned amount is returned. *)
Example period_run_reports_unpaid :
  (period_run 1 (mkLedger 500 100 1000 0)).1.1 = Ok (mkYoctoAmount (inject_Z 80)) /\
  no_transfer (period_run 1 (mkLedger 500 100 1000 0)).1.2.
Proof. split; [by vm_compute|]. vm_compute. repeat (constructor; [by intros []|]). constructor. Qed.

Lemma harvest_takes_a_tenth_witness :
  0 <= U32_MAX /\
  pays_a_tenth (D:=Q) (P:=payload) true the_wallet (harvest_config 0) (fun _ => true)
    (value_of 100) (value_of 1000) (period_run 0 (mkLedger 500 100 1000 0)).1.2 /\
  accounted (D:=Q) the_wallet (harvest_config 0) (value_of 100) (value_of 1000) (period_run 0 (mkLedger 500 100 1000 0)).1.2
    (period_run 0 (mkLedger 500 100 1000 0)).1.1.
Proof.
  split; [vm_compute; discriminate|].
  apply (harvest_takes_a_tenth true the_wallet (harvest_config 0) (fun _ => true)
    (value_of 100) (value_of 1000) "period").
  - vm_compute. discriminate.
  - apply (interp_run ledger_answer).
Defined.
