(* ===== verification/Records.v ===== *)
(** * Records: the rows the trader keeps

    [crates/persistence/src]: the conversions between rows and domain values
    ([pool_info.rs], [token_rate.rs]), the queries the trader reads and writes
    through, the clean-up of old rows, the spot-rate correction of a recorded
    rate and the evaluation periods ([evaluation_period.rs],
    [portfolio_holding.rs]).  The database answers are requests of
    [NearClient]; [Rows] collects the decoders of diesel and serde, which are
    third-party code.  The raw type [P] also stands for JSON columns. *)

From Stdlib Require Import QArith Qabs Qpower Lqa SpecFloat.
From S2P Require Import Prelude NearClient StoragePlanner BigDecimal Units Rounding Dex.
Set Warnings "-register-all".
Local Open Scope N_scope.

(** ** Rows *)
Section rows.
Context (P D : Type).

Record DbPoolInfo := mkDbPoolInfo {
  db_pool_id : Z;
  db_pool_kind : string;
  db_token_account_ids : P;
  db_amounts : P;
  db_total_fee : Z;
  db_shares_total_supply : P;
  db_amp : Z;
  db_timestamp : NaiveDateTime;
}.

Record SwapPoolInfo := mkSwapPoolInfo {
  sp_pool_id : N;
  sp_token_in_idx : N;
  sp_token_out_idx : N;
  sp_amount_in : TokenSmallestUnits D;
  sp_amount_out : TokenSmallestUnits D;
}.
Record SwapPath := mkSwapPath { sp_pools : list SwapPoolInfo }.

Record DbTokenRate := mkDbTokenRate {
  dr_base_token : string;
  dr_quote_token : string;
  dr_rate : D;
  dr_timestamp : NaiveDateTime;
  dr_decimals : Z;
  dr_rate_calc_near : Z;
  dr_swap_path : option P;
}.

Record TokenRate := mkTokenRate {
  tr_base : TokenAccount;
  tr_quote : TokenAccount;
  tr_exchange_rate : ExchangeRate D;
  tr_timestamp : NaiveDateTime;
  tr_rate_calc_near : Z;
  tr_swap_path : option SwapPath;
}.

Record TokenVolatility := mkTokenVolatility {
  tv_base : TokenAccount;
  tv_coefficient_of_variation : D;
}.

Record EvaluationPeriod := mkEvaluationPeriod {
  ep_period_id : string;
  ep_start_time : NaiveDateTime;
  ep_initial_value : YoctoAmount D;
  ep_selected_tokens : option (list (option string));
}.

Record TokenHolding := mkTokenHolding {
  th_token : TokenAccount;
  th_balance : TokenSmallestUnits D;
  th_decimals : N;
}.
Record DbPortfolioHolding := mkDbPortfolioHolding { ph_token_holdings : P }.
End rows.
Arguments mkDbPoolInfo {P}.
Arguments db_pool_id {P}. Arguments db_pool_kind {P}. Arguments db_token_account_ids {P}.
Arguments db_amounts {P}. Arguments db_total_fee {P}. Arguments db_shares_total_supply {P}.
Arguments db_amp {P}. Arguments db_timestamp {P}.
Arguments mkSwapPoolInfo {D}. Arguments sp_amount_in {D}. Arguments sp_amount_out {D}.
Arguments mkSwapPath {D}. Arguments sp_pools {D}.
Arguments mkDbTokenRate {P D}.
Arguments dr_base_token {P D}. Arguments dr_quote_token {P D}. Arguments dr_rate {P D}.
Arguments dr_timestamp {P D}. Arguments dr_decimals {P D}. Arguments dr_rate_calc_near {P D}.
Arguments dr_swap_path {P D}.
Arguments mkTokenRate {D}.
Arguments tr_base {D}. Arguments tr_quote {D}. Arguments tr_exchange_rate {D}.
Arguments tr_timestamp {D}. Arguments tr_rate_calc_near {D}. Arguments tr_swap_path {D}.
Arguments mkTokenVolatility {D}.
Arguments mkEvaluationPeriod {D}.
Arguments ep_period_id {D}. Arguments ep_start_time {D}. Arguments ep_initial_value {D}.
Arguments ep_selected_tokens {D}.
Arguments mkTokenHolding {D}.
Arguments th_token {D}. Arguments th_balance {D}. Arguments th_decimals {D}.
Arguments mkDbPortfolioHolding {P}.
Arguments ph_token_holdings {P}.

(** The decoders of rows (diesel) and of JSON columns (serde). *)
Class Rows (P D : Type) := {
  rows_pool :: FromSlice P (option (DbPoolInfo P));
  rows_pools :: FromSlice P (list (DbPoolInfo P));
  rows_time :: FromSlice P (option NaiveDateTime);
  rows_rate :: FromSlice P (DbTokenRate P D);
  rows_rates :: FromSlice P (list (DbTokenRate P D));
  rows_volatility :: FromSlice P (list (string * D));
  rows_decimals :: FromSlice P (list (string * Z));
  rows_period :: FromSlice P (EvaluationPeriod D);
  rows_last_period :: FromSlice P (option (EvaluationPeriod D));
  rows_holding :: FromSlice P (option (DbPortfolioHolding P));
  rows_count :: FromSlice P Z;
  json_ids :: FromSlice P (list TokenAccount);
  json_amounts :: FromSlice P (list N);
  json_supply :: FromSlice P N;
  json_path :: FromSlice P (SwapPath D);
  json_holdings :: FromSlice P (list (TokenHolding D));
}.

(** [serde_json::to_value] of the JSON columns, which can fail. *)
Class ToColumns (P D : Type) := {
  ids_value : list TokenAccount -> option P;
  amounts_value : list N -> option P;
  supply_value : N -> option P;
  path_value : SwapPath D -> option P;
}.

(** Serde reads back what it wrote. *)
Class ColumnsRoundTrip (P D : Type) `{Rows P D} `{ToColumns P D} : Prop := {
  ids_round : forall l v, ids_value l = Some v -> from_slice v = Some l;
  amounts_round : forall l v, amounts_value l = Some v -> from_slice v = Some l;
  supply_round : forall n v, supply_value n = Some v -> from_slice v = Some n;
  path_round : forall p v, path_value p = Some v -> from_slice v = Some p;
}.

Definition from_value {P A E} `{FromSlice P A} (e : E) (v : P) : outcome E A :=
  ok_or e (from_slice v).

(** A background task: its requests are made, its result is dropped, and a
    panic stays inside it. *)
Fixpoint spawn {P A} (p : prog P A) : prog P unit :=
  match p with
  | Ret _ => Ret (Ok tt)
  | Op r f => Op r (fun x => spawn (f x))
  end.

Definition fetch {P A} `{FromSlice P A} (q : Query) : prog P A :=
  let! raw := query q in lift (decode raw).

Definition NANOS_PER_DAY : Z := 86400 * 10 ^ 9.
(** [NaiveDateTime::MIN], the first day of the year -262143. *)
Definition NAIVE_MIN : NaiveDateTime := (-8334601228800 * 10 ^ 9)%Z.

(** ** Clean-up of old rows *)

(** Subtracting a duration panics when the date leaves the calendar. *)
Definition cutoff_date {E} (now : NaiveDateTime) (days : N) : outcome E NaiveDateTime :=
  let cutoff := (now - Z.of_N days * NANOS_PER_DAY)%Z in
  if (cutoff <? NAIVE_MIN)%Z then Panic else Ok cutoff.

Definition cleanup_table {P} (table : Table) (min_days retention_days : N) : prog P unit :=
  if retention_days =? 0 then Ret (Ok tt)
  else
    let effective_days := N.max retention_days min_days in
    let! now := utc_now in
    let! cutoff := lift (cutoff_date now effective_days) in
    let! _ := query (QDeleteBefore table cutoff) in
    Ret (Ok tt).

Definition POOL_MIN_RETENTION_DAYS : N := 7.
Definition RATE_MIN_RETENTION_DAYS : N := 7.
Definition PERIOD_MIN_RETENTION_DAYS : N := 30.
Definition cleanup_pool_info {P} : N -> prog P unit := cleanup_table TPoolInfo POOL_MIN_RETENTION_DAYS.
Definition cleanup_token_rates {P} : N -> prog P unit :=
  cleanup_table TTokenRates RATE_MIN_RETENTION_DAYS.
Definition cleanup_evaluation_periods {P} : N -> prog P unit :=
  cleanup_table TEvaluationPeriods PERIOD_MIN_RETENTION_DAYS.

Section model.
Context {P D : Type} `{BigDecimal D} `{!Rows P D}.
(** [TokenAccount::from_str], the account id parser of near-account-id. *)
Context (valid_account : string -> bool).

(** ** pool_info.rs *)
Definition pool_from_db (row : DbPoolInfo P) : outcome anyhow PoolInfo :=
  let? ids := from_value (External "serde_json") (db_token_account_ids row) in
  let? amounts := from_value (External "serde_json") (db_amounts row) in
  let? supply := from_value (External "serde_json") (db_shares_total_supply row) in
  Ok (mkPoolInfo (as_unsigned 32 (db_pool_id row))
        (mkPoolInfoBared (db_pool_kind row) ids amounts (as_unsigned 32 (db_total_fee row)) supply
           (as_unsigned 64 (db_amp row)))
        (db_timestamp row)).

Definition pool_to_new_db `{!ToColumns P D} (p : PoolInfo) : outcome anyhow (DbPoolInfo P) :=
  let? ids := ok_or (External "serde_json") (ids_value (token_account_ids (bare p))) in
  let? amounts := ok_or (External "serde_json") (amounts_value (amounts (bare p))) in
  let? supply := ok_or (External "serde_json") (supply_value (shares_total_supply (bare p))) in
  Ok (mkDbPoolInfo (as_signed 32 (id p)) (pool_kind (bare p)) ids amounts
        (as_signed 32 (total_fee (bare p))) supply (as_signed 64 (amp (bare p))) (timestamp p)).

Definition optional_pool (row : option (DbPoolInfo P)) : outcome anyhow (option PoolInfo) :=
  match row with
  | Some row => let? p := pool_from_db row in Ok (Some p)
  | None => Ok None
  end.

Definition pool_get_latest (pool_id : N) : prog P (option PoolInfo) :=
  let! row := fetch (QLatestPool (as_signed 32 pool_id)) in
  lift (optional_pool row).
Definition pool_get_latest_before (pool_id : N) (before : NaiveDateTime)
    : prog P (option PoolInfo) :=
  let! row := fetch (QLatestPoolBefore (as_signed 32 pool_id) before) in
  lift (optional_pool row).
Definition get_all_unique_between (first last : NaiveDateTime) : prog P (list PoolInfo) :=
  let! result := fetch (QPoolsBetween first last) in
  lift (try_map pool_from_db result).

(** [unwrap_or] evaluates the clock in both cases. *)
Definition read_from_db (before : option NaiveDateTime) : prog P PoolInfoList :=
  let! found := match before with
                | Some t => pool_get_latest_before 0 t
                | None => pool_get_latest 0
                end in
  let! first := lift (ok_or (Anyhow "no pool found" []) found) in
  let! now := utc_now in
  let! all := get_all_unique_between (timestamp first) (default now before) in
  Ret (Ok (PoolInfoList_new all)).

(** ** token_rate.rs *)
Definition parse_token {E} (e : E) (s : string) : outcome E TokenAccount :=
  if valid_account s then Ok s else Err e.

Definition rate_from_db (row : DbTokenRate P D) : outcome anyhow (TokenRate D) :=
  let? base := parse_token (External "ParseAccountError") (dr_base_token row) in
  let? quote := parse_token (External "ParseAccountError") (dr_quote_token row) in
  Ok (mkTokenRate base quote (from_raw_rate (dr_rate row) (as_unsigned 8 (dr_decimals row)))
        (dr_timestamp row) (dr_rate_calc_near row) (dr_swap_path row ≫= from_slice)).

(** [decimals as i16] widens a [u8]. *)
Definition rate_to_new_db `{!ToColumns P D} (r : TokenRate D) : DbTokenRate P D :=
  mkDbTokenRate (tr_base r) (tr_quote r) (raw_rate (tr_exchange_rate r)) (tr_timestamp r)
    (Z.of_N (rate_decimals (tr_exchange_rate r))) (tr_rate_calc_near r)
    (tr_swap_path r ≫= path_value (D:=D)).

Definition rate_get_latest (base quote : TokenAccount) : prog P (option (TokenRate D)) :=
  let! latest := fetch (A := option NaiveDateTime) (QLatestRateTime base quote) in
  match latest with
  | Some t =>
      let! row := fetch (QRateAt base quote t) in
      let! r := lift (rate_from_db row) in
      Ret (Ok (Some r))
  | None => Ret (Ok None)
  end.

Definition get_rates_in_time_range (first last : NaiveDateTime) (base quote : TokenAccount)
    : prog P (list (TokenRate D)) :=
  let! rows := fetch (QRatesBetween base quote first last) in
  lift (try_map rate_from_db rows).

Definition push_rate (m : gmap TokenAccount (list (TokenRate D))) (r : TokenRate D)
    : gmap TokenAccount (list (TokenRate D)) :=
  <[tr_base r := default [] (m !! tr_base r) ++ [r]]> m.

Definition get_rates_for_multiple_tokens (bases : list TokenAccount) (quote : TokenAccount)
    (first last : NaiveDateTime) : prog P (gmap TokenAccount (list (TokenRate D))) :=
  match bases with
  | [] => Ret (Ok ∅)
  | _ =>
      let! rows := fetch (QRatesOfTokens bases quote first last) in
      let! rates := lift (try_map rate_from_db rows) in
      Ret (Ok (foldl push_rate ∅ rates))
  end.

(** Rows with a token that does not parse are dropped. *)
Definition get_by_volatility_in_time_range (first last : NaiveDateTime) (quote : TokenAccount)
    : prog P (list (TokenVolatility D)) :=
  let! rows := fetch (A := list (string * D)) (QVolatility quote first last) in
  Ret (Ok (omap (fun '(t, c) => if valid_account t then Some (mkTokenVolatility t c) else None) rows)).

(** *** The spot-rate correction *)

(** One pool of the path: the correction and the amount that goes on. *)
Definition correct_pool {E} (acc : D * D) (pool : SwapPoolInfo D) : outcome E (D * D) :=
  let pool_amount := smallest_bd (sp_amount_in pool) in
  if bd_is_zero pool_amount then Ok acc
  else
    let? factor := bd_quot (bd_add pool_amount acc.2) pool_amount in
    let correction := bd_mul acc.1 factor in
    let amount_out := smallest_bd (sp_amount_out pool) in
    let? next := bd_quot (bd_mul amount_out acc.2) (bd_add pool_amount acc.2) in
    Ok (correction, next).

Fixpoint correct_pools {E} (acc : D * D) (pools : list (SwapPoolInfo D)) : outcome E (D * D) :=
  match pools with
  | [] => Ok acc
  | p :: pools => let? acc := correct_pool acc p in correct_pools acc pools
  end.

Definition to_spot_rate_with_fallback {E} (r : TokenRate D) (fallback_path : option (SwapPath D))
    : outcome E (ExchangeRate D) :=
  match (match tr_swap_path r with Some p => Some p | None => fallback_path end) with
  | Some (mkSwapPath ((_ :: _) as pools)) =>
      let delta_x := bd_mul (bd_of_Z (tr_rate_calc_near r)) (bd_of_N (10 ^ 24)) in
      let? acc := correct_pools (bd_of_Z 1, delta_x) pools in
      Ok (rate_scale (tr_exchange_rate r) acc.1)
  | _ => Ok (tr_exchange_rate r)
  end.
Definition to_spot_rate {E} (r : TokenRate D) : outcome E (ExchangeRate D) :=
  to_spot_rate_with_fallback r None.

Definition has_path (r : TokenRate D) : bool :=
  match tr_swap_path r with Some _ => true | None => false end.

(** The fallback of one rate: the oldest newer rate that has a path. *)
Fixpoint first_path_from (i : nat) (rates : list (TokenRate D)) : option nat :=
  match rates with
  | [] => None
  | r :: rates => if has_path r then Some i else first_path_from (S i) rates
  end.
Definition find_fallback_path (rates : list (TokenRate D)) (index : nat) : option (SwapPath D) :=
  match rates !! index with
  | None => None
  | Some r =>
      if has_path r then None
      else
        (fix find (l : list (TokenRate D)) :=
           match l with
           | [] => None
           | r :: l => match tr_swap_path r with Some p => Some p | None => find l end
           end) (drop (S index) rates)
  end.

(** The scan from the newest rate: [last_path_idx] and the fallbacks of the
    rates from index [i] on. *)
Fixpoint fallback_scan (i : nat) (rates : list (TokenRate D)) : option nat * list (option nat) :=
  match rates with
  | [] => (None, [])
  | r :: rates =>
      let '(last_path_idx, fallbacks) := fallback_scan (S i) rates in
      if has_path r then (Some i, None :: fallbacks)
      else (last_path_idx, last_path_idx :: fallbacks)
  end.
Definition precompute_fallback_indices (rates : list (TokenRate D)) : list (option nat) :=
  (fallback_scan 0 rates).2.

(** Rates that are effectively zero after the correction are dropped. *)
Fixpoint spot_rates_from {E} (all : list (TokenRate D))
    (rates : list (TokenRate D * option nat)) : outcome E (list (NaiveDateTime * ExchangeRate D)) :=
  match rates with
  | [] => Ok []
  | (r, fallback) :: rates =>
      let fallback_path :=
        match fallback with
        | Some i => match all !! i with Some r' => tr_swap_path r' | None => None end
        | None => None
        end in
      let? spot := to_spot_rate_with_fallback r fallback_path in
      let? rest := spot_rates_from all rates in
      Ok (if is_effectively_zero spot then rest else (tr_timestamp r, spot) :: rest)
  end.
Definition to_spot_rates {E} (rates : list (TokenRate D))
    : outcome E (list (NaiveDateTime * ExchangeRate D)) :=
  spot_rates_from rates (zip rates (precompute_fallback_indices rates)).

(** A later row of a token replaces an earlier one. *)
Fixpoint insert_spots (m : gmap TokenAccount (ExchangeRate D)) (rates : list (TokenRate D))
    : outcome anyhow (gmap TokenAccount (ExchangeRate D)) :=
  match rates with
  | [] => Ok m
  | r :: rates => let? spot := to_spot_rate r in insert_spots (<[tr_base r := spot]> m) rates
  end.

Definition get_spot_rates_at_time (bases : list TokenAccount) (quote : TokenAccount)
    (at_or_before : NaiveDateTime) : prog P (gmap TokenAccount (ExchangeRate D)) :=
  match bases with
  | [] => Ret (Ok ∅)
  | _ =>
      let! rows := fetch (QSpotRatesAt bases quote at_or_before) in
      let! rates := lift (try_map rate_from_db rows) in
      lift (insert_spots ∅ rates)
  end.

Definition ok_rate (row : DbTokenRate P D) : option (TokenRate D) :=
  match rate_from_db row with Ok r => Some r | _ => None end.
Definition get_all_latest_rates (quote : TokenAccount) : prog P (gmap TokenAccount (ExchangeRate D)) :=
  let! rows := fetch (QAllLatestRates quote) in
  lift (insert_spots ∅ (omap ok_rate rows)).

Definition get_all_decimals : prog P (gmap TokenAccount N) :=
  let! rows := fetch (A := list (string * Z)) QAllDecimals in
  Ret (Ok (foldl (fun m '(t, d) => if valid_account t then <[t := as_unsigned 8 d]> m else m) ∅ rows)).

(** ** evaluation_period.rs and portfolio_holding.rs *)
Definition selected_column (tokens : list string) : option (list (option string)) :=
  match tokens with [] => None | _ => Some (Some <$> tokens) end.

(** [NewEvaluationPeriod::new] and [insert_async]: the period id and the start
    time are drawn for the row and come back in it. *)
Definition insert_period (initial_value : YoctoAmount D) (selected_tokens : list string)
    : prog P (EvaluationPeriod D) :=
  fetch (QInsertPeriod (bd_numeric (yocto_amount_bd initial_value)) (selected_column selected_tokens)).
Definition period_get_latest : prog P (option (EvaluationPeriod D)) := fetch QLatestPeriod.
Definition update_selected_tokens (period_id : string) (tokens : list string)
    : prog P (EvaluationPeriod D) :=
  fetch (QSelectTokens period_id (selected_column tokens)).
Definition count_by_evaluation_period (period_id : string) : prog P Z :=
  fetch (QCountTrades period_id).

Definition parse_holdings (h : DbPortfolioHolding P) : outcome anyhow (list (TokenHolding D)) :=
  from_value (Anyhow "Failed to parse token_holdings" []) (ph_token_holdings h).
Definition holding_get_latest (period_id : string) : prog P (option (DbPortfolioHolding P)) :=
  fetch (QLatestHolding period_id).
Definition holding_column (h : TokenHolding D) : TokenAccount * numeric * N :=
  (th_token h, bd_numeric (smallest_bd (th_balance h)), th_decimals h).
Definition insert_holding (period_id : string) (time : NaiveDateTime)
    (holdings : list (TokenHolding D)) : prog P unit :=
  let! _ := query (QInsertHolding period_id time (holding_column <$> holdings)) in
  Ret (Ok tt).
End model.

(** ** Casts of identifiers *)
Lemma as_unsigned_signed w n : (n < 2 ^ w)%N -> as_unsigned w (as_signed w n) = n.
Proof.
  intros Hn. unfold as_unsigned, as_signed.
  assert (Hp : (0 < 2 ^ Z.of_N w)%Z) by (apply Z.pow_pos_nonneg; lia).
  assert (Hb : (0 <= Z.of_N n < 2 ^ Z.of_N w)%Z).
  { split; [lia|]. apply N2Z.inj_lt in Hn. by rewrite N2Z.inj_pow in Hn. }
  rewrite (Z.mod_small (Z.of_N n)) by done. cbn zeta. destruct (_ <=? _)%Z.
  - replace (Z.of_N n - 2 ^ Z.of_N w)%Z with (Z.of_N n + (-1) * 2 ^ Z.of_N w)%Z by lia.
    rewrite Z_mod_plus_full, Z.mod_small by done. lia.
  - rewrite Z.mod_small by done. lia.
Qed.

Lemma as_unsigned_small w n : (n < 2 ^ w)%N -> as_unsigned w (Z.of_N n) = n.
Proof.
  intros Hn. unfold as_unsigned. rewrite Z.mod_small; [lia|].
  assert (Hp : (Z.of_N n < Z.of_N (2 ^ w))%Z) by lia. rewrite N2Z.inj_pow in Hp. lia.
Qed.

(** ** The fallback scan *)
Section fallbacks.
Context {D : Type}.

Lemma fallback_scan_first i (rates : list (TokenRate D)) :
  (fallback_scan i rates).1 = first_path_from i rates.
Proof.
  revert i. induction rates as [|r rates IH]; intros i; cbn; [done|].
  specialize (IH (S i)). destruct (fallback_scan (S i) rates) as [l f]. cbn in *.
  by destruct (has_path r).
Qed.

Lemma fallback_scan_lookup i (rates : list (TokenRate D)) k r :
  rates !! k = Some r ->
  (fallback_scan i rates).2 !! k =
    Some (if has_path r then None else first_path_from (S (i + k)) (drop (S k) rates)).
Proof.
  revert i k. induction rates as [|r' rates IH]; intros i k Hk; [done|]. cbn.
  pose proof (fallback_scan_first (S i) rates) as Hf.
  destruct (fallback_scan (S i) rates) as [l f] eqn:E. cbn in Hf. subst l.
  destruct k as [|k]; cbn in Hk.
  - injection Hk as ->. rewrite Nat.add_0_r, drop_0. by destruct (has_path r).
  - specialize (IH (S i) k Hk). rewrite E in IH. cbn in IH.
    replace (S (i + S k)) with (S (S i + k)) by lia. by destruct (has_path r').
Qed.

Lemma first_path_lookup i (rates all : list (TokenRate D)) :
  drop i all = rates ->
  match first_path_from i rates with
  | Some j => match all !! j with Some r => tr_swap_path r | None => None end
  | None => None
  end =
  (fix find (l : list (TokenRate D)) :=
     match l with
     | [] => None
     | r :: l => match tr_swap_path r with Some p => Some p | None => find l end
     end) rates.
Proof.
  revert i. induction rates as [|r rates IH]; intros i Hd; [done|]. cbn.
  assert (Hi : all !! i = Some r).
  { rewrite <- (Nat.add_0_r i), <- lookup_drop, Hd. done. }
  unfold has_path. destruct (tr_swap_path r) as [p|] eqn:Hp; [by rewrite Hi|].
  apply IH. replace (S i) with (i + 1)%nat by lia. by rewrite <- drop_drop, Hd.
Qed.
End fallbacks.

(** ** The price impact *)
Section impact.
Context {D : Type} `{BigDecimalLaws D}.

(** The reserves of a hop, as numbers. *)
Definition reserve_in (p : SwapPoolInfo D) : Q := bd_val (smallest_bd (sp_amount_in p)).
Definition reserve_out (p : SwapPoolInfo D) : Q := bd_val (smallest_bd (sp_amount_out p)).
Definition positive_pool (p : SwapPoolInfo D) : Prop :=
  (0 < reserve_in p)%Q /\ (0 < reserve_out p)%Q.

(** What a constant-product pool pays for [delta]. *)
Definition amm_out (delta : Q) (p : SwapPoolInfo D) : Q :=
  (reserve_out p * delta / (reserve_in p + delta))%Q.
(** The output of a path per unit of input, for an input of [delta]. *)
Fixpoint effective_rate (delta : Q) (pools : list (SwapPoolInfo D)) : Q :=
  match pools with
  | [] => 1
  | p :: pools =>
      (reserve_out p / (reserve_in p + delta) * effective_rate (amm_out delta p) pools)%Q
  end.
(** The rate of an infinitesimal trade. *)
Fixpoint spot_price (pools : list (SwapPoolInfo D)) : Q :=
  match pools with
  | [] => 1
  | p :: pools => (reserve_out p / reserve_in p * spot_price pools)%Q
  end.
(** The exact correction. *)
Fixpoint impact (delta : Q) (pools : list (SwapPoolInfo D)) : Q :=
  match pools with
  | [] => 1
  | p :: pools =>
      ((reserve_in p + delta) / reserve_in p * impact (amm_out delta p) pools)%Q
  end.
(** The divisions of the loop, counted with those their inputs carry. *)
Fixpoint impact_errors (nd : nat) (k : nat) : nat :=
  match k with O => 0 | S k => S nd + impact_errors (S (nd + nd)) k end.

Lemma impact_errors_pow k nd : (impact_errors nd k + (nd + 1) = 2 ^ k * (nd + 1))%nat.
Proof.
  revert nd. induction k as [|k IH]; intros nd; cbn [impact_errors Nat.pow]; [lia|].
  specialize (IH (S (nd + nd))). nia.
Qed.

Lemma amm_out_pos delta p : positive_pool p -> (0 < delta)%Q -> (0 < amm_out delta p)%Q.
Proof.
  intros [Hx Hy] Hd. unfold amm_out. apply Qlt_shift_div_l; [lra|]. rewrite Qmult_0_l.
  by apply Qmult_lt_0_compat.
Qed.

Lemma spot_is_corrected delta pools : Forall positive_pool pools -> (0 < delta)%Q ->
  (spot_price pools == effective_rate delta pools * impact delta pools)%Q.
Proof.
  intros Hp. revert delta. induction Hp as [|p pools [Hx Hy] Hp IH]; intros delta Hd; cbn.
  - ring.
  - rewrite (IH (amm_out delta p)) by (by apply amm_out_pos). field. lra.
Qed.

Lemma correct_pool_near {E} n m c x (acc : D * D) (p : SwapPoolInfo D) :
  positive_pool p -> near n c (bd_val acc.1) -> near m x (bd_val acc.2) ->
  exists acc', correct_pool (E:=E) acc p = Ok acc' /\
    near (n + S m) (c * ((reserve_in p + x) / reserve_in p)) (bd_val acc'.1) /\
    near (S (m + m)) (amm_out x p) (bd_val acc'.2).
Proof.
  intros [Hx Hy] Hc Hd. unfold correct_pool. fold (reserve_in p).
  assert (Hr : near m (reserve_in p) (bd_val (smallest_bd (sp_amount_in p))))
    by (apply (near_weaken 0); [lia|by apply near_refl]).
  assert (Hs : near m (reserve_in p + x) (bd_val (bd_add (smallest_bd (sp_amount_in p)) acc.2)))
    by (rewrite val_add; by apply near_add).
  rewrite (proj2 (bd_is_zero_false _)) by (unfold reserve_in in Hx; lra).
  unfold bd_quot. rewrite (proj2 (bd_is_zero_false _)) by (unfold reserve_in in Hx; lra). cbn.
  assert (Hs0 : (0 < bd_val (bd_add (smallest_bd (sp_amount_in p)) acc.2))%Q) by apply Hs.
  rewrite (proj2 (bd_is_zero_false _)) by lra. cbn. eexists. split; [done|]. cbn. split.
  - rewrite val_mul. apply near_mul; [done|].
    replace (S m) with (S (m + 0)) by lia. apply near_quotient; [done|].
    by apply near_refl.
  - apply near_quotient; [|done]. rewrite val_mul.
    apply (near_mul 0 m); [|done]. by apply near_refl.
Qed.

Lemma correct_pools_near {E} pools : Forall positive_pool pools ->
  forall n m c x (acc : D * D), near n c (bd_val acc.1) -> near m x (bd_val acc.2) ->
  exists acc', correct_pools (E:=E) acc pools = Ok acc' /\
    near (n + impact_errors m (length pools)) (c * impact x pools) (bd_val acc'.1).
Proof.
  intros Hp. induction Hp as [|p pools Hpp Hp IH]; intros n m c x acc Hc Hx; cbn.
  - exists acc. split; [done|]. rewrite Nat.add_0_r, Qmult_1_r. done.
  - destruct (correct_pool_near (E:=E) n m c x acc p Hpp Hc Hx) as (acc1 & -> & Hc1 & Hx1). cbn.
    destruct (IH _ _ _ _ acc1 Hc1 Hx1) as (acc2 & -> & Hc2). exists acc2. split; [done|].
    replace (n + S (m + impact_errors (S (m + m)) (length pools)))%nat
      with (n + S m + impact_errors (S (m + m)) (length pools))%nat by lia.
    rewrite Qmult_assoc. exact Hc2.
Qed.
End impact.

(** ** Theorems *)
Section theorems.
Context (P D : Type) `{BigDecimalLaws D} `{!Rows P D} `{!ToColumns P D}.
Context (valid_account : string -> bool).

(** A pool written to its table is read back unchanged, whatever its 32-bit
    id, 32-bit fee and 64-bit amplification: the casts to the signed columns
    keep the bits, also above the signed range.  So is a rate with valid token
    ids and its [u8] decimals, if its path was serialised. *)
Theorem rows_round_trip `{!ColumnsRoundTrip P D} (p : PoolInfo) (row : DbPoolInfo P)
    (r : TokenRate D) :
  (id p < 2 ^ 32)%N -> (total_fee (bare p) < 2 ^ 32)%N -> (amp (bare p) < 2 ^ 64)%N ->
  pool_to_new_db (P:=P) p = Ok row ->
  valid_account (tr_base r) = true -> valid_account (tr_quote r) = true ->
  (rate_decimals (tr_exchange_rate r) < 2 ^ 8)%N ->
  (forall path, tr_swap_path r = Some path -> path_value path <> None) ->
  pool_from_db row = Ok p /\ rate_from_db valid_account (rate_to_new_db (P:=P) r) = Ok r.
Proof.
  intros Hid Hfee Hamp Hrow Hb Hq Hdec Hpath. split.
  - unfold pool_to_new_db in Hrow.
    destruct (ids_value _) as [ids|] eqn:E1; [|done].
    destruct (amounts_value _) as [ams|] eqn:E2; [|done].
    destruct (supply_value _) as [sup|] eqn:E3; [|done].
    injection Hrow as <-. unfold pool_from_db, from_value; cbn.
    rewrite (ids_round _ _ E1), (amounts_round _ _ E2), (supply_round _ _ E3). cbn.
    rewrite !as_unsigned_signed by done. by destruct p as [? [] ?].
  - unfold rate_from_db, parse_token, rate_to_new_db; cbn. rewrite Hb, Hq; cbn.
    rewrite as_unsigned_small by done. destruct r as [b q [rr dd] t n path]; cbn in *.
    repeat f_equal. destruct path as [path|]; [|done]. cbn.
    destruct (path_value path) as [v|] eqn:Ev; [|by destruct (Hpath path eq_refl)].
    cbn. by apply path_round.
Qed.

(** The linear scan that prepares the fallback paths agrees with the direct
    definition at every index: a rate without a path of its own gets the path
    of the oldest newer rate that has one. *)
Theorem fallback_indices_correct (rates : list (TokenRate D)) (i : nat) :
  (i < length rates)%nat ->
  exists o, precompute_fallback_indices rates !! i = Some o /\
    match o with
    | Some j => match rates !! j with Some r => tr_swap_path r | None => None end
    | None => None
    end = find_fallback_path rates i.
Proof.
  intros Hi. apply lookup_lt_is_Some in Hi as [r Hr].
  unfold precompute_fallback_indices. rewrite (fallback_scan_lookup 0 rates i r Hr).
  eexists. split; [done|]. unfold find_fallback_path. rewrite Hr.
  destruct (has_path r); [done|]. cbn [Nat.add]. by apply first_path_lookup.
Qed.

(** The correction removes the price impact: when the recorded rate is
    what a chain of constant-product pools pays per unit for the recorded input,
    the corrected rate is the rate of an infinitesimal trade through them, up to
    2^k - 1 rounding errors of 10^-99 for k pools; the correction does not panic
    and keeps the decimals. *)
Theorem spot_rate_removes_impact (r : TokenRate D) (pools : list (SwapPoolInfo D)) (unit_rate : Q) :
  tr_swap_path r = Some (mkSwapPath pools) -> pools <> [] -> Forall positive_pool pools ->
  (0 < tr_rate_calc_near r)%Z -> (0 < unit_rate)%Q ->
  (bd_val (raw_rate (tr_exchange_rate r)) ==
     unit_rate * effective_rate (inject_Z (tr_rate_calc_near r * 10 ^ 24)) pools)%Q ->
  exists spot, to_spot_rate (E:=anyhow) r = Ok spot /\
    rate_decimals spot = rate_decimals (tr_exchange_rate r) /\
    near (2 ^ length pools - 1) (unit_rate * spot_price pools) (bd_val (raw_rate spot)).
Proof.
  intros Hpath Hne Hpos Hn Hu Hrate. unfold to_spot_rate, to_spot_rate_with_fallback.
  rewrite Hpath. destruct pools as [|p ps]; [done|].
  set (pools := p :: ps) in *. set (delta := inject_Z (tr_rate_calc_near r * 10 ^ 24)) in *.
  assert (Hd : (0 < delta)%Q) by (apply inject_Z_pos; lia).
  destruct (correct_pools_near (E:=anyhow) pools Hpos 0 0 1 delta
    (bd_of_Z 1, bd_mul (bd_of_Z (tr_rate_calc_near r)) (bd_of_N (10 ^ 24)))) as (acc & Hacc & Hnear).
  { cbn. rewrite val_of_Z. by apply near_refl. }
  { cbn. rewrite val_mul, val_of_Z, val_of_N, <- inject_Z_mult. by apply near_refl. }
  rewrite Hacc. cbn [obind]. eexists. split; [done|]. split; [done|].
  cbn [rate_scale from_raw_rate raw_rate]. rewrite val_mul, Hrate.
  rewrite (spot_is_corrected delta pools Hpos Hd).
  assert (Hs : (0 < effective_rate delta pools)%Q).
  { clear -Hpos Hd. revert Hd. generalize delta. induction Hpos as [|q qs [Hx Hy] Hq IH]; intros d Hd; cbn; [lra|].
    apply Qmult_lt_0_compat; [|by apply IH, amm_out_pos]. apply Qlt_shift_div_l; lra. }
  pose proof (impact_errors_pow (length pools) 0) as He.
  replace (2 ^ length pools - 1)%nat with (0 + (0 + impact_errors 0 (length pools)))%nat by lia.
  rewrite Qmult_assoc. apply near_mul; [apply near_refl; by apply Qmult_lt_0_compat|].
  rewrite Qmult_1_l in Hnear. exact Hnear.
Qed.
End theorems.

(** ** A concrete store *)

(** Raw values that carry the value they decode to. *)
Inductive cell : Type :=
| CPool (row : option (DbPoolInfo cell))
| CPools (rows : list (DbPoolInfo cell))
| CTime (t : option Z)
| CRate (row : DbTokenRate cell Q)
| CRates (rows : list (DbTokenRate cell Q))
| CVolatility (rows : list (string * Q))
| CDecimals (rows : list (string * Z))
| CPeriod (p : EvaluationPeriod Q)
| CLastPeriod (p : option (EvaluationPeriod Q))
| CHolding (h : option (DbPortfolioHolding cell))
| CCount (n : Z)
| CIds (l : list TokenAccount)
| CAmounts (l : list N)
| CAmount (n : N)
| CPath (p : SwapPath Q)
| CHoldings (l : list (TokenHolding Q))
| CDeposits (m : gmap TokenAccount N)
| CBalance (b : option StorageBalance)
| CBounds (b : StorageBalanceBounds)
| CPredictions (rows : list (Z * string * string * Q * (Z * Z) * (option Q * option spec_float)))
| CForecast (values : list (Z * Q))
| CNumbers (a b : N)
| CText (s : string)
| CNothing.

#[global] Instance cell_rows : Rows cell Q := {|
  rows_pool c := match c with CPool r => Some r | _ => None end;
  rows_pools c := match c with CPools r => Some r | _ => None end;
  rows_time c := match c with CTime t => Some t | _ => None end;
  rows_rate c := match c with CRate r => Some r | _ => None end;
  rows_rates c := match c with CRates r => Some r | _ => None end;
  rows_volatility c := match c with CVolatility r => Some r | _ => None end;
  rows_decimals c := match c with CDecimals r => Some r | _ => None end;
  rows_period c := match c with CPeriod p => Some p | _ => None end;
  rows_last_period c := match c with CLastPeriod p => Some p | _ => None end;
  rows_holding c := match c with CHolding h => Some h | _ => None end;
  rows_count c := match c with CCount n => Some n | _ => None end;
  json_ids c := match c with CIds l => Some l | _ => None end;
  json_amounts c := match c with CAmounts l => Some l | _ => None end;
  json_supply c := match c with CAmount n => Some n | _ => None end;
  json_path c := match c with CPath p => Some p | _ => None end;
  json_holdings c := match c with CHoldings l => Some l | _ => None end;
|}.
#[global] Instance cell_deposits : FromSlice cell (gmap TokenAccount N) :=
  fun c =>
    match c with
    | CDeposits m => if forallb (fun e => e.2 <=? U128_MAX) (map_to_list m) then Some m else None
    | _ => None
    end.
#[global] Instance cell_balance : FromSlice cell (option StorageBalance) :=
  fun c => match c with CBalance b => Some b | _ => None end.
#[global] Instance cell_bounds : FromSlice cell StorageBalanceBounds :=
  fun c => match c with CBounds b => Some b | _ => None end.
#[global] Instance cell_columns : ToColumns cell Q := {|
  ids_value l := Some (CIds l);
  amounts_value l := Some (CAmounts l);
  supply_value n := Some (CAmount n);
  path_value p := Some (CPath p);
|}.
#[global] Instance cell_round_trip : ColumnsRoundTrip cell Q.
Proof. split; by intros ? ? [= <-]. Qed.

(** A pool whose id is above the signed range, and a rate over two pools. *)
Definition high_pool : PoolInfo :=
  mkPoolInfo 4000000000
    (mkPoolInfoBared "SIMPLE_POOL" ["usdt"; "wrap.near"]%string [1000; 2000] 30 7 (2 ^ 63)) 5.
Definition two_hops : list (SwapPoolInfo Q) :=
  [mkSwapPoolInfo 1 0 1 (mkTokenSmallestUnits (10 ^ 25 # 1)) (mkTokenSmallestUnits (500 # 1));
   mkSwapPoolInfo 2 1 0 (mkTokenSmallestUnits (300 # 1)) (mkTokenSmallestUnits (900 # 1))].
Definition impact_rate : TokenRate Q :=
  mkTokenRate "usdt" "wrap.near"
    (mkExchangeRate (effective_rate (inject_Z (1 * 10 ^ 24)) two_hops) 6) 0 1 (Some (mkSwapPath two_hops)).
Definition bare_rate : TokenRate Q :=
  mkTokenRate "usdt" "wrap.near" (mkExchangeRate (5 # 1) 6) 0 1 None.

Lemma rows_round_trip_witness :
  exists row, pool_to_new_db (P:=cell) (D:=Q) high_pool = Ok row /\
    db_pool_id row = (-294967296)%Z /\ pool_from_db (D:=Q) row = Ok high_pool /\
    rate_from_db (P:=cell) (fun _ => true) (rate_to_new_db impact_rate) = Ok impact_rate.
Proof.
  eexists. split; [vm_compute; reflexivity|]. split; [reflexivity|].
  apply (rows_round_trip cell Q (fun _ => true)); try done; vm_compute; done.
Defined.

Lemma fallback_indices_correct_witness :
  exists o, precompute_fallback_indices [bare_rate; bare_rate; impact_rate; bare_rate] !! 0%nat = Some o /\
    match o with
    | Some j => match [bare_rate; bare_rate; impact_rate; bare_rate] !! j with
                | Some r => tr_swap_path r | None => None end
    | None => None
    end = Some (mkSwapPath two_hops).
Proof.
  apply (fallback_indices_correct Q [bare_rate; bare_rate; impact_rate; bare_rate] 0). cbn. lia.
Defined.

Lemma spot_rate_removes_impact_witness :
  exists spot, to_spot_rate (E:=anyhow) impact_rate = Ok spot /\ rate_decimals spot = 6%N /\
    near 3 (1 * spot_price two_hops)%Q (raw_rate spot).
Proof.
  destruct (spot_rate_removes_impact Q impact_rate two_hops 1) as (spot & Hs & Hd & Hn).
  - reflexivity.
  - discriminate.
  - repeat constructor.
  - reflexivity.
  - reflexivity.
  - vm_compute. reflexivity.
  - exists spot. split; [exact Hs|]. split; [exact Hd|exact Hn].
Defined.
