(* ===== verification/TradeSwap.v ===== *)
(** * TradeSwap: one swap of the trader, and what the portfolio holds

    [crates/trade/src]: [swap.rs] (balances and [execute_direct_swap], the one
    operation every trading action is made of), [valuation.rs] (the value of a
    portfolio), [snapshot.rs] (recording and reading holdings) and the reads of
    [token_cache.rs] and [market_data.rs] they need.  The search for a path is
    an interface ([PathFinder]) that the token graph implements; how a sent
    transaction is displayed is a parameter. *)

From Stdlib Require Import QArith Qabs Lqa.
From S2P Require Import Prelude NearClient StoragePlanner Storage BigDecimal Dex Swap Units.
From S2P Require Import Balances Slippage Harvest Records.
Local Open Scope N_scope.

(** What trade execution reads of the configuration. *)
Record TradeConfig := mkTradeConfig {
  tc_balances : BalancesConfig;
  tc_harvest : HarvestConfig;
  tc_max_top_up : N;
  tc_evaluation_days : N;
  tc_trade_enabled : bool;
  tc_unwrap_on_stop : bool;
  tc_period_retention_days : N;
}.

(** [TokenGraph::new], [update_graph] and [get_path], as one question. *)
Class PathFinder := swap_path : PoolInfoList -> TokenAccount -> TokenAccount -> outcome anyhow TokenPath.

(** The promise of the graph: a path has at least one hop; over pools with
    distinct ids it leads from the one token to the other. *)
Class PathFinderLaws `{PathFinder} : Prop := {
  swap_path_nonempty : forall pools from to path, swap_path pools from to = Ok path -> path <> [];
  swap_path_ends : forall pools from to path first l,
    swap_path pools from to = Ok path -> NoDup (id <$> pools_list pools) ->
    (forall p, p ∈ pools_list pools -> by_id pools !! id p = Some p) ->
    head path = Some first -> list.last path = Some l ->
    token_in_id first = Ok from /\ token_out_id l = Ok to;
}.

(** The rate provider of a valuation. *)
Class RateProvider (P D : Type) := get_rate : TokenAccount -> prog P (option (ExchangeRate D)).

Record TokenMetadata := mkTokenMetadata { md_decimals : N }.

Record SwapParams := mkSwapParams {
  p_from_token : TokenAccount;
  p_to_token : TokenAccount;
  p_swap_amount : option N;
  (** [recorder.evaluation_period_id]. *)
  p_period : string;
  p_policy : SlippagePolicy;
}.

Section model.
Context {P D : Type} `{BigDecimal D} `{!Rows P D} `{PathFinder}.
Context `{!FromSlice P (option StorageBalance)} `{!FromSlice P (gmap TokenAccount N)}.
Context `{!FromSlice P StorageBalanceBounds} `{!FromSlice P TokenMetadata}.
Context (valid_account : string -> bool) (show_tx : TxId -> string).
Context (is_mainnet : bool) (w : Wallet) (cfg : TradeConfig).

Abbreviation wnear := (WNEAR_TOKEN is_mainnet).

(** ** market_data.rs and token_cache.rs *)
Definition get_token_metadata (token : TokenAccount) : prog P TokenMetadata :=
  let! result := view_contract token "ft_metadata" (JObj []) in
  lift (ok_or (Anyhow "Failed to parse token metadata" []) (from_slice result)).
Definition get_token_decimals (token : TokenAccount) : prog P N :=
  let! metadata := get_token_metadata token in
  Ret (Ok (md_decimals metadata)).
(** Only a successful answer of the node is cached. *)
Definition get_token_decimals_cached (token : TokenAccount) : prog P N :=
  let! cached := Op (RDecimals token) (fun x => Ret (Ok x)) in
  match cached with
  | Some decimals => Ret (Ok decimals)
  | None =>
      let! decimals := get_token_decimals token in
      let! _ := Op (RCacheDecimals token decimals) (fun x => Ret (Ok x)) in
      Ret (Ok decimals)
  end.

(** ** valuation.rs *)
Definition latest_rate (token : TokenAccount) : prog P (option (ExchangeRate D)) :=
  let! rate := rate_get_latest valid_account token wnear in
  match rate with
  | Some r => let! spot := lift (to_spot_rate r) in Ret (Ok (Some spot))
  | None => Ret (Ok None)
  end.
#[local] Instance LatestRateProvider : RateProvider P D := latest_rate.

(** The value of one holding; there is none when its rate is missing, fails to
    load or vanishes. *)
Definition holding_value (rp : RateProvider P D) (token : TokenAccount) (amount : TokenAmount D)
    : prog P (option (NearValue D)) :=
  if String.eqb token wnear then
    let! value := lift (amount_div_rate amount wnear_rate) in Ret (Ok (Some value))
  else
    let! rate := attempt (get_rate (RateProvider := rp) token) in
    match rate with
    | inl (Some spot) =>
        if is_effectively_zero spot then Ret (Ok None)
        else let! value := lift (amount_div_rate amount spot) in Ret (Ok (Some value))
    | inl None => Ret (Ok None)
    | inr _ => Ret (Ok None)
    end.

Fixpoint portfolio_value_from (rp : RateProvider P D) (total : NearValue D)
    (holdings : list (TokenAccount * TokenAmount D)) : prog P (NearValue D) :=
  match holdings with
  | [] => Ret (Ok total)
  | (token, amount) :: rest =>
      if token_amount_is_zero amount then portfolio_value_from rp total rest
      else
        let! value := holding_value rp token amount in
        match value with
        | Some v => portfolio_value_from rp (near_value_add total v) rest
        | None => portfolio_value_from rp total rest
        end
  end.
Definition calculate_portfolio_value (rp : RateProvider P D)
    (holdings : gmap TokenAccount (TokenAmount D)) : prog P (NearValue D) :=
  portfolio_value_from rp near_value_zero (btree_iter holdings).

(** ** swap.rs *)
Fixpoint portfolio_balances_from (deposits : gmap TokenAccount N)
    (balances : gmap TokenAccount (TokenAmount D)) (tokens : list TokenAccount)
    : prog P (gmap TokenAccount (TokenAmount D)) :=
  match tokens with
  | [] => Ret (Ok balances)
  | token :: tokens =>
      let balance := default 0 (deposits !! token) in
      let! decimals := get_token_decimals_cached token in
      portfolio_balances_from deposits
        (<[token := from_smallest_units (bd_of_N balance) decimals]> balances) tokens
  end.
Definition get_current_portfolio_balances (tokens : list TokenAccount)
    : prog P (gmap TokenAccount (TokenAmount D)) :=
  let! deposits := get_deposits is_mainnet (account_id w) in
  portfolio_balances_from deposits ∅ tokens.

Definition calculate_total_portfolio_value (balances : gmap TokenAccount (TokenAmount D))
    : prog P (NearValue D) :=
  calculate_portfolio_value LatestRateProvider balances.

(** The statistics are read when no amount is required. *)
Definition read_inputs (required : option N) : prog P Statistics :=
  match required with
  | Some _ => Ret (Ok Statistics_default)
  | None => Op RReadInputs (fun x => Ret (Ok (mkStatistics x.1 x.2)))
  end.

(** The balance to swap from: wrapped NEAR is refilled or harvested first. *)
Definition source_balance (from : TokenAccount) (amount : option N) : prog P N :=
  if String.eqb from wnear then
    let! inputs := read_inputs amount in
    start is_mainnet w (tc_balances cfg) inputs from amount
  else
    let! deposits := get_deposits is_mainnet (account_id w) in
    Ret (Ok (default 0 (deposits !! from))).

(** The storage of every token on the path, within the configured cap. *)
Definition setup_storage (path : TokenPath) : prog P unit :=
  let! tokens := lift (dex_result (all_tokens path)) in
  ensure_ref_storage_setup is_mainnet w tokens (keep_wnear_only is_mainnet)
    (max_top_up_from_config (tc_max_top_up cfg)).

(** The transaction, its outcome and its record. *)
Definition swap_and_record (params : SwapParams) (swap_amount : N) (path : TokenPath) : prog P unit :=
  let! estimated_output := lift (dex_result (calc_value D path swap_amount)) in
  let! min_out := lift (calculate_min_out estimated_output (p_policy params)) in
  let! sent := run_swap D is_mainnet w path (mkSwapArg swap_amount min_out) in
  let! result := attempt (wait_for_success sent.1) in
  match result with
  | inr _ => Ret (Err (Anyhow "Swap transaction failed" []))
  | inl status =>
      let! _ := get_token_decimals_cached (p_from_token params) in
      let! _ := get_token_decimals_cached (p_to_token params) in
      let actual := match extract_actual_output status with Ok n => Some n | _ => None end in
      record_trade (show_tx sent.1) (p_from_token params) swap_amount (p_to_token params) sent.2
        actual (p_period params)
  end.

Definition execute_direct_swap (params : SwapParams) : prog P unit :=
  let! balance := source_balance (p_from_token params) (p_swap_amount params) in
  if balance =? 0 then Ret (Err (Anyhow "No balance for token" []))
  else
    let swap_amount := N.min (default balance (p_swap_amount params)) balance in
    let! pools := read_from_db (D:=D) None in
    let! path := lift (swap_path pools (p_from_token params) (p_to_token params)) in
    let! _ := lift (dex_result (validate_length path)) in
    let! _ := setup_storage path in
    swap_and_record params swap_amount path.

(** ** snapshot.rs *)
Definition ensure_wnear_included (tokens : list TokenAccount) : list TokenAccount :=
  if contains tokens wnear then tokens else tokens ++ [wnear].

Definition balances_to_holdings (balances : gmap TokenAccount (TokenAmount D)) : list (TokenHolding D) :=
  map (fun '(token, amount) =>
         mkTokenHolding token (to_smallest_units amount) (amount_decimals amount))
      (bfilter (fun '(_, amount) => negb (token_amount_is_zero amount)) (btree_iter balances)).
Definition holdings_to_balances (holdings : list (TokenHolding D)) : gmap TokenAccount (TokenAmount D) :=
  foldl (fun m h => <[th_token h := with_decimals (th_balance h) (th_decimals h)]> m) ∅ holdings.

Definition record_portfolio_holdings (period_id : string) (selected_tokens : list TokenAccount)
    (current_time : NaiveDateTime) : prog P unit :=
  let! balances := get_current_portfolio_balances (ensure_wnear_included selected_tokens) in
  match balances_to_holdings balances with
  | [] => Ret (Ok tt)
  | holdings => insert_holding period_id current_time holdings
  end.

Definition get_holdings_from_db (period_id : string)
    : prog P (option (gmap TokenAccount (TokenAmount D))) :=
  let! record := holding_get_latest (D:=D) period_id in
  match record with
  | None => Ret (Ok None)
  | Some row =>
      let! holdings := lift (parse_holdings row) in
      Ret (Ok (Some (holdings_to_balances holdings)))
  end.
End model.

(** ** What a swap sends *)
#[local] Arguments execs : simpl never.

Section swap_session.
Context {P D : Type} `{BigDecimal D} `{!Rows P D} `{PathFinderLaws}.
Context `{!FromSlice P (option StorageBalance)} `{!FromSlice P (gmap TokenAccount N)}.
Context `{!FromSlice P StorageBalanceBounds} `{!FromSlice P TokenMetadata}.
Context (show_tx : TxId -> string).
Context (is_mainnet : bool) (w : Wallet) (cfg : TradeConfig).

(** Moving funds into or out of the exchange. *)
Definition funding_call (c : ExecCall) : Prop :=
  ec_method c ∈ ["near_deposit"; "ft_transfer_call"; "withdraw"].

Definition sends_only (F : ExecCall -> Prop) (t : list (event P)) : Prop := Forall F (execs t).
#[export] Instance sends_only_composable F : Composable (sends_only F).
Proof using Type. split; [constructor|]. intros t t' Ht Ht'. unfold sends_only. rewrite execs_app. by apply Forall_app_2. Qed.

Lemma keeps_sends_only {A} F r (f : Resp P r -> outcome anyhow A) :
  (forall x, sends_only F [ev r x]) -> keeps (Op r (fun x => Ret (f x))) (sends_only F).
Proof using Type. apply keeps_call. Qed.

Ltac sends :=
  repeat keeps_step ltac:(by apply keeps_sends_only; intros ?; repeat constructor; cbn; set_solver).

Lemma start_sends inputs from amount :
  keeps (start (P:=P) is_mainnet w (tc_balances cfg) inputs from amount) (sends_only funding_call).
Proof using Type.
  unfold start, balance_of_start_token, get_deposits, refill, wrap_up_to, harvest, pay_excess,
    is_time_to_harvest, update_last_harvest, harvest_account, wnear_balance_of, wrap, deposit, withdraw.
  sends.
Qed.

(** A balance reported by the exchange during the run. *)
Definition reported (from : TokenAccount) (balance : N) (t : list (event P)) : Prop :=
  exists raw deposits, ev (deposits_view is_mainnet w) (inl raw) ∈ t /\
    from_slice raw = Some deposits /\ balance = default 0 (deposits !! from).

Lemma reported_app from b t t' : reported from b t -> reported from b (t ++ t').
Proof using Type. intros (raw & ds & Hin & Hr). exists raw, ds. split; [apply elem_of_app; left; exact Hin|exact Hr]. Qed.
Lemma reported_app_r from b t t' : reported from b t' -> reported from b (t ++ t').
Proof using Type. intros (raw & ds & Hin & Hr). exists raw, ds. split; [apply elem_of_app; right; exact Hin|exact Hr]. Qed.

Lemma balance_reported from :
  wp (balance_of_start_token (P:=P) is_mainnet w from)
    (fun t o => match o with Ok b => reported from b t | _ => True end).
Proof using Type.
  unfold balance_of_start_token, get_deposits. apply wp_bind, wp_bind, wp_call. intros [raw|e]; [|done].
  apply wp_ret. unfold decode. destruct (from_slice raw) as [ds|] eqn:E; cbn; [|done].
  apply wp_ret. exists raw, ds. split; [apply list_elem_of_here|done].
Qed.

Lemma start_reported inputs from amount :
  wp (start (P:=P) is_mainnet w (tc_balances cfg) inputs from amount)
    (fun t o => match o with Ok b => reported from b t | _ => True end).
Proof using Type.
  unfold start. apply wp_bind. eapply wp_mono; [apply balance_reported|].
  intros t [b|e|] Hb; [|done|done]. apply wp_if; intros _.
  - apply wp_bind. intros t2 [[]|e|] _; [|done|done].
    eapply wp_mono; [apply balance_reported|]. intros t3 [b'|e|] Hb'; [|done|done].
    by apply reported_app_r, reported_app_r.
  - apply wp_bind. intros t2 [[]|e|] _; [|done|done]. apply wp_ret. by apply reported_app.
Qed.

Lemma source_balance_spec from amount :
  wp (source_balance (P:=P) is_mainnet w cfg from amount)
    (fun t o => sends_only funding_call t /\ (from <> WNEAR_TOKEN is_mainnet -> execs t = []) /\
       match o with Ok b => reported from b t | _ => True end).
Proof using Type.
  unfold source_balance. apply wp_if; intros Hf.
  - apply String.eqb_eq in Hf as ->. apply wp_bind.
    assert (Hread : wp (read_inputs (P:=P) amount) (fun t o => execs t = [] /\ o <> Panic)).
    { destruct amount; [by apply wp_ret|]. by apply wp_call. }
    eapply wp_mono; [exact Hread|]. intros t [inputs|e|] [Ht Ho].
    + eapply wp_mono; [apply wp_conj; [apply start_sends|apply start_reported]|].
      intros t2 o [Hs Hr]. split_and!; [unfold sends_only in *; by rewrite execs_app, Ht|done|].
      destruct o; [by apply reported_app_r|done|done].
    + split_and!; [unfold sends_only; by rewrite Ht|done|done].
    + done.
  - apply wp_bind. unfold get_deposits. apply wp_bind, wp_call. intros [raw|e]; [|by repeat split; try constructor].
    apply wp_ret. unfold decode. destruct (from_slice raw) as [ds|] eqn:E; cbn; [|by repeat split; try constructor].
    apply wp_ret. split_and!; [by constructor|done|]. exists raw, ds. split; [apply list_elem_of_here|done].
Qed.

Definition swap_call (acts : list SwapAction) : ExecCall :=
  {| ec_signer := signer w; ec_receiver := CONTRACT_ADDRESS is_mainnet;
     ec_method := METHOD_NAME; ec_args := swap_args acts; ec_deposit := 1 |}.

(** The transaction of a swap of [amount] along [path]: its first action spends
    the amount, its last accepts no less than the policy allows. *)
Definition swaps_along (policy : SlippagePolicy) (path : TokenPath) (amount out : N)
    (acts : list SwapAction) : Prop :=
  exists a z estimated,
    build_swap_actions (H := TokenPair_like D) path (mkSwapArg amount (sa_min_amount_out z)) =
      Ok (acts, out) /\
    head acts = Some a /\ list.last acts = Some z /\ sa_amount_in a = Some amount /\
    calc_value D path amount = Ok estimated /\
    calculate_min_out estimated policy = Ok (sa_min_amount_out z).

Definition trade_recorded (params : SwapParams) (amount out : N) (t : list (event P)) : Prop :=
  exists tx actual, ev (RRecordTrade (show_tx tx) (p_from_token params) amount (p_to_token params) out
    actual (p_period params)) (inl tt) ∈ t.

Lemma decimals_send_nothing token :
  wp (get_token_decimals_cached (P:=P) token) (fun t o => execs t = [] /\ o <> Panic).
Proof using Type.
  unfold get_token_decimals_cached, get_token_decimals, get_token_metadata.
  apply wp_bind, wp_call. intros [d|]; [by apply wp_ret|].
  apply wp_bind, wp_bind, wp_bind, wp_call. intros [raw|e]; [|done]. apply wp_ret.
  destruct (from_slice raw) as [m|]; cbn; [|done].
  apply wp_ret. apply wp_op. intros []. by apply wp_ret.
Qed.

Lemma swap_and_record_spec params amount path :
  path <> [] ->
  wp (swap_and_record (D:=D) (P:=P) show_tx is_mainnet w params amount path) (fun t o =>
    (execs t = [] /\ forall u, o <> Ok u) \/
    exists acts out, execs t = [swap_call acts] /\ swaps_along (p_policy params) path amount out acts /\
      (o = Ok tt -> trade_recorded params amount out t)).
Proof using Type.
  intros Hne. destruct (list.last path) as [l|] eqn:Hl; [|apply list.last_None in Hl; done].
  destruct (head path) as [f|] eqn:Hf; [|by destruct path].
  unfold swap_and_record. apply wp_bind, wp_ret.
  destruct (calc_value D path amount) as [est| |] eqn:Hest; cbn [dex_result]; [|by left|by left].
  apply wp_bind, wp_ret. destruct (calculate_min_out est _) as [mo| |] eqn:Hmo; [|by left|by left].
  apply wp_bind. unfold run_swap. apply wp_bind, wp_ret.
  destruct (build_swap_actions path _) as [[acts out]| |] eqn:Hb; cbn [dex_result]; [|by left|by left].
  assert (Hs : swaps_along (p_policy params) path amount out acts).
  { destruct (build_head_last (H := TokenPair_like D) _ _ _ _ _ _ Hb Hf Hl)
      as (a & z & Ha & Hz & Hin & Hmin & _). cbn in Hin, Hmin.
    exists a, z, est. rewrite Hmin. by repeat (split; [done|]). }
  apply wp_bind, wp_call. intros [tx|e]; [|right; exists acts, out; by repeat (split; [done|])].
  apply wp_ret. cbn [fst snd app]. apply wp_bind, wp_attempt, wp_call.
  intros [status|e]; [|apply wp_ret; right; exists acts, out; by repeat (split; [done|])].
  apply wp_bind. eapply wp_mono; [apply decimals_send_nothing|]. intros t1 [d1|e|] [Ht1 Ho1]; [| |done].
  2:{ right. exists acts, out. split_and!; [|done|done]. execs_simpl. by rewrite Ht1. }
  apply wp_bind. eapply wp_mono; [apply decimals_send_nothing|]. intros t2 [d2|e|] [Ht2 Ho2]; [| |done].
  2:{ right. exists acts, out. split_and!; [|done|done].
      execs_simpl. by rewrite Ht1, Ht2. }
  apply wp_call. intros x. right. exists acts, out. split_and!; [|done|].
  - execs_simpl. by rewrite Ht1, Ht2.
  - destruct x as [[]|e]; [|done]. intros _.
    exists tx, (match extract_actual_output status with Ok n => Some n | _ => None end).
    cbn [app]. do 2 apply list_elem_of_further. do 2 (apply elem_of_app; right).
    apply list_elem_of_here.
Qed.

(** The pools that were read from the database. *)
Definition pools_read (t : list (event P)) (all : list PoolInfo) : Prop :=
  exists first last raw rows, ev (RDb (QPoolsBetween first last)) (inl raw) ∈ t /\
    from_slice raw = Some rows /\ try_map pool_from_db rows = Ok all.

Lemma pools_read_mono t t' all : t ⊆ t' -> pools_read t all -> pools_read t' all.
Proof using Type. intros Ht (first & last & raw & rows & Hin & Hr). exists first, last, raw, rows. split; [by apply Ht|done]. Qed.

(** Reading the pools sends nothing; the list is built from the rows. *)
Lemma read_from_db_spec before :
  wp (read_from_db (P:=P) (D:=D) before) (fun t o => execs t = [] /\
    match o with Ok pools => exists all, pools = PoolInfoList_new all /\ pools_read t all | _ => True end).
Proof using Type.
  assert (Hfetch : forall A (HA : FromSlice P A) q B (k : A -> outcome anyhow B),
    wp (bind (fetch q) (fun a => lift (k a))) (fun t o => execs t = [] /\ forall b, o = Ok b ->
      exists raw a, ev (RDb q) (inl raw) ∈ t /\ from_slice raw = Some a /\ k a = Ok b)).
  { intros A HA q B k. unfold fetch, query. apply wp_bind, wp_bind, wp_call. intros [raw|e]; [|done].
    apply wp_ret. unfold decode. destruct (from_slice raw) as [a|] eqn:Ea; cbn [ok_or]; [|done]. apply wp_ret.
    split; [done|]. intros b Hb. exists raw, a. split; [apply list_elem_of_here|done]. }
  unfold read_from_db. apply wp_bind.
  eapply wp_mono; [instantiate (1 := fun t _ => execs t = []); destruct before;
    (eapply wp_mono; [apply Hfetch|]; by intros ? ? [? _])|].
  intros t [found|e|] Ht; [|by rewrite Ht|by rewrite Ht].
  apply wp_bind, wp_ret. destruct (ok_or _ found) as [first|e|]; [|by rewrite app_nil_r..].
  apply wp_bind, wp_call. intros now. apply wp_bind. eapply wp_mono; [apply Hfetch|].
  intros t2 [all|e|] [Ht2 Hp]; [apply wp_ret|..]; (split; [execs_simpl; by rewrite Ht, Ht2|]); [|done..].
  destruct (Hp all eq_refl) as (raw & rows & Hin & Hr & Hm). exists all. split; [done|].
  eexists _, _, raw, rows. split; [|done]. rewrite !elem_of_app. right. right. right. left. exact Hin.
Qed.

(** The swap a call may send at the end: of the amount that was asked for, or
    the whole balance, but never more than the exchange reported, along the
    path found over the pools that were read; [needed] are the tokens the storage
    was set up for. *)
Definition sent_swap (params : SwapParams) (t : list (event P)) (o : outcome anyhow unit)
    (needed : list TokenAccount) (swaps : list ExecCall) : Prop :=
  exists all path balance amount out acts a z, pools_read t all /\
    swap_path (PoolInfoList_new all) (p_from_token params) (p_to_token params) = Ok path /\
    len path <= MAX_HOPS /\ all_tokens path = Ok needed /\
    reported (p_from_token params) balance t /\
    amount = N.min (default balance (p_swap_amount params)) balance /\
    swaps = [swap_call acts] /\ head acts = Some a /\ list.last acts = Some z /\
    swaps_along (p_policy params) path amount out acts /\
    (NoDup (id <$> all) ->
       sa_token_in a = p_from_token params /\ sa_token_out z = p_to_token params) /\
    (o = Ok tt -> trade_recorded params amount out t).

Lemma swaps_along_ends policy all from to path amount out acts a z :
  swap_path (PoolInfoList_new all) from to = Ok path -> NoDup (id <$> all) ->
  swaps_along policy path amount out acts -> head acts = Some a -> list.last acts = Some z ->
  sa_token_in a = from /\ sa_token_out z = to.
Proof.
  intros Hp Hnd (a' & z' & est & Hb & Ha' & Hz' & _) Ha Hz.
  destruct (PoolInfoList_new_distinct all Hnd) as [Hnd' Hby].
  pose proof (swap_path_nonempty _ _ _ _ Hp) as Hne.
  destruct (list.last path) as [l|] eqn:Hl; [|apply list.last_None in Hl; done].
  destruct (head path) as [f|] eqn:Hf; [|by destruct path].
  destruct (swap_path_ends _ _ _ _ f l Hp Hnd' Hby Hf Hl) as [Hin Hout].
  destruct (build_head_last (H := TokenPair_like D) _ _ _ _ _ _ Hb Hf Hl)
    as (a2 & z2 & Ha2 & Hz2 & _ & _ & (_ & Hi & _) & (_ & _ & Ho & _)).
  simplify_eq. cbn in Hi, Ho. rewrite Hin in Hi. rewrite Hout in Ho. by simplify_eq.
Qed.

Lemma setup_storage_spec path :
  wpx (setup_storage (P:=P) is_mainnet w cfg path) (fun l o => exists needed,
    well_formed_session is_mainnet w needed (keep_wnear_only is_mainnet)
      (max_top_up_from_config (tc_max_top_up cfg)) l /\
    (o = Ok tt -> all_tokens path = Ok needed)).
Proof using Type.
  assert (Hnil : well_formed_session is_mainnet w [] (keep_wnear_only is_mainnet)
      (max_top_up_from_config (tc_max_top_up cfg)) []).
  { exists [], [], [], []. split_and!; [done|by left|constructor|by left|by left|].
    apply N.le_0_l. }
  unfold setup_storage. apply wpx_bind, wpx_lift.
  destruct (all_tokens path) as [tokens| |]; cbn [dex_result]; [|by eexists..].
  eapply wpx_mono; [apply phase_ensure|]. intros l o [Hl _]. by exists tokens.
Qed.

Definition swap_session (params : SwapParams) (t : list (event P)) (o : outcome anyhow unit) : Prop :=
  exists funding storage swaps needed,
    execs t = funding ++ storage ++ swaps /\
    Forall funding_call funding /\
    (p_from_token params <> WNEAR_TOKEN is_mainnet -> funding = []) /\
    well_formed_session is_mainnet w needed (keep_wnear_only is_mainnet)
      (max_top_up_from_config (tc_max_top_up cfg)) storage /\
    ((swaps = [] /\ forall u, o <> Ok u) \/ sent_swap params t o needed swaps).

Lemma direct_swap_wp params :
  wp (execute_direct_swap (D:=D) (P:=P) show_tx is_mainnet w cfg params) (swap_session params).
Proof.
  assert (Hnil : well_formed_session is_mainnet w [] (keep_wnear_only is_mainnet)
      (max_top_up_from_config (tc_max_top_up cfg)) []).
  { exists [], [], [], []. split_and!; [done|by left|constructor|by left|by left|apply N.le_0_l]. }
  assert (Hstop : forall t o, sends_only funding_call t ->
    (p_from_token params <> WNEAR_TOKEN is_mainnet -> execs t = []) -> (forall u, o <> Ok u) ->
    swap_session params t o).
  { intros t o Hf Hn Ho. exists (execs t), [], [], []. split_and!; [by rewrite !app_nil_r|done..|by left]. }
  unfold execute_direct_swap. apply wp_bind. eapply wp_mono; [apply source_balance_spec|].
  intros t1 [balance|e|] (Hf & Hn & Hb); [|by apply Hstop|by apply Hstop].
  assert (Hquiet : forall t o, execs t = [] -> (forall u, o <> Ok u) -> swap_session params (t1 ++ t) o).
  { intros t o Ht Ho. apply Hstop; [|by intros; rewrite execs_app, Hn, Ht|done].
    unfold sends_only. by rewrite execs_app, Ht, app_nil_r. }
  apply wp_if; intros _; [by apply wp_ret, Hquiet|].
  apply wp_bind. eapply wp_mono; [apply read_from_db_spec|].
  intros t2 [pools|e|] [Ht2 Hp]; [|by apply Hquiet|by apply Hquiet].
  destruct Hp as (all & -> & Hread). apply wp_bind, wp_ret.
  destruct (swap_path _ _ _) as [path|e|] eqn:Hpath; [|by apply Hquiet; [execs_simpl; rewrite Ht2|]..].
  apply wp_bind, wp_ret. unfold validate_length.
  destruct (N.ltb_spec MAX_HOPS (len path)) as [_|Hlen]; cbn [dex_result];
    [apply Hquiet; [execs_simpl; by rewrite Ht2|done]|].
  apply wp_bind. eapply wp_mono; [apply setup_storage_spec|]. cbn beta.
  assert (Hsetup : forall t3 needed rest o,
    well_formed_session is_mainnet w needed (keep_wnear_only is_mainnet)
      (max_top_up_from_config (tc_max_top_up cfg)) (execs t3) ->
    ((execs rest = [] /\ forall u, o <> Ok u) \/
      sent_swap params (t1 ++ t2 ++ [] ++ [] ++ t3 ++ rest) o needed (execs rest)) ->
    swap_session params (t1 ++ t2 ++ [] ++ [] ++ t3 ++ rest) o).
  { intros t3 needed rest o Hw Hs. exists (execs t1), (execs t3), (execs rest), needed.
    split_and!; [|done..]. rewrite !execs_app, Ht2. done. }
  intros t3 o3 (needed & Hw & Hall). rewrite <- (app_nil_r t3).
  destruct o3 as [[]|e|]; [|by apply (Hsetup _ needed); [|left]..]. rewrite app_nil_r.
  eapply wp_mono; [apply (swap_and_record_spec params); by eapply swap_path_nonempty|].
  intros t4 o [Hno|(acts & out & Hx & Hs & Hrec)]; apply (Hsetup _ needed); [done|by left|done|right].
  pose proof Hs as (a & z & est & Hb' & Ha & Hz & _).
  exists all, path, balance. eexists _, out, acts, a, z. split_and!; [|done|done|by apply Hall| |done|done|done|done|done| |].
  - eapply pools_read_mono; [|exact Hread]. intros x Hx0. rewrite !elem_of_app. by right; left.
  - by apply reported_app.
  - intros Hnd. by eapply swaps_along_ends.
  - intros ->. destruct (Hrec eq_refl) as (tx & actual & Hin). exists tx, actual.
    rewrite !elem_of_app. tauto.
Qed.
End swap_session.

(** ** Snapshots *)
Section snapshots.
Context {D : Type} `{BigDecimal D}.

Definition held (m : gmap TokenAccount (TokenAmount D)) (token : TokenAccount) : option (TokenAmount D) :=
  match m !! token with
  | Some a => if token_amount_is_zero a then None else Some a
  | None => None
  end.

Lemma holdings_fold (l : list (TokenAccount * TokenAmount D))
    (m : gmap TokenAccount (TokenAmount D)) token :
  NoDup l.*1 ->
  foldl (fun m h => <[th_token h := with_decimals (th_balance h) (th_decimals h)]> m) m
    (map (fun '(t, a) => mkTokenHolding t (to_smallest_units a) (amount_decimals a))
      (bfilter (fun '(_, a) => negb (token_amount_is_zero a)) l)) !! token =
  match (list_to_map l : gmap TokenAccount (TokenAmount D)) !! token with
  | Some a => if token_amount_is_zero a then m !! token else Some a
  | None => m !! token
  end.
Proof.
  revert m. induction l as [|[t a] l IH]; intros m Hnd; [done|].
  cbn [fmap list_fmap] in Hnd. apply list.NoDup_cons in Hnd as [Ht Hnd].
  cbn [list_to_map bfilter List.filter]. fold (bfilter (A := TokenAccount * TokenAmount D)).
  assert (Hl : (list_to_map l : gmap TokenAccount (TokenAmount D)) !! t = None)
    by (by apply not_elem_of_list_to_map_1).
  destruct (decide (t = token)) as [->|Hne].
  - cbn. rewrite lookup_insert_eq. destruct (token_amount_is_zero a); cbn [negb map foldl].
    + rewrite IH by done. by rewrite Hl.
    + rewrite IH by done. rewrite Hl. cbn. rewrite lookup_insert_eq. by destruct a.
  - cbn. rewrite lookup_insert_ne by done.
    destruct (token_amount_is_zero a); cbn [negb map foldl]; rewrite IH by done; [done|].
    cbn. by rewrite lookup_insert_ne.
Qed.

End snapshots.

Section theorems.
Context (P D : Type) `{BigDecimal D} `{!Rows P D} `{PathFinderLaws}.
Context `{!FromSlice P (option StorageBalance)} `{!FromSlice P (gmap TokenAccount N)}.
Context `{!FromSlice P StorageBalanceBounds} `{!FromSlice P TokenMetadata}.
Context (show_tx : TxId -> string).
Context (is_mainnet : bool) (w : Wallet) (cfg : TradeConfig).

(** C2: A direct swap, whatever the node and the database answer, sends first
    the calls that fund the exchange (none unless the source is wrapped NEAR),
    then a storage session for exactly the tokens of its path, within the
    configured cap, and then at most one [swap] call, exactly one when it
    succeeds.  That call spends the requested amount or the whole balance, never
    more than the exchange reported, along a path of at most ten hops found
    between the two tokens, and accepts no less than the slippage policy allows
    of the path's estimate; a success is recorded with the amounts of the call. *)
Theorem direct_swap_session params t o :
  run (execute_direct_swap (D:=D) (P:=P) show_tx is_mainnet w cfg params) t o ->
  swap_session (D:=D) show_tx is_mainnet w cfg params t o.
Proof. apply direct_swap_wp. Qed.

(** Holdings that were recorded and read back are the balances that were
    recorded, without the tokens of balance zero. *)
Theorem snapshot_round_trip (balances : gmap TokenAccount (TokenAmount D)) token :
  holdings_to_balances (balances_to_holdings balances) !! token = held balances token.
Proof.
  unfold holdings_to_balances, balances_to_holdings.
  rewrite holdings_fold by apply btree_iter_NoDup_keys. rewrite lookup_empty. unfold held.
  replace (list_to_map (btree_iter balances)) with balances; [done|].
  transitivity (list_to_map (map_to_list balances) : gmap TokenAccount (TokenAmount D));
    [symmetry; apply list_to_map_to_list|].
  apply list_to_map_proper; [apply NoDup_fst_map_to_list|]. symmetry. apply btree_iter_perm.
Qed.
End theorems.

(** ** A concrete desk

    A finder that only knows direct hops, and a node and database with fixed
    answers: 1000 of [usdt] deposited, one pool. *)
Definition index_of (l : list TokenAccount) (t : TokenAccount) : option N :=
  N.of_nat <$> (list_find (fun x => x = t) l ≫= (fun x => Some x.1)).

Definition direct_hop (from to : TokenAccount) (p : PoolInfo) : option TokenPair :=
  match index_of (tokens p) from, index_of (tokens p) to with
  | Some i, Some j => Some (mkTokenPair p (mkTokenIn i) (mkTokenOut j))
  | _, _ => None
  end.
#[global] Instance direct_finder : PathFinder := fun pools from to =>
  match omap (direct_hop from to) (pools_list pools) with
  | tp :: _ => Ok [tp]
  | [] => Err (Anyhow "goal token not found" [])
  end.

Lemma index_of_lookup l t i : index_of l t = Some i -> l !! N.to_nat i = Some t.
Proof.
  unfold index_of. destruct (list_find _ l) as [[k x]|] eqn:E; [|done].
  intros [= <-]. apply list_find_Some in E as (Hx & -> & _). by rewrite Nat2N.id.
Qed.

#[global] Instance direct_finder_laws : PathFinderLaws.
Proof.
  split.
  - intros pools from to path. unfold swap_path, direct_finder. destruct (omap _ _); [done|].
    by intros [= <-].
  - intros pools from to path first l E _ _ Hf Hl. unfold swap_path, direct_finder in E.
    destruct (omap (direct_hop from to) (pools_list pools)) as [|tp rest] eqn:Ho; [done|].
    injection E as <-. cbn in Hf, Hl. simplify_eq.
    assert (Hin : l ∈ omap (direct_hop from to) (pools_list pools)) by (rewrite Ho; apply list_elem_of_here).
    apply list_elem_of_omap in Hin as (p & _ & Hp). unfold direct_hop in Hp.
    destruct (index_of (tokens p) from) as [i|] eqn:Hi; [|done].
    destruct (index_of (tokens p) to) as [j|] eqn:Hj; [|done]. simplify_eq.
    apply index_of_lookup in Hi, Hj. unfold token_in_id, token_out_id, token. cbn.
    unfold tokens in Hi, Hj. by rewrite Hi, Hj.
Qed.

#[global] Instance cell_metadata : FromSlice cell TokenMetadata :=
  fun c => match c with CAmount n => Some (mkTokenMetadata n) | _ => None end.

Definition desk_row : DbPoolInfo cell :=
  mkDbPoolInfo 0 "SIMPLE_POOL" (CIds ["usdt"; "wrap.near"]%string) (CAmounts [1000000; 2000000])
    30 (CAmount 1) 0 5.
Definition desk_view (method : string) : cell :=
  if String.eqb method "get_deposits" then CDeposits {[ "usdt" := 1000; "wrap.near" := 0 ]}
  else if String.eqb method "storage_balance_of"
  then CBalance (Some {| total := 10 ^ 22; available := 10 ^ 21 |})
  else if String.eqb method "storage_balance_bounds"
  then CBounds {| bounds_min := 1250; bounds_max := None |}
  else CAmount 6.
Definition desk_db (q : Query) : cell :=
  match q with
  | QLatestPool _ => CPool (Some desk_row)
  | QPoolsBetween _ _ => CPools [desk_row]
  | _ => CNothing
  end.
Definition desk_answer (r : Req) (s : unit) : Resp cell r * unit :=
  (match r return Resp cell r with
   | RView _ m _ => inl (desk_view m)
   | RExec _ _ _ _ _ | RTransfer _ _ _ => inl 7
   | RWait _ => inl (SuccessValue (CAmount 1990))
   | RNative _ => inl (10 ^ 25)
   | RWaitExecuted _ => inl "hash"
   | RRecordTrade _ _ _ _ _ _ _ => inl tt
   | RNow | RLoadLastHarvest | RLoadHarvestTime => 0
   | RStoreLastHarvest _ | RStoreHarvestTime _ | RLock _ | RUnlock _ | RCacheDecimals _ _ | RReplaceDecimals _ | RSleep _ | RReloadConfig => tt
   | RPredict _ _ => inr (External "no predictor")
   | RSetting _ => 0
   | RDb q => inl (desk_db q)
   | RUtcNow => 100%Z
   | RReadInputs => (0, 0)
   | RGasPrice => inl 100000000
   | RDecimals _ => None
   end, s).

Definition desk_wallet : Wallet := {| account_id := "me.near"; signer := "me.near" |}.
Definition desk_config : TradeConfig :=
  mkTradeConfig (mkBalancesConfig 50 86400 128 (Some "harvest.near"))
    (mkHarvestConfig (Some "harvest.near") 0 1 86400) (10 ^ 24) 10 true false 60.
Definition desk_params : SwapParams :=
  mkSwapParams "usdt" "wrap.near" (Some 400) "eval_1" Unprotected.
Definition desk_swap := interp desk_answer
  (execute_direct_swap (D:=Q) (fun _ => "tx") true desk_wallet desk_config desk_params) tt.

Example desk_swap_run :
  desk_swap.1.1 = Ok tt /\ ec_method <$> execs desk_swap.1.2 = ["swap"].
Proof. by vm_compute. Qed.

Lemma direct_swap_session_witness :
  swap_session (D:=Q) (fun _ => "tx") true desk_wallet desk_config desk_params
    desk_swap.1.2 desk_swap.1.1.
Proof.
  apply (direct_swap_session cell Q (fun _ => "tx") true desk_wallet desk_config desk_params).
  apply interp_run.
Defined.
