(* ===== verification/Execution.v ===== *)
(** * Execution: trading actions and rebalancing

    [crates/trade/src/execution.rs]: how a list of trading actions becomes
    direct swaps, and the four phases of a rebalance with their fallbacks (the
    evaluation periods are in [Periods]).  Every swap goes through
    [execute_direct_swap] of [TradeSwap]; [made] describes a run by the direct
    swaps it consists of, so that what is proved of one swap holds of each.  As
    elsewhere, an arithmetic overflow or a failed [debug_assert] is a panic. *)

From Stdlib Require Import QArith Qround Qabs Lqa SpecFloat.
From S2P Require Import Prelude NearClient StoragePlanner Storage F64 BigDecimal Dex Swap Units.
From S2P Require Import Matching Balances Slippage Harvest Records TradeSwap.
Local Open Scope N_scope.

Record PhaseCounters := mkPhaseCounters { ph_success : N; ph_failed : N }.
Definition no_count : PhaseCounters := mkPhaseCounters 0 0.
Definition one_success (c : PhaseCounters) : PhaseCounters := mkPhaseCounters (ph_success c + 1) (ph_failed c).
Definition one_failed (c : PhaseCounters) : PhaseCounters := mkPhaseCounters (ph_success c) (ph_failed c + 1).

Definition buy_policy (token : TokenAccount) (expected_returns : gmap TokenAccount f64) : SlippagePolicy :=
  match expected_returns !! token with
  | Some r => FromExpectedReturn r
  | None => Unprotected
  end.

Record ExecutionSummary := mkExecutionSummary { success_count : N; failed_count : N }.

Section types.
Context (D : Type).
Inductive TradingAction : Type :=
| Hold
| Sell (token target : TokenAccount)
| Switch (from to : TokenAccount)
| Rebalance (target_weights : gmap TokenAccount D)
| AddPosition (token : TokenAccount) (weight : D)
| ReducePosition (token : TokenAccount) (weight : D).
End types.
Arguments Hold {D}.
Arguments Sell {D}.
Arguments Switch {D}.
Arguments Rebalance {D}.
Arguments AddPosition {D}.
Arguments ReducePosition {D}.

(** ** Amounts *)
Section amounts.
Context {D : Type} `{BigDecimal D}.

(** The sign is a [debug_assert]; the integer part is converted. *)
Definition token_amount_to_u128 (a : TokenAmount D) : outcome anyhow N :=
  if bd_ltb (smallest_units a) bd_zero then Panic
  else ok_or (Anyhow "TokenAmount out of u128 range" []) (bd_to_u128 (smallest_units a)).

(** Arithmetic on [u128] that traps on overflow. *)
Definition add_u128 {E} (a b : N) : outcome E N := expect (checked_add a b).
Definition mul_u128 {E} (a b : N) : outcome E N := expect (checked_mul a b).
Fixpoint sum_u128 {E} (acc : N) (l : list N) : outcome E N :=
  match l with [] => Ok acc | x :: l => let? acc := add_u128 acc x in sum_u128 acc l end.

(** A weight in basis points of the total. *)
Definition weight_bps {E} (total_weight w : D) : outcome E N :=
  if bd_is_zero total_weight then Ok 0
  else
    let? share := bd_quot w total_weight in
    Ok (default 0 (bd_to_u128 (bd_mul share (bd_of_Z 10000)))).

Fixpoint allocate_from (balance total_bps allocated : N) (positions : list (N * N))
    : outcome anyhow (list (N * N)) :=
  match positions with
  | [] => Ok []
  | (idx, bps) :: rest =>
      let? amount :=
        match rest with
        | [] => Ok (saturating_sub balance allocated)
        | _ =>
            if 0 <? total_bps then
              let? whole := mul_u128 (balance / total_bps) bps in
              let? part := mul_u128 (balance mod total_bps) bps in
              add_u128 whole (part / total_bps)
            else Ok 0
        end in
      let? r := allocate_from balance total_bps (saturating_add allocated amount) rest in
      Ok ((idx, amount) :: r)
  end.

Definition allocate_add_position_amounts (add_positions : list (N * D)) (balance : N)
    : outcome anyhow (list (N * N)) :=
  match add_positions with
  | [] => Ok []
  | _ =>
      let total_weight := bd_sum add_positions.*2 in
      let? weights_bps := try_map (weight_bps total_weight) add_positions.*2 in
      let? total_bps := sum_u128 0 weights_bps in
      allocate_from balance total_bps 0 (zip add_positions.*1 weights_bps)
  end.

Fixpoint add_positions_from (idx : N) (actions : list (TradingAction D)) : list (N * D) :=
  match actions with
  | [] => []
  | AddPosition _ weight :: rest => (idx, weight) :: add_positions_from (idx + 1) rest
  | _ :: rest => add_positions_from (idx + 1) rest
  end.
End amounts.

Section model.
Context {P D : Type} `{BigDecimal D} `{!Rows P D} `{PathFinder}.
Context `{!FromSlice P (option StorageBalance)} `{!FromSlice P (gmap TokenAccount N)}.
Context `{!FromSlice P StorageBalanceBounds} `{!FromSlice P TokenMetadata}.
Context (valid_account : string -> bool) (show_tx : TxId -> string).
Context (sort_sells : list (SellOperation D) -> list (SellOperation D)).
Context (sort_buys : list (BuyOperation D) -> list (BuyOperation D)).
Context (is_mainnet : bool) (w : Wallet) (cfg : TradeConfig).

Abbreviation wnear := (WNEAR_TOKEN is_mainnet).
Abbreviation direct_swap := (execute_direct_swap (D:=D) show_tx is_mainnet w cfg).
Abbreviation deposits_of := (get_deposits is_mainnet (account_id w)).

(** [ActionContext]. *)
Record ActionContext := mkActionContext {
  ctx_swap_amount_override : option N;
  ctx_evaluation_period_id : string;
  ctx_expected_returns : gmap TokenAccount f64;
}.

Definition precompute_add_position_amounts (actions : list (TradingAction D)) : prog P (gmap N N) :=
  match add_positions_from 0 actions with
  | [] => Ret (Ok ∅)
  | add_positions =>
      let! deposits := deposits_of in
      let balance := default 0 (deposits !! wnear) in
      let! amounts := lift (allocate_add_position_amounts add_positions balance) in
      Ret (Ok (list_to_map (rev amounts)))
  end.

(** ** execute_rebalance *)

(** The rate a holding is valued and sold at. *)
Definition spot_of (token : TokenAccount) (amount : option (TokenAmount D))
    : prog P (option (ExchangeRate D)) :=
  match amount with
  | Some a =>
      if token_amount_is_zero a then Ret (Ok None)
      else
        let! rate := rate_get_latest valid_account token wnear in
        let! r := lift (ok_or (Anyhow "No rate found for token" []) rate) in
        let! spot := lift (to_spot_rate r) in
        if is_effectively_zero spot then Ret (Ok None) else Ret (Ok (Some spot))
  | None => Ret (Ok None)
  end.

(** What one token needs: a sell, a buy or nothing; trades below 1 NEAR are left out. *)
Definition rebalance_token (total : NearValue D) (balances : gmap TokenAccount (TokenAmount D))
    (token : TokenAccount) (target_weight : D)
    : prog P (option (SellOperation D) * option (BuyOperation D)) :=
  let current_amount := balances !! token in
  let! spot_rate := spot_of token current_amount in
  let! current_value :=
    match current_amount, spot_rate with
    | Some a, Some rate =>
        if token_amount_is_zero a then Ret (Ok near_value_zero) else lift (amount_div_rate a rate)
    | _, _ => Ret (Ok near_value_zero)
    end in
  let target_value := near_value_scale total target_weight in
  let diff := near_value_sub target_value current_value in
  if nv_ltb diff near_value_zero && nv_leb near_value_one (near_value_abs diff) then
    let! rate := lift (ok_or (Anyhow "No cached rate for sell operation" []) spot_rate) in
    Ret (Ok (Some (mkSell token (near_value_abs diff) rate), None))
  else if nv_ltb near_value_zero diff && nv_leb near_value_one diff then
    Ret (Ok (None, Some (mkBuy token diff)))
  else Ret (Ok (None, None)).

Definition of_option {A} (o : option A) : list A := match o with Some a => [a] | None => [] end.

Fixpoint rebalance_operations (total : NearValue D) (balances : gmap TokenAccount (TokenAmount D))
    (targets : list (TokenAccount * D)) (sells : list (SellOperation D)) (buys : list (BuyOperation D))
    : prog P (list (SellOperation D) * list (BuyOperation D)) :=
  match targets with
  | [] => Ret (Ok (sells, buys))
  | (token, weight) :: rest =>
      if bd_ltb weight bd_zero then rebalance_operations total balances rest sells buys
      else if String.eqb token wnear then rebalance_operations total balances rest sells buys
      else
        let! op := rebalance_token total balances token weight in
        rebalance_operations total balances rest (sells ++ of_option op.1) (buys ++ of_option op.2)
  end.

(** The amount of tokens a value stands for. *)
Definition sell_amount (value : NearValue D) (rate : ExchangeRate D) : outcome anyhow N :=
  token_amount_to_u128 (near_value_mul_rate value rate).

(** The matched swaps: a failed one falls back to the route over wrapped NEAR. *)
Fixpoint direct_phase (period : string) (swaps : list (DirectSwap D)) (counters : PhaseCounters)
    (sells : list (SellOperation D)) (buys : list (BuyOperation D))
    : prog P (PhaseCounters * list (SellOperation D) * list (BuyOperation D)) :=
  match swaps with
  | [] => Ret (Ok (counters, sells, buys))
  | ds :: rest =>
      let fall_back :=
        direct_phase period rest (one_failed counters)
          (sells ++ [mkSell (swap_sell_token ds) (swap_value ds) (swap_sell_rate ds)])
          (buys ++ [mkBuy (swap_buy_token ds) (swap_value ds)]) in
      let! converted := attempt (lift (sell_amount (swap_value ds) (swap_sell_rate ds))) in
      match converted with
      | inr _ => fall_back
      | inl amount =>
          if amount =? 0 then fall_back
          else
            let! result := attempt (direct_swap
              (mkSwapParams (swap_sell_token ds) (swap_buy_token ds) (Some amount) period Unprotected)) in
            match result with
            | inl _ => direct_phase period rest (one_success counters) sells buys
            | inr _ => fall_back
            end
      end
  end.

Fixpoint sell_phase (period : string) (sells : list (SellOperation D)) (counters : PhaseCounters)
    : prog P PhaseCounters :=
  match sells with
  | [] => Ret (Ok counters)
  | sell :: rest =>
      let! converted := attempt (lift (sell_amount (sell_value sell) (sell_rate sell))) in
      match converted with
      | inr _ => sell_phase period rest (one_failed counters)
      | inl amount =>
          if amount =? 0 then sell_phase period rest (one_failed counters)
          else
            let! result := attempt (direct_swap
              (mkSwapParams (sell_token sell) wnear (Some amount) period Unprotected)) in
            match result with
            | inl _ => sell_phase period rest (one_success counters)
            | inr _ => sell_phase period rest (one_failed counters)
            end
      end
  end.

(** The share of one buy; the last one takes what is left when the buys have
    to be scaled down. *)
Definition buy_amount (available : N) (ratio : option D) (is_last : bool) (allocated : N)
    (buy : BuyOperation D) : outcome anyhow N :=
  match is_last, ratio with
  | true, Some _ => Ok (saturating_sub available allocated)
  | _, _ =>
      let adjusted :=
        match ratio with
        | Some r => near_value_scale (buy_value buy) r
        | None => buy_value buy
        end in
      yocto_amount_to_u128 (yocto_value_to_amount (near_value_to_yocto adjusted))
  end.

Definition is_nil {A} (l : list A) : bool := match l with [] => true | _ => false end.

Fixpoint buy_loop (period : string) (expected_returns : gmap TokenAccount f64) (available : N)
    (ratio : option D) (buys : list (BuyOperation D)) (allocated : N) (counters : PhaseCounters)
    : prog P PhaseCounters :=
  match buys with
  | [] => Ret (Ok counters)
  | buy :: rest =>
      let! amount := lift (buy_amount available ratio (is_nil rest) allocated buy) in
      let allocated := saturating_add allocated amount in
      if amount =? 0 then buy_loop period expected_returns available ratio rest allocated (one_failed counters)
      else
        let! result := attempt (direct_swap
          (mkSwapParams wnear (buy_token buy) (Some amount) period
             (buy_policy (buy_token buy) expected_returns))) in
        match result with
        | inl _ => buy_loop period expected_returns available ratio rest allocated (one_success counters)
        | inr _ => buy_loop period expected_returns available ratio rest allocated (one_failed counters)
        end
  end.

(** How much the buys have to be scaled down to fit the wrapped NEAR. *)
Definition buy_ratio (available : N) (buys : list (BuyOperation D)) : option D :=
  let available_value := yocto_value_to_near (from_yocto (bd_of_N available)) in
  let total_buy_value := near_value_sum (buy_value <$> buys) in
  if nv_ltb available_value total_buy_value
  then Some (near_value_ratio available_value total_buy_value) else None.

Definition buy_phase (period : string) (expected_returns : gmap TokenAccount f64)
    (buys : list (BuyOperation D)) : prog P PhaseCounters :=
  match buys with
  | [] => Ret (Ok no_count)
  | _ =>
      let! deposits := deposits_of in
      let available := default 0 (deposits !! wnear) in
      if available =? 0 then Ret (Ok no_count)
      else buy_loop period expected_returns available (buy_ratio available buys) buys 0 no_count
  end.

Definition tokens_to_query (target_weights : gmap TokenAccount D) : list TokenAccount :=
  (btree_iter target_weights).*1 ++
    (if decide (is_Some (target_weights !! wnear)) then [] else [wnear]).

(** The operations of a rebalance, then its three phases. *)
Definition execute_rebalance (target_weights : gmap TokenAccount D) (period : string)
    (expected_returns : gmap TokenAccount f64) : prog P unit :=
  let! recorded := get_holdings_from_db period in
  let! current_balances :=
    match recorded with
    | Some holdings => Ret (Ok holdings)
    | None => get_current_portfolio_balances is_mainnet w (tokens_to_query target_weights)
    end in
  let! total := calculate_total_portfolio_value valid_account is_mainnet current_balances in
  let! ops := rebalance_operations total current_balances (btree_iter target_weights) [] [] in
  let! matched :=
    lift (match match_rebalance_operations sort_sells sort_buys ops.1 ops.2 with
          | Some r => r
          | None => Panic
          end) in
  let! done := direct_phase period (direct_swaps matched) no_count [] [] in
  let '(direct, fallback_sells, fallback_buys) := done in
  let remaining_sells := remaining_sells matched ++ fallback_sells in
  let remaining_buys := remaining_buys matched ++ fallback_buys in
  let! sold := sell_phase period remaining_sells no_count in
  let! bought := buy_phase period expected_returns remaining_buys in
  let total_success := ph_success direct + ph_success sold + ph_success bought in
  let total_failed := ph_failed direct + ph_failed sold + ph_failed bought in
  if (total_success =? 0) && (0 <? total_failed)
  then Ret (Err (Anyhow "All rebalance operations failed" [total_failed]))
  else Ret (Ok tt).

(** ** execute_single_action and execute_trading_actions *)
Definition execute_single_action (action : TradingAction D) (ctx : ActionContext) : prog P unit :=
  let period := ctx_evaluation_period_id ctx in
  let returns := ctx_expected_returns ctx in
  match action with
  | Hold => Ret (Ok tt)
  | Sell token target =>
      let! _ :=
        if String.eqb token wnear then Ret (Ok tt)
        else direct_swap (mkSwapParams token wnear None period Unprotected) in
      if String.eqb target wnear then Ret (Ok tt)
      else direct_swap (mkSwapParams wnear target None period (buy_policy target returns))
  | Switch from to => direct_swap (mkSwapParams from to None period (buy_policy to returns))
  | Rebalance target_weights => execute_rebalance target_weights period returns
  | AddPosition token weight =>
      if String.eqb token wnear then Ret (Ok tt)
      else
        let! swap_amount :=
          lift (ok_or (Anyhow "No pre-computed swap amount for AddPosition" [])
                  (ctx_swap_amount_override ctx)) in
        if swap_amount =? 0 then Ret (Err (Anyhow "Pre-computed swap amount is 0" []))
        else direct_swap (mkSwapParams wnear token (Some swap_amount) period (buy_policy token returns))
  | ReducePosition token weight =>
      if String.eqb token wnear then Ret (Ok tt)
      else direct_swap (mkSwapParams token wnear None period Unprotected)
  end.

Fixpoint execute_actions_from (idx : N) (amounts : gmap N N) (actions : list (TradingAction D))
    (period : string) (expected_returns : gmap TokenAccount f64) (summary : ExecutionSummary)
    : prog P ExecutionSummary :=
  match actions with
  | [] => Ret (Ok summary)
  | action :: rest =>
      let ctx := mkActionContext (amounts !! idx) period expected_returns in
      let! result := attempt (execute_single_action action ctx) in
      execute_actions_from (idx + 1) amounts rest period expected_returns
        (match result with
         | inl _ => mkExecutionSummary (success_count summary + 1) (failed_count summary)
         | inr _ => mkExecutionSummary (success_count summary) (failed_count summary + 1)
         end)
  end.

Definition execute_trading_actions (actions : list (TradingAction D)) (period : string)
    (expected_returns : gmap TokenAccount f64) : prog P ExecutionSummary :=
  let! amounts := precompute_add_position_amounts actions in
  execute_actions_from 0 amounts actions period expected_returns (mkExecutionSummary 0 0).
End model.

(** ** Allocation in basis points *)
Section allocation.
Context {D : Type} `{BigDecimalLaws D}.

Lemma default_to_u128_le (v : D) : (0 <= bd_val v)%Q ->
  (inject_Z (Z.of_N (default 0%N (bd_to_u128 v))) <= bd_val v)%Q.
Proof.
  intros Hv. destruct (bd_to_u128 v) as [n|] eqn:E; cbn; [|done].
  apply to_u128_bounds in E as [[Hn _] _]. done.
Qed.

(** The share of a weight is rounded down, but for the error of the division. *)
Lemma weight_bps_bound {E} (total wt : D) : (0 < bd_val total)%Q -> (0 <= bd_val wt)%Q ->
  exists n, weight_bps (E:=E) total wt = Ok n /\
    (inject_Z (Z.of_N n) <= bd_val wt / bd_val total * 10000 * (1 + / inject_Z (10 ^ 99)))%Q.
Proof.
  intros Ht Hw. unfold weight_bps, bd_quot.
  rewrite (proj2 (bd_is_zero_false total)) by lra. cbn. eexists. split; [done|].
  destruct (div_error_bound wt total) as (e & He & Hv); [lra|].
  assert (Hq : (0 <= bd_val wt / bd_val total)%Q) by (apply Qle_shift_div_l; lra).
  assert (Hu : (/ inject_Z (10 ^ 99) < 1)%Q) by reflexivity.
  apply Qabs_Qle_condition in He.
  assert (Hval : (bd_val (bd_mul (bd_div wt total) (bd_of_Z 10000)) ==
    bd_val wt / bd_val total * 10000 * (1 + e))%Q).
  { rewrite val_mul, val_of_Z, Hv. change (inject_Z 10000) with 10000%Q. ring. }
  set (q := (bd_val wt / bd_val total)%Q) in *. set (u := (/ inject_Z (10 ^ 99))%Q) in *.
  assert (Hq' : (0 <= q * 10000)%Q) by lra.
  assert (H0' : (0 <= bd_val (bd_mul (bd_div wt total) (bd_of_Z 10000)))%Q)
    by (rewrite Hval; apply Qmult_le_0_compat; lra).
  eapply Qle_trans; [by apply default_to_u128_le|]. rewrite Hval.
  rewrite !(Qmult_comm (q * 10000)). apply Qmult_le_compat_r; lra.
Qed.

Lemma bps_sum_bound {E} (total : D) (ws : list D) : (0 < bd_val total)%Q ->
  Forall (fun wt => 0 <= bd_val wt)%Q ws ->
  exists ns, try_map (weight_bps (E:=E) total) ws = Ok ns /\ length ns = length ws /\
    (inject_Z (Z.of_N (sumN ns)) <=
       sumQ (map bd_val ws) / bd_val total * 10000 * (1 + / inject_Z (10 ^ 99)))%Q.
Proof.
  intros Ht Hws. induction Hws as [|wt ws Hw Hws (ns & IH & Hl & Hs)]; cbn [try_map].
  - exists []. split; [done|]. split; [done|]. cbn [map]. rewrite sumQ_nil. unfold Qdiv. vm_compute. done.
  - destruct (weight_bps_bound (E:=E) total wt Ht Hw) as (n & -> & Hn). cbn [obind]. rewrite IH. cbn [obind].
    exists (n :: ns). split; [done|]. split; [by cbn; rewrite Hl|].
    cbn [map]. rewrite sumQ_cons, sumN_cons, N2Z.inj_add, inject_Z_plus.
    set (u := (1 + / inject_Z (10 ^ 99))%Q) in *.
    assert (Hr : ((bd_val wt + sumQ (map bd_val ws)) / bd_val total * 10000 * u ==
      bd_val wt / bd_val total * 10000 * u + sumQ (map bd_val ws) / bd_val total * 10000 * u)%Q)
      by (unfold Qdiv; ring).
    rewrite Hr. lra.
Qed.

(** Together the shares are at most 10000 basis points. *)
Lemma bps_at_most_10000 {E} (ws : list D) : Forall (fun wt => 0 <= bd_val wt)%Q ws ->
  exists ns, try_map (weight_bps (E:=E) (bd_sum ws)) ws = Ok ns /\ length ns = length ws /\
    sumN ns <= 10000.
Proof.
  intros Hws. destruct (bd_is_zero (bd_sum ws)) eqn:Hz.
  - exists (replicate (length ws) 0). split; [|split; [apply length_replicate|]].
    + assert (Hall : forall ws', try_map (weight_bps (E:=E) (bd_sum ws)) ws' =
        Ok (replicate (length ws') 0)); [|apply Hall].
      intros ws'. induction ws' as [|wt ws' IH]; [done|]. cbn [try_map].
      unfold weight_bps at 1. rewrite Hz. cbn. by rewrite IH.
    + apply (N.le_trans _ 0); [|lia]. clear. induction (length ws) as [|n IH]; [done|].
      cbn [replicate]. rewrite sumN_cons. lia.
  - assert (Ht : (0 < bd_val (bd_sum ws))%Q).
    { apply bd_is_zero_false in Hz. rewrite val_sum in *.
      assert (0 <= sumQ (map bd_val ws))%Q; [|lra].
      clear Hz. induction Hws; cbn [map]; rewrite ?sumQ_nil, ?sumQ_cons; lra. }
    destruct (bps_sum_bound (E:=E) (bd_sum ws) ws Ht Hws) as (ns & Hns & Hl & Hs).
    exists ns. split; [done|]. split; [done|].
    assert (Hone : (sumQ (map bd_val ws) / bd_val (bd_sum ws) == 1)%Q)
      by (rewrite <- val_sum; field; lra).
    rewrite Hone in Hs.
    assert (Hlt : (inject_Z (Z.of_N (sumN ns)) < inject_Z 10001)%Q)
      by (eapply Qle_lt_trans; [exact Hs|reflexivity]).
    rewrite <- Zlt_Qlt in Hlt. lia.
Qed.

Lemma sum_u128_sumN {E} acc l : acc + sumN l <= U128_MAX -> sum_u128 (E:=E) acc l = Ok (acc + sumN l).
Proof.
  revert acc. induction l as [|x l IH]; intros acc Hs; cbn [sum_u128]; [by rewrite sumN_nil, N.add_0_r|].
  rewrite sumN_cons in *. unfold add_u128, checked_add.
  rewrite (proj2 (N.leb_le _ _)) by lia. cbn. rewrite IH by lia. f_equal. lia.
Qed.

(** The two-step product is the exact proportion. *)
Lemma proportion {E} balance tb b : 0 < tb -> tb <= 10000 -> b <= tb -> balance <= U128_MAX ->
  (let? whole := mul_u128 (E:=E) (balance / tb) b in
   let? part := mul_u128 (balance mod tb) b in
   add_u128 whole (part / tb)) = Ok (balance * b / tb).
Proof.
  intros Hpos Htb Hb Hbal. pose proof (N.div_mod balance tb ltac:(lia)) as Hdm.
  pose proof (N.mod_lt balance tb ltac:(lia)) as Hm.
  set (q := balance / tb) in *. set (r := balance mod tb) in *.
  assert (Hqb : q * b <= balance) by nia.
  assert (Hrb : r * b <= U128_MAX) by (unfold U128_MAX in *; nia).
  assert (Hdiv : balance * b / tb = q * b + r * b / tb).
  { rewrite Hdm. replace ((tb * q + r) * b) with (q * b * tb + r * b) by lia.
    by rewrite N.div_add_l by lia. }
  assert (Hp : r * b / tb <= r) by (apply N.Div0.div_le_upper_bound; nia).
  unfold mul_u128, add_u128, checked_mul, checked_add.
  rewrite (proj2 (N.leb_le (q * b) _)) by lia. cbn.
  rewrite (proj2 (N.leb_le (r * b) _)) by lia. cbn.
  rewrite (proj2 (N.leb_le _ _)) by nia. cbn. by rewrite Hdiv.
Qed.

Lemma allocate_from_exact balance tb allocated spent (positions : list (N * N)) :
  positions <> [] -> balance <= U128_MAX -> tb <= 10000 ->
  spent + sumN positions.*2 <= tb -> allocated <= balance -> allocated * tb <= balance * spent ->
  exists r, allocate_from balance tb allocated positions = Ok r /\ r.*1 = positions.*1 /\
    sumN r.*2 = balance - allocated.
Proof.
  intros Hne Hbal Htb. revert allocated spent. induction positions as [|[idx b] rest IH]; [done|].
  intros allocated spent Hsum Hall Hinv. cbn [allocate_from].
  destruct rest as [|next rest].
  - eexists. split; [done|]. split; [done|]. unfold saturating_sub. cbn [fmap list_fmap snd].
    rewrite sumN_cons, sumN_nil. lia.
  - cbn [fmap list_fmap] in Hsum. rewrite sumN_cons in Hsum. cbn [snd] in Hsum.
    assert (Hamt : exists a, (if 0 <? tb then
        let? whole := mul_u128 (balance / tb) b in
        let? part := mul_u128 (balance mod tb) b in add_u128 whole (part / tb)
        else Ok 0) = Ok (E:=anyhow) a /\ a * tb <= balance * b /\ allocated + a <= balance).
    { destruct (N.ltb_spec 0 tb) as [H0'|H0'].
      - rewrite proportion by lia. eexists. split; [done|].
        pose proof (N.Div0.mul_div_le (balance * b) tb) as Hle.
        set (a := balance * b / tb) in *. split; [lia|].
        assert ((allocated + a) * tb <= balance * tb) by nia. nia.
      - exists 0. split; [done|]. lia. }
    destruct Hamt as (a & -> & Ha & Hle). cbn [obind].
    unfold saturating_add. rewrite N.min_l by lia.
    destruct (IH ltac:(done) (allocated + a) (spent + b)) as (r & -> & Hidx & Hr); [cbn in *; lia|lia|nia|].
    cbn [obind]. exists ((idx, a) :: r). split; [done|]. rewrite !fmap_cons, Hidx. split; [done|].
    cbn [snd]. rewrite sumN_cons, Hr. lia.
Qed.
End allocation.

(** ** The budget of the buys *)
Section budget.
Context {D : Type} `{BigDecimalLaws D}.

(** What a buy asks for, in yocto. *)
Definition buy_share (ratio : option D) (buy : BuyOperation D) : Q :=
  (nv (buy_value buy) * match ratio with Some r => bd_val r | None => 1 end
    * inject_Z (Z.of_N YOCTO_PER_NEAR))%Q.

Definition within_budget (available : N) (ratio : option D) (allocated : N)
    (buys : list (BuyOperation D)) : Prop :=
  (inject_Z (Z.of_N allocated) + sumQ (map (buy_share ratio) buys)
     < inject_Z (Z.of_N available) + 1)%Q.

Definition fair_ratio (ratio : option D) : Prop :=
  match ratio with Some r => (0 <= bd_val r)%Q | None => True end.

Lemma buy_share_nonneg ratio buy :
  fair_ratio ratio -> (0 <= nv (buy_value buy))%Q -> (0 <= buy_share ratio buy)%Q.
Proof.
  intros Hr Hb. unfold buy_share. apply Qmult_le_0_compat; [|apply inject_Z_nonneg; lia].
  apply Qmult_le_0_compat; [done|]. destruct ratio; [done|]. discriminate.
Qed.

Lemma budget_fits available ratio allocated (buys : list (BuyOperation D)) :
  fair_ratio ratio -> nonneg_buys buys -> within_budget available ratio allocated buys ->
  allocated <= available.
Proof.
  unfold within_budget. intros Hr Hb Hw.
  assert (Hs : (0 <= sumQ (map (buy_share ratio) buys))%Q).
  { clear Hw. induction Hb as [|b bs Hb Hbs IH]; cbn [map]; rewrite ?sumQ_nil, ?sumQ_cons; [lra|].
    pose proof (buy_share_nonneg ratio b Hr Hb). lra. }
  assert (Hlt : (inject_Z (Z.of_N allocated) < inject_Z (Z.of_N available + 1))%Q)
    by (rewrite inject_Z_plus; change (inject_Z 1) with 1%Q; lra).
  rewrite <- Zlt_Qlt in Hlt. lia.
Qed.

(** One buy keeps the budget. *)
Lemma buy_amount_budget available ratio allocated buy (rest : list (BuyOperation D)) :
  fair_ratio ratio -> nonneg_buys (buy :: rest) ->
  within_budget available ratio allocated (buy :: rest) ->
  exists a, buy_amount available ratio (is_nil rest) allocated buy = Ok a /\
    allocated + a <= available /\ within_budget available ratio (allocated + a) rest.
Proof.
  intros Hr Hb Hw. pose proof (budget_fits _ _ _ _ Hr Hb Hw) as Hall.
  apply Forall_cons_1 in Hb as [Hb Hrest].
  assert (Hshare : forall adj : NearValue D,
    (nv adj * inject_Z (Z.of_N YOCTO_PER_NEAR) == buy_share ratio buy)%Q ->
    exists a, yocto_amount_to_u128 (E:=anyhow) (yocto_value_to_amount (near_value_to_yocto adj)) = Ok a /\
      allocated + a <= available /\ within_budget available ratio (allocated + a) rest).
  { intros adj Hadj.
    destruct (to_u128_floor (E:=anyhow) (yocto_value_to_amount (near_value_to_yocto adj)) (buy_share ratio buy))
      as (a & Ha & Hle).
    - cbn. rewrite val_mul, val_of_N. exact Hadj.
    - by apply buy_share_nonneg.
    - exists a. split; [done|].
      assert (Hnew : within_budget available ratio (allocated + a) rest).
      { unfold within_budget in *. cbn [map] in Hw. rewrite sumQ_cons in Hw.
        rewrite N2Z.inj_add, inject_Z_plus. lra. }
      split; [by eapply budget_fits|done]. }
  unfold buy_amount. destruct (is_nil rest) eqn:En; destruct ratio as [r|].
  - destruct rest; [|done]. exists (available - allocated). split; [done|].
    split; [lia|]. unfold within_budget. cbn [map]. rewrite sumQ_nil.
    replace (allocated + (available - allocated)) with available by lia. lra.
  - apply Hshare. unfold buy_share. ring.
  - apply Hshare. unfold buy_share, nv. cbn. rewrite val_mul. ring.
  - apply Hshare. unfold buy_share. ring.
Qed.

(** The ratio the buys are scaled by leaves them within the balance. *)
Lemma buy_shares_sum ratio (buys : list (BuyOperation D)) :
  (sumQ (map (buy_share ratio) buys) == sumQ (map (fun b => nv (buy_value b)) buys)
    * match ratio with Some r => bd_val r | None => 1 end * inject_Z (Z.of_N YOCTO_PER_NEAR))%Q.
Proof.
  induction buys as [|b bs IH]; cbn [map]; rewrite ?sumQ_nil, ?sumQ_cons; [ring|].
  rewrite IH. unfold buy_share. ring.
Qed.

Lemma near_value_sum_val (l : list (NearValue D)) : (nv (near_value_sum l) == sumQ (map nv l))%Q.
Proof.
  unfold near_value_sum, nv.
  assert (Hgen : forall acc : NearValue D, (bd_val (near_value_bd (foldl near_value_add acc l)) ==
    bd_val (near_value_bd acc) + sumQ (map (fun v => bd_val (near_value_bd v)) l))%Q).
  { induction l as [|v l IH]; intros acc; cbn [foldl map]; rewrite ?sumQ_nil, ?sumQ_cons; [ring|].
    rewrite IH. cbn. rewrite val_add. ring. }
  rewrite Hgen. cbn. rewrite val_zero. ring.
Qed.

Lemma buy_ratio_budget available (buys : list (BuyOperation D)) :
  available <= U128_MAX -> nonneg_buys buys ->
  fair_ratio (buy_ratio available buys) /\ within_budget available (buy_ratio available buys) 0 buys.
Proof.
  intros Hav Hb. unfold buy_ratio.
  set (av := yocto_value_to_near (from_yocto (bd_of_N available))).
  set (total := near_value_sum (buy_value <$> buys)).
  set (Y := inject_Z (Z.of_N YOCTO_PER_NEAR)).
  assert (HY : (0 < Y)%Q) by reflexivity.
  assert (Hav_val : (nv av == inject_Z (Z.of_N available) / Y)%Q).
  { unfold av, nv. cbn. rewrite (div_pow10_exact _ _ (Z.of_N available) 24);
      [reflexivity|apply val_of_N|apply val_of_N|by apply u128_digits]. }
  assert (Hav0 : (0 <= nv av)%Q).
  { rewrite Hav_val. apply Qle_shift_div_l; [done|]. rewrite Qmult_0_l. apply inject_Z_nonneg. lia. }
  assert (Htot : (nv total == sumQ (map (fun b => nv (buy_value b)) buys))%Q)
    by (unfold total; rewrite near_value_sum_val, map_map; reflexivity).
  unfold within_budget. rewrite buy_shares_sum, <- Htot. fold Y.
  change (inject_Z (Z.of_N 0)) with 0%Q.
  assert (Hback : (nv av * Y == inject_Z (Z.of_N available))%Q) by (rewrite Hav_val; field; lra).
  destruct (nv_ltb av total) eqn:Hlt.
  - apply nv_ltb_val in Hlt. unfold near_value_ratio, ratio.
    rewrite (proj2 (bd_is_zero_false (near_value_bd total))) by (fold (nv total); lra).
    destruct (div_error_bound (near_value_bd av) (near_value_bd total)) as (e & He & Hv);
      [fold (nv total); lra|]. fold (nv av) (nv total) in Hv. apply Qabs_Qle_condition in He.
    set (u := (/ inject_Z (10 ^ 99))%Q) in *.
    assert (Hu : (u * inject_Z (Z.of_N available) < 1)%Q).
    { eapply Qle_lt_trans; [|instantiate (1 := (u * inject_Z (Z.of_N U128_MAX))%Q); reflexivity].
      rewrite !(Qmult_comm u). apply Qmult_le_compat_r; [|discriminate]. rewrite <- Zle_Qle. lia. }
    assert (Hu1 : (u < 1)%Q) by reflexivity. clearbody u. split.
    + unfold fair_ratio. rewrite Hv. apply Qmult_le_0_compat; [apply Qle_shift_div_l; lra|lra].
    + rewrite Hv.
      assert (Heq : (nv total * (nv av / nv total * (1 + e)) * Y == nv av * Y * (1 + e))%Q) by (field; lra).
      rewrite Heq, Hback.
      assert (Hn : (0 <= inject_Z (Z.of_N available))%Q) by (apply inject_Z_nonneg; lia).
      set (A := inject_Z (Z.of_N available)) in *. clearbody A.
      assert (A * e <= A * u)%Q by (rewrite !(Qmult_comm A); apply Qmult_le_compat_r; lra). lra.
  - apply nv_ltb_false in Hlt. split; [done|].
    assert (nv total * 1 * Y <= nv av * Y)%Q.
    { rewrite Qmult_1_r. apply Qmult_le_compat_r; lra. }
    lra.
Qed.
End budget.

(** ** The swaps of a run

    [made ps t]: the trace is a sequence of complete runs of direct swaps with
    the given parameters and outcomes, and of requests that send nothing. *)
#[local] Arguments execs : simpl never.

Section made.
Context {P D : Type} `{BigDecimal D} `{!Rows P D} `{PathFinder}.
Context `{!FromSlice P (option StorageBalance)} `{!FromSlice P (gmap TokenAccount N)}.
Context `{!FromSlice P StorageBalanceBounds} `{!FromSlice P TokenMetadata}.
Context (show_tx : TxId -> string) (is_mainnet : bool) (w : Wallet) (cfg : TradeConfig).

Abbreviation direct_swap := (execute_direct_swap (P:=P) (D:=D) show_tx is_mainnet w cfg).
Abbreviation swap_log := (list (SwapParams * outcome anyhow unit)).

Inductive made : swap_log -> list (event P) -> Prop :=
| made_quiet t : execs t = [] -> made [] t
| made_swap t p t1 o ps t2 :
    execs t = [] -> run (direct_swap p) t1 o -> made ps t2 -> made ((p, o) :: ps) (t ++ t1 ++ t2).

Lemma made_quiet_app t ps t' : execs t = [] -> made ps t' -> made ps (t ++ t').
Proof.
  intros Ht [t2 Ht2|t2 p t1 o ps' t3 Ht2 Hr Hm].
  - constructor. by rewrite execs_app, Ht, Ht2.
  - rewrite app_assoc. constructor; [by rewrite execs_app, Ht, Ht2|done|done].
Qed.

Lemma made_app ps t qs t' : made ps t -> made qs t' -> made (ps ++ qs) (t ++ t').
Proof.
  intros Hm Hm'. induction Hm as [t Ht|t p t1 o ps t2 Ht Hr Hm IH]; [by apply made_quiet_app|].
  rewrite <- !app_assoc. cbn. by constructor.
Qed.

Lemma made_one p t o : run (direct_swap p) t o -> made [(p, o)] t.
Proof.
  intros Hr. rewrite <- (app_nil_r t). rewrite <- (app_nil_l (t ++ [])).
  constructor; [done|done|by constructor].
Qed.

(** Every transaction of such a trace is one of a direct swap. *)
Definition wpm {A} (p : prog P A) (Q : list (event P) -> swap_log -> outcome anyhow A -> Prop) : Prop :=
  wp p (fun t o => exists ps, made ps t /\ Q t ps o).

Lemma wpm_ret {A} (o : outcome anyhow A) Q : Q [] [] o -> wpm (Ret o) Q.
Proof. intros HQ. apply wp_ret. exists []. split; [by constructor|done]. Qed.

Lemma wpm_mono {A} (p : prog P A) (Q Q' : _ -> _ -> _ -> Prop) :
  wpm p Q -> (forall t ps o, Q t ps o -> Q' t ps o) -> wpm p Q'.
Proof. intros Hp HQ. eapply wp_mono; [exact Hp|]. intros t o (ps & Hm & Hq). eauto. Qed.

Lemma wpm_bind {A B} (p : prog P A) (k : A -> prog P B) Q :
  wpm p (fun t ps o =>
    match o with
    | Ok a => wpm (k a) (fun t' ps' o' => Q (t ++ t') (ps ++ ps') o')
    | Err e => Q t ps (Err e)
    | Panic => Q t ps Panic
    end) ->
  wpm (bind p k) Q.
Proof.
  intros Hp. apply wp_bind. eapply wp_mono; [exact Hp|]. intros t [a|e|] (ps & Hm & Hq); [|by eexists..].
  eapply wp_mono; [exact Hq|]. intros t' o' (ps' & Hm' & Hq'). exists (ps ++ ps').
  split; [by apply made_app|done].
Qed.

Lemma wpm_attempt {A} (p : prog P A) Q :
  wpm p (fun t ps o =>
    match o with
    | Ok a => Q t ps (Ok (inl a))
    | Err e => Q t ps (Ok (inr e))
    | Panic => Q t ps Panic
    end) ->
  wpm (attempt p) Q.
Proof.
  intros Hp. apply wp_attempt. eapply wp_mono; [exact Hp|].
  intros t [a|e|] (ps & Hm & Hq); by eexists.
Qed.

Lemma wpm_swap p Q : (forall t o, Q t [(p, o)] o) -> wpm (direct_swap p) Q.
Proof. intros HQ t o Hr. exists [(p, o)]. split; [by apply made_one|done]. Qed.

(** A call that sends nothing. *)
Definition silent {A} (p : prog P A) : Prop := wp p (fun t _ => execs t = []).
Lemma wpm_silent {A} (p : prog P A) Q : silent p -> (forall t o, Q t [] o) -> wpm p Q.
Proof.
  intros Hp HQ. eapply wp_mono; [exact Hp|]. intros t o Ht. exists []. split; [by constructor|done].
Qed.

Definition no_execs (t : list (event P)) : Prop := execs t = [].
#[export] Instance no_execs_composable : Composable no_execs.
Proof. split; [done|]. unfold no_execs. intros t t' Ht Ht'. by rewrite execs_app, Ht, Ht'. Qed.

(** The balance of a token in a report of the deposits. *)
Lemma wpm_deposits (token : TokenAccount) Q :
  (forall t e, Q t [] (Err e)) ->
  (forall t m, reported is_mainnet w token (default 0 (m !! token)) t -> Q t [] (Ok m)) ->
  wpm (get_deposits is_mainnet (account_id w)) Q.
Proof.
  intros He Hm. unfold get_deposits. apply wp_bind, wp_call. intros [raw|e].
  - apply wp_ret. unfold decode. destruct (from_slice raw) as [m|] eqn:E; cbn.
    + exists []. split; [by constructor|]. apply Hm. exists raw, m.
      split; [apply list_elem_of_here|done].
    + exists []. split; [by constructor|apply He].
  - exists []. split; [by constructor|apply He].
Qed.
End made.

Ltac silent :=
  unfold silent; match goal with |- wp ?p _ => change (keeps p no_execs) end;
  repeat keeps_step ltac:(by apply keeps_call; intros ?).

Section phases.
Context {P D : Type} `{BigDecimalLaws D} `{!Rows P D} `{PathFinder}.
Context `{!FromSlice P (option StorageBalance)} `{!FromSlice P (gmap TokenAccount N)}.
Context `{!FromSlice P StorageBalanceBounds} `{!FromSlice P TokenMetadata}.
Context (show_tx : TxId -> string) (is_mainnet : bool) (w : Wallet) (cfg : TradeConfig).

Abbreviation wnear := (WNEAR_TOKEN is_mainnet).
Abbreviation wpm := (wpm (P:=P) (D:=D) show_tx is_mainnet w cfg).
Abbreviation swap_log := (list (SwapParams * outcome anyhow unit)).

(** The swaps that went through. *)
Definition successes (ps : swap_log) : N :=
  len (bfilter (fun e => match e.2 with Ok _ => true | _ => false end) ps).

Lemma successes_app ps qs : successes (ps ++ qs) = successes ps + successes qs.
Proof. unfold successes, bfilter. by rewrite List.filter_app, len_app. Qed.

(** What a phase reports: every item is counted once, and the successes are
    the swaps that went through. *)
Definition counted (c c' : PhaseCounters) (items : N) (ps : swap_log) : Prop :=
  ph_success c' + ph_failed c' = ph_success c + ph_failed c + items /\
  ph_success c' = ph_success c + successes ps /\ len ps <= items.

Lemma counted_nil c : counted c c 0 [].
Proof.
  repeat split; [lia|change (successes []) with 0; lia|change (len (@nil (SwapParams * outcome anyhow unit))) with 0; lia].
Qed.
Lemma counted_failed c c' n ps : counted (one_failed c) c' n ps -> counted c c' (n + 1) ps.
Proof. intros (Hc1 & Hc2 & Hc3). cbn in *. repeat split; lia. Qed.
Lemma counted_swap_failed c c' n p e ps :
  counted (one_failed c) c' n ps -> counted c c' (n + 1) ((p, Err e) :: ps).
Proof.
  intros (Hc1 & Hc2 & Hc3). cbn in *. repeat split; [lia| |rewrite len_cons; lia].
  change (successes ((p, Err e) :: ps)) with (successes ps). done.
Qed.
Lemma counted_swap c c' n p u ps :
  counted (one_success c) c' n ps -> counted c c' (n + 1) ((p, Ok u) :: ps).
Proof.
  intros (Hc1 & Hc2 & Hc3). cbn in *. repeat split; [lia| |rewrite len_cons; lia].
  assert (successes ((p, Ok u) :: ps) = successes ps + 1) as -> by (unfold successes; cbn; apply len_cons).
  lia.
Qed.

(** A sale of a value at a rate, in the given period. *)
Definition sale (period : string) (from to : TokenAccount) (value : NearValue D)
    (rate : ExchangeRate D) (p : SwapParams) : Prop :=
  exists a, sell_amount value rate = Ok a /\ a <> 0 /\ p = mkSwapParams from to (Some a) period Unprotected.

Definition direct_sale (period : string) (swaps : list (DirectSwap D)) (p : SwapParams) : Prop :=
  exists ds, ds ∈ swaps /\
    sale period (swap_sell_token ds) (swap_buy_token ds) (swap_value ds) (swap_sell_rate ds) p.
Definition remainder_sale (period : string) (sells : list (SellOperation D)) (p : SwapParams) : Prop :=
  exists s, s ∈ sells /\ sale period (sell_token s) wnear (sell_value s) (sell_rate s) p.

Definition swap_as_buy (ds : DirectSwap D) : BuyOperation D := mkBuy (swap_buy_token ds) (swap_value ds).
Definition swap_as_sell (ds : DirectSwap D) : SellOperation D :=
  mkSell (swap_sell_token ds) (swap_value ds) (swap_sell_rate ds).

Lemma direct_phase_spec period swaps : forall c sells buys,
  wpm (direct_phase show_tx is_mainnet w cfg period swaps c sells buys) (fun _ ps o =>
    Forall (fun e => direct_sale period swaps e.1) ps /\
    match o with
    | Ok r => counted c r.1.1 (len swaps) ps /\
        exists fs, fs `sublist_of` swaps /\
          r.1.2 = sells ++ map swap_as_sell fs /\ r.2 = buys ++ map swap_as_buy fs
    | _ => True
    end).
Proof.
  induction swaps as [|ds rest IH]; intros c sells buys; cbn [direct_phase].
  { apply wpm_ret. split; [done|]. split; [apply counted_nil|]. exists []. by rewrite !app_nil_r. }
  set (back := direct_phase show_tx is_mainnet w cfg period rest (one_failed c) _ _).
  assert (Hlater : forall ps : swap_log, Forall (fun e => direct_sale period rest e.1) ps ->
    Forall (fun e => direct_sale period (ds :: rest) e.1) ps).
  { intros ps. apply Forall_weaken. intros e (d & Hd & Hs). exists d. split; [by apply list_elem_of_further|done]. }
  assert (Hback : wpm back (fun _ ps o => Forall (fun e => direct_sale period (ds :: rest) e.1) ps /\
    match o with
    | Ok r => counted (one_failed c) r.1.1 (len rest) ps /\
        exists fs, fs `sublist_of` (ds :: rest) /\
          r.1.2 = sells ++ map swap_as_sell fs /\ r.2 = buys ++ map swap_as_buy fs
    | _ => True end)).
  { eapply wpm_mono; [apply IH|]. intros t ps o [Hf Ho]. split; [auto|]. destruct o as [r|e|]; [|done..].
    destruct Ho as (Hc & fs & Hfs & -> & ->). split; [done|]. exists (ds :: fs).
    split; [by apply sublist_skip|]. by rewrite <- !app_assoc. }
  clearbody back. apply wpm_bind, wpm_attempt, wpm_ret.
  destruct (sell_amount _ _) as [a|e|] eqn:Ha; cbn [app]; [| |by split].
  2:{ eapply wpm_mono; [exact Hback|]. intros t ps [r|e'|] [Hf Ho]; (split; [done|]); [|done..].
      destruct Ho as [Hc Hx]. split; [|done]. rewrite len_cons. by apply counted_failed. }
  destruct (N.eqb_spec a 0) as [_|Hne].
  { eapply wpm_mono; [exact Hback|]. intros t ps [r|e'|] [Hf Ho]; (split; [done|]); [|done..].
    destruct Ho as [Hc Hx]. split; [|done]. rewrite len_cons. by apply counted_failed. }
  assert (Hnow : direct_sale period (ds :: rest)
    (mkSwapParams (swap_sell_token ds) (swap_buy_token ds) (Some a) period Unprotected)).
  { exists ds. split; [apply list_elem_of_here|]. by exists a. }
  apply wpm_bind, wpm_attempt, wpm_swap. intros t1 [u|e|]; [| |by repeat constructor].
  - eapply wpm_mono; [apply IH|]. intros t ps o [Hf Ho]. split; [constructor; auto|].
    destruct o as [r|e|]; [|done..]. destruct Ho as (Hc & fs & Hfs & Hr). rewrite len_cons.
    split; [by apply counted_swap|]. exists fs. split; [by apply sublist_cons|done].
  - eapply wpm_mono; [exact Hback|]. intros t ps o [Hf Ho]. split; [by constructor|].
    destruct o as [r|e'|]; [|done..]. destruct Ho as (Hc & Hx). rewrite len_cons.
    split; [by apply counted_swap_failed|done].
Qed.

Lemma sell_phase_spec period sells : forall c,
  wpm (sell_phase (D:=D) show_tx is_mainnet w cfg period sells c) (fun _ ps o =>
    Forall (fun e => remainder_sale period sells e.1) ps /\
    match o with Ok c' => counted c c' (len sells) ps | _ => True end).
Proof.
  induction sells as [|s rest IH]; intros c; cbn [sell_phase].
  { apply wpm_ret. split; [done|apply counted_nil]. }
  assert (Hlater : forall ps : swap_log, Forall (fun e => remainder_sale period rest e.1) ps ->
    Forall (fun e => remainder_sale period (s :: rest) e.1) ps).
  { intros ps. apply Forall_weaken. intros e (d & Hd & Hs). exists d. split; [by apply list_elem_of_further|done]. }
  assert (Hback : wpm (sell_phase (D:=D) show_tx is_mainnet w cfg period rest (one_failed c))
    (fun _ ps o => Forall (fun e => remainder_sale period (s :: rest) e.1) ps /\
      match o with Ok c' => counted c c' (len (s :: rest)) ps | _ => True end)).
  { eapply wpm_mono; [apply IH|]. intros t ps o [Hf Ho]. split; [auto|]. destruct o; [|done..].
    rewrite len_cons. by apply counted_failed. }
  apply wpm_bind, wpm_attempt, wpm_ret.
  destruct (sell_amount _ _) as [a|e|] eqn:Ha; cbn [app]; [|exact Hback|by split].
  destruct (N.eqb_spec a 0) as [_|Hne]; [exact Hback|].
  assert (Hnow : remainder_sale period (s :: rest)
    (mkSwapParams (sell_token s) wnear (Some a) period Unprotected)).
  { exists s. split; [apply list_elem_of_here|]. by exists a. }
  apply wpm_bind, wpm_attempt, wpm_swap.
  intros t1 [u|e|]; [| |by repeat constructor]; (eapply wpm_mono; [apply IH|]); intros t ps o [Hf Ho];
    (split; [constructor; auto|]); (destruct o; [|done..]); rewrite len_cons.
  - by apply counted_swap.
  - by apply counted_swap_failed.
Qed.

(** Amounts the swaps were asked to spend. *)
Definition requested (ps : swap_log) : N := sumN (map (fun e => default 0 (p_swap_amount e.1)) ps).

Definition buy_from_wnear (period : string) (returns : gmap TokenAccount f64)
    (buys : list (BuyOperation D)) (p : SwapParams) : Prop :=
  exists b a, b ∈ buys /\
    p = mkSwapParams wnear (buy_token b) (Some a) period (buy_policy (buy_token b) returns).

Lemma buy_loop_spec period returns available ratio buys : available <= U128_MAX -> fair_ratio ratio ->
  forall allocated c, nonneg_buys buys -> within_budget available ratio allocated buys ->
  wpm (buy_loop (D:=D) show_tx is_mainnet w cfg period returns available ratio buys allocated c)
    (fun _ ps o => Forall (fun e => buy_from_wnear period returns buys e.1) ps /\
       allocated + requested ps <= available /\
       match o with Ok c' => counted c c' (len buys) ps | _ => True end).
Proof.
  intros Hav Hr. induction buys as [|b rest IH]; intros allocated c Hb Hw; cbn [buy_loop].
  { apply wpm_ret. split; [done|]. split; [|apply counted_nil].
    change (requested []) with 0. rewrite N.add_0_r. by eapply budget_fits. }
  assert (Hlater : forall ps : swap_log, Forall (fun e => buy_from_wnear period returns rest e.1) ps ->
    Forall (fun e => buy_from_wnear period returns (b :: rest) e.1) ps).
  { intros ps. apply Forall_weaken. intros e (d & a & Hd & Hs). exists d, a.
    split; [by apply list_elem_of_further|done]. }
  destruct (buy_amount_budget _ _ _ _ _ Hr Hb Hw) as (a & -> & Hle & Hw').
  apply Forall_cons_1 in Hb as [_ Hrest].
  apply wpm_bind, wpm_ret. unfold saturating_add. rewrite N.min_l by lia.
  destruct (N.eqb_spec a 0) as [->|Hne].
  { eapply wpm_mono; [by apply IH|]. intros t ps o (Hf & Hs & Ho). cbn [app].
    split; [auto|]. split; [lia|].
    destruct o; [|done..]. rewrite len_cons. by apply counted_failed. }
  assert (Hnow : buy_from_wnear period returns (b :: rest)
    (mkSwapParams wnear (buy_token b) (Some a) period (buy_policy (buy_token b) returns)))
    by (exists b, a; split; [apply list_elem_of_here|done]).
  assert (Hreq : forall p (o : outcome anyhow unit) ps, p_swap_amount p = Some a ->
    requested ((p, o) :: ps) = a + requested ps).
  { intros p o ps Hp. unfold requested. cbn [map fst]. by rewrite sumN_cons, Hp. }
  apply wpm_bind, wpm_attempt, wpm_swap. intros t1 [u|e|]; cbn [app].
  3:{ split; [by repeat constructor|]. rewrite Hreq by done. change (requested []) with 0. split; [lia|done]. }
  all: eapply wpm_mono; [by apply IH|]; intros t ps o (Hf & Hs & Ho); rewrite Hreq by done;
    (split; [constructor; auto|]); (split; [lia|]); (destruct o; [|done..]); rewrite len_cons.
  - by apply counted_swap.
  - by apply counted_swap_failed.
Qed.

(** The contract reports 128-bit balances. *)
Definition bounded_deposits : Prop := forall (raw : P) (m : gmap TokenAccount N) t n,
  from_slice raw = Some m -> m !! t = Some n -> n <= U128_MAX.

Lemma reported_bounded token b t : bounded_deposits -> reported (P:=P) is_mainnet w token b t -> b <= U128_MAX.
Proof.
  intros Hb (raw & m & _ & Hm & ->). destruct (m !! token) as [n|] eqn:E; cbn; [by eapply Hb|].
  unfold U128_MAX. lia.
Qed.

Lemma buy_phase_spec period returns buys : bounded_deposits -> nonneg_buys buys ->
  wpm (buy_phase (D:=D) show_tx is_mainnet w cfg period returns buys)
    (fun t ps o => Forall (fun e => buy_from_wnear period returns buys e.1) ps /\
       (ps = [] \/ exists available, reported is_mainnet w wnear available t /\ requested ps <= available) /\
       match o with Ok c => ph_success c = successes ps /\ len ps <= ph_success c + ph_failed c | _ => True end).
Proof.
  intros Hbd Hb. unfold buy_phase. destruct buys as [|b rest]; [by apply wpm_ret; split; [|split; [left|]]|].
  apply wpm_bind, (wpm_deposits _ _ _ _ wnear); [by split; [|split; [left|]]|].
  intros t m Hrep. set (available := default 0 (m !! wnear)) in *.
  pose proof (reported_bounded _ _ _ Hbd Hrep) as Hav.
  destruct (N.eqb_spec available 0) as [_|_]; [by apply wpm_ret; split; [|split; [left|]]|].
  destruct (buy_ratio_budget available (b :: rest) Hav Hb) as [Hr Hw].
  eapply wpm_mono; [by apply buy_loop_spec|]. intros t' ps o (Hf & Hs & Ho). cbn [app].
  split; [done|]. split; [right; exists available; split; [by apply reported_app|lia]|].
  destruct o as [c|e|]; [|done..]. destruct Ho as (Hc1 & Hc2 & Hc3).
  unfold no_count in *. cbn [ph_success ph_failed] in Hc1, Hc2. split; lia.
Qed.
End phases.

(** ** What matching leaves *)
Section matched.
Context {D : Type} `{BigDecimalLaws D}.

Definition sound_match (r : MatchResult D) : Prop :=
  nonneg_buys (remaining_buys r) /\ Forall (fun s => 0 <= nv (swap_value s))%Q (direct_swaps r).

Lemma push_swap_sound cs cb v (r : MatchResult D) : sound_match r -> sound_match (push_swap cs cb v r).
Proof.
  intros [Hb Hs]. unfold push_swap. destruct (nv_ltb near_value_zero v) eqn:E; [|done].
  split; [done|]. constructor; [|done]. apply nv_ltb_val in E. rewrite nv_zero in E. cbn. lra.
Qed.

Lemma rest_buys_sound cb br (buys : list (BuyOperation D)) : nonneg_buys buys -> sound_match (rest_buys cb br buys).
Proof.
  intros Hb. unfold rest_buys. split; [|constructor]. cbn.
  destruct (nv_ltb near_value_zero br) eqn:E; [|done].
  constructor; [|done]. apply nv_ltb_val in E. rewrite nv_zero in E. cbn. lra.
Qed.
Lemma rest_sells_sound cs sr (sells : list (SellOperation D)) : sound_match (rest_sells cs sr sells).
Proof. split; constructor. Qed.

Lemma match_loop_sound fuel : forall cs sr sells cb br buys (r : MatchResult D),
  nonneg_buys buys -> match_loop fuel cs sr sells cb br buys = Some (Ok r) -> sound_match r.
Proof.
  induction fuel as [|fuel IH]; [done|]. intros cs sr sells cb br buys r Hb. cbn [match_loop].
  set (m := nv_min sr br). set (sr' := near_value_sub sr m). set (br' := near_value_sub br m).
  destruct (_ || _); [done|].
  assert (Hnext : forall cs sr sells r', (if nv_eqb br' near_value_zero then
      match buys with
      | [] => Some (Ok (rest_sells cs sr sells))
      | b :: buys => match_loop fuel cs sr sells b (buy_value b) buys
      end else match_loop fuel cs sr sells cb br' buys) = Some (Ok r') -> sound_match r').
  { intros cs' sr1 sells' r'. destruct (nv_eqb br' near_value_zero); [|by apply IH].
    destruct buys as [|b buys]; [intros [= <-]; apply rest_sells_sound|].
    apply Forall_cons_1 in Hb as [_ Hb]. by apply IH. }
  destruct (if nv_eqb sr' near_value_zero then _ else _) as [[r'|e|]|] eqn:E; [|done..].
  intros [= <-]. apply push_swap_sound.
  destruct (nv_eqb sr' near_value_zero); [|by eapply Hnext].
  destruct sells as [|s sells]; [injection E as <-; by apply rest_buys_sound|by eapply Hnext].
Qed.

Lemma match_sound sort_sells sort_buys sells buys (r : MatchResult D) :
  (forall l, sort_buys l ≡ₚ l) -> nonneg_buys buys ->
  match_rebalance_operations sort_sells sort_buys sells buys = Some (Ok r) -> sound_match r.
Proof.
  intros Hp Hb. unfold match_rebalance_operations.
  destruct sells as [|s0 sells']; [intros [= <-]; split; [done|constructor]|].
  destruct buys as [|b0 buys']; [intros [= <-]; split; [done|constructor]|].
  destruct (sort_sells _) as [|s ss]; [done|]. specialize (Hp (b0 :: buys')).
  unfold nonneg_buys in Hb. rewrite <- Hp in Hb.
  destruct (sort_buys _) as [|b bs]; [done|]. apply Forall_cons_1 in Hb as [_ Hb].
  by apply match_loop_sound.
Qed.
End matched.

Section rebalance.
Context {P D : Type} `{BigDecimalLaws D} `{!Rows P D} `{PathFinder}.
Context `{!FromSlice P (option StorageBalance)} `{!FromSlice P (gmap TokenAccount N)}.
Context `{!FromSlice P StorageBalanceBounds} `{!FromSlice P TokenMetadata}.
Context (valid_account : string -> bool) (show_tx : TxId -> string).
Context (sort_sells : list (SellOperation D) -> list (SellOperation D)).
Context (sort_buys : list (BuyOperation D) -> list (BuyOperation D)).
Context (is_mainnet : bool) (w : Wallet) (cfg : TradeConfig).
Context (Hsort : forall l, sort_buys l ≡ₚ l) (Hbounded : bounded_deposits (P:=P)).

Abbreviation wnear := (WNEAR_TOKEN is_mainnet).
Abbreviation wpm := (wpm (P:=P) (D:=D) show_tx is_mainnet w cfg).

Lemma rate_get_latest_silent token quote :
  silent (rate_get_latest (P:=P) (D:=D) valid_account token quote).
Proof. unfold rate_get_latest, fetch, query. silent. Qed.

Lemma rebalance_token_spec total balances token weight :
  wp (rebalance_token (P:=P) (D:=D) valid_account is_mainnet total balances token weight) (fun t o =>
    execs t = [] /\ match o with Ok (_, Some b) => (0 <= nv (buy_value b))%Q | _ => True end).
Proof.
  apply wp_conj.
  - unfold rebalance_token, spot_of, rate_get_latest, fetch, query. silent.
  - unfold rebalance_token. apply wp_bind. intros t [rate|e|] _; [|done..].
    apply wp_bind. intros t' [value|e|] _; [|done..]. apply wp_if; intros _.
    + apply wp_bind, wp_ret. destruct rate; [|done]. by apply wp_ret.
    + apply wp_if; intros Hb; apply wp_ret; [|done].
      apply andb_prop in Hb as [Hb _]. apply nv_ltb_val in Hb. rewrite nv_zero in Hb. cbn. lra.
Qed.

Lemma rebalance_operations_spec total balances targets : forall sells buys, nonneg_buys buys ->
  wp (rebalance_operations (P:=P) (D:=D) valid_account is_mainnet total balances targets sells buys)
    (fun t o => execs t = [] /\ match o with Ok r => nonneg_buys r.2 | _ => True end).
Proof.
  induction targets as [|[token weight] rest IH]; intros sells buys Hb; cbn [rebalance_operations].
  { by apply wp_ret. }
  apply wp_if; intros _; [by apply IH|]. apply wp_if; intros _; [by apply IH|].
  apply wp_bind. eapply wp_mono; [apply rebalance_token_spec|]. intros t [[s b]|e|] [Ht Ho]; [|done..].
  eapply wp_mono; [apply IH|].
  - apply Forall_app_2; [done|]. destruct b; by repeat constructor.
  - intros t' o [Ht' Ho']. split; [by rewrite execs_app, Ht, Ht'|done].
Qed.

Lemma portfolio_value_silent balances :
  silent (calculate_total_portfolio_value (P:=P) (D:=D) valid_account is_mainnet balances).
Proof.
  unfold calculate_total_portfolio_value, calculate_portfolio_value.
  generalize (near_value_zero (D:=D)). induction (btree_iter balances) as [|[token a] l IH]; intros total;
    cbn [portfolio_value_from]; [by apply wp_ret|].
  apply wp_if; intros _; [apply IH|]. apply wp_bind.
  assert (Hv : silent (holding_value is_mainnet (LatestRateProvider valid_account is_mainnet) token a)).
  { unfold holding_value, get_rate, LatestRateProvider, latest_rate, rate_get_latest, fetch, query. silent. }
  eapply wp_mono; [exact Hv|]. intros t [[v|]|e|] Ht; [| |done..];
    (eapply wp_mono; [apply IH|]); intros t' o Ht'; cbn in *; by rewrite execs_app, Ht, Ht'.
Qed.

Lemma balances_silent tokens :
  silent (get_current_portfolio_balances (P:=P) (D:=D) is_mainnet w tokens).
Proof.
  unfold get_current_portfolio_balances. apply wp_bind.
  assert (Hd : silent (get_deposits (P:=P) is_mainnet (account_id w))) by (unfold get_deposits; silent).
  eapply wp_mono; [exact Hd|]. intros t [m|e|] Ht; [|done..]. generalize (∅ : gmap TokenAccount (TokenAmount D)).
  revert t Ht. induction tokens as [|token rest IH]; intros t Ht bs; cbn [portfolio_balances_from].
  { apply wp_ret. by rewrite app_nil_r. }
  apply wp_bind. eapply wp_mono; [apply decimals_send_nothing|]. intros t' [d|e|] [Ht' _];
    [|by rewrite execs_app, Ht, Ht'..].
  eapply wp_mono; [apply (IH (t ++ t')); by rewrite execs_app, Ht, Ht'|].
  intros t2 o Ho. by rewrite app_assoc.
Qed.

Lemma holdings_silent period : silent (get_holdings_from_db (P:=P) (D:=D) period).
Proof. unfold get_holdings_from_db, holding_get_latest, fetch, query. silent. Qed.

(** The swaps of a rebalance: matched ones, then sales for wrapped NEAR, all
    without a limit, then purchases with wrapped NEAR under the policy of the
    token, together within the balance that was reported before them. *)
Definition rebalance_session (period : string) (returns : gmap TokenAccount f64)
    (t : list (event P)) (o : outcome anyhow unit) : Prop :=
  exists matched sold bought,
    made (D:=D) show_tx is_mainnet w cfg (matched ++ sold ++ bought) t /\
    Forall (fun e => p_policy e.1 = Unprotected) (matched ++ sold) /\
    Forall (fun e => p_to_token e.1 = wnear) sold /\
    Forall (fun e => p_from_token e.1 = wnear /\
                     p_policy e.1 = buy_policy (p_to_token e.1) returns) bought /\
    (bought = [] \/ exists available, reported is_mainnet w wnear available t /\
                      requested bought <= available) /\
    (o = Ok tt -> matched ++ sold ++ bought <> [] -> 0 < successes (matched ++ sold ++ bought)).

Lemma direct_sale_unprotected period swaps (ps : list (SwapParams * outcome anyhow unit)) :
  Forall (fun e => direct_sale (D:=D) period swaps e.1) ps ->
  Forall (fun e => p_policy e.1 = Unprotected) ps.
Proof. apply Forall_weaken. intros e (ds & _ & a & _ & _ & ->). done. Qed.
Lemma remainder_sale_to_wnear period sells (ps : list (SwapParams * outcome anyhow unit)) :
  Forall (fun e => remainder_sale (D:=D) is_mainnet period sells e.1) ps ->
  Forall (fun e => p_policy e.1 = Unprotected /\ p_to_token e.1 = wnear) ps.
Proof. apply Forall_weaken. intros e (s & _ & a & _ & _ & ->). done. Qed.
Lemma buys_from_wnear period returns buys (ps : list (SwapParams * outcome anyhow unit)) :
  Forall (fun e => buy_from_wnear (D:=D) is_mainnet period returns buys e.1) ps ->
  Forall (fun e => p_from_token e.1 = wnear /\ p_policy e.1 = buy_policy (p_to_token e.1) returns) ps.
Proof. apply Forall_weaken. intros e (b & a & _ & ->). done. Qed.

(** The phases after the operations are known. *)
Lemma rebalance_phases_spec period returns (r : MatchResult D) : sound_match r ->
  wpm
    (let! done := direct_phase show_tx is_mainnet w cfg period (direct_swaps r) no_count [] [] in
     let '(direct, fallback_sells, fallback_buys) := done in
     let! sold := sell_phase show_tx is_mainnet w cfg period (remaining_sells r ++ fallback_sells) no_count in
     let! bought := buy_phase show_tx is_mainnet w cfg period returns (remaining_buys r ++ fallback_buys) in
     if (ph_success direct + ph_success sold + ph_success bought =? 0)
        && (0 <? ph_failed direct + ph_failed sold + ph_failed bought)
     then Ret (Err (Anyhow "All rebalance operations failed"
                      [ph_failed direct + ph_failed sold + ph_failed bought]))
     else Ret (Ok tt))
    (fun t ps o => exists matched sold bought, ps = matched ++ sold ++ bought /\
      Forall (fun e => p_policy e.1 = Unprotected) (matched ++ sold) /\
      Forall (fun e => p_to_token e.1 = wnear) sold /\
      Forall (fun e => p_from_token e.1 = wnear /\
                       p_policy e.1 = buy_policy (p_to_token e.1) returns) bought /\
      (bought = [] \/ exists available, reported is_mainnet w wnear available t /\
                        requested bought <= available) /\
      (o = Ok tt -> ps <> [] -> 0 < successes ps)).
Proof.
  intros [Hbuys Hswaps]. apply wpm_bind. eapply wpm_mono; [apply direct_phase_spec|].
  intros t1 matched o1 [Hm Ho1]. apply direct_sale_unprotected in Hm.
  assert (Hstop1 : forall o : outcome anyhow unit, o <> Ok tt -> exists m s b, matched = m ++ s ++ b /\
      Forall (fun e => p_policy e.1 = Unprotected) (m ++ s) /\
      Forall (fun e => p_to_token e.1 = wnear) s /\
      Forall (fun e => p_from_token e.1 = wnear /\
                       p_policy e.1 = buy_policy (p_to_token e.1) returns) b /\
      (b = [] \/ exists available, reported is_mainnet w wnear available t1 /\ requested b <= available) /\
      (o = Ok tt -> matched <> [] -> 0 < successes matched)).
  { intros o Ho. exists matched, [], []. rewrite !app_nil_r. split_and!; [done|done|done|done|by left|done]. }
  destruct o1 as [[[direct fsells] fbuys]|e|]; [|by apply Hstop1..]. clear Hstop1.
  cbn in Ho1. destruct Ho1 as (Hc1 & fs & Hfs & -> & ->).
  apply wpm_bind. eapply wpm_mono; [apply sell_phase_spec|].
  intros t2 sold o2 [Hs Ho2]. apply remainder_sale_to_wnear in Hs.
  assert (Hun : Forall (fun e => p_policy e.1 = Unprotected) (matched ++ sold)).
  { apply Forall_app_2; [done|]. eapply Forall_weaken; [|exact Hs]. by intros e []. }
  assert (Hto : Forall (fun e => p_to_token e.1 = wnear) sold)
    by (eapply Forall_weaken; [|exact Hs]; by intros e []).
  destruct o2 as [csold|e|].
  2-3: exists matched, sold, []; rewrite !app_nil_r; split_and!; [done|done|done|done|by left|done].
  apply wpm_bind. eapply wpm_mono; [apply buy_phase_spec; [done|]|].
  { apply Forall_app_2; [done|]. apply List.Forall_map, Forall_elem. intros ds Hds. cbn.
    rewrite Forall_elem in Hswaps. by eapply Hswaps, elem_of_sublist. }
  intros t3 bought o3 (Hb & Hav & Ho3). apply buys_from_wnear in Hb.
  assert (Hav' : forall t4, bought = [] \/ exists available,
    reported is_mainnet w wnear available (t1 ++ t2 ++ t3 ++ t4) /\ requested bought <= available).
  { intros t4. destruct Hav as [->|(av & Hrep & Hle)]; [by left|right; exists av].
    split; [|done]. by apply reported_app_r, reported_app_r, reported_app. }
  destruct o3 as [cbought|e|].
  2-3: exists matched, sold, bought; split_and!; [done..| |done];
    specialize (Hav' []); by rewrite app_nil_r in Hav'.
  destruct Hc1 as (Hd1 & Hd2 & Hd3), Ho2 as (He1 & He2 & He3), Ho3 as [Hf1 Hf2].
  unfold no_count in *. cbn [ph_success ph_failed] in Hd1, Hd2, He1, He2.
  assert (Hsucc : successes (matched ++ sold ++ bought) =
    ph_success direct + ph_success csold + ph_success cbought) by (rewrite !successes_app; lia).
  assert (Hlen : matched ++ sold ++ bought <> [] -> 0 < len (matched ++ sold ++ bought)).
  { intros Hne. unfold len. destruct (matched ++ sold ++ bought); [done|cbn; lia]. }
  rewrite !len_app in Hlen.
  destruct (_ && _) eqn:Hall; apply wpm_ret; exists matched, sold, bought; rewrite ?app_nil_r;
    split_and!; try done; try (specialize (Hav' []); by rewrite app_nil_r in Hav').
  intros _ Hne. specialize (Hlen Hne). rewrite Hsucc.
  apply andb_false_iff in Hall as [Hall|Hall]; [apply N.eqb_neq in Hall; lia|].
  apply N.ltb_ge in Hall. lia.
Qed.

Lemma rebalance_wp target_weights period returns :
  wp (execute_rebalance valid_account show_tx sort_sells sort_buys is_mainnet w cfg target_weights period returns)
    (rebalance_session period returns).
Proof.
  assert (Hquiet : forall t (o : outcome anyhow unit), execs t = [] -> rebalance_session period returns t o).
  { intros t o Ht. exists [], [], []. split_and!; [by constructor|done..|by left|done]. }
  unfold execute_rebalance. apply wp_bind. eapply wp_mono; [apply holdings_silent|].
  intros t1 [recorded|e|] Ht1; [|by apply Hquiet..]. apply wp_bind.
  eapply wp_mono; [instantiate (1 := fun t _ => execs t = []);
    destruct recorded; [by apply wp_ret|apply balances_silent]|].
  intros t2 [balances|e|] Ht2; [|by apply Hquiet; rewrite execs_app, Ht1, Ht2..].
  apply wp_bind. eapply wp_mono; [apply portfolio_value_silent|].
  intros t3 [total|e|] Ht3; [|by apply Hquiet; rewrite !execs_app, Ht1, Ht2, Ht3..].
  apply wp_bind. eapply wp_mono; [apply rebalance_operations_spec; constructor|].
  intros t4 [ops|e|] [Ht4 Hops]; [|by apply Hquiet; rewrite !execs_app, Ht1, Ht2, Ht3, Ht4..].
  apply wp_bind, wp_ret. assert (Hall : execs (t1 ++ t2 ++ t3 ++ t4 ++ []) = [])
    by (by rewrite !execs_app, Ht1, Ht2, Ht3, Ht4).
  destruct (match_rebalance_operations _ _ _ _) as [[r|e|]|] eqn:Hr;
    [|by apply Hquiet..].
  apply match_sound in Hr; [|done|done].
  eapply wp_mono; [apply (rebalance_phases_spec period returns r Hr)|].
  intros t5 o (ps & Hm & matched & sold & bought & -> & Hrest).
  exists matched, sold, bought. destruct Hrest as (Hun & Hto & Hb & Hav & Ho).
  replace (t1 ++ t2 ++ t3 ++ t4 ++ [] ++ t5) with ((t1 ++ t2 ++ t3 ++ t4 ++ []) ++ t5)
    by (by rewrite <- !app_assoc).
  split_and!; [by apply made_quiet_app|done|done|done| |done].
  destruct Hav as [->|(av & Hrep & Hle)]; [by left|right; exists av]. split; [by apply reported_app_r|done].
Qed.
End rebalance.

(** ** A list of actions *)
Section actions.
Context {P D : Type} `{BigDecimalLaws D} `{!Rows P D} `{PathFinder}.
Context `{!FromSlice P (option StorageBalance)} `{!FromSlice P (gmap TokenAccount N)}.
Context `{!FromSlice P StorageBalanceBounds} `{!FromSlice P TokenMetadata}.
Context (valid_account : string -> bool) (show_tx : TxId -> string).
Context (sort_sells : list (SellOperation D) -> list (SellOperation D)).
Context (sort_buys : list (BuyOperation D) -> list (BuyOperation D)).
Context (is_mainnet : bool) (w : Wallet) (cfg : TradeConfig).
Context (Hsort : forall l, sort_buys l ≡ₚ l) (Hbounded : bounded_deposits (P:=P)).

Abbreviation wnear := (WNEAR_TOKEN is_mainnet).
Abbreviation wpm := (wpm (P:=P) (D:=D) show_tx is_mainnet w cfg).
Abbreviation single := (execute_single_action valid_account show_tx sort_sells sort_buys is_mainnet w cfg).
Abbreviation actions_from := (execute_actions_from valid_account show_tx sort_sells sort_buys is_mainnet w cfg).

Definition is_rebalance (a : TradingAction D) : bool := match a with Rebalance _ => true | _ => false end.
Definition add_weights_nonneg (actions : list (TradingAction D)) : Prop :=
  Forall (fun e => 0 <= bd_val e.2)%Q (add_positions_from 0 actions).

Lemma requested_app ps qs : requested (ps ++ qs) = requested ps + requested qs.
Proof. unfold requested. by rewrite map_app, sumN_app. Qed.

(** An action other than a rebalance asks for a fixed amount only to add a position. *)
Lemma single_action_spec action ctx :
  wpm (single action ctx) (fun _ ps _ => is_rebalance action = false ->
    requested ps <= match action with AddPosition _ _ => default 0 (ctx_swap_amount_override ctx) | _ => 0 end).
Proof.
  destruct action as [|token target|from to|weights|token weight|token weight]; cbn [execute_single_action].
  - by apply wpm_ret.
  - assert (Htarget : forall ps, requested ps = 0 -> wpm (if String.eqb target wnear then Ret (Ok tt)
      else execute_direct_swap (D:=D) show_tx is_mainnet w cfg (mkSwapParams wnear target None
        (ctx_evaluation_period_id ctx) (buy_policy target (ctx_expected_returns ctx))))
      (fun _ ps' _ => is_rebalance (Sell token target) = false -> requested (ps ++ ps') <= 0)).
    { intros ps Hps. destruct (String.eqb target wnear); [apply wpm_ret|apply wpm_swap; intros t o];
        intros _; rewrite requested_app, Hps; cbn; lia. }
    apply wpm_bind. destruct (String.eqb token wnear); [apply wpm_ret|apply wpm_swap; intros t1 [u|e|]];
      [by apply (Htarget [])|by apply (Htarget [_])|..]; intros _; cbn; lia.
  - apply wpm_swap. intros t o _. cbn. lia.
  - eapply wp_mono; [by apply rebalance_wp|]. intros t o (m & s & b & Hm & _).
    eexists. split; [exact Hm|done].
  - destruct (String.eqb token wnear); [apply wpm_ret; intros _; cbn; lia|].
    apply wpm_bind, wpm_ret. destruct (ctx_swap_amount_override ctx) as [a|]; cbn [ok_or]; [|done].
    destruct (N.eqb_spec a 0); [apply wpm_ret; cbn; lia|]. apply wpm_swap. intros t o _. cbn. lia.
  - destruct (String.eqb token wnear); [apply wpm_ret; intros _; cbn; lia|]. apply wpm_swap. intros t o _. cbn. lia.
Qed.

Definition allotted (amounts : gmap N N) (idxs : list N) : N :=
  sumN (map (fun i => default 0 (amounts !! i)) idxs).

Lemma actions_from_spec amounts period returns actions : forall idx s,
  wpm (actions_from idx amounts actions period returns s) (fun _ ps o =>
    (Forall (fun a => is_rebalance a = false) actions ->
       requested ps <= allotted amounts (add_positions_from idx actions).*1) /\
    match o with
    | Ok s' => success_count s' + failed_count s' = success_count s + failed_count s + len actions
    | Err _ => False
    | Panic => True
    end).
Proof.
  induction actions as [|action rest IH]; intros idx s; cbn [execute_actions_from].
  { apply wpm_ret. split; [done|]. rewrite len_nil. lia. }
  apply wpm_bind, wpm_attempt. eapply wpm_mono; [apply single_action_spec|].
  assert (Hstep : forall ps ps', (is_rebalance action = false -> requested ps <=
      match action with AddPosition _ _ => default 0 (amounts !! idx) | _ => 0 end) ->
    (Forall (fun a => is_rebalance a = false) rest ->
       requested ps' <= allotted amounts (add_positions_from (idx + 1) rest).*1) ->
    Forall (fun a => is_rebalance a = false) (action :: rest) ->
    requested (ps ++ ps') <= allotted amounts (add_positions_from idx (action :: rest)).*1).
  { intros ps ps' Hp Hp' Hf. apply Forall_cons_1 in Hf as [Ha Hr].
    specialize (Hp Ha). specialize (Hp' Hr). rewrite requested_app.
    destruct action; cbn [add_positions_from]; try lia.
    rewrite fmap_cons. unfold allotted in *. cbn [map fst]. rewrite sumN_cons. lia. }
  intros t ps [u|e|] Hp; cbn [ctx_swap_amount_override] in Hp.
  3:{ split; [|done]. intros Hf. specialize (Hstep ps [] Hp). rewrite app_nil_r in Hstep.
      apply Hstep; [|done]. intros _. change (requested []) with 0. lia. }
  all: eapply wpm_mono; [apply IH|]; intros t' ps' o [Hps' Ho]; split; [by apply Hstep|];
    destruct o; try done; cbn [success_count failed_count] in Ho; rewrite len_cons; lia.
Qed.

Lemma allotted_list (l : list (N * N)) : NoDup l.*1 -> allotted (list_to_map (rev l)) l.*1 = sumN l.*2.
Proof.
  intros Hnd. assert (Hnd' : NoDup (rev l).*1) by (by rewrite <- (Permutation_rev l)).
  assert (Hlk : forall i v, (i, v) ∈ l -> (list_to_map (rev l) : gmap N N) !! i = Some v).
  { intros i v Hin. apply elem_of_list_to_map_1; [done|]. by rewrite <- (Permutation_rev l). }
  unfold allotted. clear Hnd Hnd'. revert Hlk. generalize (list_to_map (rev l) : gmap N N).
  intros m Hlk. induction l as [|[i v] l IH]; [done|].
  assert (IH' := IH (fun j x Hj => Hlk j x (list_elem_of_further _ _ _ Hj))). clear IH.
  rewrite !fmap_cons. cbn [map fst snd]. rewrite !sumN_cons.
  rewrite (Hlk i v) by apply list_elem_of_here. cbn [default]. f_equal. exact IH'.
Qed.

Lemma add_positions_keys idx (actions : list (TradingAction D)) :
  NoDup (add_positions_from idx actions).*1 /\
  forall i, i ∈ (add_positions_from idx actions).*1 -> idx <= i.
Proof.
  revert idx. induction actions as [|a rest IH]; intros idx; [split; [constructor|intros i Hi; by apply elem_of_nil in Hi]|].
  destruct (IH (idx + 1)) as [Hnd Hge].
  assert (Hge' : forall i, i ∈ (add_positions_from (idx + 1) rest).*1 -> idx <= i)
    by (intros i Hi; apply Hge in Hi; lia).
  destruct a; cbn [add_positions_from]; try done. rewrite fmap_cons. cbn [fst]. split.
  - constructor; [|done]. intros Hin. apply Hge in Hin. lia.
  - intros i Hi. apply elem_of_cons in Hi as [->|Hi]; [lia|auto].
Qed.

(** The amounts of the positions add up to the balance. *)
Lemma allocate_exact (positions : list (N * D)) balance :
  positions <> [] -> Forall (fun e => 0 <= bd_val e.2)%Q positions -> balance <= U128_MAX ->
  exists r, allocate_add_position_amounts positions balance = Ok r /\ r.*1 = positions.*1 /\
    sumN r.*2 = balance.
Proof.
  intros Hne Hw Hbal. unfold allocate_add_position_amounts.
  destruct positions as [|p0 ps]; [done|]. set (positions := p0 :: ps) in *.
  assert (Hws : Forall (fun x => 0 <= bd_val x)%Q positions.*2) by (by apply Forall_fmap).
  destruct (bps_at_most_10000 (E:=anyhow) positions.*2 Hws) as (ns & -> & Hl & Hs). cbn [obind].
  rewrite sum_u128_sumN by (unfold U128_MAX; lia). cbn [obind]. rewrite N.add_0_l.
  assert (Hlen : length positions.*1 = length ns) by (by rewrite Hl, !length_fmap).
  assert (Hz1 : (zip positions.*1 ns).*1 = positions.*1) by (apply fst_zip; lia).
  assert (Hz2 : (zip positions.*1 ns).*2 = ns) by (apply snd_zip; lia).
  destruct (allocate_from_exact balance (sumN ns) 0 0 (zip positions.*1 ns)) as (r & Hr & Hk & Hsum).
  - intros Hz. rewrite Hz in Hz1. by cbn in Hz1.
  - done.
  - done.
  - rewrite Hz2. lia.
  - lia.
  - lia.
  - exists r. rewrite Hk, Hz1, Hsum. split_and!; [done|done|lia].
Qed.

Lemma trading_actions_wp actions period returns :
  wpm (execute_trading_actions valid_account show_tx sort_sells sort_buys is_mainnet w cfg
         actions period returns)
    (fun t ps o =>
      match o with
      | Ok s => success_count s + failed_count s = len actions
      | Err _ => ps = []
      | Panic => True
      end /\
      (Forall (fun a => is_rebalance a = false) actions -> add_weights_nonneg actions ->
         requested ps = 0 \/ exists balance, reported is_mainnet w wnear balance t /\ requested ps <= balance)).
Proof.
  assert (Hfrom : forall (amounts : gmap N N), wpm
    (actions_from 0 amounts actions period returns (mkExecutionSummary 0 0)) (fun _ ps o =>
    (Forall (fun a => is_rebalance a = false) actions ->
       requested ps <= allotted amounts (add_positions_from 0 actions).*1) /\
    match o with
    | Ok s => success_count s + failed_count s = len actions
    | Err _ => ps = []
    | Panic => True
    end)).
  { intros amounts. eapply wpm_mono; [apply actions_from_spec|]. intros t ps o [Hr Ho]. split; [done|].
    destruct o; [|done|done]. rewrite Ho. cbn [success_count failed_count]. lia. }
  unfold execute_trading_actions, precompute_add_position_amounts, add_weights_nonneg.
  pose proof (add_positions_keys 0 actions) as [Hkeys _].
  destruct (add_positions_from 0 actions) as [|p0 ps0] eqn:Hadd.
  - apply wpm_bind, wpm_ret. eapply wpm_mono; [apply Hfrom|]. intros t ps o [Hr Ho]. split; [done|].
    intros Hf _. specialize (Hr Hf). change (allotted _ _) with 0 in Hr. left. cbn [app]. lia.
  - set (positions := p0 :: ps0) in *. apply wpm_bind, wpm_bind, (wpm_deposits _ _ _ _ wnear).
    { intros t e. split; [done|]. by left. }
    intros t m Hrep. set (balance := default 0 (m !! wnear)) in *.
    pose proof (reported_bounded _ _ _ _ _ Hbounded Hrep) as Hbal.
    apply wpm_bind, wpm_ret.
    destruct (allocate_add_position_amounts positions balance) as [r|e|] eqn:Halloc;
      [|by split; [|left]..].
    apply wpm_ret. eapply wpm_mono; [apply Hfrom|]. intros t' ps o [Hr Ho]. split; [done|].
    intros Hf Hw. right. exists balance. split; [by repeat apply reported_app|].
    destruct (allocate_exact positions balance) as (r' & Hr' & Hk & Hs); [done|done|done|].
    rewrite Halloc in Hr'. injection Hr' as <-. specialize (Hr Hf). rewrite <- Hk in Hr.
    rewrite allotted_list, Hs in Hr by (by rewrite Hk). exact Hr.
Qed.
End actions.

(** ** The claims *)
Section theorems.
Context (P D : Type) `{BigDecimalLaws D} `{!Rows P D} `{PathFinder}.
Context `{!FromSlice P (option StorageBalance)} `{!FromSlice P (gmap TokenAccount N)}.
Context `{!FromSlice P StorageBalanceBounds} `{!FromSlice P TokenMetadata}.
Context (valid_account : string -> bool) (show_tx : TxId -> string).
Context (sort_sells : list (SellOperation D) -> list (SellOperation D)).
Context (sort_buys : list (BuyOperation D) -> list (BuyOperation D)).
Context (is_mainnet : bool) (w : Wallet) (cfg : TradeConfig).

(** C3: A rebalance, whatever it is answered, consists of direct swaps in three
    groups: the matched pairs, then sales for wrapped NEAR, both without slippage
    protection, then buys from wrapped NEAR with the policy of the token's expected
    return.  The amounts of the buys together are at most the wrapped NEAR the
    exchange reported, and a rebalance that reports success after trying any swap
    made at least one. *)
Theorem rebalance_within_budget weights period returns t o :
  (forall l, sort_buys l ≡ₚ l) -> bounded_deposits (P:=P) ->
  run (execute_rebalance valid_account show_tx sort_sells sort_buys is_mainnet w cfg weights period returns) t o ->
  rebalance_session (D:=D) show_tx is_mainnet w cfg period returns t o.
Proof. intros Hs Hb. by apply rebalance_wp. Qed.

(** A list of actions is always run to its end: a failing action is counted
    and the next one is tried, so the two counters add up to the number of
    actions, and an error means that no swap was tried.  Without a rebalance
    and with weights that are not negative, the amounts the swaps ask for add up
    to at most a balance of wrapped NEAR that the exchange reported. *)
Theorem trading_actions_accounted actions period returns t o :
  (forall l, sort_buys l ≡ₚ l) -> bounded_deposits (P:=P) ->
  run (execute_trading_actions valid_account show_tx sort_sells sort_buys is_mainnet w cfg
         actions period returns) t o ->
  exists ps, made (D:=D) show_tx is_mainnet w cfg ps t /\
    match o with
    | Ok s => success_count s + failed_count s = len actions
    | Err _ => ps = []
    | Panic => True
    end /\
    (Forall (fun a => is_rebalance a = false) actions -> add_weights_nonneg actions ->
       requested ps = 0 \/
       exists balance, reported is_mainnet w (WNEAR_TOKEN is_mainnet) balance t /\ requested ps <= balance).
Proof. intros Hs Hb. by apply trading_actions_wp. Qed.

(** Positions of weights that are not negative are allotted a balance of any
    [u128] size without a panic, each position gets an amount, and the amounts add
    up to the balance exactly. *)
Theorem allocation_is_exact (positions : list (N * D)) balance :
  positions <> [] -> Forall (fun e => 0 <= bd_val e.2)%Q positions -> balance <= U128_MAX ->
  exists r, allocate_add_position_amounts positions balance = Ok r /\ r.*1 = positions.*1 /\
    sumN r.*2 = balance.
Proof. apply allocate_exact. Qed.
End theorems.

(** ** A desk that rebalances

    2000 usdt at 100 per NEAR and 5 wrapped NEAR; the target is a tenth of usdt
    and two thirds of [eth].  There is no pool between usdt and eth. *)
Definition book_pool (n : Z) (a b : string) : DbPoolInfo cell :=
  mkDbPoolInfo n "SIMPLE_POOL" (CIds [a; b]) (CAmounts [10 ^ 27; 10 ^ 27]) 30 (CAmount 1) 0 5.
Definition book_rate (token : string) (rate : Q) : DbTokenRate cell Q :=
  mkDbTokenRate token "wrap.near" rate 1 6 1 None.
Definition book_db (q : Query) : cell :=
  match q with
  | QLatestPool _ => CPool (Some (book_pool 0 "usdt" "wrap.near"))
  | QPoolsBetween _ _ => CPools [book_pool 0 "usdt" "wrap.near"; book_pool 1 "wrap.near" "eth"]
  | QLatestRateTime _ _ => CTime (Some 1%Z)
  | QRateAt base _ _ => CRate (book_rate base (inject_Z (10 ^ 8)))
  | QLatestHolding _ => CHolding None
  | _ => CNothing
  end.
Definition book_view (receiver method : string) : cell :=
  if String.eqb method "get_deposits" then CDeposits {[ "usdt" := 2 * 10 ^ 9; "wrap.near" := 5 * 10 ^ 24 ]}
  else if String.eqb method "ft_metadata" then CAmount (if String.eqb receiver "wrap.near" then 24 else 6)
  else desk_view method.
Definition book_answer (r : Req) (s : unit) : Resp cell r * unit :=
  match r return Resp cell r * unit with
  | RView a m _ => (inl (book_view a m), s)
  | RDb q => (inl (book_db q), s)
  | r => desk_answer r s
  end.
Definition book_weights : gmap TokenAccount Q := {[ "usdt" := 1 # 10; "eth" := 2 # 3 ]}.
Definition book_rebalance := interp book_answer
  (execute_rebalance (D:=Q) (fun _ => true) (fun _ => "tx") sells_desc buys_desc true desk_wallet desk_config
     book_weights "eval_1" ∅) tt.
Definition book_actions : list (TradingAction Q) := [Hold; AddPosition "eth" (1 # 3); ReducePosition "usdt" (1 # 1)].
Definition book_trading := interp book_answer
  (execute_trading_actions (D:=Q) (fun _ => true) (fun _ => "tx") sells_desc buys_desc true desk_wallet desk_config
     book_actions "eval_1" ∅) tt.

Example book_rebalance_run :
  book_rebalance.1.1 = Ok tt /\
  ec_method <$> execs book_rebalance.1.2 = ["swap"; "swap"; "storage_deposit"; "register_tokens"; "swap"].
Proof. by vm_compute. Qed.

Lemma cell_deposits_bounded : bounded_deposits (P:=cell).
Proof.
  intros raw m t n Hm Hn. destruct raw; try done. cbn in Hm.
  destruct (forallb _ _) eqn:E; [|done]. injection Hm as <-.
  rewrite forallb_forall in E. apply N.leb_le, (E (t, n)), list_elem_of_In. by apply elem_of_map_to_list.
Qed.

Lemma rebalance_within_budget_witness :
  rebalance_session (D:=Q) (fun _ => "tx") true desk_wallet desk_config "eval_1" ∅
    book_rebalance.1.2 book_rebalance.1.1.
Proof.
  apply (rebalance_within_budget cell Q (fun _ => true) (fun _ => "tx") sells_desc buys_desc true
           desk_wallet desk_config book_weights "eval_1" ∅);
    [intros l; apply sort_by_perm|exact cell_deposits_bounded|apply interp_run].
Defined.

Lemma trading_actions_accounted_witness : exists ps,
  made (D:=Q) (fun _ => "tx") true desk_wallet desk_config ps book_trading.1.2 /\
  (exists s, book_trading.1.1 = Ok s /\ success_count s + failed_count s = 3) /\
  (requested ps = 0 \/ exists balance,
     reported true desk_wallet "wrap.near" balance book_trading.1.2 /\ requested ps <= balance).
Proof.
  destruct (trading_actions_accounted cell Q (fun _ => true) (fun _ => "tx") sells_desc buys_desc true
    desk_wallet desk_config book_actions "eval_1" ∅ book_trading.1.2 book_trading.1.1) as (ps & Hm & Ho & Hb).
  - intros l. apply sort_by_perm.
  - exact cell_deposits_bounded.
  - apply interp_run.
  - exists ps. split; [exact Hm|]. split; [|apply Hb; repeat constructor; vm_compute; discriminate].
    assert (E : book_trading.1.1 = Ok (mkExecutionSummary 3 0)) by (vm_compute; reflexivity).
    rewrite E in *. eexists. split; [reflexivity|exact Ho].
Defined.

Definition book_positions : list (N * Q) := [(1, 1 # 3); (4, 2 # 5); (5, 1 # 7)].
Lemma allocation_is_exact_witness : exists r,
  allocate_add_position_amounts book_positions (10 ^ 30 + 7) = Ok r /\ r.*1 = [1; 4; 5] /\
  sumN r.*2 = 10 ^ 30 + 7.
Proof.
  apply (allocation_is_exact Q book_positions (10 ^ 30 + 7));
    [discriminate|repeat constructor; vm_compute; discriminate|vm_compute; discriminate].
Defined.
