(* ===== verification/Periods.v ===== *)
(** * Periods: liquidation and evaluation periods

    The second half of [crates/trade/src/execution.rs]: selling every position
    for wrapped NEAR, the life cycle of evaluation periods, and the withdrawal
    to the harvest account when trading stops.  The wallet and the client that
    [unwrap_and_transfer_wnear] creates for itself are those of the caller. *)

From Stdlib Require Import QArith Lqa SpecFloat.
From S2P Require Import Prelude NearClient StoragePlanner Storage BigDecimal Dex Swap Units.
From S2P Require Import Balances Slippage Harvest Records TradeSwap Execution.
Local Open Scope N_scope.

(** 1 NEAR. *)
Definition DEFAULT_HARVEST_RESERVE : N := 10 ^ 24.

Section types.
Context (D : Type).
Record EvaluationPeriodResult := mkPeriodResult {
  pr_period_id : string;
  pr_is_new_period : bool;
  pr_existing_tokens : list TokenAccount;
  pr_liquidated_balance : option (YoctoAmount D);
  pr_failed_liquidations : list TokenAccount;
}.
Record LiquidationResult := mkLiquidationResult {
  lr_wrap_near_balance : YoctoAmount D;
  lr_failed_tokens : list TokenAccount;
}.
End types.
Arguments mkPeriodResult {D}.
Arguments pr_period_id {D}. Arguments pr_is_new_period {D}. Arguments pr_existing_tokens {D}.
Arguments pr_liquidated_balance {D}. Arguments pr_failed_liquidations {D}.
Arguments mkLiquidationResult {D}.
Arguments lr_wrap_near_balance {D}. Arguments lr_failed_tokens {D}.

Section model.
Context {P D : Type} `{BigDecimal D} `{!Rows P D} `{PathFinder}.
Context `{!FromSlice P (option StorageBalance)} `{!FromSlice P (gmap TokenAccount N)}.
Context `{!FromSlice P StorageBalanceBounds} `{!FromSlice P TokenMetadata}.
Context (valid_account : string -> bool) (show_tx : TxId -> string).
Context (is_mainnet : bool) (w : Wallet) (cfg : TradeConfig).

Abbreviation wnear := (WNEAR_TOKEN is_mainnet).
Abbreviation direct_swap := (execute_direct_swap (D:=D) show_tx is_mainnet w cfg).
Abbreviation deposits_of := (get_deposits is_mainnet (account_id w)).

(** ** Liquidation *)
Definition filter_tokens_to_liquidate (deposits : gmap TokenAccount N) : list TokenAccount :=
  (bfilter (fun '(token, amount) => negb (String.eqb token wnear) && (0 <? amount))
     (btree_iter deposits)).*1.

Fixpoint liquidate_tokens (period : string) (tokens failed : list TokenAccount)
    : prog P (list TokenAccount) :=
  match tokens with
  | [] => Ret (Ok failed)
  | token :: rest =>
      let! deposits := deposits_of in
      if default 0 (deposits !! token) =? 0 then liquidate_tokens period rest failed
      else
        let! result := attempt (direct_swap (mkSwapParams token wnear None period Unprotected)) in
        match result with
        | inl _ => liquidate_tokens period rest failed
        | inr _ => liquidate_tokens period rest (failed ++ [token])
        end
  end.

Definition liquidate_all_positions : prog P (LiquidationResult D) :=
  let! latest_period := period_get_latest (D:=D) in
  match latest_period with
  | None => Ret (Ok (mkLiquidationResult yocto_amount_zero []))
  | Some period =>
      let! deposits := deposits_of in
      match filter_tokens_to_liquidate deposits with
      | [] =>
          Ret (Ok (mkLiquidationResult (yocto_amount_from_u128 (default 0 (deposits !! wnear))) []))
      | tokens =>
          let! failed := liquidate_tokens (ep_period_id period) tokens [] in
          let! deposits := deposits_of in
          Ret (Ok (mkLiquidationResult (yocto_amount_from_u128 (default 0 (deposits !! wnear))) failed))
      end
  end.

(** ** Evaluation periods *)

(** The step a failing transaction belongs to is part of the error. *)
Definition unwrap_and_transfer_wnear : prog P unit :=
  match hc_account_id (tc_harvest cfg) with
  | None | Some EmptyString => Ret (Ok tt)
  | Some target =>
      if negb (valid_account target) then Ret (Err (Anyhow "Invalid HARVEST_ACCOUNT_ID" []))
      else if String.eqb target (account_id w) then Ret (Ok tt)
      else
        let! reserve := lift (yocto_amount_to_u128 (near_setting (D:=D) (hc_reserve_amount (tc_harvest cfg)))) in
        let reserve := if reserve =? 0 then DEFAULT_HARVEST_RESERVE else reserve in
        let! deposits := deposits_of in
        let wnear_balance := default 0 (deposits !! wnear) in
        if wnear_balance =? 0 then Ret (Ok tt)
        else
          let! tx := withdraw is_mainnet w wnear wnear_balance in
          let! _ := wait_step "Withdraw failed" tx in
          let! tx := unwrap is_mainnet w wnear_balance in
          let! _ := wait_step "Unwrap failed" tx in
          let! current_native_balance := get_native_amount (account_id w) in
          if reserve <? current_native_balance then
            let available := saturating_sub current_native_balance reserve in
            if available =? 0 then Ret (Ok tt)
            else
              let! tx := transfer_native_token w target available in
              let! _ := wait_executed tx in
              Ret (Ok tt)
          else Ret (Ok tt)
  end.

Definition parse_tokens (selected : option (list (option string))) : list TokenAccount :=
  bfilter valid_account (omap (fun x => x) (default [] selected)).

(** [num_days] truncates towards zero. *)
Definition num_days (d : Z) : Z := Z.quot d NANOS_PER_DAY.

(** The end of a period: liquidate, harvest, and start a new one unless
    trading is disabled. *)
Definition end_period (period : EvaluationPeriod D) : prog P (EvaluationPeriodResult D) :=
  let! liquidation := liquidate_all_positions in
  let final_balance := lr_wrap_near_balance liquidation in
  let failed := lr_failed_tokens liquidation in
  let initial_value := yocto_amount_to_value (ep_initial_value period) in
  let final_value := yocto_amount_to_value final_balance in
  let! harvest := attempt (check_and_execute_harvest is_mainnet w (tc_harvest cfg) valid_account
                             initial_value final_value (ep_period_id period)) in
  let harvested_amount := match harvest with inl a => a | inr _ => yocto_amount_zero end in
  let! post_harvest_balance :=
    if yocto_amount_is_zero harvested_amount then Ret (Ok final_balance)
    else
      let! deposits := deposits_of in
      Ret (Ok (yocto_amount_from_u128 (default 0 (deposits !! wnear)))) in
  if tc_trade_enabled cfg then
    let! created := insert_period (D:=D)
      (yocto_value_to_amount (yocto_amount_to_value post_harvest_balance)) [] in
    let! _ := spawn (cleanup_evaluation_periods (tc_period_retention_days cfg)) in
    Ret (Ok (mkPeriodResult (ep_period_id created) true [] (Some post_harvest_balance) failed))
  else
    let! _ :=
      if tc_unwrap_on_stop cfg then
        let! _ := attempt unwrap_and_transfer_wnear in Ret (Ok tt)
      else Ret (Ok tt) in
    Ret (Ok (mkPeriodResult EmptyString false [] (Some post_harvest_balance) failed)).

Definition continue_period (period : EvaluationPeriod D) : prog P (EvaluationPeriodResult D) :=
  let! transaction_count := count_by_evaluation_period (D:=D) (ep_period_id period) in
  let selected_tokens := parse_tokens (ep_selected_tokens period) in
  let is_new_period := is_nil selected_tokens && (transaction_count =? 0)%Z in
  Ret (Ok (mkPeriodResult (ep_period_id period) is_new_period selected_tokens None [])).

Definition manage_evaluation_period (current_time : NaiveDateTime) (available_funds : YoctoAmount D)
    : prog P (EvaluationPeriodResult D) :=
  let! latest_period := period_get_latest (D:=D) in
  match latest_period with
  | Some period =>
      if (Z.of_N (tc_evaluation_days cfg) <=? num_days (current_time - ep_start_time period))%Z
      then end_period period else continue_period period
  | None =>
      let! created := insert_period (D:=D) available_funds [] in
      let! _ := spawn (cleanup_evaluation_periods (tc_period_retention_days cfg)) in
      Ret (Ok (mkPeriodResult (ep_period_id created) true [] None []))
  end.
End model.

(** ** Liquidation *)
#[local] Arguments execs : simpl never.

Section liquidation.
Context {P D : Type} `{BigDecimal D} `{!Rows P D} `{PathFinder}.
Context `{!FromSlice P (option StorageBalance)} `{!FromSlice P (gmap TokenAccount N)}.
Context `{!FromSlice P StorageBalanceBounds} `{!FromSlice P TokenMetadata}.
Context (show_tx : TxId -> string) (is_mainnet : bool) (w : Wallet) (cfg : TradeConfig).

Abbreviation wnear := (WNEAR_TOKEN is_mainnet).
Abbreviation wpm := (wpm (P:=P) (D:=D) show_tx is_mainnet w cfg).

(** The sale of a whole position. *)
Definition sell_all (period : string) (token : TokenAccount) : SwapParams :=
  mkSwapParams token wnear None period Unprotected.

Definition failed_sales (ps : list (SwapParams * outcome anyhow unit)) : list TokenAccount :=
  omap (fun e => match e.2 with Err _ => Some (p_from_token e.1) | _ => None end) ps.

(** Each token was sold, failed to sell, or had nothing left at its turn. *)
Definition dealt_with (period : string) (token : TokenAccount)
    (ps : list (SwapParams * outcome anyhow unit)) (t : list (event P)) : Prop :=
  (sell_all period token, Ok tt) ∈ ps \/ token ∈ failed_sales ps \/ reported is_mainnet w token 0 t.

Lemma dealt_app period token ps ps' t t' : dealt_with period token ps' t' ->
  dealt_with period token (ps ++ ps') (t ++ t').
Proof.
  unfold dealt_with, failed_sales. rewrite omap_app, !elem_of_app.
  intros [Hd|[Hd|Hd]]; [tauto|tauto|]. right; right. by apply reported_app_r.
Qed.

Lemma liquidate_tokens_spec period tokens : forall failed,
  wpm (liquidate_tokens (D:=D) show_tx is_mainnet w cfg period tokens failed) (fun t ps o =>
    Forall (fun e => exists token, token ∈ tokens /\ e.1 = sell_all period token) ps /\
    match o with
    | Ok f => f = failed ++ failed_sales ps /\
              forall token, token ∈ tokens -> dealt_with period token ps t
    | _ => True
    end).
Proof.
  induction tokens as [|token rest IH]; intros failed; cbn [liquidate_tokens].
  { apply wpm_ret. split; [done|]. split; [by rewrite app_nil_r|]. intros tk Htk. by apply elem_of_nil in Htk. }
  assert (Hlater : forall ps : list (SwapParams * outcome anyhow unit),
    Forall (fun e => exists tk, tk ∈ rest /\ e.1 = sell_all period tk) ps ->
    Forall (fun e => exists tk, tk ∈ token :: rest /\ e.1 = sell_all period tk) ps).
  { intros ps. apply Forall_weaken. intros e (tk & Htk & He). exists tk. split; [by apply list_elem_of_further|done]. }
  apply wpm_bind, (wpm_deposits _ _ _ _ token); [by split|]. intros t1 m Hrep.
  destruct (N.eqb_spec (default 0 (m !! token)) 0) as [Hz|_].
  - eapply wpm_mono; [apply IH|]. intros t ps o [Hf Ho]. cbn [app]. split; [auto|].
    destruct o as [f|e|]; [|done..]. destruct Ho as [Hfail Hd]. split; [done|].
    intros tk Htk. apply elem_of_cons in Htk as [->|Htk]; [|by apply (dealt_app _ _ []), Hd].
    right; right. rewrite Hz in Hrep. by apply reported_app.
  - apply wpm_bind, wpm_attempt, wpm_swap.
    assert (Hnow : exists tk, tk ∈ token :: rest /\ mkSwapParams token wnear None period Unprotected =
      sell_all period tk) by (exists token; split; [apply list_elem_of_here|done]).
    intros t2 [u|e|]; [| |by repeat constructor];
      (eapply wpm_mono; [apply IH|]); intros t ps o [Hf Ho]; cbn [app];
      (split; [constructor; [exact Hnow|auto]|]); (destruct o as [f|e'|]; [|done..]);
      destruct Ho as [Hfail Hd].
    + split; [done|]. intros tk Htk. apply elem_of_cons in Htk as [->|Htk].
      * left. destruct u. apply list_elem_of_here.
      * rewrite (app_assoc t1). apply (dealt_app _ _ [_]). by apply Hd.
    + split; [rewrite Hfail, <- app_assoc; done|]. intros tk Htk. apply elem_of_cons in Htk as [->|Htk].
      * right; left. apply list_elem_of_here.
      * rewrite (app_assoc t1). apply (dealt_app _ _ [_]). by apply Hd.
Qed.

Lemma filter_tokens_spec (deposits : gmap TokenAccount N) token :
  token ∈ filter_tokens_to_liquidate is_mainnet deposits <->
  exists n, deposits !! token = Some n /\ 0 < n /\ token <> wnear.
Proof.
  unfold filter_tokens_to_liquidate. rewrite list_elem_of_fmap. split.
  - intros ([k n] & -> & Hin). apply elem_of_bfilter in Hin as [Hin Hb].
    apply btree_iter_elem in Hin. apply andb_prop in Hb as [H1 H2].
    exists n. split; [done|]. split; [by apply N.ltb_lt|].
    cbn. intros ->. by rewrite String.eqb_refl in H1.
  - intros (n & Hn & Hpos & Hne). exists (token, n). split; [done|].
    apply elem_of_bfilter. split; [by apply btree_iter_elem|]. apply andb_true_intro.
    split; [|by apply N.ltb_lt]. apply negb_true_iff. by apply String.eqb_neq.
Qed.

(** What a completed liquidation did: between the report of the deposits it
    began with and the one it ended with, the sales; the balance it returns is
    that of the last report. *)
Definition liquidated (t : list (event P)) (r : LiquidationResult D) : Prop :=
  exists raw0 (period : EvaluationPeriod D) raw deposits t1 raw' deposits' ps,
    t = ev (RDb QLatestPeriod) (inl raw0) :: t1 ++ [ev (deposits_view is_mainnet w) (inl raw')] /\
    from_slice raw0 = Some (Some period) /\
    head (t1 ++ [ev (deposits_view is_mainnet w) (inl raw')]) = Some (ev (deposits_view is_mainnet w) (inl raw)) /\
    from_slice raw = Some deposits /\ from_slice raw' = Some deposits' /\
    made (D:=D) show_tx is_mainnet w cfg ps t1 /\
    Forall (fun e => exists token, token ∈ filter_tokens_to_liquidate is_mainnet deposits /\
      e.1 = sell_all (ep_period_id period) token) ps /\
    (forall token n, deposits !! token = Some n -> 0 < n -> token <> wnear ->
       dealt_with (ep_period_id period) token ps t1) /\
    lr_failed_tokens r = failed_sales ps /\
    lr_wrap_near_balance r = yocto_amount_from_u128 (default 0 (deposits' !! wnear)).

(** Nothing to liquidate, as there was no period yet. *)
Definition no_period (t : list (event P)) (r : LiquidationResult D) : Prop :=
  exists raw, t = [ev (RDb QLatestPeriod) (inl raw)] /\ from_slice raw = Some (@None (EvaluationPeriod D)) /\
    r = mkLiquidationResult yocto_amount_zero [].

Lemma liquidate_all_wp :
  wp (liquidate_all_positions (P:=P) (D:=D) show_tx is_mainnet w cfg) (fun t o =>
    match o with Ok r => liquidated t r \/ no_period t r | _ => True end).
Proof.
  unfold liquidate_all_positions, period_get_latest, fetch, query. apply wp_bind, wp_bind, wp_call.
  intros [raw0|e]; [|done]. apply wp_ret. unfold decode at 1.
  destruct (from_slice raw0) as [[period|]|] eqn:Hraw0; cbn [ok_or app]; [| |done].
  2:{ apply wp_ret. right. by exists raw0. }
  apply wp_bind. unfold get_deposits at 1. apply wp_bind, wp_call. intros [raw|e]; [|done].
  apply wp_ret. unfold decode. destruct (from_slice raw) as [deposits|] eqn:Hraw; cbn [ok_or app]; [|done].
  set (E1 := ev (deposits_view is_mainnet w) (inl raw)).
  destruct (filter_tokens_to_liquidate is_mainnet deposits) as [|tk tks] eqn:Htokens.
  - apply wp_ret. left. exists raw0, period, raw, deposits, [], raw, deposits, [].
    split_and!; [done|done|done|done|done|by constructor|by apply Forall_nil| |done|done].
    intros token n Hn Hpos Hne. exfalso.
    assert (Hin : token ∈ filter_tokens_to_liquidate is_mainnet deposits)
      by (apply filter_tokens_spec; eauto). rewrite Htokens in Hin. by apply elem_of_nil in Hin.
  - rewrite <- Htokens. apply wp_bind. eapply wp_mono; [apply liquidate_tokens_spec|].
    intros t2 [failed|e|] (ps & Hm & Hf & Ho); [|done..]. destruct Ho as [-> Hd].
    apply wp_bind. unfold get_deposits. apply wp_bind, wp_call. intros [raw2|e]; [|done].
    apply wp_ret. unfold decode. destruct (from_slice raw2) as [deposits2|] eqn:Hraw2; cbn [ok_or app]; [|done].
    apply wp_ret. left. exists raw0, period, raw, deposits, (E1 :: t2), raw2, deposits2, ps.
    split_and!; [done|done|done|done|done| |exact Hf| |done|done].
    + change (E1 :: t2) with ([E1] ++ t2). by apply made_quiet_app.
    + intros token n Hn Hpos Hne. apply (dealt_app _ _ [] _ [E1]). apply Hd, filter_tokens_spec. eauto.
Qed.
End liquidation.

(** ** The life cycle of a period *)
Section cycle.
Context {P D : Type} `{BigDecimalLaws D} `{!Rows P D} `{PathFinder}.
Context `{!FromSlice P (option StorageBalance)} `{!FromSlice P (gmap TokenAccount N)}.
Context `{!FromSlice P StorageBalanceBounds} `{!FromSlice P TokenMetadata}.
Context (valid_account : string -> bool) (show_tx : TxId -> string).
Context (is_mainnet : bool) (w : Wallet) (cfg : TradeConfig).

(** The initial values of the periods a run inserts. *)
Definition inserted (e : event P) : option Q :=
  match projT1 e with RDb (QInsertPeriod v _) => Some v | _ => None end.
Definition inserts (t : list (event P)) : list Q := omap inserted t.
Lemma inserts_app t t' : inserts (t ++ t') = inserts t ++ inserts t'.
Proof. apply omap_app. Qed.

Definition no_insert (t : list (event P)) : Prop := inserts t = [].
#[local] Instance no_insert_composable : Composable no_insert.
Proof. split; [done|]. unfold no_insert. intros t t' Ht Ht'. by rewrite inserts_app, Ht, Ht'. Qed.

Ltac inserts_nothing := repeat keeps_step ltac:(by apply keeps_call; intros ?).

Lemma unregister_chunks_no_insert cs : forall a b,
  keeps (unregister_chunks (P:=P) is_mainnet w cs a b) no_insert.
Proof.
  induction cs as [|c cs IH]; intros a b; cbn [unregister_chunks]; [apply keeps_ret, _|].
  apply keeps_bind; [apply _|unfold unregister_tokens; inserts_nothing|]. intros []; apply IH.
Qed.

Lemma ensure_no_insert needed keep cap :
  keeps (ensure_ref_storage_setup (P:=P) is_mainnet w needed keep cap) no_insert.
Proof.
  assert (Hstale : forall args, keeps (unregister_stale (P:=P) is_mainnet w args) no_insert).
  { intros args. unfold unregister_stale, get_deposits. destruct (np_to_unregister args); [apply keeps_ret, _|].
    apply keeps_bind; [apply _|inserts_nothing|]. intros fresh. apply keeps_bind; [apply _|apply keeps_ret, _|].
    intros _. apply keeps_bind; [apply _|apply unregister_chunks_no_insert|]. intros _. apply keeps_ret, _. }
  unfold ensure_ref_storage_setup. destruct (_ <? _); [apply keeps_ret, _|].
  apply keeps_with_lock; [apply _|done|done|]. apply keeps_bind; [apply _| |].
  - unfold initial_registration, balance_of, check_bounds, storage_deposit. inserts_nothing.
  - intros initial. unfold plan_and_execute, balance_of, get_deposits, check_bounds.
    repeat (apply keeps_bind; [apply _|inserts_nothing|intros ?]).
    destruct a3 as [tokens|u r e]; [unfold handle_initial_register, register_tokens; inserts_nothing|].
    unfold handle_normal_plan. apply keeps_bind; [apply _|apply Hstale|intros _].
    unfold top_up, balance_of, storage_deposit, register_tokens. inserts_nothing.
Qed.

Lemma direct_swap_no_insert params :
  keeps (execute_direct_swap (P:=P) (D:=D) show_tx is_mainnet w cfg params) no_insert.
Proof.
  unfold execute_direct_swap. apply keeps_bind; [apply _| |intros balance].
  - unfold source_balance, read_inputs, start, balance_of_start_token, get_deposits, refill, wrap_up_to, harvest,
      pay_excess, is_time_to_harvest, update_last_harvest, harvest_account, wnear_balance_of, wrap, deposit, withdraw.
    inserts_nothing.
  - destruct (balance =? 0); [apply keeps_ret, _|]. apply keeps_bind; [apply _| |intros pools].
    { unfold read_from_db, pool_get_latest, get_all_unique_between, fetch, query. inserts_nothing. }
    do 2 (apply keeps_bind; [apply _|apply keeps_ret, _|intros ?]).
    apply keeps_bind; [apply _| |intros _].
    { unfold setup_storage. apply keeps_bind; [apply _|apply keeps_ret, _|intros ?]. apply ensure_no_insert. }
    unfold swap_and_record, run_swap, get_token_decimals_cached, get_token_decimals, get_token_metadata.
    inserts_nothing.
Qed.

Lemma liquidation_no_insert :
  keeps (liquidate_all_positions (P:=P) (D:=D) show_tx is_mainnet w cfg) no_insert.
Proof.
  unfold liquidate_all_positions, period_get_latest, fetch, query, get_deposits.
  apply keeps_bind; [apply _|inserts_nothing|]. intros [period|]; [|apply keeps_ret, _].
  apply keeps_bind; [apply _|inserts_nothing|intros deposits].
  destruct (filter_tokens_to_liquidate is_mainnet deposits) as [|tk tks]; [apply keeps_ret, _|].
  apply keeps_bind; [apply _| |intros ?; inserts_nothing].
  generalize (tk :: tks) (@nil TokenAccount). intros tokens. induction tokens as [|tok rest IH]; intros failed;
    cbn [liquidate_tokens]; [apply keeps_ret, _|].
  apply keeps_bind; [apply _|unfold get_deposits; inserts_nothing|intros m].
  destruct (_ =? 0); [apply IH|]. apply keeps_bind; [apply _|apply keeps_attempt, direct_swap_no_insert|].
  intros []; apply IH.
Qed.

Lemma harvest_no_insert initial current period :
  keeps (check_and_execute_harvest (P:=P) (D:=D) is_mainnet w (tc_harvest cfg) valid_account
           initial current period) no_insert.
Proof.
  unfold check_and_execute_harvest, time_to_harvest, execute_harvest_transfer, update_last_harvest_time,
    wait_step, withdraw, unwrap. inserts_nothing.
Qed.

Lemma unwrap_no_insert :
  keeps (unwrap_and_transfer_wnear (P:=P) (D:=D) valid_account is_mainnet w cfg) no_insert.
Proof.
  unfold unwrap_and_transfer_wnear, wait_step, withdraw, unwrap, get_deposits. inserts_nothing.
Qed.

Lemma spawn_no_insert n : keeps (spawn (cleanup_evaluation_periods (P:=P) n)) no_insert.
Proof.
  unfold cleanup_evaluation_periods, cleanup_table, utc_now, query. destruct (n =? 0); [apply keeps_ret, _|].
  cbn. unfold bind. apply wp_op. intros now. cbn. destruct (cutoff_date _ _); cbn; [|by apply wp_ret..].
  apply wp_op. intros x. destruct x; by apply wp_ret.
Qed.

Definition elapsed_days (now : NaiveDateTime) (period : EvaluationPeriod D) : Z :=
  num_days (now - ep_start_time period).

(** The balance after the harvest: that of the liquidation when nothing was
    harvested or the harvest failed, and otherwise the wrapped NEAR that the
    exchange reports then. *)
Definition after_harvest (lr : LiquidationResult D) (oh : outcome anyhow (YoctoAmount D)) (tb : list (event P))
  (balance : YoctoAmount D) : Prop :=
  let harvested := match oh with Ok a => a | _ => yocto_amount_zero end in
  if yocto_amount_is_zero harvested then tb = [] /\ balance = lr_wrap_near_balance lr
  else exists raw deposits, tb = [ev (deposits_view is_mainnet w) (inl raw)] /\ from_slice raw = Some deposits /\
    balance = yocto_amount_from_u128 (default 0 (deposits !! WNEAR_TOKEN is_mainnet)).

(** The new period, as the answer to its insertion has it. *)
Definition started (value : YoctoAmount D) (t : list (event P)) (r : EvaluationPeriodResult D) : Prop :=
  exists raw (created : EvaluationPeriod D) t',
    t = ev (RDb (QInsertPeriod (bd_numeric (yocto_amount_bd value)) None)) (inl raw) :: t' /\
    from_slice raw = Some created /\ inserts t' = [] /\ execs t' = [] /\
    pr_period_id r = ep_period_id created /\ pr_is_new_period r = true.

(** What a call that returned [r] did, given the latest period it found. *)
Definition cycle_step (now : NaiveDateTime) (funds : YoctoAmount D) (latest : option (EvaluationPeriod D))
    (t : list (event P)) (r : EvaluationPeriodResult D) : Prop :=
  match latest with
  | None => started funds t r /\ pr_liquidated_balance r = None
  | Some period =>
      if (Z.of_N (tc_evaluation_days cfg) <=? elapsed_days now period)%Z then
        exists tl lr th oh tb balance rest, t = tl ++ th ++ tb ++ rest /\
          run (liquidate_all_positions (D:=D) show_tx is_mainnet w cfg) tl (Ok lr) /\
          run (check_and_execute_harvest is_mainnet w (tc_harvest cfg) valid_account
                 (yocto_amount_to_value (ep_initial_value period)) (yocto_amount_to_value (lr_wrap_near_balance lr))
                 (ep_period_id period)) th oh /\
          after_harvest lr oh tb balance /\ inserts (tl ++ th ++ tb) = [] /\
          pr_liquidated_balance r = Some balance /\ pr_failed_liquidations r = lr_failed_tokens lr /\
          if tc_trade_enabled cfg then started balance rest r
          else inserts rest = [] /\ pr_period_id r = EmptyString /\ pr_is_new_period r = false
      else
        inserts t = [] /\ execs t = [] /\ pr_period_id r = ep_period_id period /\
        pr_liquidated_balance r = None
  end.

Lemma insert_period_wp (v : YoctoAmount D) :
  wp (insert_period (P:=P) (D:=D) v []) (fun t o =>
    (length (inserts t) <= 1)%nat /\ o <> Panic /\ forall created, o = Ok created ->
      exists raw, t = [ev (RDb (QInsertPeriod (bd_numeric (yocto_amount_bd v)) None)) (inl raw)] /\
        from_slice raw = Some created).
Proof.
  unfold insert_period, fetch, query. apply wp_bind, wp_call. intros [raw|e]; [|by split; [cbn; lia|]].
  apply wp_ret. split; [cbn; lia|]. unfold decode. split; [apply ok_or_not_Panic|]. intros created Hc.
  exists raw. split; [done|]. by destruct (from_slice raw); [injection Hc as ->|].
Qed.

Lemma spawn_wp n : wp (spawn (cleanup_evaluation_periods (P:=P) n)) (fun t o =>
  inserts t = [] /\ execs t = [] /\ o = Ok tt).
Proof.
  unfold cleanup_evaluation_periods, cleanup_table, utc_now, query. destruct (n =? 0); [by apply wp_ret|].
  unfold bind. cbn. apply wp_op. intros now. cbn. destruct (cutoff_date _ _); cbn; [|by apply wp_ret..].
  apply wp_op. intros x. destruct x; by apply wp_ret.
Qed.

(** Starting a period: the insertion, then the cleanup. *)
Lemma start_period_wp (v : YoctoAmount D) (mk : string -> EvaluationPeriodResult D) :
  (forall n, pr_period_id (mk n) = n /\ pr_is_new_period (mk n) = true) ->
  wp (let! created := insert_period (D:=D) v [] in
      let! _ := spawn (cleanup_evaluation_periods (tc_period_retention_days cfg)) in
      Ret (Ok (mk (ep_period_id created)))) (fun t o =>
    (length (inserts t) <= 1)%nat /\ o <> Panic /\ forall r, o = Ok r -> started v t r /\ exists n, r = mk n).
Proof.
  intros Hmk. apply wp_bind. eapply wp_mono; [apply insert_period_wp|]. intros t1 o1 (Hl & Hp & Ho).
  destruct o1 as [created|e|]; [|by split_and!|done].
  apply wp_bind. eapply wp_mono; [apply spawn_wp|]. intros t2 o2 (Ht2 & He2 & ->). apply wp_ret.
  rewrite app_nil_r, inserts_app, Ht2, app_nil_r. split; [done|]. split; [done|]. intros r [= <-]. split; [|by eauto].
  destruct (Ho created eq_refl) as (raw & -> & Hraw). exists raw, created, t2. destruct (Hmk (ep_period_id created)).
  by split_and!.
Qed.

(** The end of a trading period, with its balance. *)
Lemma stop_trading_wp (r0 : EvaluationPeriodResult D) :
  wp (let! _ := if tc_unwrap_on_stop cfg then
                  let! _ := attempt (unwrap_and_transfer_wnear (P:=P) (D:=D) valid_account is_mainnet w cfg) in Ret (Ok tt)
                else Ret (Ok tt) in
      Ret (Ok r0)) (fun t o => inserts t = [] /\ forall r, o = Ok r -> r = r0).
Proof.
  apply wp_bind. eapply wp_mono; [instantiate (1 := fun t o => inserts t = []); apply wp_if; intros _; [|by apply wp_ret]|].
  { apply wp_bind, wp_attempt. eapply wp_mono; [apply unwrap_no_insert|].
    intros t4 [u|e|] Ht4; unfold no_insert in Ht4; [apply wp_ret..|done]; by rewrite app_nil_r. }
  intros t4 [u|e|] Ht4; [|by split..]. apply wp_ret. rewrite app_nil_r. split; [done|]. by intros r [= <-].
Qed.

Lemma end_period_wp now funds period :
  (Z.of_N (tc_evaluation_days cfg) <= elapsed_days now period)%Z ->
  wp (end_period (P:=P) (D:=D) valid_account show_tx is_mainnet w cfg period) (fun t o =>
    (length (inserts t) <= 1)%nat /\ forall r, o = Ok r -> cycle_step now funds (Some period) t r).
Proof.
  intros Hdays. unfold end_period, cycle_step. rewrite (proj2 (Z.leb_le _ _) Hdays).
  assert (Hstop : forall t (o : outcome anyhow (EvaluationPeriodResult D)) (Q : _ -> Prop),
    inserts t = [] -> (forall r, o <> Ok r) -> (length (inserts t) <= 1)%nat /\ forall r, o = Ok r -> Q r).
  { intros t o Q Ht Ho. split; [rewrite Ht; cbn; lia|]. intros r Hr. by destruct (Ho r). }
  apply wp_bind. eapply wp_mono; [apply wp_conj; [apply wp_run|apply liquidation_no_insert]|].
  intros tl o1 [Hrun Ht1]. unfold no_insert in Ht1. destruct o1 as [lr|e|]; [|by apply Hstop..].
  apply wp_bind, wp_attempt. eapply wp_mono; [apply wp_conj; [apply wp_run|apply harvest_no_insert]|].
  intros th oh [Hharvest Ht2]. unfold no_insert in Ht2.
  enough (Hrest : wp (let! post_harvest_balance :=
       if yocto_amount_is_zero (match oh with Ok a => a | _ => yocto_amount_zero end) then Ret (Ok (lr_wrap_near_balance lr))
       else
         let! deposits := get_deposits is_mainnet (account_id w) in
         Ret (Ok (yocto_amount_from_u128 (default 0 (deposits !! WNEAR_TOKEN is_mainnet)))) in
     if tc_trade_enabled cfg then
       let! created := insert_period (D:=D)
         (yocto_value_to_amount (yocto_amount_to_value post_harvest_balance)) [] in
       let! _ := spawn (cleanup_evaluation_periods (tc_period_retention_days cfg)) in
       Ret (Ok (mkPeriodResult (ep_period_id created) true [] (Some post_harvest_balance) (lr_failed_tokens lr)))
     else
       let! _ :=
         if tc_unwrap_on_stop cfg then
           let! _ := attempt (unwrap_and_transfer_wnear (D:=D) valid_account is_mainnet w cfg) in Ret (Ok tt)
         else Ret (Ok tt) in
       Ret (Ok (mkPeriodResult EmptyString false [] (Some post_harvest_balance) (lr_failed_tokens lr))))
    (fun t o => (length (inserts (tl ++ th ++ t)) <= 1)%nat /\ forall r, o = Ok r ->
      exists tl' lr' th' oh' tb balance rest, tl ++ th ++ t = tl' ++ th' ++ tb ++ rest /\
        run (liquidate_all_positions (D:=D) show_tx is_mainnet w cfg) tl' (Ok lr') /\
        run (check_and_execute_harvest is_mainnet w (tc_harvest cfg) valid_account
               (yocto_amount_to_value (ep_initial_value period)) (yocto_amount_to_value (lr_wrap_near_balance lr'))
               (ep_period_id period)) th' oh' /\
        after_harvest lr' oh' tb balance /\ inserts (tl' ++ th' ++ tb) = [] /\
        pr_liquidated_balance r = Some balance /\ pr_failed_liquidations r = lr_failed_tokens lr' /\
        if tc_trade_enabled cfg then started balance rest r
        else inserts rest = [] /\ pr_period_id r = EmptyString /\ pr_is_new_period r = false)).
  { destruct oh as [a|e|]; [exact Hrest|exact Hrest|]. by apply Hstop; [rewrite inserts_app, Ht1, Ht2|]. }
  apply wp_bind. eapply wp_mono; [instantiate (1 := fun t o => inserts t = [] /\ forall b, o = Ok b -> after_harvest lr oh t b)|].
  { unfold after_harvest. destruct (yocto_amount_is_zero _); [apply wp_ret; split; [done|]; by intros b [= <-]|].
    apply wp_bind. unfold get_deposits. apply wp_bind, wp_call. intros [raw|e]; [|done].
    apply wp_ret. unfold decode. destruct (from_slice raw) as [deposits|] eqn:Hraw; [|done]. apply wp_ret. split; [done|].
    intros b [= <-]. by exists raw, deposits. }
  intros tb [balance|e|] [Ht3 Hb]; [|by apply Hstop; [rewrite !inserts_app, Ht1, Ht2, Ht3|]..].
  specialize (Hb balance eq_refl).
  assert (Hnone : inserts (tl ++ th ++ tb) = []) by (by rewrite !inserts_app, Ht1, Ht2, Ht3).
  assert (Hlen : forall t, inserts (tl ++ th ++ tb ++ t) = inserts t) by (intros t; by rewrite !inserts_app, Ht1, Ht2, Ht3).
  destruct (tc_trade_enabled cfg).
  - eapply wp_mono; [apply (start_period_wp _ (fun n => mkPeriodResult n true [] (Some balance) (lr_failed_tokens lr))); done|].
    intros rest o (Hl & _ & Ho). rewrite Hlen. split; [done|]. intros r Hr. destruct (Ho r Hr) as [Hs [n ->]].
    exists tl, lr, th, oh, tb, balance, rest. by destruct balance.
  - eapply wp_mono; [apply stop_trading_wp|]. intros rest o [Hi Ho]. rewrite Hlen, Hi. split; [cbn; lia|].
    intros r Hr. rewrite (Ho r Hr). by exists tl, lr, th, oh, tb, balance, rest.
Qed.

Lemma manage_period_wp now funds :
  wp (manage_evaluation_period (P:=P) (D:=D) valid_account show_tx is_mainnet w cfg now funds) (fun t o =>
    (length (inserts t) <= 1)%nat /\
    forall r, o = Ok r -> exists raw latest t', t = ev (RDb QLatestPeriod) (inl raw) :: t' /\
      from_slice raw = Some latest /\ cycle_step now funds latest t' r).
Proof.
  assert (Hstop : forall t (o : outcome anyhow (EvaluationPeriodResult D)) (Q : _ -> Prop),
    inserts t = [] -> (forall r, o <> Ok r) -> (length (inserts t) <= 1)%nat /\ forall r, o = Ok r -> Q r).
  { intros t o Q Ht Ho. split; [rewrite Ht; cbn; lia|]. intros r Hr. by destruct (Ho r). }
  unfold manage_evaluation_period, period_get_latest, fetch, query.
  apply wp_bind, wp_bind, wp_call. intros [raw|e]; [|by apply Hstop].
  apply wp_ret. unfold decode. destruct (from_slice raw) as [latest|] eqn:Hraw; cbn [ok_or app]; [|by apply Hstop].
  assert (Hgoal : forall p : prog P (EvaluationPeriodResult D),
    wp p (fun t o => (length (inserts t) <= 1)%nat /\ forall r, o = Ok r -> cycle_step now funds latest t r) ->
    wp p (fun t o => (length (inserts (ev (RDb QLatestPeriod) (inl raw) :: t)) <= 1)%nat /\
      forall r, o = Ok r -> exists raw' latest' t', ev (RDb QLatestPeriod) (inl raw) :: t =
        ev (RDb QLatestPeriod) (inl raw') :: t' /\ from_slice raw' = Some latest' /\
        cycle_step now funds latest' t' r)).
  { intros p Hp. eapply wp_mono; [exact Hp|]. intros t o [Hl Hr]. split; [exact Hl|].
    intros r Ho. exists raw, latest, t. auto. }
  destruct latest as [period|]; apply Hgoal; clear Hgoal.
  - destruct (Z.leb_spec (Z.of_N (tc_evaluation_days cfg)) (num_days (now - ep_start_time period))) as [Hd|Hd].
    + by apply end_period_wp.
    + unfold continue_period, count_by_evaluation_period, fetch, query.
      apply wp_bind, wp_bind, wp_call. intros [raw2|e]; [|by apply Hstop].
      apply wp_ret. unfold decode. destruct (from_slice raw2) as [n|]; cbn [ok_or]; [|by apply Hstop].
      apply wp_ret. split; [cbn; lia|]. intros r [= <-]. unfold cycle_step, elapsed_days.
      rewrite (proj2 (Z.leb_gt _ _) Hd). done.
  - eapply wp_mono; [apply (start_period_wp funds (fun n => mkPeriodResult n true [] None [])); done|].
    intros t o (Hl & _ & Ho). split; [done|]. intros r Hr. destruct (Ho r Hr) as [Hs [n ->]]. by split.
Qed.
End cycle.

(** ** The claims *)
Section theorems.
Context (P D : Type) `{BigDecimalLaws D} `{!Rows P D} `{PathFinder}.
Context `{!FromSlice P (option StorageBalance)} `{!FromSlice P (gmap TokenAccount N)}.
Context `{!FromSlice P StorageBalanceBounds} `{!FromSlice P TokenMetadata}.
Context (valid_account : string -> bool) (show_tx : TxId -> string).
Context (is_mainnet : bool) (w : Wallet) (cfg : TradeConfig).

(** C29: A liquidation that returns found no period, sent nothing and returned
    zero, or it dealt with every token that the deposits first reported name with a
    positive balance, wrapped NEAR apart: the token was sold whole for wrapped NEAR,
    or its sale failed, or its balance had become zero.  It sells no other token and
    sends nothing else, lists exactly the failed sales, and the balance it returns
    is the wrapped NEAR of the last report of the deposits, after all sales. *)
Theorem liquidation_deals_with_all t r :
  run (liquidate_all_positions (P:=P) (D:=D) show_tx is_mainnet w cfg) t (Ok r) ->
  liquidated show_tx is_mainnet w cfg t r \/ no_period t r.
Proof. intros Hr. exact (liquidate_all_wp show_tx is_mainnet w cfg t (Ok r) Hr). Qed.

(** C14: Managing the periods inserts at most one new period, whatever is answered.
    A call that returns starts the first period with the available funds; leaves a
    period that is not over alone, without a transaction; and ends one that is over
    by liquidating, then harvesting, and then, while trading is enabled, starting
    the next, or with trading disabled, none.  The initial value of the next period
    and the balance returned are the balance after the harvest: what the liquidation
    returned when nothing was harvested or the harvest failed, and otherwise the
    wrapped NEAR of a report of the deposits made after the harvest. *)
Theorem period_life_cycle now funds t o :
  run (manage_evaluation_period (P:=P) (D:=D) valid_account show_tx is_mainnet w cfg now funds) t o ->
  (length (inserts t) <= 1)%nat /\
  forall r, o = Ok r -> exists raw latest t', t = ev (RDb QLatestPeriod) (inl raw) :: t' /\
    from_slice raw = Some latest /\ cycle_step valid_account show_tx is_mainnet w cfg now funds latest t' r.
Proof. apply manage_period_wp. Qed.
End theorems.

(** ** A period that is over

    It started at time 0 with 3 NEAR and is looked at after 20 days. *)
Definition old_period : EvaluationPeriod Q :=
  mkEvaluationPeriod "eval_1" 0 (mkYoctoAmount (inject_Z (3 * 10 ^ 24))) None.
Definition ledger_answer (r : Req) (s : unit) : Resp cell r * unit :=
  match r return Resp cell r * unit with
  | RDb QLatestPeriod => (inl (CLastPeriod (Some old_period)), s)
  | RDb (QInsertPeriod v sel) => (inl (CPeriod (mkEvaluationPeriod "eval_2" 5 (mkYoctoAmount v) sel)), s)
  | r => book_answer r s
  end.
Definition ledger_liquidation := interp ledger_answer
  (liquidate_all_positions (D:=Q) (fun _ => "tx") true desk_wallet desk_config) tt.
Definition ledger_cycle := interp ledger_answer
  (manage_evaluation_period (D:=Q) (fun _ => true) (fun _ => "tx") true desk_wallet desk_config
     (20 * NANOS_PER_DAY) (mkYoctoAmount 0%Q)) tt.
Definition ledger_liquidated : LiquidationResult Q :=
  mkLiquidationResult (yocto_amount_from_u128 (5 * 10 ^ 24)) [].

Example ledger_runs :
  ledger_liquidation.1.1 = Ok ledger_liquidated /\
  (ec_method <$> execs ledger_liquidation.1.2) = ["swap"] /\
  ledger_cycle.1.1 = Ok (mkPeriodResult "eval_2" true [] (Some (yocto_amount_from_u128 (5 * 10 ^ 24))) []) /\
  inserts ledger_cycle.1.2 = [inject_Z (5 * 10 ^ 24)].
Proof. by vm_compute. Qed.

Lemma liquidation_deals_with_all_witness :
  liquidated (D:=Q) (fun _ => "tx") true desk_wallet desk_config ledger_liquidation.1.2 ledger_liquidated \/
  no_period (D:=Q) ledger_liquidation.1.2 ledger_liquidated.
Proof.
  apply (liquidation_deals_with_all cell Q (fun _ => "tx") true desk_wallet desk_config).
  assert (E : ledger_liquidation.1.1 = Ok ledger_liquidated) by (vm_compute; reflexivity).
  rewrite <- E. apply interp_run.
Defined.

Lemma period_life_cycle_witness :
  (length (inserts ledger_cycle.1.2) <= 1)%nat /\
  forall r, ledger_cycle.1.1 = Ok r -> exists raw latest t',
    ledger_cycle.1.2 = ev (RDb QLatestPeriod) (inl raw) :: t' /\ from_slice raw = Some latest /\
    cycle_step (D:=Q) (fun _ => true) (fun _ => "tx") true desk_wallet desk_config (20 * NANOS_PER_DAY)
      (mkYoctoAmount 0%Q) latest t' r.
Proof.
  apply (period_life_cycle cell Q (fun _ => true) (fun _ => "tx") true desk_wallet desk_config
           (20 * NANOS_PER_DAY) (mkYoctoAmount 0%Q)).
  apply interp_run.
Defined.
