(* ===== verification/Graph.v ===== *)
(** * Graph: the token graph and its paths

    [crates/blockchain/src/ref_finance/path/]: the edges between the tokens of the
    simple pools ([edge/], [by_token.rs]), the graph that is built from them and
    the cache of shortest paths ([graph.rs]).  The graph structure and its
    shortest-path search are those of the [petgraph] crate: they are the operations
    of the class [Petgraph], with laws for what the code relies on, and [ListGraph]
    is an instance.  The iteration order of a [HashMap] is the class [HashOrder].
    The memo tables of edges, weights and groups hold results of pure functions
    and are left out; the table of paths is the state [cached_path].  A recursion that
    never returns overflows the stack, which is a panic here. *)

From Stdlib Require Import QArith SpecFloat.
From S2P Require Import Prelude NearClient F64 BigDecimal Dex Swap Records TradeSwap.
Local Open Scope N_scope.

(** ** edge/weight.rs *)
Record EdgeWeight := mkEdgeWeight { ew_pair_id : option TokenPairId; estimated_rate : f64 }.

Definition calc_rate (input_value estimated_return : N) : f64 :=
  if input_value =? 0 then f64_zero
  else f64_neg (f64_div (f64_of_N estimated_return) (f64_of_N input_value)).

Definition EdgeWeight_new (pid : TokenPairId) (input_value estimated_return : N) : EdgeWeight :=
  mkEdgeWeight (Some pid) (calc_rate input_value estimated_return).
Definition EdgeWeight_default : EdgeWeight := mkEdgeWeight None f64_one.

Definition weight_eqb (a b : EdgeWeight) : bool :=
  bool_decide (ew_pair_id a = ew_pair_id b) && f64_eqb (estimated_rate a) (estimated_rate b).
Definition weight_partial_cmp (a b : EdgeWeight) : option comparison :=
  f64_partial_cmp (estimated_rate a) (estimated_rate b).
(** Weights are accumulated by multiplying the rates. *)
Definition weight_add (a b : EdgeWeight) : EdgeWeight :=
  mkEdgeWeight None (f64_mul (estimated_rate a) (estimated_rate b)).

(** ** edge.rs *)
Record Edge := mkEdge { edge_pair : TokenPair; edge_input : N; edge_return : N }.
Definition edge_weight (e : Edge) : EdgeWeight :=
  EdgeWeight_new (pair_id (edge_pair e)) (edge_input e) (edge_return e).

(** ** edge/one_step.rs *)

(** The heap in the order of the pushes; its top is replaced only by an edge
    with a greater return. *)
Record PathEdges := mkPathEdges {
  token_in_out : TokenAccount * TokenAccount;
  pairs : list Edge;
}.
Definition PathEdges_new (token_in_id token_out_id : TokenAccount) : PathEdges :=
  mkPathEdges (token_in_id, token_out_id) [].

Definition path_edges_push (pe : PathEdges) (e : Edge) : outcome Error PathEdges :=
  let? ti := token_in_id (edge_pair e) in
  let? to := token_out_id (edge_pair e) in
  if bool_decide (token_in_out pe = (ti, to))
  then Ok (mkPathEdges (token_in_out pe) (pairs pe ++ [e]))
  else Err (UnmatchedTokenPath (token_in_out pe) (ti, to)).

Definition greater_return (top : option Edge) (e : Edge) : option Edge :=
  match top with
  | Some t => if edge_return t <? edge_return e then Some e else Some t
  | None => Some e
  end.
Definition at_top (pe : PathEdges) : option Edge := foldl greater_return None (pairs pe).

(** ** Iteration order of hash maps *)
Class HashOrder := hash_iter : forall {K A : Type} `{Countable K}, gmap K A -> list (K * A).
Class HashOrderLaws `{HashOrder} : Prop :=
  hash_iter_perm : forall {K A : Type} `{Countable K} (m : gmap K A), hash_iter m ≡ₚ map_to_list m.

Section edges.
Context (D : Type) `{BigDecimal D}.

(** ** edge/same_pool.rs *)
Definition get_token_id (p : PoolInfo) (t : TokenAccount) : option TokenIndex :=
  N.of_nat <$> (fst <$> list_find (fun x => x = t) (tokens p)).

Definition cached_edges_get (p : PoolInfo) (ti : TokenIn) (to : TokenOut) : outcome anyhow Edge :=
  let? tp := dex_result (get_pair p ti to) in
  let? values := dex_result (estimate_normal_return D tp) in
  Ok (mkEdge tp values.1 values.2).

Definition get_by_ids (p : PoolInfo) (token_in token_out : TokenAccount) : outcome anyhow Edge :=
  let? ti := ok_or (Anyhow "token not found" []) (get_token_id p token_in) in
  let? to := ok_or (Anyhow "token not found" []) (get_token_id p token_out) in
  cached_edges_get p (mkTokenIn ti) (mkTokenOut to).

(** ** by_token.rs *)
Definition push_pool (p : PoolInfo) (by_in : gmap TokenAccount (list PoolInfo)) (t : TokenAccount) :=
  <[t := default [] (by_in !! t) ++ [p]]> by_in.
Definition PoolsByToken_new (pool_list : PoolInfoList) : gmap TokenAccount (list PoolInfo) :=
  foldl (fun m p => foldl (push_pool p) m (tokens p)) ∅ (bfilter is_simple (pools_list pool_list)).

Fixpoint group_tokens (p : PoolInfo) (token_in : TokenAccount) (outs : list TokenAccount)
    (groups : gmap TokenAccount PathEdges) : outcome Error (gmap TokenAccount PathEdges) :=
  match outs with
  | [] => Ok groups
  | t :: rest =>
      if bool_decide (t = token_in) then group_tokens p token_in rest groups
      else
        match get_by_ids p token_in t with
        | Ok e =>
            let? pe := expect_ok (path_edges_push (default (PathEdges_new token_in t) (groups !! t)) e) in
            group_tokens p token_in rest (<[t := pe]> groups)
        | Err _ => group_tokens p token_in rest groups
        | Panic => Panic
        end
  end.

Fixpoint group_pools (token_in : TokenAccount) (ps : list PoolInfo)
    (groups : gmap TokenAccount PathEdges) : outcome Error (gmap TokenAccount PathEdges) :=
  match ps with
  | [] => Ok groups
  | p :: rest =>
      let? groups := group_tokens p token_in (tokens p) groups in
      group_pools token_in rest groups
  end.

(** An unknown token has no groups. *)
Definition get_groups_by_out (by_in : gmap TokenAccount (list PoolInfo)) (token_in : TokenAccount)
    : outcome Error (gmap TokenAccount PathEdges) :=
  match by_in !! token_in with
  | Some ps => group_pools token_in ps ∅
  | None => Ok ∅
  end.
End edges.

(** ** The crate petgraph *)
Abbreviation NodeIndex := N (only parsing).

Class Petgraph (G : Type) := {
  graph_new : G;
  add_node : G -> TokenAccount -> NodeIndex * G;
  add_edge : G -> NodeIndex -> NodeIndex -> EdgeWeight -> G;
  find_edge : G -> NodeIndex -> NodeIndex -> option N;
  edge_weight_of : G -> N -> option EdgeWeight;
  node_weight_of : G -> NodeIndex -> option TokenAccount;
  (** The sources and weights of the incoming edges. *)
  edges_incoming : G -> NodeIndex -> list (NodeIndex * EdgeWeight);
  dijkstra : G -> NodeIndex -> option NodeIndex -> gmap NodeIndex EdgeWeight;
}.

(** What a graph holds, and how the operations read and change it; every score
    but that of the start is the score of a neighbour with the weight of an edge
    added. *)
Class PetgraphLaws (G : Type) `{Petgraph G} := {
  node_list : G -> list TokenAccount;
  edge_list : G -> list (NodeIndex * NodeIndex * EdgeWeight);
  new_empty : node_list graph_new = [] /\ edge_list graph_new = [];
  add_node_spec : forall g t, add_node g t = (len (node_list g), (add_node g t).2) /\
    node_list (add_node g t).2 = node_list g ++ [t] /\ edge_list (add_node g t).2 = edge_list g;
  add_edge_spec : forall g a b w, node_list (add_edge g a b w) = node_list g /\
    edge_list (add_edge g a b w) = edge_list g ++ [(a, b, w)];
  find_edge_Some : forall g a b e, find_edge g a b = Some e ->
    exists w, edge_weight_of g e = Some w /\ (a, b, w) ∈ edge_list g;
  find_edge_None : forall g a b w, find_edge g a b = None -> (a, b, w) ∉ edge_list g;
  node_weight_spec : forall g i, node_weight_of g i = node_list g !! N.to_nat i;
  edges_incoming_spec : forall g n s w, (s, w) ∈ edges_incoming g n <-> (s, n, w) ∈ edge_list g;
  dijkstra_start : forall g from to, dijkstra g from to !! from = Some EdgeWeight_default;
  dijkstra_scores : forall g from to n d, dijkstra g from to !! n = Some d -> n <> from ->
    exists m sd w, (m, n, w) ∈ edge_list g /\ dijkstra g from to !! m = Some sd /\ d = weight_add sd w;
}.

(** ** graph.rs: the paths of one search *)
Definition find_map {A B} (f : A -> option B) : list A -> option B :=
  fix go l := match l with [] => None | a :: l => match f a with Some b => Some b | None => go l end end.

Section graph_path.
Context {G : Type} `{Petgraph G} `{HashOrder}.
Context (g : G) (goals : gmap NodeIndex EdgeWeight).

(** The neighbour a score comes from. *)
Definition score_from (d : EdgeWeight) (edge : NodeIndex * EdgeWeight) : option NodeIndex :=
  match goals !! edge.1 with
  | Some sd =>
      let x := weight_add sd edge.2 in
      if weight_eqb d x && negb (weight_eqb sd x) then Some edge.1 else None
  | None => None
  end.
Definition find_prev (target : NodeIndex) : option NodeIndex :=
  match goals !! target with
  | Some d => find_map (score_from d) (edges_incoming g target)
  | None => None
  end.

(** The path back from a goal, and the table of paths; [None] when the recursion
    is deeper than the fuel. *)
Fixpoint find_path (fuel : nat) (paths : gmap NodeIndex (list NodeIndex)) (goal : NodeIndex)
    : option (list NodeIndex * gmap NodeIndex (list NodeIndex)) :=
  match fuel with
  | O => None
  | S fuel =>
      match paths !! goal with
      | Some result => Some (result, paths)
      | None =>
          match find_prev goal with
          | Some prev =>
              match find_path fuel paths prev with
              | Some (more, paths) =>
                  let path := goal :: more in Some (path, <[goal := path]> paths)
              | None => None
              end
          | None => Some ([], paths)
          end
      end
  end.

(** A path never visits a node twice, so a deeper recursion does not end. *)
Definition path_fuel : nat := S (size goals).

Fixpoint find_paths (paths : gmap NodeIndex (list NodeIndex)) (l : list NodeIndex)
    : option (gmap NodeIndex (list NodeIndex)) :=
  match l with
  | [] => Some paths
  | goal :: l =>
      match find_path path_fuel paths goal with
      | Some (_, paths) => find_paths paths l
      | None => None
      end
  end.

Definition node_names (path : list NodeIndex) : outcome anyhow (list TokenAccount) :=
  try_map (fun i => expect (node_weight_of g i)) (rev path).

Definition find_all_path : outcome anyhow (list (list TokenAccount)) :=
  match find_paths ∅ (hash_iter goals).*1 with
  | Some paths => try_map node_names (hash_iter paths).*2
  | None => Panic
  end.
End graph_path.

(** ** graph.rs: CachedPath *)
Abbreviation path_cache := (gmap TokenAccount (gmap TokenAccount (list TokenAccount))).

Record CachedPath (G : Type) := mkCachedPath { cp_graph : G; cp_nodes : gmap TokenAccount NodeIndex }.
Arguments mkCachedPath {G}. Arguments cp_graph {G}. Arguments cp_nodes {G}.

(** Operations that read and change the table of paths. *)
Definition cached (A : Type) : Type := path_cache -> outcome anyhow A * path_cache.
Definition cached_ret {A} (o : outcome anyhow A) : cached A := fun c => (o, c).
Definition cached_bind {A B} (m : cached A) (k : A -> cached B) : cached B := fun c =>
  match m c with
  | (Ok a, c) => k a c
  | (Err e, c) => (Err e, c)
  | (Panic, c) => (Panic, c)
  end.
Notation "'let^' x := m 'in' k" := (cached_bind m (fun x => k))
  (at level 10, x name, m at level 100, k at level 200).

Section cached_path.
Context {G : Type} `{Petgraph G} `{HashOrder}.
Context (cp : CachedPath G).

Definition node_index (t : TokenAccount) : outcome anyhow NodeIndex :=
  ok_or (dex_error (TokenNotFound t)) (cp_nodes cp !! t).

(** The paths by their last token. *)
Definition add_path (acc : gmap TokenAccount (list TokenAccount) * list TokenAccount)
    (path : list TokenAccount) : gmap TokenAccount (list TokenAccount) * list TokenAccount :=
  match rev path with
  | out :: before => (<[out := rev before]> acc.1, acc.2 ++ [out])
  | [] => acc
  end.

Definition store_paths (start : TokenAccount) (paths : list (list TokenAccount)) : cached (list TokenAccount) :=
  fun c =>
    let '(path_to_outs, outs) := foldl add_path (∅, []) paths in
    if bool_decide (path_to_outs = ∅) then (Ok outs, c) else (Ok outs, <[start := path_to_outs]> c).

Definition search_path (start : TokenAccount) (goal : option TokenAccount) : cached (list TokenAccount) :=
  let^ from := cached_ret (node_index start) in
  let^ to := cached_ret (match goal with
                         | Some goal => let? i := node_index goal in Ok (Some i)
                         | None => Ok None
                         end) in
  let goals := dijkstra (cp_graph cp) from to in
  let^ paths := cached_ret (find_all_path (cp_graph cp) goals) in
  store_paths start paths.

Definition update_path (start : TokenAccount) (goal : option TokenAccount) : cached (list TokenAccount) :=
  fun c =>
    match goal, c !! start with
    | None, Some path_to_outs => (Ok (hash_iter path_to_outs).*1, c)
    | _, _ => search_path start goal c
    end.

Definition cached_get_path (c : path_cache) (start goal : TokenAccount) : outcome anyhow (list TokenAccount) :=
  let? path_to_outs := ok_or (Anyhow "start token not found" []) (c !! start) in
  ok_or (Anyhow "goal token not found" []) (path_to_outs !! goal).

Definition get_weight (token_in token_out : TokenAccount) : outcome anyhow EdgeWeight :=
  let? i := node_index token_in in
  let? o := node_index token_out in
  ok_or (Anyhow "invalid edge" []) (find_edge (cp_graph cp) i o ≫= edge_weight_of (cp_graph cp)).

Fixpoint edges_along (prev : TokenAccount) (path : list TokenAccount) (goal : TokenAccount)
    : outcome anyhow (list EdgeWeight) :=
  match path with
  | [] => let? edge := get_weight prev goal in Ok [edge]
  | token :: rest =>
      let? edge := get_weight prev token in
      let? edges := edges_along token rest goal in
      Ok (edge :: edges)
  end.
Definition get_edges (c : path_cache) (start goal : TokenAccount) : outcome anyhow (list EdgeWeight) :=
  let? path := cached_get_path c start goal in
  edges_along start path goal.
End cached_path.

(** ** graph.rs: TokenGraph *)
Record TokenGraph (G : Type) := mkTokenGraph { tg_pools : PoolInfoList; tg_graph : CachedPath G }.
Arguments mkTokenGraph {G}. Arguments tg_pools {G}. Arguments tg_graph {G}.

Section token_graph.
Context {G : Type} (D : Type) `{BigDecimal D} `{Petgraph G} `{HashOrder}.

Definition add_token (acc : G * gmap TokenAccount NodeIndex) (t : TokenAccount) : G * gmap TokenAccount NodeIndex :=
  let '(node, g) := add_node acc.1 t in (g, <[t := node]> acc.2).

(** The edge of one group; [nodes] has every token of a pool. *)
Definition add_group (nodes : gmap TokenAccount NodeIndex) (node_in : NodeIndex) (g : G)
    (group : TokenAccount * PathEdges) : G :=
  match at_top group.2, nodes !! group.1 with
  | Some edge, Some node_out => add_edge g node_in node_out (edge_weight edge)
  | _, _ => g
  end.

Fixpoint add_edges (by_in : gmap TokenAccount (list PoolInfo)) (nodes : gmap TokenAccount NodeIndex)
    (l : list (TokenAccount * NodeIndex)) (g : G) : outcome Error G :=
  match l with
  | [] => Ok g
  | (token_in, node_in) :: rest =>
      let? groups := get_groups_by_out D by_in token_in in
      add_edges by_in nodes rest (foldl (add_group nodes node_in) g (hash_iter groups))
  end.

Definition cached_path_new (pools : PoolInfoList) : outcome Error (CachedPath G) :=
  let by_in := PoolsByToken_new pools in
  let '(g, nodes) := foldl add_token (graph_new, ∅) (hash_iter by_in).*1 in
  let? g := add_edges by_in nodes (hash_iter nodes) g in
  Ok (mkCachedPath g nodes).
Definition TokenGraph_new (pools : PoolInfoList) : outcome anyhow (TokenGraph G) :=
  let? cp := dex_result (cached_path_new pools) in
  Ok (mkTokenGraph pools cp).

Context (tg : TokenGraph G).

Fixpoint keep_reversed (start : TokenAccount) (outs goals : list TokenAccount) : cached (list TokenAccount) :=
  match outs with
  | [] => cached_ret (Ok goals)
  | goal :: rest =>
      let^ reversed := update_path (tg_graph tg) goal (Some start) in
      keep_reversed start rest (match reversed with [] => goals | _ => goals ++ [goal] end)
  end.
Definition update_graph (start : TokenAccount) : cached (list TokenAccount) :=
  let^ outs := update_path (tg_graph tg) start None in
  keep_reversed start outs [].

Definition edge_to_pair (w : EdgeWeight) : outcome anyhow TokenPair :=
  let? pid := expect (ew_pair_id w) in
  dex_result (pools_get_pair (tg_pools tg) pid).

Definition get_path (c : path_cache) (start goal : TokenAccount) : outcome anyhow TokenPath :=
  let? edges := get_edges (tg_graph tg) c start goal in
  try_map edge_to_pair edges.

Definition get_path_with_return (c : path_cache) (start goal : TokenAccount) : outcome anyhow TokenPath :=
  let? path := get_path c start goal in
  let? back := get_path c goal start in
  Ok (path ++ back).

(** A goal whose path or value fails is skipped. *)
Fixpoint estimate_goals (find : TokenAccount -> outcome anyhow TokenPath) (initial : N)
    (goals : list TokenAccount) : outcome anyhow (list (TokenAccount * N * TokenPath)) :=
  match goals with
  | [] => Ok []
  | goal :: rest =>
      match find goal with
      | Panic => Panic
      | Err _ => estimate_goals find initial rest
      | Ok path =>
          match calc_value D path initial with
          | Panic => Panic
          | Err _ => estimate_goals find initial rest
          | Ok value => let? more := estimate_goals find initial rest in Ok ((goal, value, path) :: more)
          end
      end
  end.

Definition list_estimated_values (c : path_cache) (initial : N) (start : TokenAccount)
    (goals : list TokenAccount) (with_return : bool) : outcome anyhow (list (TokenAccount * N)) :=
  let find := if with_return then get_path_with_return c start else get_path c start in
  let? found := estimate_goals find initial goals in
  let values : gmap TokenAccount N := foldl (fun m e => <[e.1.1 := e.1.2]> m) ∅ found in
  Ok (rev (sort_by (fun a b => a.2 <=? b.2) (hash_iter values))).
Definition list_returns (c : path_cache) (initial : N) (start : TokenAccount)
    (goals : list TokenAccount) : outcome anyhow (list (TokenAccount * N)) :=
  list_estimated_values c initial start goals true.

Definition list_values_with_path (c : path_cache) (initial : N) (start : TokenAccount)
    (goals : list TokenAccount) : outcome anyhow (list (TokenAccount * N * TokenPath)) :=
  let? found := estimate_goals (get_path c start) initial goals in
  Ok (sort_by (fun a b => b.1.2 <=? a.1.2) found).
End token_graph.

(** A fresh graph asked for one path, as [execute_direct_swap] does. *)
Definition graph_path {G : Type} (D : Type) `{BigDecimal D} `{Petgraph G} `{HashOrder}
    (pools : PoolInfoList) (start goal : TokenAccount) : outcome anyhow TokenPath :=
  let? tg := TokenGraph_new (G:=G) D pools in
  let '(goals, c) := update_graph tg start ∅ in
  let? _ := goals in
  get_path tg c start goal.
