(* ===== verification/GraphPaths.v ===== *)
(** * GraphPaths: what the paths of the token graph are

    Theorems on [Graph]: a path that the graph gives out is a walk over simple pools
    of the list from the one token to the other, whatever the search answered;
    the recursion over predecessors returns exactly when there is a finite chain of
    them; and every goal that was found has a path.  [ListGraph] is a graph that
    satisfies the laws, and the examples run the code on it. *)

From Stdlib Require Import QArith SpecFloat.
From S2P Require Import Prelude NearClient F64 BigDecimal Dex Swap Records TradeSwap Graph.
Local Open Scope N_scope.

(** ** The edges of the graph *)
Section edges.
Context (D : Type) `{BigDecimal D} (ps : list PoolInfo).

(** An edge from one token to another over a simple pool of the list. *)
Definition edge_ok (ti to : TokenAccount) (e : Edge) : Prop :=
  exists p i o, p ∈ ps /\ is_simple p = true /\ get_pair p i o = Ok (edge_pair e) /\
    token_in_id (edge_pair e) = Ok ti /\ token_out_id (edge_pair e) = Ok to.

Lemma greater_return_elem l e : forall top, foldl greater_return top l = Some e -> top = Some e \/ e ∈ l.
Proof.
  induction l as [|x l IH]; intros top; cbn [foldl]; [by left|].
  intros He. destruct (IH _ He) as [Htop|Hin]; [|right; by apply list_elem_of_further].
  unfold greater_return in Htop. destruct top as [t|]; [|injection Htop as ->; right; apply list_elem_of_here].
  destruct (edge_return t <? edge_return x); [|by left]. injection Htop as ->. right. apply list_elem_of_here.
Qed.
Lemma at_top_elem pe e : at_top pe = Some e -> e ∈ pairs pe.
Proof. intros He. by destruct (greater_return_elem _ _ _ He). Qed.

Definition group_ok (ti to : TokenAccount) (pe : PathEdges) : Prop :=
  token_in_out pe = (ti, to) /\ Forall (edge_ok ti to) (pairs pe).

Lemma get_by_ids_pair p ti to e : get_by_ids D p ti to = Ok e ->
  exists i o, get_pair p i o = Ok (edge_pair e).
Proof.
  unfold get_by_ids, cached_edges_get. intros He.
  apply obind_Ok_inv in He as (i & _ & He). apply obind_Ok_inv in He as (o & _ & He).
  apply obind_Ok_inv in He as (tp & Htp & He). apply obind_Ok_inv in He as (vs & _ & He).
  injection He as <-. exists (mkTokenIn i), (mkTokenOut o). cbn.
  destruct (get_pair p _ _); [|done..]. cbn in Htp. congruence.
Qed.

Lemma path_edges_push_ok p i o ti to pe e pe' : p ∈ ps -> is_simple p = true ->
  get_pair p i o = Ok (edge_pair e) -> group_ok ti to pe -> path_edges_push pe e = Ok pe' -> group_ok ti to pe'.
Proof.
  intros Hp Hs Hg [Hio Hf] He. unfold path_edges_push in He.
  apply obind_Ok_inv in He as (a & Ha & He). apply obind_Ok_inv in He as (b & Hb & He).
  case_bool_decide as Heq; [|done]. injection He as <-. split; [done|]. cbn [pairs].
  apply Forall_app_2; [done|]. repeat constructor. rewrite Hio in Heq. injection Heq as -> ->.
  by exists p, i, o.
Qed.

Definition groups_ok (ti : TokenAccount) (groups : gmap TokenAccount PathEdges) : Prop :=
  map_Forall (group_ok ti) groups.

Lemma group_tokens_ok p ti outs : p ∈ ps -> is_simple p = true -> forall groups groups',
  groups_ok ti groups -> group_tokens D p ti outs groups = Ok groups' -> groups_ok ti groups'.
Proof.
  intros Hp Hs. induction outs as [|t outs IH]; intros groups groups' Hg; cbn [group_tokens]; [by intros [= <-]|].
  case_bool_decide; [by apply IH|].
  destruct (get_by_ids D p ti t) as [e|e|] eqn:He; [|by apply IH|done].
  destruct (path_edges_push _ e) as [pe|e'|] eqn:Hpe; cbn [expect_ok obind]; [|done..].
  apply IH. apply map_Forall_insert_2; [|done].
  apply get_by_ids_pair in He as (i & o & He). refine (path_edges_push_ok p i o _ _ _ _ _ Hp Hs He _ Hpe).
  destruct (groups !! t) as [old|] eqn:Hold; cbn [default]; [by apply (Hg t)|by split].
Qed.

Lemma groups_by_out_ok by_in ti groups :
  map_Forall (fun _ => Forall (fun p => p ∈ ps /\ is_simple p = true)) by_in ->
  get_groups_by_out D by_in ti = Ok groups -> groups_ok ti groups.
Proof.
  intros Hin. unfold get_groups_by_out.
  destruct (by_in !! ti) as [l|] eqn:Hl; [|by intros [= <-]].
  specialize (Hin ti l Hl). cbn in Hin.
  assert (Hgen : forall g g', groups_ok ti g -> group_pools D ti l g = Ok g' -> groups_ok ti g').
  { clear Hl. induction Hin as [|p l [Hp Hs] _ IH]; intros g g' Hg; cbn [group_pools]; [by intros [= <-]|].
    destruct (group_tokens D p ti (tokens p) g) as [g1|e|] eqn:Hg1; cbn [obind]; [|done..].
    apply IH. by eapply group_tokens_ok. }
  apply Hgen. apply map_Forall_empty.
Qed.
End edges.

Lemma by_in_pools (pools : PoolInfoList) :
  map_Forall (fun _ => Forall (fun p => p ∈ pools_list pools /\ is_simple p = true)) (PoolsByToken_new pools).
Proof.
  unfold PoolsByToken_new.
  assert (Hall : Forall (fun p => p ∈ pools_list pools /\ is_simple p = true) (bfilter is_simple (pools_list pools))).
  { apply Forall_elem. intros p Hp. by apply elem_of_bfilter in Hp. }
  set (Q := fun _ : TokenAccount => Forall (fun p => p ∈ pools_list pools /\ is_simple p = true)) in *.
  assert (Htok : forall p ts m, p ∈ pools_list pools /\ is_simple p = true -> map_Forall Q m ->
    map_Forall Q (foldl (push_pool p) m ts)).
  { intros p ts m Hp. revert m. induction ts as [|t ts IH]; intros m Hm; cbn [foldl]; [done|].
    apply IH. apply map_Forall_insert_2; [|done]. apply Forall_app_2; [|by apply Forall_singleton].
    destruct (m !! t) as [l|] eqn:Hl; cbn [default]; [by apply (Hm t)|constructor]. }
  assert (Hgen : forall m : gmap TokenAccount (list PoolInfo), map_Forall Q m ->
    map_Forall Q (foldl (fun m p => foldl (push_pool p) m (tokens p)) m (bfilter is_simple (pools_list pools)))).
  { induction Hall as [|p l Hp _ IH]; intros m Hm; cbn [foldl]; [done|]. by apply IH, Htok. }
  apply Hgen, map_Forall_empty.
Qed.

Section graph.
Context {G : Type} (D : Type) `{BigDecimal D} `{PetgraphLaws G} `{HashOrderLaws} (pools : PoolInfoList).

(** The nodes of the graph are the entries of the table of nodes. *)
Definition nodes_ok (g : G) (nodes : gmap TokenAccount NodeIndex) : Prop :=
  forall t i, nodes !! t = Some i -> node_list g !! N.to_nat i = Some t.

Definition edge_sound (nodes : gmap TokenAccount NodeIndex) (e : NodeIndex * NodeIndex * EdgeWeight) : Prop :=
  exists x ti to, e.2 = edge_weight x /\ nodes !! ti = Some e.1.1 /\ nodes !! to = Some e.1.2 /\
    edge_ok (pools_list pools) ti to x.

(** What the construction establishes. *)
Definition graph_ok (cp : CachedPath G) : Prop :=
  nodes_ok (cp_graph cp) (cp_nodes cp) /\ Forall (edge_sound (cp_nodes cp)) (edge_list (cp_graph cp)).

Lemma add_tokens_ok l : forall (g : G) nodes, nodes_ok g nodes -> edge_list g = [] ->
  nodes_ok (foldl add_token (g, nodes) l).1 (foldl add_token (g, nodes) l).2 /\
  edge_list (foldl add_token (g, nodes) l).1 = [].
Proof.
  induction l as [|t l IH]; intros g nodes Hn He; cbn [foldl]; [done|].
  unfold add_token at 2 4 6. cbn [fst snd].
  destruct (add_node_spec g t) as (Hi & Hl & Hed). rewrite Hi. apply IH; [|congruence].
  intros t' i. rewrite Hl. destruct (decide (t = t')) as [->|Hne].
  - rewrite lookup_insert_eq. intros [= <-]. unfold len. rewrite Nat2N.id.
    by rewrite lookup_app_r, Nat.sub_diag.
  - rewrite lookup_insert_ne by done. intros Hi'. apply lookup_app_l_Some. by apply Hn.
Qed.

Lemma add_groups_ok nodes ti i groups : nodes !! ti = Some i -> groups_ok (pools_list pools) ti groups ->
  forall l g, l ⊆ map_to_list groups -> Forall (edge_sound nodes) (edge_list g) ->
    nodes_ok g nodes ->
    Forall (edge_sound nodes) (edge_list (foldl (add_group nodes i) g l)) /\
    nodes_ok (foldl (add_group nodes i) g l) nodes.
Proof.
  intros Hi Hg. induction l as [|[to pe] l IH]; intros g Hsub He Hn; cbn [foldl]; [done|].
  assert (Hin : groups !! to = Some pe) by (apply elem_of_map_to_list, Hsub, list_elem_of_here).
  apply IH; [intros x Hx; apply Hsub; by apply list_elem_of_further|..]; unfold add_group; cbn [fst snd];
    destruct (at_top pe) as [e|] eqn:Htop; try done; destruct (nodes !! to) as [j|] eqn:Hj; try done;
    destruct (add_edge_spec g i j (edge_weight e)) as [Hnl Hel].
  - rewrite Hel. apply Forall_app_2; [done|]. apply Forall_singleton. exists e, ti, to. cbn.
    split_and!; [done..|]. apply at_top_elem in Htop. destruct (Hg to pe Hin) as [_ Hf].
    rewrite Forall_elem in Hf. by apply Hf.
  - intros t k Hk. rewrite Hnl. by apply Hn.
Qed.

Lemma add_edges_ok nodes : forall l (g g' : G), l ⊆ map_to_list nodes ->
  Forall (edge_sound nodes) (edge_list g) -> nodes_ok g nodes ->
  add_edges D (PoolsByToken_new pools) nodes l g = Ok g' ->
  Forall (edge_sound nodes) (edge_list g') /\ nodes_ok g' nodes.
Proof.
  induction l as [|[ti i] l IH]; intros g g' Hsub He Hn; cbn [add_edges]; [by intros [= <-]|].
  intros Hg'. apply obind_Ok_inv in Hg' as (groups & Hgr & Hg').
  assert (Hi : nodes !! ti = Some i) by (apply elem_of_map_to_list, Hsub, list_elem_of_here).
  apply (groups_by_out_ok D (pools_list pools)) in Hgr; [|apply by_in_pools].
  destruct (add_groups_ok nodes ti i groups Hi Hgr (hash_iter groups) g) as [He' Hn'];
    [by rewrite hash_iter_perm|done|done|].
  eapply IH; [|exact He'|exact Hn'|exact Hg']. intros x Hx. apply Hsub. by apply list_elem_of_further.
Qed.

Lemma cached_path_new_ok (cp : CachedPath G) : cached_path_new D pools = Ok cp -> graph_ok cp.
Proof.
  unfold cached_path_new. destruct (foldl add_token _ _) as [g nodes] eqn:Hf.
  pose proof (add_tokens_ok (hash_iter (PoolsByToken_new pools)).*1 (graph_new : G) ∅) as Hnew.
  rewrite Hf in Hnew. cbn [fst snd] in Hnew.
  destruct Hnew as [Hn He]; [done|apply new_empty|].
  intros Hcp. apply obind_Ok_inv in Hcp as (g' & Hg' & [= <-]).
  apply add_edges_ok in Hg' as [He' Hn']; [by split|by rewrite hash_iter_perm|rewrite He; constructor|done].
Qed.

(** The weight between two tokens is that of an edge between them. *)
Lemma get_weight_sound cp ti to w : graph_ok cp -> get_weight cp ti to = Ok w ->
  exists e, w = edge_weight e /\ edge_ok (pools_list pools) ti to e.
Proof.
  intros [Hn He] Hw. unfold get_weight, node_index in Hw.
  destruct (cp_nodes cp !! ti) as [i|] eqn:Hi; [|done]. destruct (cp_nodes cp !! to) as [o|] eqn:Ho; [|done].
  cbn [ok_or obind] in Hw. destruct (find_edge (cp_graph cp) i o) as [k|] eqn:Hk; [|done].
  apply find_edge_Some in Hk as (w' & Hw' & Hin). cbn [mbind option_bind] in Hw. rewrite Hw' in Hw.
  injection Hw as <-. rewrite Forall_elem in He. destruct (He _ Hin) as (e & ti' & to' & Hwe & Hti & Hto & Hok).
  cbn in Hwe, Hti, Hto. exists e. split; [done|].
  assert (ti' = ti) as -> by (apply Hn in Hi, Hti; congruence).
  assert (to' = to) as -> by (apply Hn in Ho, Hto; congruence). done.
Qed.

(** ** Paths *)

(** The hops of a path lead from one token to another. *)
Fixpoint walk (from : TokenAccount) (path : TokenPath) (to : TokenAccount) : Prop :=
  match path with
  | [] => from = to
  | tp :: rest => token_in_id tp = Ok from /\ exists mid, token_out_id tp = Ok mid /\ walk mid rest to
  end.

Definition unique_ids : Prop :=
  NoDup (id <$> pools_list pools) /\ forall p, p ∈ pools_list pools -> by_id pools !! id p = Some p.

(** An edge is turned back into its own pair. *)
Lemma edge_to_pair_sound tg ti to e tp : tg_pools tg = pools -> unique_ids ->
  edge_ok (pools_list pools) ti to e -> edge_to_pair (G:=G) tg (edge_weight e) = Ok tp -> tp = edge_pair e.
Proof.
  intros Hp [_ Hid] (p & i & o & Hin & _ & Hg & _) Htp.
  destruct (get_pair_valid _ _ _ _ Hg) as (Heq & _).
  unfold edge_to_pair, edge_weight, pools_get_pair, pools_get in Htp. rewrite Heq in Htp.
  cbn [EdgeWeight_new ew_pair_id expect obind pair_id pool pid_pool pid_in pid_out token_in token_out] in Htp.
  rewrite Hp, (Hid p Hin) in Htp. cbn [ok_or obind] in Htp. rewrite Hg in Htp. cbn in Htp. congruence.
Qed.

Definition over_simple_pool (tp : TokenPair) : Prop := pool tp ∈ pools_list pools /\ is_simple (pool tp) = true.

Lemma edges_along_walk (tg : TokenGraph G) path : tg_pools tg = pools -> graph_ok (tg_graph tg) ->
  forall prev goal ws tps, edges_along (tg_graph tg) prev path goal = Ok ws ->
    try_map (edge_to_pair tg) ws = Ok tps ->
    tps <> [] /\ (unique_ids -> walk prev tps goal /\ Forall over_simple_pool tps).
Proof.
  intros Hp Hg.
  assert (Hone : forall ti to w tp, get_weight (tg_graph tg) ti to = Ok w -> edge_to_pair tg w = Ok tp ->
    unique_ids -> token_in_id tp = Ok ti /\ token_out_id tp = Ok to /\ over_simple_pool tp).
  { intros ti to w tp Hw Htp Hu. destruct (get_weight_sound _ _ _ _ Hg Hw) as (e & -> & Hok).
    rewrite (edge_to_pair_sound _ _ _ _ _ Hp Hu Hok Htp). destruct Hok as (p & i & o & Hin & Hs & Hpair & Hti & Hto).
    destruct (get_pair_valid _ _ _ _ Hpair) as (Heq & _). split_and!; [done|done|].
    unfold over_simple_pool. by rewrite Heq. }
  induction path as [|t path IH]; intros prev goal ws tps Hws Htps; cbn [edges_along] in Hws;
    apply obind_Ok_inv in Hws as (w & Hw & Hws).
  - injection Hws as <-. cbn [try_map] in Htps. apply obind_Ok_inv in Htps as (tp & Htp & [= <-]).
    split; [done|]. intros Hu. destruct (Hone _ _ _ _ Hw Htp Hu) as (Hti & Hto & Hs).
    split; [|by apply Forall_singleton]. split; [done|]. by exists goal.
  - apply obind_Ok_inv in Hws as (ws' & Hws & [= <-]). cbn [try_map] in Htps.
    apply obind_Ok_inv in Htps as (tp & Htp & Htps). apply obind_Ok_inv in Htps as (tps' & Htps & [= <-]).
    split; [done|]. intros Hu. destruct (Hone _ _ _ _ Hw Htp Hu) as (Hti & Hto & Hs).
    destruct (IH _ _ _ _ Hws Htps) as [_ Hrest]. destruct (Hrest Hu) as [Hwalk Hall].
    split; [|by constructor]. split; [done|]. by exists t.
Qed.

Lemma get_path_walk (tg : TokenGraph G) c start goal path : TokenGraph_new D pools = Ok tg ->
  get_path tg c start goal = Ok path ->
  path <> [] /\ (unique_ids -> walk start path goal /\ Forall over_simple_pool path).
Proof.
  intros Htg Hpath. unfold TokenGraph_new in Htg. apply obind_Ok_inv in Htg as (cp & Hcp & [= <-]).
  destruct (cached_path_new D pools) as [cp'|e|] eqn:Hnew; [|done..]. injection Hcp as ->.
  apply cached_path_new_ok in Hnew. unfold get_path, get_edges in Hpath.
  apply obind_Ok_inv in Hpath as (ws & Hws & Hpath). apply obind_Ok_inv in Hws as (ts & _ & Hws).
  exact (edges_along_walk (mkTokenGraph pools _) ts eq_refl Hnew _ _ _ _ Hws Hpath).
Qed.

Lemma walk_app from path mid path' to : walk from path mid -> walk mid path' to -> walk from (path ++ path') to.
Proof.
  revert from. induction path as [|tp path IH]; intros from; cbn [walk app]; [by intros ->|].
  intros (Hin & m & Hout & Hw) Hw'. split; [done|]. exists m. auto.
Qed.

Lemma walk_ends from path to : walk from path to ->
  (forall f, head path = Some f -> token_in_id f = Ok from) /\
  (forall l, list.last path = Some l -> token_out_id l = Ok to).
Proof.
  intros Hw. split.
  - destruct path; [done|]. intros f [= <-]. apply Hw.
  - revert from Hw. induction path as [|tp path IH]; intros from; cbn [walk]; [done|].
    intros (_ & mid & Hout & Hw) l. destruct path as [|tp' path]; [|intros Hl; by apply (IH mid)].
    cbn. intros [= <-]. cbn in Hw. by subst.
Qed.

(** There and back again. *)
Lemma get_path_with_return_walk (tg : TokenGraph G) c start goal path : TokenGraph_new D pools = Ok tg ->
  get_path_with_return tg c start goal = Ok path -> unique_ids ->
  walk start path start /\ Forall over_simple_pool path.
Proof.
  intros Htg Hp Hu. unfold get_path_with_return in Hp.
  apply obind_Ok_inv in Hp as (there & Hthere & Hp). apply obind_Ok_inv in Hp as (back & Hback & [= <-]).
  apply get_path_walk in Hthere as [_ Hthere]; [|done]. apply get_path_walk in Hback as [_ Hback]; [|done].
  destruct (Hthere Hu), (Hback Hu). split; [by eapply walk_app|by apply Forall_app_2].
Qed.
End graph.

(** The graph keeps the promise that the swaps rely on. *)
Definition graph_finder (G D : Type) `{BigDecimal D} `{Petgraph G} `{HashOrder} : PathFinder :=
  graph_path (G:=G) D.

Lemma graph_finder_laws (G D : Type) `{BigDecimal D} `{PetgraphLaws G} `{HashOrderLaws} :
  @PathFinderLaws (graph_finder G D).
Proof.
  assert (Hpath : forall pools from to path, graph_path (G:=G) D pools from to = Ok path ->
    path <> [] /\ (unique_ids pools -> walk from path to)).
  { intros pools from to path Hp. unfold graph_path in Hp. apply obind_Ok_inv in Hp as (tg & Htg & Hp).
    destruct (update_graph tg from ∅) as [goals c]. apply obind_Ok_inv in Hp as (outs & _ & Hp).
    destruct (get_path_walk D pools tg c from to path Htg Hp) as [Hne Hw]. split; [done|]. intros Hu. by destruct (Hw Hu). }
  split.
  - intros pools from to path Hp. by apply Hpath in Hp as [].
  - intros pools from to path f l Hp Hnd Hid Hf Hl. apply Hpath in Hp as [_ Hw].
    destruct (walk_ends _ _ _ (Hw (conj Hnd Hid))) as [Hhead Hlast]. auto.
Qed.

(** ** The chain of predecessors *)
Section chains.
Context {G : Type} `{Petgraph G} (g : G) (goals : gmap NodeIndex EdgeWeight).

(** The nodes from [n] back to the first one without a predecessor, which is
    left out. *)
Inductive chain : NodeIndex -> list NodeIndex -> Prop :=
| chain_end n : find_prev g goals n = None -> chain n []
| chain_step n p l : find_prev g goals n = Some p -> chain p l -> chain n (n :: l).

Lemma chain_det n l l' : chain n l -> chain n l' -> l = l'.
Proof.
  intros Hc. revert l'. induction Hc as [n Hn|n p l Hp Hc IH]; intros l' Hc'; inversion Hc'; subst.
  - done.
  - congruence.
  - congruence.
  - f_equal. apply IH. congruence.
Qed.

Lemma chain_from n l x : chain n l -> x ∈ l -> exists l', chain x (x :: l') /\ (length (x :: l') <= length l)%nat.
Proof.
  intros Hc. induction Hc as [n Hn|n p l Hp Hc IH]; intros Hx; [by apply elem_of_nil in Hx|].
  apply elem_of_cons in Hx as [->|Hx].
  - exists l. split; [by econstructor|done].
  - destruct (IH Hx) as (l' & Hl' & Hle). exists l'. split; [done|]. cbn in *. lia.
Qed.

Lemma chain_NoDup n l : chain n l -> NoDup l.
Proof.
  intros Hc. induction Hc as [n Hn|n p l Hp Hc IH]; constructor; [|done].
  intros Hin. destruct (chain_from _ _ _ Hc Hin) as (l' & Hl' & Hle).
  assert (E : n :: l' = n :: l) by (eapply chain_det; [exact Hl'|by econstructor]).
  injection E as ->. cbn in Hle. lia.
Qed.

Lemma chain_scored n l x : chain n l -> x ∈ l -> is_Some (goals !! x).
Proof.
  intros Hc. induction Hc as [n Hn|n p l Hp Hc IH]; intros Hx; [by apply elem_of_nil in Hx|].
  apply elem_of_cons in Hx as [->|Hx]; [|auto]. unfold find_prev in Hp. by destruct (goals !! n).
Qed.

Lemma chain_length n l : chain n l -> (length l < path_fuel goals)%nat.
Proof.
  intros Hc. unfold path_fuel. rewrite <- size_dom, <- (size_list_to_set (C := gset N) l) by (by eapply chain_NoDup).
  apply Nat.lt_succ_r, subseteq_size. intros x Hx. apply elem_of_list_to_set in Hx.
  apply elem_of_dom. by eapply chain_scored.
Qed.

Definition chains_in (paths : gmap NodeIndex (list NodeIndex)) : Prop :=
  map_Forall (fun n l => chain n l /\ l <> []) paths.

Lemma find_path_sound fuel : forall paths n l paths', chains_in paths ->
  find_path g goals fuel paths n = Some (l, paths') -> chain n l /\ chains_in paths'.
Proof.
  induction fuel as [|fuel IH]; intros paths n l paths' Hv; cbn [find_path]; [done|].
  destruct (paths !! n) as [r|] eqn:Hr; [intros [= <- <-]; split; [by apply (Hv n r)|done]|].
  destruct (find_prev g goals n) as [p|] eqn:Hp; [|intros [= <- <-]; by split; [constructor|]].
  destruct (find_path g goals fuel paths p) as [[more paths1]|] eqn:Hmore; [|done].
  intros [= <- <-]. apply IH in Hmore as [Hc Hv1]; [|done].
  assert (Hn : chain n (n :: more)) by (by econstructor). split; [done|]. by apply map_Forall_insert_2.
Qed.

Lemma find_path_complete fuel : forall paths n l, chains_in paths -> chain n l -> (length l < fuel)%nat ->
  exists paths', find_path g goals fuel paths n = Some (l, paths').
Proof.
  induction fuel as [|fuel IH]; intros paths n l Hv Hc Hlen; [lia|]. cbn [find_path].
  destruct (paths !! n) as [r|] eqn:Hr.
  { exists paths. f_equal. f_equal. eapply chain_det; [|exact Hc]. by apply (Hv n r). }
  destruct Hc as [n Hn|n p l Hp Hc].
  - rewrite Hn. by exists paths.
  - rewrite Hp. cbn in Hlen. destruct (IH paths p l Hv Hc ltac:(lia)) as [paths' ->]. by eexists.
Qed.

Lemma find_paths_sound l : forall paths paths', chains_in paths ->
  find_paths g goals paths l = Some paths' -> chains_in paths'.
Proof.
  induction l as [|n l IH]; intros paths paths' Hv; cbn [find_paths]; [by intros [= <-]|].
  destruct (find_path g goals (path_fuel goals) paths n) as [[r paths1]|] eqn:Hr; [|done].
  apply IH. by eapply find_path_sound.
Qed.

(** The recursion returns exactly when the chain is finite, and the fuel decides it. *)
Lemma find_path_returns n :
  (is_Some (find_path g goals (path_fuel goals) ∅ n) <-> exists l, chain n l) /\
  (find_path g goals (path_fuel goals) ∅ n = None -> forall fuel, find_path g goals fuel ∅ n = None).
Proof.
  assert (Hv : chains_in ∅) by apply map_Forall_empty.
  assert (Hto : forall l, chain n l -> is_Some (find_path g goals (path_fuel goals) ∅ n)).
  { intros l Hc. destruct (find_path_complete (path_fuel goals) ∅ n l Hv Hc) as [ps Hps];
      [by eapply chain_length|by rewrite Hps]. }
  split; [split; [|by intros [l Hl]; eauto]|].
  - intros [[l ps] Hl]. apply find_path_sound in Hl as [Hc _]; [by exists l|done].
  - intros Hnone fuel. destruct (find_path g goals fuel ∅ n) as [[l ps]|] eqn:E; [|done].
    apply find_path_sound in E as [Hc _]; [|done]. apply Hto in Hc. rewrite Hnone in Hc. by destruct Hc.
Qed.
End chains.

(** ** Scores and their predecessors

    Rates are never positive, so multiplying by one changes every score but zero. *)
Definition signed (s : bool) (x : f64) : Prop :=
  match x with
  | S754_zero s' | S754_infinity s' | S754_finite s' _ _ => s' = s
  | S754_nan => True
  end.
Definition nonpositive (x : f64) : Prop := signed true x \/ x = f64_zero.

Lemma round_aux_signed s m e l : signed s (binary_round_aux f64_prec f64_emax s m e l).
Proof.
  unfold binary_round_aux. destruct (shr_fexp _ _ _ _ _) as [m1 e1]. destruct (shr_fexp _ _ _ _ _) as [m2 e2].
  destruct (shr_m m2); [done|by destruct (_ <=? _)%Z|done].
Qed.

Lemma f64_of_N_signed n : signed false (f64_of_N n).
Proof.
  unfold f64_of_N, f64_of_Z, binary_normalize. destruct n as [|p]; [done|]. cbn [Z.of_N].
  unfold binary_round. destruct (shl_align _ _ _) as [mz ez]. apply round_aux_signed.
Qed.

Lemma f64_div_signed x y : signed false x -> signed false y -> signed false (f64_div x y).
Proof.
  unfold f64_div. destruct x as [sx|sx| |sx mx ex], y as [sy|sy| |sy my ey]; cbn; try done; intros -> ->; try done.
  destruct (SFdiv_core_binary _ _ _ _ _ _) as [[mz ez] lz]. apply round_aux_signed.
Qed.

Lemma calc_rate_nonpositive i r : nonpositive (calc_rate i r).
Proof.
  unfold calc_rate. destruct (i =? 0); [by right|]. left.
  pose proof (f64_div_signed _ _ (f64_of_N_signed r) (f64_of_N_signed i)) as Hs.
  destruct (f64_div _ _); cbn in *; by subst.
Qed.

Lemma eqb_signs x y : signed (negb (match x with S754_finite s _ _ | S754_infinity s | S754_zero s => s | _ => true end)) y ->
  f64_eqb x y = true -> exists s, x = S754_zero s.
Proof.
  unfold f64_eqb, SFeqb. destruct x as [sx|sx| |sx mx ex]; [by eexists|..]; destruct y as [sy|sy| |sy my ey];
    cbn; try done; intros ->; by destruct sx.
Qed.

Lemma mul_nonpositive_eq x w : nonpositive w -> f64_eqb x (f64_mul x w) = true -> exists s, x = S754_zero s.
Proof.
  intros [Hw| ->]; unfold f64_mul.
  - destruct x as [sx|sx| |sx mx ex]; [by eexists|..]; destruct w as [sw|sw| |sw mw ew]; cbn in Hw; try done;
      subst; cbn [SFmul]; try done; rewrite ?xorb_true_r.
    all: try (apply eqb_signs; done).
    apply eqb_signs. apply round_aux_signed.
  - destruct x as [sx|sx| |sx mx ex]; [by eexists|done|done|]. cbn. by destruct sx.
Qed.

Lemma zero_mul_eq s w : f64_eqb (S754_zero s) (f64_mul (S754_zero s) w) = true \/
  forall d, f64_eqb d (f64_mul (S754_zero s) w) = false.
Proof. destruct w; cbn; [by left|right; by intros []..|by left]. Qed.

Lemma find_map_Some {A B} (f : A -> option B) l b : find_map f l = Some b -> exists a, a ∈ l /\ f a = Some b.
Proof.
  induction l as [|a l IH]; cbn; [done|]. destruct (f a) as [b'|] eqn:E.
  - intros [= ->]. exists a. split; [apply list_elem_of_here|done].
  - intros Hf. destruct (IH Hf) as (a' & Ha' & Hb). exists a'. split; [by apply list_elem_of_further|done].
Qed.
Lemma find_map_None {A B} (f : A -> option B) l a : find_map f l = None -> a ∈ l -> f a = None.
Proof.
  induction l as [|a' l IH]; cbn; [intros _ Ha; by apply elem_of_nil in Ha|].
  destruct (f a') eqn:E; [done|]. intros Hf Ha. apply elem_of_cons in Ha as [->|Ha]; auto.
Qed.

Section scores.
Context {G : Type} `{PetgraphLaws G} (g : G) (from : NodeIndex) (to : option NodeIndex).
Context (Hrates : Forall (fun e => nonpositive (estimated_rate e.2)) (edge_list g)).

Abbreviation goals := (dijkstra g from to).

Lemma score_pair_None n d : goals !! n = Some d -> ew_pair_id d = None.
Proof.
  intros Hd. destruct (decide (n = from)) as [->|Hne].
  - rewrite dijkstra_start in Hd. by injection Hd as <-.
  - by destruct (dijkstra_scores g from to n d Hd Hne) as (m & sd & w & _ & _ & ->).
Qed.

Lemma score_eqb n d sd w : goals !! n = Some d ->
  weight_eqb d (weight_add sd w) = f64_eqb (estimated_rate d) (f64_mul (estimated_rate sd) (estimated_rate w)).
Proof. intros Hd. unfold weight_eqb. by rewrite (score_pair_None n d Hd). Qed.

Lemma find_prev_Some n p : find_prev g goals n = Some p -> exists d sd w,
  goals !! n = Some d /\ goals !! p = Some sd /\ (p, n, w) ∈ edge_list g /\
  weight_eqb d (weight_add sd w) = true /\ weight_eqb sd (weight_add sd w) = false.
Proof.
  unfold find_prev. destruct (goals !! n) as [d|] eqn:Hd; [|done].
  intros Hp. apply find_map_Some in Hp as ([s w] & Hin & Hs). unfold score_from in Hs. cbn [fst snd] in Hs.
  destruct (goals !! s) as [sd|] eqn:Hsd; [|done].
  destruct (weight_eqb d _) eqn:E1; [|done]. destruct (weight_eqb sd _) eqn:E2; [done|].
  injection Hs as ->. exists d, sd, w. apply edges_incoming_spec in Hin. done.
Qed.

(** Only the start is a predecessor without one of its own. *)
Lemma prev_of_first n z : find_prev g goals n = Some z -> find_prev g goals z = None -> z = from.
Proof.
  intros Hn Hz. destruct (decide (z = from)) as [|Hne]; [done|exfalso].
  destruct (find_prev_Some n z Hn) as (d & dz & wn & Hd & Hdz & _ & Heq & Hneq).
  destruct (dijkstra_scores g from to z dz Hdz Hne) as (m & sd & w & Hin & Hsd & Hx).
  unfold find_prev in Hz. rewrite Hdz in Hz. apply edges_incoming_spec in Hin as Hin'.
  apply (find_map_None _ _ _ Hz) in Hin'. unfold score_from in Hin'. cbn [fst snd] in Hin'. rewrite Hsd, <- Hx in Hin'.
  rewrite (score_eqb n d dz wn Hd) in Heq. rewrite (score_eqb z dz dz wn Hdz) in Hneq.
  assert (Hrate : nonpositive (estimated_rate w)).
  { rewrite Forall_elem in Hrates. by apply (Hrates _ Hin). }
  destruct (weight_eqb sd dz) eqn:Hzero.
  - rewrite Hx in Hzero. rewrite (score_eqb m sd sd w Hsd) in Hzero.
    destruct (mul_nonpositive_eq _ _ Hrate Hzero) as [s Hs].
    assert (Hdzero : exists s', estimated_rate dz = S754_zero s').
    { rewrite Hx. cbn. rewrite Hs in *. unfold f64_mul in *. destruct (estimated_rate w); cbn in *; by eauto. }
    destruct Hdzero as [s' Hs']. rewrite Hs' in *.
    destruct (zero_mul_eq s' (estimated_rate wn)) as [E|E]; [congruence|by rewrite E in Heq].
  - rewrite andb_true_r in Hin'. destruct (weight_eqb dz dz) eqn:Hself; [done|].
    unfold weight_eqb in Hself. rewrite bool_decide_true in Hself by done. cbn [andb] in Hself.
    assert (Hnan : estimated_rate dz = S754_nan).
    { clear -Hself. unfold f64_eqb, SFeqb in Hself. destruct (estimated_rate dz) as [s|s| |s m e]; try done; cbn in Hself.
      - by destruct s.
      - destruct s; rewrite ?Z.compare_refl, ?Pos.compare_refl in Hself; cbn in Hself;
          rewrite ?Pos.compare_cont_refl in Hself; done. }
    rewrite Hnan in Heq. cbn in Heq. unfold f64_eqb, SFeqb in Heq. by destruct (estimated_rate d).
Qed.

Lemma chain_from_start n l : chain g goals n l -> l <> [] -> find_prev g goals from = None.
Proof.
  intros Hc. induction Hc as [n Hn|n p l Hp Hc IH]; [done|]. intros _.
  destruct l as [|x l]; [|by apply IH]. inversion Hc as [? Hnone|]; subst.
  pose proof Hnone as Hfrom. by rewrite (prev_of_first n p Hp Hnone) in Hfrom.
Qed.
End scores.

(** ** The table of paths *)
Definition is_Ok {E A} (o : outcome E A) : Prop := exists a, o = Ok a.

Section cache.
Context {G : Type} (D : Type) `{BigDecimal D} `{PetgraphLaws G} `{HashOrderLaws} (pools : PoolInfoList).
Context (cp : CachedPath G) (Hcp : graph_ok pools cp).

Lemma rates_nonpositive : Forall (fun e => nonpositive (estimated_rate e.2)) (edge_list (cp_graph cp)).
Proof.
  destruct Hcp as [_ He]. eapply Forall_weaken; [|exact He].
  intros e (x & ti & to & -> & _). apply calc_rate_nonpositive.
Qed.

Lemma edge_named p n w : (p, n, w) ∈ edge_list (cp_graph cp) -> exists tp tn,
  cp_nodes cp !! tp = Some p /\ cp_nodes cp !! tn = Some n /\ is_Ok (get_weight cp tp tn).
Proof.
  intros Hin. destruct Hcp as [_ He]. rewrite Forall_elem in He.
  destruct (He _ Hin) as (x & tp & tn & _ & Hp & Hn & _). cbn in Hp, Hn. exists tp, tn. split_and!; [done..|].
  unfold get_weight, node_index. rewrite Hp, Hn. cbn [ok_or obind].
  destruct (find_edge (cp_graph cp) p n) as [k|] eqn:Hk; [|by destruct (find_edge_None _ _ _ w Hk)].
  apply find_edge_Some in Hk as (w' & Hw' & _). cbn [mbind option_bind]. rewrite Hw'. by eexists.
Qed.

Lemma node_unique t t' i : cp_nodes cp !! t = Some i -> cp_nodes cp !! t' = Some i -> t = t'.
Proof. destruct Hcp as [Hn _]. intros Ht Ht'. apply Hn in Ht, Ht'. congruence. Qed.

Lemma node_named t i : cp_nodes cp !! t = Some i -> node_weight_of (cp_graph cp) i = Some t.
Proof. destruct Hcp as [Hn _]. intros Ht. rewrite node_weight_spec. by apply Hn. Qed.

Lemma edges_along_snoc path : forall start t u ws w, edges_along cp start path t = Ok ws ->
  get_weight cp t u = Ok w -> edges_along cp start (path ++ [t]) u = Ok (ws ++ [w]).
Proof.
  induction path as [|x path IH]; intros start t u ws w Hws Hw; cbn [edges_along app] in *.
  - apply obind_Ok_inv in Hws as (e & -> & [= <-]). cbn [obind edges_along]. by rewrite Hw.
  - apply obind_Ok_inv in Hws as (e & -> & Hws). apply obind_Ok_inv in Hws as (es & Hws & [= <-]).
    cbn [obind]. by rewrite (IH _ _ _ _ _ Hws Hw).
Qed.

(** A stored path leads over edges of the graph. *)
Definition route_ok (start out : TokenAccount) (before : list TokenAccount) : Prop :=
  is_Ok (edges_along cp start before out).

Lemma chain_route start from to n l : cp_nodes cp !! start = Some from ->
  chain (cp_graph cp) (dijkstra (cp_graph cp) from to) n l -> l <> [] ->
  exists before out, node_names (cp_graph cp) l = Ok (before ++ [out]) /\
    cp_nodes cp !! out = Some n /\ out <> start /\ route_ok start out before.
Proof.
  intros Hstart Hc Hne. pose proof (chain_from_start _ _ _ rates_nonpositive _ _ Hc Hne) as Hfirst.
  revert Hne. induction Hc as [n Hn|n p l Hp Hc IH]; [done|]. intros _.
  assert (Hnf : n <> from) by congruence.
  destruct (find_prev_Some _ _ _ n p Hp) as (d & sd & w & _ & _ & Hin & _).
  destruct (edge_named p n w Hin) as (tp & tn & Htp & Htn & [e He]).
  assert (Hlast : try_map (fun i => expect (node_weight_of (cp_graph cp) i)) [n] = Ok (E:=anyhow) [tn]).
  { cbn [try_map]. by rewrite (node_named _ _ Htn). }
  assert (Hns : tn <> start) by congruence. unfold node_names. cbn [rev].
  destruct l as [|x l].
  - inversion Hc as [? Hnone|]; subst.
    assert (p = from) as -> by (by eapply prev_of_first; [exact rates_nonpositive|..]).
    rewrite (node_unique _ _ _ Htp Hstart) in He. exists [], tn. split_and!; [exact Hlast|done|done|].
    unfold route_ok. cbn [edges_along]. rewrite He. by eexists.
  - destruct (IH ltac:(done)) as (before & out & Hnames & Hout & _ & [ws Hws]).
    rewrite (node_unique _ _ _ Hout Htp) in Hnames, Hws. exists (before ++ [tp]), tn. split_and!; [|done|done|].
    + by apply try_map_app.
    + eexists. by apply edges_along_snoc.
Qed.

Definition routes_ok (start : TokenAccount) (m : gmap TokenAccount (list TokenAccount)) : Prop :=
  map_Forall (fun out before => out <> start /\ route_ok start out before) m.
Definition cache_ok (c : path_cache) : Prop := map_Forall routes_ok c.

Lemma find_all_path_routes start from to paths : cp_nodes cp !! start = Some from ->
  find_all_path (cp_graph cp) (dijkstra (cp_graph cp) from to) = Ok paths ->
  Forall (fun path => exists before out, path = before ++ [out] /\ out <> start /\ route_ok start out before) paths.
Proof.
  intros Hstart. unfold find_all_path. destruct (find_paths _ _ _ _) as [table|] eqn:Ht; [|done].
  apply find_paths_sound in Ht; [|apply map_Forall_empty]. intros Hp.
  eapply try_map_Forall; [exact Hp|]. intros l path Hl Hpath.
  apply list_elem_of_fmap in Hl as ([n l'] & -> & Hin). rewrite hash_iter_perm in Hin.
  apply elem_of_map_to_list in Hin. destruct (Ht n l' Hin) as [Hc Hne].
  destruct (chain_route start from to n l' Hstart Hc Hne) as (before & out & Hnames & _ & Hns & Hr).
  cbn [snd] in Hpath. rewrite Hnames in Hpath. injection Hpath as <-. eauto.
Qed.

Lemma add_paths_ok start paths :
  Forall (fun path => exists before out, path = before ++ [out] /\ out <> start /\ route_ok start out before) paths ->
  forall m outs, routes_ok start m -> (forall out, out ∈ outs -> is_Some (m !! out)) ->
    routes_ok start (foldl add_path (m, outs) paths).1 /\
    forall out, out ∈ (foldl add_path (m, outs) paths).2 -> is_Some ((foldl add_path (m, outs) paths).1 !! out).
Proof.
  induction 1 as [|path paths (before & out & -> & Hns & Hr) _ IH]; intros m outs Hm Houts; cbn [foldl]; [done|].
  unfold add_path at 2 4 6. rewrite rev_app_distr. cbn [rev app fst snd]. rewrite rev_involutive. apply IH.
  - by apply map_Forall_insert_2.
  - intros o Ho. destruct (decide (o = out)) as [->|Hd]; [by rewrite lookup_insert_eq|].
    rewrite lookup_insert_ne by done. apply elem_of_app in Ho as [Ho|Ho]; [auto|].
    by apply list_elem_of_singleton in Ho.
Qed.

(** What a call of [update_path] leaves behind. *)
Definition updated (start : TokenAccount) (c : path_cache) (outs : list TokenAccount) (c' : path_cache) : Prop :=
  cache_ok c' /\ (forall k, k <> start -> c' !! k = c !! k) /\
  (forall out, out ∈ outs -> out <> start /\ exists m, c' !! start = Some m /\ is_Some (m !! out)).

Lemma routes_updated start c c' m outs : cache_ok c' -> (forall k, k <> start -> c' !! k = c !! k) ->
  c' !! start = Some m -> (forall out, out ∈ outs -> is_Some (m !! out)) -> updated start c outs c'.
Proof.
  intros Hc Hk Hm Ho. split_and!; [done..|]. intros out Hout. destruct (Ho out Hout) as [before Hb].
  split; [|by eauto]. by destruct (Hc start m Hm out before Hb).
Qed.

Lemma search_path_ok start goal c outs c' : cache_ok c -> search_path cp start goal c = (Ok outs, c') ->
  updated start c outs c'.
Proof.
  intros Hc. unfold search_path, cached_bind, cached_ret, node_index.
  destruct (cp_nodes cp !! start) as [from|] eqn:Hfrom; cbn [ok_or]; [|done].
  destruct (match goal with Some _ => _ | None => _ end) as [to|e|]; [|done..].
  destruct (find_all_path _ _) as [paths|e|] eqn:Hpaths; [|done..].
  apply (find_all_path_routes start) in Hpaths; [|done].
  pose proof (add_paths_ok start paths Hpaths ∅ []) as Hadd. unfold store_paths.
  destruct (foldl add_path (∅, []) paths) as [m os]. cbn [fst snd] in Hadd.
  destruct Hadd as [Hm Hos]; [apply map_Forall_empty|intros o Ho; by apply elem_of_nil in Ho|].
  case_bool_decide as Hempty; intros [= <- <-].
  - split_and!; [done|done|]. intros o Ho. destruct (Hos o Ho) as [x Hx]. by rewrite Hempty in Hx.
  - apply (routes_updated _ _ _ m); [by apply map_Forall_insert_2|intros k Hk; by rewrite lookup_insert_ne| |done].
    by rewrite lookup_insert_eq.
Qed.

Lemma update_path_ok start goal c outs c' : cache_ok c -> update_path cp start goal c = (Ok outs, c') ->
  updated start c outs c'.
Proof.
  intros Hc. unfold update_path. destruct goal as [goal|]; [by apply search_path_ok|].
  destruct (c !! start) as [m|] eqn:Hm; [|by apply search_path_ok]. intros [= <- <-].
  apply (routes_updated _ _ _ m); [done..|]. intros out Ho.
  apply list_elem_of_fmap in Ho as ([o l] & -> & Hin). rewrite hash_iter_perm in Hin.
  apply elem_of_map_to_list in Hin. by eexists.
Qed.
End cache.

Section update.
Context {G : Type} (D : Type) `{BigDecimal D} `{PetgraphLaws G} `{HashOrderLaws} (tg : TokenGraph G).
Context (Htg : graph_ok (tg_pools tg) (tg_graph tg)).

Lemma keep_reversed_ok start outs : forall goals c goals' c', cache_ok (tg_graph tg) c -> start ∉ outs ->
  keep_reversed tg start outs goals c = (Ok goals', c') ->
  cache_ok (tg_graph tg) c' /\ c' !! start = c !! start /\ goals' ⊆ goals ++ outs.
Proof.
  induction outs as [|goal outs IH]; intros goals c goals' c' Hc Hns; cbn [keep_reversed].
  { intros [= <- <-]. by rewrite app_nil_r. }
  unfold cached_bind. destruct (update_path _ goal _ c) as [[reversed|e|] c1] eqn:Hu; [|done..].
  apply (update_path_ok (tg_pools tg)) in Hu as (Hc1 & Hk & _); [|done|done].
  intros Hrest. apply not_elem_of_cons in Hns as [Hne Hns].
  apply IH in Hrest as (Hc' & Hs & Hsub); [|done|done].
  split_and!; [done|rewrite Hs; by apply Hk|]. etransitivity; [exact Hsub|].
  destruct reversed; set_solver.
Qed.

Lemma update_graph_ok start c goals c' : cache_ok (tg_graph tg) c -> update_graph tg start c = (Ok goals, c') ->
  cache_ok (tg_graph tg) c' /\
  forall goal, goal ∈ goals -> goal <> start /\ exists m, c' !! start = Some m /\ is_Some (m !! goal).
Proof.
  intros Hc. unfold update_graph, cached_bind.
  destruct (update_path _ start None c) as [[outs|e|] c1] eqn:Hu; [|done..].
  apply (update_path_ok (tg_pools tg)) in Hu as (Hc1 & _ & Houts); [|done|done].
  assert (Hns : start ∉ outs) by (intros Hin; by destruct (Houts start Hin)).
  intros Hk. apply keep_reversed_ok in Hk as (Hc' & Hs & Hsub); [|done|done].
  split; [done|]. intros goal Hg. rewrite Hs. apply Houts, Hsub, Hg.
Qed.

Lemma edges_pairs path : unique_ids (tg_pools tg) -> forall prev goal ws,
  edges_along (tg_graph tg) prev path goal = Ok ws -> is_Ok (try_map (edge_to_pair tg) ws).
Proof.
  intros [_ Hid].
  assert (Hone : forall ti to w, get_weight (tg_graph tg) ti to = Ok w -> is_Ok (edge_to_pair tg w)).
  { intros ti to w Hw. destruct (get_weight_sound _ _ _ _ _ Htg Hw) as (e & -> & p & i & o & Hin & _ & Hg & _).
    destruct (get_pair_valid _ _ _ _ Hg) as (Heq & _). exists (edge_pair e).
    unfold edge_to_pair, edge_weight, pools_get_pair, pools_get. rewrite Heq.
    cbn [EdgeWeight_new ew_pair_id expect obind pair_id pool pid_pool pid_in pid_out token_in token_out].
    rewrite (Hid p Hin). cbn [ok_or obind]. by rewrite Hg, Heq. }
  induction path as [|t path IH]; intros prev goal ws Hws; cbn [edges_along] in Hws;
    apply obind_Ok_inv in Hws as (w & Hw & Hws); destruct (Hone _ _ _ Hw) as [tp Htp].
  - injection Hws as <-. exists [tp]. cbn [try_map]. by rewrite Htp.
  - apply obind_Ok_inv in Hws as (ws' & Hws & [= <-]). destruct (IH _ _ _ Hws) as [tps Htps].
    exists (tp :: tps). cbn [try_map]. by rewrite Htp, Htps.
Qed.

(** Every path in the table is given out. *)
Lemma cached_path_given c start goal m : unique_ids (tg_pools tg) -> cache_ok (tg_graph tg) c ->
  c !! start = Some m -> is_Some (m !! goal) -> is_Ok (get_path tg c start goal).
Proof.
  intros Hu Hc Hm [before Hb]. destruct (Hc start m Hm goal before Hb) as [_ [ws Hws]].
  unfold get_path, get_edges, cached_get_path. rewrite Hm. cbn [ok_or obind]. rewrite Hb. cbn [ok_or obind].
  rewrite Hws. cbn [obind]. by eapply edges_pairs.
Qed.
End update.

(** ** A graph of lists *)
Record ListGraph := mkListGraph {
  lg_nodes : list TokenAccount;
  lg_edges : list (NodeIndex * NodeIndex * EdgeWeight);
}.

(** The unvisited node of the least score. *)
Definition closer (best : option (NodeIndex * EdgeWeight)) (e : NodeIndex * EdgeWeight) :=
  match best with
  | Some b => if bool_decide (weight_partial_cmp e.2 b.2 = Some Lt) then Some e else Some b
  | None => Some e
  end.
Definition relax (visited : gset NodeIndex) (n : NodeIndex) (d : EdgeWeight)
    (scores : gmap NodeIndex EdgeWeight) (e : NodeIndex * NodeIndex * EdgeWeight) : gmap NodeIndex EdgeWeight :=
  let '(s, t, w) := e in
  if negb (N.eqb s n) || bool_decide (t ∈ visited) then scores
  else
    let next := weight_add d w in
    match scores !! t with
    | Some old => if bool_decide (weight_partial_cmp next old = Some Lt) then <[t := next]> scores else scores
    | None => <[t := next]> scores
    end.
Fixpoint dijkstra_loop (fuel : nat) (edges : list (NodeIndex * NodeIndex * EdgeWeight))
    (goal : option NodeIndex) (visited : gset NodeIndex) (scores : gmap NodeIndex EdgeWeight)
    : gmap NodeIndex EdgeWeight :=
  match fuel with
  | O => scores
  | S fuel =>
      match foldl closer None (bfilter (fun e => negb (bool_decide (e.1 ∈ visited))) (map_to_list scores)) with
      | None => scores
      | Some (n, d) =>
          if bool_decide (goal = Some n) then scores
          else
            let visited := {[n]} ∪ visited in
            dijkstra_loop fuel edges goal visited (foldl (relax visited n d) scores edges)
      end
  end.

#[global] Instance list_petgraph : Petgraph ListGraph := {|
  graph_new := mkListGraph [] [];
  add_node g t := (len (lg_nodes g), mkListGraph (lg_nodes g ++ [t]) (lg_edges g));
  add_edge g a b w := mkListGraph (lg_nodes g) (lg_edges g ++ [(a, b, w)]);
  find_edge g a b := N.of_nat <$> (fst <$> list_find (fun e => e.1 = (a, b)) (lg_edges g));
  edge_weight_of g e := snd <$> lg_edges g !! N.to_nat e;
  node_weight_of g i := lg_nodes g !! N.to_nat i;
  edges_incoming g n := omap (fun e => if N.eqb e.1.2 n then Some (e.1.1, e.2) else None) (lg_edges g);
  dijkstra g from to :=
    dijkstra_loop (length (lg_nodes g)) (lg_edges g) to ∅ {[ from := EdgeWeight_default ]};
|}.
#[global] Instance list_order : HashOrder := fun K A _ _ m => map_to_list m.
#[global] Instance list_order_laws : HashOrderLaws.
Proof. intros K A ? ? m. done. Qed.

Section list_dijkstra.
Context (edges : list (NodeIndex * NodeIndex * EdgeWeight)) (from : NodeIndex).

(** The scores of visited nodes are final, and the others come from them. *)
Definition scored (visited : gset NodeIndex) (scores : gmap NodeIndex EdgeWeight) : Prop :=
  scores !! from = Some EdgeWeight_default /\
  forall n d, scores !! n = Some d -> n <> from -> exists m sd w,
    (m, n, w) ∈ edges /\ m ∈ visited /\ scores !! m = Some sd /\ d = weight_add sd w.

Lemma closer_elem l e : forall best, foldl closer best l = Some e -> best = Some e \/ e ∈ l.
Proof.
  induction l as [|x l IH]; intros best; cbn [foldl]; [by left|].
  intros He. destruct (IH _ He) as [Hb|Hin]; [|right; by apply list_elem_of_further].
  unfold closer in Hb. destruct best as [b|]; [|injection Hb as ->; right; apply list_elem_of_here].
  case_bool_decide; [|by left]. injection Hb as ->. right. apply list_elem_of_here.
Qed.

Lemma relax_scored visited n d l : from ∈ visited -> n ∈ visited -> l ⊆ edges -> forall scores,
  scored visited scores -> scores !! n = Some d ->
  scored visited (foldl (relax visited n d) scores l) /\ foldl (relax visited n d) scores l !! n = Some d.
Proof.
  intros Hfrom Hn. induction l as [|[[s t] w] l IH]; intros Hsub scores Hs Hd; cbn [foldl]; [done|].
  assert (Hin : (s, t, w) ∈ edges) by apply Hsub, list_elem_of_here.
  assert (Hsub' : l ⊆ edges) by (intros x Hx; by apply Hsub, list_elem_of_further).
  unfold relax at 2 4. destruct (N.eqb_spec s n) as [->|_]; cbn [negb orb]; [|by apply IH].
  case_bool_decide as Ht; [by apply IH|].
  assert (Hins : scored visited (<[t := weight_add d w]> scores) /\ <[t := weight_add d w]> scores !! n = Some d).
  { assert (Hkeep : forall x, x ∈ visited -> <[t := weight_add d w]> scores !! x = scores !! x)
      by (intros x Hx; apply lookup_insert_ne; congruence).
    destruct Hs as [H0' Hs]. split; [split; [by rewrite Hkeep|]|by rewrite Hkeep]. intros x dx Hx Hne.
    destruct (decide (t = x)) as [->|Hd'].
    - rewrite lookup_insert_eq in Hx. injection Hx as <-. exists n, d, w. by rewrite Hkeep.
    - rewrite lookup_insert_ne in Hx by done. destruct (Hs x dx Hx Hne) as (m & sd & w' & He & Hv & Hm & ->).
      exists m, sd, w'. by rewrite Hkeep. }
  destruct Hins as [Hs' Hd'']. destruct (scores !! t); [case_bool_decide|]; by apply IH.
Qed.

Lemma dijkstra_loop_scored fuel goal : forall visited scores,
  (from ∈ visited \/ scores = {[ from := EdgeWeight_default ]}) -> scored visited scores ->
  exists visited', scored visited' (dijkstra_loop fuel edges goal visited scores).
Proof.
  induction fuel as [|fuel IH]; intros visited scores Hv Hs; cbn [dijkstra_loop]; [by exists visited|].
  destruct (foldl closer None _) as [[n d]|] eqn:Hbest; [|by exists visited].
  case_bool_decide; [by exists visited|].
  assert (Hn : scores !! n = Some d).
  { destruct (closer_elem _ _ _ Hbest) as [|Hin]; [done|].
    apply elem_of_bfilter in Hin as [Hin _]. by apply elem_of_map_to_list in Hin. }
  assert (Hfrom : from ∈ {[n]} ∪ visited).
  { destruct Hv as [Hv|Hv]; [set_solver|]. rewrite Hv in Hn. apply lookup_singleton_Some in Hn as [-> _]. set_solver. }
  apply IH; [by left|]. apply relax_scored; [done|set_solver|done| |done].
  destruct Hs as [H0' Hs]. split; [done|]. intros x dx Hx Hne.
  destruct (Hs x dx Hx Hne) as (m & sd & w & He & Hm & Hsd & ->). exists m, sd, w. split_and!; [done|set_solver|done..].
Qed.
End list_dijkstra.

#[global] Instance list_petgraph_laws : PetgraphLaws ListGraph.
Proof.
  unshelve refine {| node_list := lg_nodes; edge_list := lg_edges |}.
  - done.
  - done.
  - done.
  - intros g a b e He. cbn in He. destruct (list_find _ _) as [[k [[s t] w]]|] eqn:E; [|done].
    injection He as <-. apply list_find_Some in E as (Hk & Heq & _). cbn in Heq. injection Heq as -> ->.
    exists w. cbn. rewrite Nat2N.id, Hk. split; [done|]. by eapply list_elem_of_lookup_2.
  - intros g a b w He Hin. cbn in He. destruct (list_find _ _) as [[k x]|] eqn:E; [done|].
    apply list_find_None in E. rewrite Forall_elem in E. by apply (E _ Hin).
  - done.
  - intros g n s w. cbn. rewrite list_elem_of_omap. split.
    + intros ([[s' t] w'] & Hin & He). cbn in He. destruct (N.eqb_spec t n) as [->|]; [|done].
      injection He as -> ->. done.
    + intros Hin. exists (s, n, w). split; [done|]. cbn. by rewrite N.eqb_refl.
  - intros g from to.
    destruct (dijkstra_loop_scored (lg_edges g) from (length (lg_nodes g)) to ∅ {[ from := EdgeWeight_default ]})
      as [visited [Hs _]]; [by right| |done].
    split; [apply lookup_singleton_eq|]. intros n d Hn. apply lookup_singleton_Some in Hn as [-> _]. done.
  - intros g from to n d Hn Hne.
    destruct (dijkstra_loop_scored (lg_edges g) from (length (lg_nodes g)) to ∅ {[ from := EdgeWeight_default ]})
      as [visited [_ Hs]]; [by right| |].
    { split; [apply lookup_singleton_eq|]. intros x dx Hx. apply lookup_singleton_Some in Hx as [-> _]. done. }
    destruct (Hs n d Hn Hne) as (m & sd & w & He & _ & Hm & ->). by exists m, sd, w.
Defined.

(** ** The claims *)
Section theorems.
Context (G D : Type) `{BigDecimal D} `{PetgraphLaws G} `{HashOrderLaws}.

(** C15: Whatever the shortest-path search answered and however often the table of
    paths was updated, a path that the graph gives out over pools with distinct ids
    is not empty, leads hop by hop from the one token to the other over simple
    pools of the list, and a path with return leads back to where it began. *)
Theorem graph_paths_connect pools (tg : TokenGraph G) c start goal path :
  TokenGraph_new D pools = Ok tg -> unique_ids pools ->
  (get_path tg c start goal = Ok path ->
     path <> [] /\ walk start path goal /\ Forall (over_simple_pool pools) path) /\
  (get_path_with_return tg c start goal = Ok path ->
     walk start path start /\ Forall (over_simple_pool pools) path).
Proof.
  intros Htg Hu. split; intros Hp.
  - destruct (get_path_walk D pools tg c start goal path Htg Hp) as [Hne Hw]. split; [done|auto].
  - exact (get_path_with_return_walk D pools tg c start goal path Htg Hp Hu).
Qed.

(** C16: Every goal that [update_graph] reports, on a graph in any state that its
    own operations reach, is given a path afterwards, and so is every goal in its
    table of paths. *)
Theorem reported_goals_have_paths pools (tg : TokenGraph G) c start goals c' goal :
  TokenGraph_new D pools = Ok tg -> unique_ids pools -> cache_ok (tg_graph tg) c ->
  update_graph tg start c = (Ok goals, c') -> goal ∈ goals ->
  cache_ok (tg_graph tg) c' /\ exists path, get_path tg c' start goal = Ok path.
Proof.
  intros Htg Hu Hc Hg Hin. unfold TokenGraph_new in Htg. apply obind_Ok_inv in Htg as (cp & Hcp & [= <-]).
  destruct (cached_path_new D pools) as [cp'|e|] eqn:Hnew; [|done..]. injection Hcp as ->.
  apply (cached_path_new_ok D pools) in Hnew.
  destruct (update_graph_ok (mkTokenGraph pools _) Hnew start c goals c' Hc Hg) as [Hc' Hgoals].
  split; [done|]. destruct (Hgoals goal Hin) as (_ & m & Hm & Hs).
  exact (cached_path_given (mkTokenGraph pools _) Hnew c' start goal m Hu Hc' Hm Hs).
Qed.

(** The recursion over predecessors returns exactly when following them from
    the goal comes to an end; the depth allowed here decides it, so where it is
    exceeded no depth is enough and the program overflows its stack. *)
Theorem find_path_returns_iff (g : G) goals n :
  (is_Some (find_path g goals (path_fuel goals) ∅ n) <-> exists l, chain g goals n l) /\
  (find_path g goals (path_fuel goals) ∅ n = None -> forall fuel, find_path g goals fuel ∅ n = None).
Proof. apply find_path_returns. Qed.
End theorems.

Definition simple_pool (i : N) (a b : TokenAccount) (x y : N) : PoolInfo :=
  mkPoolInfo i (mkPoolInfoBared POOL_KIND_SIMPLE [a; b] [x; y] 30 0 0) 0.
Definition worse_route : PoolInfoList := PoolInfoList_new
  [simple_pool 1 "a" "good" 1000000 1000000; simple_pool 2 "good" "c" 1000000 1000000;
   simple_pool 3 "a" "bad" 1000000 200000; simple_pool 4 "bad" "c" 1000000 200000].
Definition even_rates : PoolInfoList := PoolInfoList_new
  [simple_pool 1 "a" "b" 19940 29970; simple_pool 2 "a" "b" 29970 19940].

Definition hops (path : TokenPath) : list N := map (fun tp => id (pool tp)) path.
Definition list_path (pools : PoolInfoList) (start goal : TokenAccount) : outcome anyhow (list N) :=
  let? path := graph_path (G:=ListGraph) Q pools start goal in Ok (hops path).

(** Scores of an even number of hops are positive, and the least one is the worst
    rate: of two routes of two hops the search takes the one over the bad pools. *)
Example even_hops_take_worse_route : list_path worse_route "a" "c" = Ok [3; 4].
Proof. vm_compute. reflexivity. Qed.

(** Where the rates of a cycle multiply to one, the predecessors go round. *)
Example even_rates_never_return : list_path even_rates "a" "b" = Panic.
Proof. vm_compute. reflexivity. Qed.

(** One direction only: the goal is reported because its own search found
    something, not because it found the way back. *)
Definition one_way : PoolInfoList := PoolInfoList_new
  [simple_pool 1 "a" "b" 1 1000000; simple_pool 2 "a" "c" 1000 1000].
(** The search from "b" to "a" stops before it sees "d". *)
Definition in_a_row : PoolInfoList := PoolInfoList_new
  [simple_pool 1 "a" "b" 3000000 1000000; simple_pool 2 "b" "c" 1000000 1000000;
   simple_pool 3 "c" "d" 1000000 1000000].

(** The goals from each start in turn, and the paths with return to the last. *)
Fixpoint goals_in_turn (tg : TokenGraph ListGraph) (starts : list TokenAccount) (c : path_cache)
    : list (outcome anyhow (list TokenAccount)) * path_cache :=
  match starts with
  | [] => ([], c)
  | s :: rest =>
      let r := update_graph tg s c in
      let more := goals_in_turn tg rest r.2 in
      (r.1 :: more.1, more.2)
  end.
Definition list_goals (pools : PoolInfoList) (starts : list TokenAccount) : list (outcome anyhow (list TokenAccount)) :=
  match TokenGraph_new (G:=ListGraph) Q pools with Ok tg => (goals_in_turn tg starts ∅).1 | _ => [] end.
Definition list_return (pools : PoolInfoList) (start goal : TokenAccount) : outcome anyhow (list N) :=
  let? tg := TokenGraph_new (G:=ListGraph) Q pools in
  let? path := get_path_with_return tg (update_graph tg start ∅).2 start goal in
  Ok (hops path).

Example one_way_reported : list_goals one_way ["b"] = [Ok ["a"]] /\
  list_return one_way "b" "a" = Err (Anyhow "goal token not found" []).
Proof. by vm_compute. Qed.

Example stale_goals :
  list_goals in_a_row ["b"] = [Ok ["d"; "a"; "c"]] /\
  list_goals in_a_row ["a"; "b"] = [Ok ["b"; "d"; "c"]; Ok ["c"; "a"]].
Proof. by vm_compute. Qed.

Definition route_graph : TokenGraph ListGraph :=
  match TokenGraph_new Q worse_route with
  | Ok tg => tg
  | _ => mkTokenGraph worse_route (mkCachedPath graph_new ∅)
  end.
Definition route_cache : path_cache := (update_graph route_graph "a" ∅).2.
Definition route_goals : list TokenAccount :=
  match (update_graph route_graph "a" ∅).1 with Ok goals => goals | _ => [] end.
Definition route : TokenPath :=
  [mkTokenPair (simple_pool 3 "a" "bad" 1000000 200000) (mkTokenIn 0) (mkTokenOut 1);
   mkTokenPair (simple_pool 4 "bad" "c" 1000000 200000) (mkTokenIn 0) (mkTokenOut 1)].

Lemma worse_route_unique : unique_ids worse_route.
Proof. apply PoolInfoList_new_distinct. repeat (constructor; [set_solver|]). constructor. Qed.

Lemma graph_paths_connect_witness :
  route <> [] /\ walk "a" route "c" /\ Forall (over_simple_pool worse_route) route.
Proof.
  apply (graph_paths_connect ListGraph Q worse_route route_graph route_cache "a" "c" route);
    [vm_compute; reflexivity|exact worse_route_unique|vm_compute; reflexivity].
Defined.

Lemma reported_goals_have_paths_witness :
  cache_ok (tg_graph route_graph) route_cache /\ exists path, get_path route_graph route_cache "a" "c" = Ok path.
Proof.
  apply (reported_goals_have_paths ListGraph Q worse_route route_graph ∅ "a" route_goals route_cache "c");
    [vm_compute; reflexivity|exact worse_route_unique|apply map_Forall_empty|vm_compute; reflexivity|].
  apply (bool_decide_unpack _). vm_compute. exact I.
Defined.

(** ** Swaps over the graph *)
Section swaps.
Context {P G D : Type} `{BigDecimal D} `{!Rows P D} `{PetgraphLaws G} `{HashOrderLaws}.
Context `{!FromSlice P (option StoragePlanner.StorageBalance)} `{!FromSlice P (gmap TokenAccount N)}.
Context `{!FromSlice P StoragePlanner.StorageBalanceBounds} `{!FromSlice P TokenMetadata}.

(** What is shown of direct swaps over any finder holds over the token graph. *)
Lemma graph_direct_swap_session show_tx is_mainnet w cfg params t o :
  run (execute_direct_swap (D:=D) (P:=P) (H0:=graph_finder G D) show_tx is_mainnet w cfg params) t o ->
  swap_session (D:=D) (H0:=graph_finder G D) show_tx is_mainnet w cfg params t o.
Proof. apply (@direct_swap_wp P D _ _ (graph_finder G D) (graph_finder_laws G D)). Qed.
End swaps.
