(* ===== verification/Arbitrage.v ===== *)
(** * Arbitrage: choosing and sending the best round trips

    The part of [ref_finance/path.rs] that picks candidates over the token graph
    ([pick_by_amount], [pick_previews], [swap_path]), [PreviewList::into_with_path] of
    [path/preview.rs], and one round of the arbitrage loop
    ([crates/arbitrage/src/lib.rs]).  The round composes the funding of the account,
    the token graph, the search for the best input, the storage setup and the swaps
    of the other files.  The endless loop around it only waits between rounds. *)

From Stdlib Require Import QArith.
From S2P Require Import Prelude NearClient StoragePlanner Storage BigDecimal Dex Swap Search.
From S2P Require Import Balances Slippage Harvest Records TradeSwap Graph GraphPaths.
Local Open Scope N_scope.

(** [Vec::sort] and [Vec::dedup] on account names. *)
Definition sort_names (l : list TokenAccount) : list TokenAccount := merge_sort String.le l.
Fixpoint dedup_names (l : list TokenAccount) : list TokenAccount :=
  match l with
  | x :: (y :: _) as rest => if String.eqb x y then dedup_names rest else x :: dedup_names rest
  | _ => l
  end.

Section pick.
Context {G : Type} (D : Type) `{BigDecimal D} `{Petgraph G} `{HashOrder} (tg : TokenGraph G).

(** The candidates in the order of their returns, up to the first without gain. *)
Fixpoint pick_goals (c : path_cache) (start : TokenAccount) (gas_price amount : N)
    (l : list (TokenAccount * N)) : outcome anyhow (list Preview) :=
  match l with
  | [] => Ok []
  | (goal, output) :: rest =>
      let? path := get_path_with_return tg c start goal in
      let? preview := Preview_new gas_price amount goal (len path) output in
      if 0 <? pv_gain preview then
        let? more := pick_goals c start gas_price amount rest in Ok (preview :: more)
      else Ok []
  end.

Definition pick_by_amount (c : path_cache) (start : TokenAccount) (goals : list TokenAccount)
    (gas_price amount limit : N) : outcome anyhow (option PreviewList) :=
  let? l := list_returns D tg c amount start goals in
  let? previews := pick_goals c start gas_price amount (take (N.to_nat limit) l) in
  PreviewList_new amount previews.

Context {M : Type} `{Amount M}.

(** The number of times the amount fits is cast with [as usize]. *)
Definition do_pick (c : path_cache) (start : TokenAccount) (goals : list TokenAccount) (gas_price : N)
    (total_amount value : M) : outcome anyhow (option PreviewList) :=
  if am_eqb value am_zero then Ok None
  else if am_into value =? 0 then Panic
  else
    let limit := am_into total_amount / am_into value mod 2 ^ 64 in
    if 0 <? limit then pick_by_amount c start goals gas_price (am_into value) limit else Ok None.

Definition average_input (average : N) (total_amount : M) : outcome anyhow M :=
  if average =? 0 then let? r := rate_average am_one total_amount in Ok (am_from r)
  else Ok (am_from average).

Definition pick_previews (fuel : nat) (start : TokenAccount) (average : N) (total_amount : M)
    (gas_price : N) : cached (option PreviewList) :=
  let^ ave_input := cached_ret (average_input average total_amount) in
  let^ goals := update_graph tg start in
  fun c =>
    (match search_best_path (do_pick c start goals gas_price total_amount) pl_total_gain fuel
             am_one ave_input total_amount with
     | Some r => r
     | None => Panic
     end, c).

(** ** preview.rs: the paths of the candidates and their tokens *)
Fixpoint path_tokens (path : TokenPath) : outcome Error (list TokenAccount) :=
  match path with
  | [] => Ok []
  | tp :: rest =>
      let? ti := token_in_id tp in
      let? to := token_out_id tp in
      let? more := path_tokens rest in
      Ok (ti :: to :: more)
  end.

Fixpoint with_paths (c : path_cache) (start : TokenAccount) (l : list Preview)
    : outcome anyhow (list (Preview * TokenPath) * list TokenAccount) :=
  match l with
  | [] => Ok ([], [])
  | p :: rest =>
      let? path := get_path_with_return tg c start (pv_token p) in
      let? tokens := dex_result (path_tokens path) in
      let? more := with_paths c start rest in
      Ok ((p, path) :: more.1, tokens ++ more.2)
  end.
Definition into_with_path (c : path_cache) (start : TokenAccount) (previews : PreviewList)
    : outcome anyhow (list (Preview * TokenPath) * list TokenAccount) :=
  let? r := with_paths c start (pl_list previews) in
  Ok (r.1, dedup_names (sort_names r.2)).
End pick.

(** ** arbitrage/src/lib.rs *)
Section round.
Context {P G D : Type} `{BigDecimal D} `{!Rows P D} `{Petgraph G} `{HashOrder}.
Context `{!FromSlice P (option StorageBalance)} `{!FromSlice P (gmap TokenAccount N)}.
Context `{!FromSlice P StorageBalanceBounds}.
Context (is_mainnet : bool) (w : Wallet) (cfg : TradeConfig).

Abbreviation wnear := (WNEAR_TOKEN is_mainnet).

Definition validate_all (pre_path : list (Preview * TokenPath)) : outcome anyhow (list unit) :=
  try_map (fun e => dex_result (validate_length e.2)) pre_path.

(** The candidates are tried in turn until one succeeds. *)
Fixpoint swap_in_turn (pre_path : list (Preview * TokenPath)) : prog P unit :=
  match pre_path with
  | [] => Ret (Ok tt)
  | (preview, path) :: rest =>
      let! result := attempt (swap_each D is_mainnet w preview path) in
      match result with
      | inl _ => Ret (Ok tt)
      | inr _ => swap_in_turn rest
      end
  end.

Definition execute_previews (tg : TokenGraph G) (c : path_cache) (previews : PreviewList) : prog P unit :=
  let! r := lift (into_with_path tg c wnear previews) in
  let! _ := lift (validate_all r.1) in
  let! _ := ensure_ref_storage_setup is_mainnet w r.2 (keep_wnear_only is_mainnet)
              (max_top_up_from_config (tc_max_top_up cfg)) in
  swap_in_turn r.1.

(** One iteration of the search is enough at [MicroNear] ([search_micro_ends]). *)
Definition single_loop : prog P unit :=
  let! inputs := read_inputs None in
  let! balance := start is_mainnet w (tc_balances cfg) inputs wnear None in
  let start_balance := MicroNear.micro_from_yocto balance in
  let! pools := read_from_db (D:=D) None in
  let! tg := lift (TokenGraph_new (G:=G) D pools) in
  let! gas_price := get_gas_price in
  let! inputs := read_inputs None in
  let picked := pick_previews D tg 1 wnear (stat_average inputs) start_balance gas_price ∅ in
  let! previews := lift picked.1 in
  match previews with
  | Some previews => execute_previews tg picked.2 previews
  | None => Ret (Ok tt)
  end.
End round.

(** ** The candidates *)
Section candidates.
Context {G : Type} (D : Type) `{BigDecimal D} `{Petgraph G} `{HashOrder} (tg : TokenGraph G).

(** A candidate spends no more than [bound], and what it must bring covers the
    input and the cost of its path. *)
Definition candidate (c : path_cache) (start : TokenAccount) (gas_price bound : N) (p : Preview) : Prop :=
  exists path cst, get_path_with_return tg c start (pv_token p) = Ok path /\
    cost (E:=anyhow) gas_price (len path) = Ok cst /\
    saturating_sub (pv_output_value p) (pv_gain p) = pv_input_value p + cst /\ pv_input_value p <= bound.

Lemma pick_goals_candidates c start gas_price amount bound l : amount <= bound -> forall ps,
  pick_goals tg c start gas_price amount l = Ok ps -> Forall (candidate c start gas_price bound) ps.
Proof.
  intros Hb. induction l as [|[goal output] l IH]; intros ps; cbn [pick_goals]; [intros [= <-]; constructor|].
  intros Hp. apply obind_Ok_inv in Hp as (path & Hpath & Hp). apply obind_Ok_inv in Hp as (pv & Hpv & Hp).
  unfold Preview_new in Hpv. apply obind_Ok_inv in Hpv as (g & Hg & [= <-]). cbn [pv_gain] in Hp.
  destruct (N.ltb_spec 0 g) as [Hpos|_]; [|injection Hp as <-; constructor].
  apply obind_Ok_inv in Hp as (more & Hmore & [= <-]). constructor; [|by apply IH].
  destruct (gain_positive_cost _ _ _ _ _ Hg Hpos) as (cst & Hc & Ho).
  exists path, cst. split_and!; [done|done| |done]. cbn. unfold saturating_sub. lia.
Qed.

Lemma do_pick_candidates {M} `{Amount M} c start goals gas_price (total value : M) pl :
  do_pick D tg c start goals gas_price total value = Ok (Some pl) ->
  Forall (candidate c start gas_price (am_into total)) (pl_list pl).
Proof.
  unfold do_pick. destruct (am_eqb value am_zero); [done|].
  destruct (N.eqb_spec (am_into value) 0) as [|Hv]; [done|].
  destruct (N.ltb_spec 0 (am_into total / am_into value mod 2 ^ 64)) as [Hl|]; [|done].
  intros Hp. unfold pick_by_amount in Hp. apply obind_Ok_inv in Hp as (l & _ & Hp).
  apply obind_Ok_inv in Hp as (ps & Hps & Hp). unfold PreviewList_new in Hp.
  apply obind_Ok_inv in Hp as (tot & _ & [= <-]). eapply pick_goals_candidates; [|exact Hps].
  destruct (N.le_gt_cases (am_into value) (am_into total)) as [|Hgt]; [done|].
  rewrite N.div_small, N.Div0.mod_0_l in Hl by done. lia.
Qed.

Lemma pick_previews_candidates {M} `{Amount M} fuel start ave (total : M) gas_price c0 pl c :
  pick_previews D tg fuel start ave total gas_price c0 = (Ok (Some pl), c) ->
  Forall (candidate c start gas_price (am_into total)) (pl_list pl).
Proof.
  unfold pick_previews, cached_bind, cached_ret. destruct (average_input ave total) as [a|e|]; [|done..].
  destruct (update_graph tg start c0) as [[goals|e|] c1]; [|done..]. intros E. injection E as Hs <-.
  destruct (search_best_path _ _ _ _ _ _) as [r|] eqn:Hr; [|done]. subst r.
  apply search_loop_computed in Hr as [x Hx]; [|by intros y q Hy].
  by apply do_pick_candidates in Hx.
Qed.

Lemma with_paths_spec c start l : forall pre toks, with_paths tg c start l = Ok (pre, toks) ->
  pre.*1 = l /\ Forall (fun e => get_path_with_return tg c start (pv_token e.1) = Ok e.2) pre.
Proof.
  induction l as [|p l IH]; intros pre toks; cbn [with_paths]; [intros [= <- <-]; by split|].
  intros Hw. apply obind_Ok_inv in Hw as (path & Hpath & Hw). apply obind_Ok_inv in Hw as (ts & _ & Hw).
  apply obind_Ok_inv in Hw as ([pre' toks'] & Hmore & [= <- <-]). destruct (IH _ _ Hmore) as [<- Hf].
  split; [done|]. by constructor.
Qed.
End candidates.

(** ** One round *)
#[local] Arguments execs : simpl never.

Section round_session.
Context {P G D : Type} `{BigDecimal D} `{!Rows P D} `{PetgraphLaws G} `{HashOrderLaws}.
Context `{!FromSlice P (option StorageBalance)} `{!FromSlice P (gmap TokenAccount N)}.
Context `{!FromSlice P StorageBalanceBounds}.
Context (is_mainnet : bool) (w : Wallet) (cfg : TradeConfig).

Abbreviation wnear := (WNEAR_TOKEN is_mainnet).

(** The transaction of a candidate: a round trip over simple pools of those
    that were read. *)
Definition round_trip_call (all : list PoolInfo) (balance gas_price : N) (call : ExecCall) : Prop :=
  exists path acts out a z amount cst,
    call = swap_call is_mainnet w acts /\
    build_swap_actions (H := TokenPair_like D) path (mkSwapArg amount (amount + cst)) = Ok (acts, out) /\
    head acts = Some a /\ list.last acts = Some z /\
    sa_amount_in a = Some amount /\ sa_min_amount_out z = amount + cst /\
    cost (E:=anyhow) gas_price (len path) = Ok cst /\ amount <= balance /\ len path <= MAX_HOPS /\
    walk wnear path wnear /\ Forall (over_simple_pool (PoolInfoList_new all)) path.

Definition arbitrage_session (t : list (event P)) : Prop :=
  exists funding storage swaps,
    execs t = funding ++ storage ++ swaps /\ Forall funding_call funding /\
    ((storage = [] /\ swaps = []) \/
     exists all balance gas_price needed, pools_read (D:=D) t all /\
       reported is_mainnet w wnear balance t /\ ev RGasPrice (inl gas_price) ∈ t /\
       well_formed_session is_mainnet w needed (keep_wnear_only is_mainnet)
         (max_top_up_from_config (tc_max_top_up cfg)) storage /\
       Forall (round_trip_call all balance gas_price) swaps).

Lemma swap_in_turn_spec (Good : ExecCall -> Prop) pre :
  Forall (fun e => e.2 <> [] /\ forall acts out,
    build_swap_actions (H := TokenPair_like D) e.2
      (mkSwapArg (pv_input_value e.1) (saturating_sub (pv_output_value e.1) (pv_gain e.1))) = Ok (acts, out) ->
    Good (swap_call is_mainnet w acts)) pre ->
  wpx (P:=P) (swap_in_turn (D:=D) is_mainnet w pre) (fun l _ => Forall Good l).
Proof.
  induction 1 as [|[pv path] pre [Hne Hcall] _ IH]; cbn [swap_in_turn]; [by apply wpx_ret|].
  apply wpx_bind, wpx_attempt. eapply wpx_mono; [by apply swap_each_sends|].
  intros l o Ho. assert (Hl : Forall Good l).
  { destruct Ho as [[-> _]|(acts & out & -> & Hb)]; [constructor|]. apply Forall_singleton. by apply (Hcall acts out). }
  destruct o as [u|e|]; [apply wpx_ret; by rewrite app_nil_r| |done].
  eapply wpx_mono; [exact IH|]. intros l' o' Hl'. by apply Forall_app_2.
Qed.

Lemma candidate_call tg all c gas_price balance bound e : TokenGraph_new (G:=G) D (PoolInfoList_new all) = Ok tg ->
  bound <= balance -> candidate tg c wnear gas_price bound e.1 ->
  get_path_with_return tg c wnear (pv_token e.1) = Ok e.2 -> dex_result (validate_length e.2) = Ok tt ->
  e.2 <> [] /\ forall acts out,
    build_swap_actions (H := TokenPair_like D) e.2
      (mkSwapArg (pv_input_value e.1) (saturating_sub (pv_output_value e.1) (pv_gain e.1))) = Ok (acts, out) ->
    NoDup (id <$> all) -> round_trip_call all balance gas_price (swap_call is_mainnet w acts).
Proof.
  destruct e as [pv path]. cbn [fst snd]. intros Htg Hbound (path' & cst & Hp' & Hc & Hmin & Hle) Hp Hlen.
  assert (path' = path) as -> by congruence.
  assert (Hne : path <> []).
  { unfold get_path_with_return in Hp. apply obind_Ok_inv in Hp as (there & Hthere & Hp).
    apply obind_Ok_inv in Hp as (back & _ & [= <-]).
    destruct (get_path_walk D _ tg c _ _ _ Htg Hthere) as [Hne _]. by destruct there. }
  split; [done|]. intros acts out Hb Hnd. rewrite Hmin in Hb.
  destruct (list.last path) as [l|] eqn:Hl; [|apply list.last_None in Hl; done].
  destruct (head path) as [f|] eqn:Hf; [|destruct path; done].
  destruct (build_head_last (H := TokenPair_like D) _ _ _ _ _ _ Hb Hf Hl) as (a & z & Ha & Hz & Hin & Hout & _).
  destruct (get_path_with_return_walk D _ tg c wnear _ path Htg Hp) as [Hwalk Hover]; [by apply PoolInfoList_new_distinct|].
  exists path, acts, out, a, z, (pv_input_value pv), cst. split_and!; try done.
  - lia.
  - unfold validate_length in Hlen. destruct (N.ltb_spec MAX_HOPS (len path)); [done|lia].
Qed.

Lemma micro_bound balance : am_into (MicroNear.micro_from_yocto balance) <= balance.
Proof.
  cbn [am_into MicroNear.amount]. unfold MicroNear.micro_to_yocto, MicroNear.micro_from_yocto. cbn [MicroNear.raw].
  etransitivity; [apply N.mul_le_mono_r, N.Div0.mod_le|]. rewrite N.mul_comm. apply N.Div0.mul_div_le.
Qed.

(** From the candidates on: a storage session, then their transactions. *)
Lemma execute_previews_spec tg all c gas_price balance bound previews :
  TokenGraph_new (G:=G) D (PoolInfoList_new all) = Ok tg -> bound <= balance ->
  Forall (candidate tg c wnear gas_price bound) (pl_list previews) ->
  wpx (P:=P) (execute_previews (D:=D) is_mainnet w cfg tg c previews) (fun l _ =>
    exists storage swaps needed, l = storage ++ swaps /\
      well_formed_session is_mainnet w needed (keep_wnear_only is_mainnet)
        (max_top_up_from_config (tc_max_top_up cfg)) storage /\
      Forall (fun call => NoDup (id <$> all) -> round_trip_call all balance gas_price call) swaps).
Proof.
  intros Htg Hbound Hc. assert (Hnil : well_formed_session is_mainnet w [] (keep_wnear_only is_mainnet)
      (max_top_up_from_config (tc_max_top_up cfg)) []).
  { exists [], [], [], []. split_and!; [done|by left|constructor|by left|by left|apply N.le_0_l]. }
  unfold execute_previews. apply wpx_bind, wpx_lift. unfold into_with_path.
  destruct (with_paths tg c wnear (pl_list previews)) as [[pre toks]|e|] eqn:Hw; cbn [obind]; [|by exists [], [], []..].
  apply with_paths_spec in Hw as [Hpre Hpaths]. apply wpx_bind, wpx_lift. cbn [fst snd].
  destruct (validate_all pre) as [us|e|] eqn:Hv; [|by exists [], [], []..].
  apply wpx_bind. eapply wpx_mono; [apply phase_ensure|]. intros l o [Hl _]. cbn [app].
  destruct o as [u|e|].
  2-3: exists l, [], (dedup_names (sort_names toks)); by rewrite app_nil_r.
  eapply wpx_mono; [apply (swap_in_turn_spec (fun call => NoDup (id <$> all) -> round_trip_call all balance gas_price call))|].
  - apply Forall_elem. intros e He. rewrite Forall_elem in Hpaths. apply (candidate_call tg all c gas_price balance bound);
      [done|done| |by apply Hpaths|].
    + rewrite Forall_elem in Hc. apply Hc. rewrite <- Hpre. apply list_elem_of_fmap. eauto.
    + unfold validate_all in Hv. clear -Hv He. revert us Hv. induction pre as [|x pre IH]; intros us Hv;
        [by apply elem_of_nil in He|]. cbn [try_map] in Hv.
      apply obind_Ok_inv in Hv as ([] & Hx & Hv). apply obind_Ok_inv in Hv as (us' & Hv & _).
      apply elem_of_cons in He as [->|He]; [done|by eapply IH].
  - intros l' o' Hl'. by exists l, l', (dedup_names (sort_names toks)).
Qed.

(** The session, where the pools that were read have distinct ids. *)
Definition distinct_session (t : list (event P)) : Prop :=
  (forall all, pools_read (D:=D) t all -> NoDup (id <$> all)) -> arbitrage_session t.

Lemma single_loop_wp :
  wp (single_loop (P:=P) (G:=G) (D:=D) is_mainnet w cfg) (fun t _ => distinct_session t).
Proof.
  assert (Hquiet : forall t1 t2, sends_only funding_call t1 -> execs t2 = [] -> distinct_session (t1 ++ t2)).
  { intros t1 t2 H1' H2' _. exists (execs t1), [], []. rewrite execs_app, H2', !app_nil_r. split_and!; [done|done|by left]. }
  unfold single_loop.
  replace (let! inputs := read_inputs None in _) with
    (let! balance := source_balance (P:=P) is_mainnet w cfg wnear None in
     let! pools := read_from_db (D:=D) None in
     let! tg := lift (TokenGraph_new (G:=G) D pools) in
     let! gas_price := get_gas_price in
     let! inputs := read_inputs None in
     let picked := pick_previews D tg 1 wnear (stat_average inputs) (MicroNear.micro_from_yocto balance) gas_price ∅ in
     let! previews := lift picked.1 in
     match previews with
     | Some previews => execute_previews (D:=D) is_mainnet w cfg tg picked.2 previews
     | None => Ret (Ok tt)
     end); [|unfold source_balance; by rewrite String.eqb_refl].
  apply wp_bind. eapply wp_mono; [apply source_balance_spec|].
  intros t1 [balance|e|] (Hf & _ & Hb); [|rewrite <- (app_nil_r t1); by apply Hquiet..].
  apply wp_bind. eapply wp_mono; [apply read_from_db_spec|].
  intros t2 [pools|e|] [Ht2 Hp]; [|by apply Hquiet..]. destruct Hp as (all & -> & Hread).
  apply wp_bind, wp_ret. destruct (TokenGraph_new D _) as [tg|e|] eqn:Htg; [|rewrite app_nil_r; by apply Hquiet..].
  apply wp_bind, wp_call. intros [gas_price|e]; [|by apply Hquiet; [|execs_simpl; rewrite Ht2]].
  apply wp_bind, wp_call. intros inputs. cbn [of_answer app]. apply wp_bind, wp_ret.
  destruct (pick_previews D tg 1 wnear _ _ gas_price ∅) as [picked c] eqn:Hpick. cbn [fst snd].
  destruct picked as [[previews|]|e|]; [|apply wp_ret; apply Hquiet; [done|execs_simpl; by rewrite Ht2]
    |by apply Hquiet; [|execs_simpl; rewrite Ht2]..].
  apply pick_previews_candidates in Hpick.
  eapply wp_mono; [apply (execute_previews_spec tg all c gas_price balance _ previews Htg (micro_bound balance) Hpick)|].
  intros t3 o (storage & swaps & needed & Hl & Hs & Hsw) Hpools.
  match type of Hpools with forall all, pools_read ?t all -> _ => set (full := t) in * end.
  assert (Hread' : pools_read (D:=D) full all) by (eapply pools_read_mono; [|exact Hread]; unfold full; set_solver).
  exists (execs t1), storage, swaps. split_and!; [|done|right].
  - unfold full. execs_simpl. by rewrite Ht2, Hl.
  - exists all, balance, gas_price, needed. split_and!; [done|by apply reported_app| |done|].
    2: { eapply List.Forall_impl; [|exact Hsw]. intros call Hcall. by apply Hcall, Hpools. }
    apply elem_of_app; right. apply elem_of_app; right. cbn [app]. apply list_elem_of_here.
Qed.
End round_session.

Section theorems.
Context (P G D : Type) `{BigDecimal D} `{!Rows P D} `{PetgraphLaws G} `{HashOrderLaws}.
Context `{!FromSlice P (option StorageBalance)} `{!FromSlice P (gmap TokenAccount N)}.
Context `{!FromSlice P StorageBalanceBounds}.
Context (is_mainnet : bool) (w : Wallet) (cfg : TradeConfig).

(** C11: A round of arbitrage, whatever the node, the database and the search
    answer, as long as the pools it reads from the database have distinct ids (the
    query asks for one row per pool), sends only the calls that fund the exchange,
    then a storage session within the configured cap, then swaps.  Each swap spends
    no more than the exchange reported as balance, along a path of at most ten hops
    over simple pools among those that were read, which leads hop by hop from
    wrapped NEAR back to wrapped NEAR, and its last action accepts no less than the
    input plus the cost of the gas for that path at the price the node gave. *)
Theorem arbitrage_round_covers_cost t o
  (Hrun : run (single_loop (P:=P) (G:=G) (D:=D) is_mainnet w cfg) t o)
  (Hpools : forall all, pools_read (D:=D) t all -> NoDup (id <$> all)) :
  arbitrage_session (D:=D) is_mainnet w cfg t.
Proof. by eapply single_loop_wp. Qed.
End theorems.

(** ** A round on two pools whose prices differ *)
Definition gap_pool (n : Z) (a b : N) : DbPoolInfo cell :=
  mkDbPoolInfo n "SIMPLE_POOL" (CIds ["wrap.near"; "usdt"]%string) (CAmounts [a; b]) 30 (CAmount 1) 0 5.
Definition gap_db (q : Query) : cell :=
  match q with
  | QLatestPool _ => CPool (Some (gap_pool 0 (10 ^ 26) (3 * 10 ^ 26)))
  | QPoolsBetween _ _ => CPools [gap_pool 0 (10 ^ 26) (3 * 10 ^ 26); gap_pool 1 (3 * 10 ^ 26) (10 ^ 26)]
  | _ => CNothing
  end.
Definition gap_answer (r : Req) (s : unit) : Resp cell r * unit :=
  match r return Resp cell r * unit with
  | RView _ m _ =>
      (inl (if String.eqb m "get_deposits" then CDeposits {[ "usdt" := 0; "wrap.near" := 5 * 10 ^ 24 ]}
            else desk_view m), s)
  | RDb q => (inl (gap_db q), s)
  | r => desk_answer r s
  end.
Definition gap_round := interp gap_answer
  (single_loop (G:=ListGraph) (D:=Q) true desk_wallet desk_config) tt.

Example gap_round_run :
  gap_round.1.1 = Ok tt /\ (ec_method <$> execs gap_round.1.2) = ["swap"].
Proof. by vm_compute. Qed.

(** What holds of every answer holds of every event. *)
Lemma interp_answers {P S A} (answer : forall r, S -> Resp P r * S) (Good : event P -> Prop) (p : prog P A) s :
  (forall r s, Good (ev r (answer r s).1)) -> Forall Good (interp answer p s).1.2.
Proof.
  intros Ha. revert s. induction p as [o|r k IH]; intros s; cbn [interp]; [by apply Forall_nil|].
  pose proof (Ha r s) as Hr. destruct (answer r s) as [x s']. specialize (IH x s').
  destruct (interp answer (k x) s') as [[o t] s'']. by apply list.Forall_cons.
Qed.

(** The pools of the round, as often as they are read. *)
Lemma gap_pools_distinct all : pools_read (D:=Q) gap_round.1.2 all -> NoDup (id <$> all).
Proof.
  intros (first & last & raw & rows & Hin & Hr & Hm).
  assert (Hall : Forall (fun e : event cell => match projT1 e as r return Resp cell r -> Prop with
    | RDb (QPoolsBetween f l) => fun x => x = inl (gap_db (QPoolsBetween f l))
    | _ => fun _ => True end (projT2 e)) gap_round.1.2).
  { apply interp_answers. intros r s. destruct r; try exact I. destruct q; try exact I. reflexivity. }
  revert Hin Hall. generalize gap_round.1.2. intros t Hin Hall. rewrite list.Forall_forall in Hall.
  pose proof (Hall _ Hin) as Hraw. cbn [projT1 projT2 ev] in Hraw. injection Hraw as ->.
  vm_compute in Hr. injection Hr as <-.
  vm_compute in Hm. injection Hm as <-. vm_compute. repeat (constructor; [set_solver|]). constructor.
Qed.

Lemma arbitrage_round_covers_cost_witness :
  arbitrage_session (D:=Q) true desk_wallet desk_config gap_round.1.2.
Proof.
  apply (arbitrage_round_covers_cost cell ListGraph Q true desk_wallet desk_config gap_round.1.2 gap_round.1.1);
    [apply interp_run|exact gap_pools_distinct].
Defined.
