(* ===== verification/NearRpc.v ===== *)
(** * NearRpc: the client traits over JSON-RPC

    [jsonrpc/near_client.rs]: the requests of [NearClient] as calls of the RPC
    methods of a node, with the building and signing of transactions, and the
    polling of [jsonrpc/sent_tx.rs] as the calls it makes.  A [wire] program is a
    tree of such calls and of the requests that are not the client's (the
    database, the clock, locks); [lower] turns a program of the other files into
    one.  Keys, hashes and signatures are parameters, as is the JSON text of
    arguments; an RPC error is its text.  The handles of sent transactions belong
    to the account of the wallet.  Log output is left out. *)

From Stdlib Require Import QArith.
From S2P Require Import Prelude NearClient Rpc StoragePlanner Storage BigDecimal Dex Swap Units.
From S2P Require Import Balances Slippage Harvest Records TradeSwap Graph GraphPaths Arbitrage.
Local Open Scope N_scope.

(** ** The methods of a node *)

(** Hashes are numbers, like the handles of transactions. *)
Abbreviation CryptoHash := N (only parsing).

Inductive Action (P : Type) : Type :=
| Transfer (deposit : N)
| FunctionCall (method_name : string) (args : P) (gas : N) (deposit : N).
Arguments Transfer {P} _.
Arguments FunctionCall {P} _ _ _ _.

Record Transaction (P : Type) := mkTransaction {
  signer_id : AccountId;
  tx_public_key : string;
  tx_nonce : N;
  receiver_id : AccountId;
  tx_block_hash : CryptoHash;
  actions : list (Action P);
}.
Arguments mkTransaction {P} _ _ _ _ _ _.
Arguments signer_id {P} _.
Arguments tx_public_key {P} _.
Arguments tx_nonce {P} _.
Arguments receiver_id {P} _.
Arguments tx_block_hash {P} _.
Arguments actions {P} _.
Record SignedTransaction (P : Type) := mkSigned { signature : string; transaction : Transaction P }.
Arguments mkSigned {P} _ _.
Arguments signature {P} _.
Arguments transaction {P} _.

Inductive QueryRequest (P : Type) : Type :=
| ViewAccount (account_id : AccountId)
| ViewAccessKey (account_id : AccountId) (public_key : string)
| CallFunction (account_id : AccountId) (method_name : string) (args : P).
Arguments ViewAccount {P} _.
Arguments ViewAccessKey {P} _ _.
Arguments CallFunction {P} _ _ _.
Inductive QueryResponseKind (P : Type) : Type :=
| KViewAccount (amount : N)
| KAccessKey (nonce : N)
| KCallResult (result : P)
| KOther.
Arguments KViewAccount {P} _.
Arguments KAccessKey {P} _.
Arguments KCallResult {P} _.
Arguments KOther {P}.

(** The outcome of a transaction: its hash as text, and its status. *)
Record Outcome (P : Type) := mkOutcome { outcome_hash : string; outcome_status : FinalExecutionStatus P }.
Arguments mkOutcome {P} _ _.
Arguments outcome_hash {P} _.
Arguments outcome_status {P} _.

(** Every block reference is [Finality::Final]. *)
Inductive RpcMethod (P : Type) : Type :=
| MBlock
| MGasPrice
| MQuery (request : QueryRequest P)
| MTxStatus (tx_hash : CryptoHash) (sender : AccountId) (wait_until : TxExecutionStatus)
| MBroadcast (signed_transaction : SignedTransaction P).
Arguments MBlock {P}.
Arguments MGasPrice {P}.
Arguments MQuery {P} _.
Arguments MTxStatus {P} _ _ _.
Arguments MBroadcast {P} _.

(** A block is its hash, the price of gas an amount. *)
Definition RpcResponse {P} (m : RpcMethod P) : Type :=
  match m with
  | MBlock => CryptoHash
  | MGasPrice => N
  | MQuery _ => QueryResponseKind P
  | MTxStatus _ _ _ => TxExecutionStatus * option (Outcome P)
  | MBroadcast _ => CryptoHash
  end.

Inductive Call (P : Type) : Type := Rpc (m : RpcMethod P) | Host (r : Req).
Arguments Rpc {P} _.
Arguments Host {P} _.
Definition Reply {P} (c : Call P) : Type :=
  match c with Rpc m => RpcResponse m + string | Host r => Resp P r end.

Inductive wire (P A : Type) : Type :=
| WRet (o : outcome anyhow A)
| WOp (c : Call P) (k : Reply c -> wire P A).
Arguments WRet {P A} _.
Arguments WOp {P A} _ _.

Fixpoint wbind {P A B} (p : wire P A) (k : A -> wire P B) : wire P B :=
  match p with
  | WRet (Ok a) => k a
  | WRet (Err e) => WRet (Err e)
  | WRet Panic => WRet Panic
  | WOp c f => WOp c (fun x => wbind (f x) k)
  end.
Fixpoint wattempt {P A} (p : wire P A) : wire P (A + anyhow) :=
  match p with
  | WRet (Ok a) => WRet (Ok (inl a))
  | WRet (Err e) => WRet (Ok (inr e))
  | WRet Panic => WRet Panic
  | WOp c f => WOp c (fun x => wattempt (f x))
  end.
Notation "'let@' x ':=' c 'in' k" := (wbind c (fun x => k))
  (at level 10, x pattern, c at level 100, k at level 200).

(** [self.rpc.call(req).await?]. *)
Definition call {P} (m : RpcMethod P) : wire P (RpcResponse m) :=
  WOp (Rpc m) (fun x => WRet (match x with inl v => Ok v | inr msg => Err (External msg) end)).

(** ** near_client.rs *)
Definition GAS_300_TERA : N := 300 * 10 ^ 12.

Section client.
Context {P : Type} `{!ToVec P}.
Context (public_key : AccountId -> string) (tx_hash : Transaction P -> CryptoHash).
Context (sign : AccountId -> CryptoHash -> string).

Definition near_get_recent_block : wire P CryptoHash := call MBlock.

(** [GasPrice::from_balance] keeps the low 64 bits. *)
Definition near_get_gas_price : wire P N :=
  let@ res := call MGasPrice in WRet (Ok (N.modulo res (U64_MAX + 1))).

Definition near_get_native_amount (account : AccountId) : wire P N :=
  let@ res := call (MQuery (ViewAccount account)) in
  WRet (match res with
        | KViewAccount amount => Ok amount
        | _ => Err (Anyhow "unexpected RPC response: expected ViewAccount" [])
        end).

Definition near_get_access_key_info (signer : AccountId) : wire P N :=
  let@ res := call (MQuery (ViewAccessKey signer (public_key signer))) in
  WRet (match res with
        | KAccessKey nonce => Ok nonce
        | _ => Err (Anyhow "unexpected RPC response: expected AccessKey" [])
        end).

Definition near_view_contract (receiver : AccountId) (method_name : string) (args : json) : wire P P :=
  let@ res := call (MQuery (CallFunction receiver method_name (to_vec args))) in
  WRet (match res with
        | KCallResult r => Ok r
        | _ => Err (Anyhow "unexpected RPC response: expected CallResult" [])
        end).

(** The transaction [send_tx] builds and signs. *)
Definition signed_tx (signer receiver : AccountId) (acts : list (Action P)) (nonce : N) (block_hash : CryptoHash)
    : SignedTransaction P :=
  let transaction := mkTransaction signer (public_key signer) nonce receiver block_hash acts in
  mkSigned (sign signer (tx_hash transaction)) transaction.

(** The nonce is a [u64]. *)
Definition near_send_tx (signer receiver : AccountId) (acts : list (Action P)) : wire P TxId :=
  let@ access_key_nonce := near_get_access_key_info signer in
  let@ block_hash := near_get_recent_block in
  let@ nonce := WRet (expect (if access_key_nonce <? U64_MAX then Some (access_key_nonce + 1) else None)) in
  call (MBroadcast (signed_tx signer receiver acts nonce block_hash)).

Definition near_transfer_native_token (signer receiver : AccountId) (amount : N) : wire P TxId :=
  near_send_tx signer receiver [Transfer amount].

Definition near_exec_contract (signer receiver : AccountId) (method_name : string) (args : json) (deposit : N)
    : wire P TxId :=
  near_send_tx signer receiver [FunctionCall method_name (to_vec args) GAS_300_TERA deposit].

Definition wait_tx_result (sender : AccountId) (hash : CryptoHash) (wait_until : TxExecutionStatus)
    : wire P (TxExecutionStatus * option (Outcome P)) := call (MTxStatus hash sender wait_until).

(** ** sent_tx.rs *)
Definition near_wait_for_executed (account : AccountId) (hash : CryptoHash) : wire P (Outcome P) :=
  let@ res := wait_tx_result account hash TxExecuted in
  WRet (match res.2 with Some outcome => Ok outcome | None => Err (Anyhow "No outcome of tx" []) end).

(** The loop of [wait_for_success]. *)
Fixpoint near_poll (account : AccountId) (hash : CryptoHash) (remaining : nat) : wire P (FinalExecutionStatus P) :=
  match remaining with
  | O => WRet (Err (Anyhow "Transaction polling timeout" [N.of_nat MAX_ATTEMPTS; N.of_nat MAX_ATTEMPTS * 2]))
  | S remaining =>
      WOp (Rpc (MTxStatus hash account TxNone)) (fun answer =>
        match answer with
        | inr msg => if not_yet msg then near_poll account hash remaining else WRet (Err (External msg))
        | inl (status, outcome) =>
            if is_final status then
              match outcome_status <$> outcome with
              | Some (Failure err) => WRet (Err (External err))
              | Some (SuccessValue v) => WRet (Ok (SuccessValue v))
              | Some NotStarted | Some Started | None => near_poll account hash remaining
              end
            else near_poll account hash remaining
        end)
  end.
Definition near_wait_for_success (account : AccountId) (hash : CryptoHash) : wire P (FinalExecutionStatus P) :=
  near_poll account hash MAX_ATTEMPTS.

(** ** The requests of a program *)
Context (account : AccountId).

Definition near_step (r : Req) : wire P (Resp P r) :=
  match r with
  | RView receiver method_name args => wattempt (near_view_contract receiver method_name args)
  | RExec signer receiver method_name args deposit =>
      wattempt (near_exec_contract signer receiver method_name args deposit)
  | RTransfer signer receiver amount => wattempt (near_transfer_native_token signer receiver amount)
  | RWait hash => wattempt (near_wait_for_success account hash)
  | RWaitExecuted hash => wattempt (let@ o := near_wait_for_executed account hash in WRet (Ok (outcome_hash o)))
  | RNative acc => wattempt (near_get_native_amount acc)
  | RGasPrice => wattempt near_get_gas_price
  | r => WOp (Host r) (fun x => WRet (Ok x))
  end.

Fixpoint lower {A} (p : prog P A) : wire P A :=
  match p with
  | Ret o => WRet o
  | Op r k => wbind (near_step r) (fun x => lower (k x))
  end.
End client.

(** * Runs on the wire *)
Definition wevent (P : Type) : Type := { c : Call P & Reply c }.
Definition wev {P} (c : Call P) (x : Reply c) : wevent P := existT c x.

Inductive wrun {P A} : wire P A -> list (wevent P) -> outcome anyhow A -> Prop :=
| wrun_ret o : wrun (WRet o) [] o
| wrun_op c k x t o : wrun (k x) t o -> wrun (WOp c k) (wev c x :: t) o.

(** Running against an answering function with a state of its own. *)
Fixpoint winterp {P S A} (answer : forall c : Call P, S -> Reply c * S) (p : wire P A) (s : S)
    : outcome anyhow A * list (wevent P) :=
  match p with
  | WRet o => (o, [])
  | WOp c k => let '(x, s') := answer c s in let '(o, t) := winterp answer (k x) s' in (o, wev c x :: t)
  end.

Section runs.
Context {P : Type}.

Lemma winterp_run {S A} (answer : forall c : Call P, S -> Reply c * S) (p : wire P A) s :
  wrun p (winterp answer p s).2 (winterp answer p s).1.
Proof.
  revert s. induction p as [o|c k IH]; intros s; cbn; [constructor|]. destruct (answer c s) as [x s'].
  specialize (IH x s'). destruct (winterp answer (k x) s') as [o t]. by constructor.
Qed.

Lemma wrun_inv {A} (p : wire P A) t o : wrun p t o ->
  match p with WRet o' => t = [] /\ o = o' | WOp c k => exists x t', t = wev c x :: t' /\ wrun (k x) t' o end.
Proof. intros [o'|c k x t' o' Hr]; eauto. Qed.

Lemma wrun_bind_inv {A B} (p : wire P A) (k : A -> wire P B) t o : wrun (wbind p k) t o ->
  (exists a t1 t2, t = t1 ++ t2 /\ wrun p t1 (Ok a) /\ wrun (k a) t2 o) \/
  (exists e, o = Err e /\ wrun p t (Err e)) \/ (o = Panic /\ wrun p t Panic).
Proof.
  revert t. induction p as [[a|e|]|c f IH]; intros t Hr; cbn [wbind] in Hr.
  - left. exists a, [], t. split; [done|]. split; [constructor|done].
  - apply wrun_inv in Hr as [-> ->]. right; left. exists e. split; [done|constructor].
  - apply wrun_inv in Hr as [-> ->]. right; right. split; [done|constructor].
  - apply wrun_inv in Hr as (x & t' & -> & Hr). destruct (IH x t' Hr) as [(a & t1 & t2 & -> & H1 & H2)|[(e & -> & H1)|[-> H1]]].
    + left. exists a, (wev c x :: t1), t2. split; [done|]. split; [by constructor|done].
    + right; left. exists e. split; [done|by constructor].
    + right; right. split; [done|by constructor].
Qed.

Lemma wrun_attempt_inv {A} (p : wire P A) t o : wrun (wattempt p) t o ->
  match o with Ok (inl a) => wrun p t (Ok a) | Ok (inr e) => wrun p t (Err e) | Err _ => False | Panic => wrun p t Panic end.
Proof.
  revert t. induction p as [[a|e|]|c f IH]; intros t Hr; cbn [wattempt] in Hr; apply wrun_inv in Hr.
  1-3: destruct Hr as [-> ->]; constructor.
  destruct Hr as (x & t' & -> & Hr). specialize (IH x t' Hr). destruct o as [[a|e]|e|]; [by constructor..|done|by constructor].
Qed.

Lemma wrun_call_inv (m : RpcMethod P) t o : wrun (call m) t o ->
  exists x, t = [wev (Rpc m) x] /\ o = match x with inl v => Ok v | inr msg => Err (External msg) end.
Proof. intros (x & t' & -> & Hr)%wrun_inv. apply wrun_inv in Hr as [-> ->]. by exists x. Qed.
End runs.

(** ** Transactions on the wire *)
(** A question about a transaction, the answer that it is final, and an answer
    that makes the polling break off. *)
Definition asks {P} (h : CryptoHash) (e : wevent P) : bool :=
  match projT1 e with Rpc (MTxStatus h' _ TxNone) => h' =? h | _ => false end.
Definition reports_final {P} (h : CryptoHash) (e : wevent P) : bool :=
  match e with
  | existT c x =>
      match c return Reply c -> bool with
      | Rpc (MTxStatus h' _ _) => fun x => match x with inl (TxFinal, _) => h' =? h | _ => false end
      | _ => fun _ => false
      end x
  end.
Definition breaks_off {P} (e : wevent P) : bool :=
  match e with
  | existT c x =>
      match c return Reply c -> bool with
      | Rpc (MTxStatus _ _ TxNone) => fun x => match x with inr msg => negb (not_yet msg) | inl _ => false end
      | _ => fun _ => false
      end x
  end.
(** How a polling of [n] questions ends: with the report that the transaction is
    final, with an error, or because the questions are used up. *)
Definition polled {P} (h : CryptoHash) (n : nat) (t : list (wevent P)) : Prop :=
  (exists e, e ∈ t /\ reports_final h e = true) \/ (exists e, e ∈ t /\ breaks_off e = true) \/ length t = n.

Section spec.
Context {P : Type} `{!ToVec P}.
Context (public_key : AccountId -> string) (tx_hash : Transaction P -> CryptoHash).
Context (sign : AccountId -> CryptoHash -> string) (account : AccountId).
Abbreviation signed := (signed_tx public_key tx_hash sign).
Abbreviation step := (near_step public_key tx_hash sign account).
Abbreviation lowered := (lower public_key tx_hash sign account).

Definition broadcast_of (e : wevent P) : option (SignedTransaction P) :=
  match projT1 e with Rpc (MBroadcast stx) => Some stx | _ => None end.
Definition broadcasts (t : list (wevent P)) : list (SignedTransaction P) := omap broadcast_of t.

Definition bcast (stx : SignedTransaction P) (x : CryptoHash + string) : wevent P := wev (Rpc (MBroadcast stx)) x.
Definition key_event (signer : AccountId) (nonce : N) : wevent P :=
  wev (Rpc (MQuery (ViewAccessKey signer (public_key signer)))) (inl (KAccessKey nonce)).
Definition block_event (block_hash : CryptoHash) : wevent P := wev (Rpc MBlock) (inl block_hash).

(** A transaction that was sent: the nonce of the key and the last final block,
    then the broadcast of the signed transaction with the next nonce. *)
Definition sent_with (signer receiver : AccountId) (acts : list (Action P)) (answer : CryptoHash + string)
    (t : list (wevent P)) : Prop :=
  exists nonce block_hash, nonce < U64_MAX /\
    t = [key_event signer nonce; block_event block_hash;
         bcast (signed signer receiver acts (nonce + 1) block_hash) answer].

(** What the client did for one send, by its answer. *)
Definition serves_send (signer receiver : AccountId) (acts : list (Action P)) (x : TxId + anyhow)
    (t : list (wevent P)) : Prop :=
  match x with
  | inl h => sent_with signer receiver acts (inl h) t
  | inr _ => broadcasts t = [] \/ exists msg, sent_with signer receiver acts (inr msg) t
  end.
Definition poll_of (h : CryptoHash) (e : wevent P) : Prop := projT1 e = Rpc (MTxStatus h account TxNone).

(** What the client did for a request. *)
Definition serves (e : event P) (t : list (wevent P)) : Prop :=
  match e with
  | existT r x =>
      match r return Resp P r -> Prop with
      | RExec s rc m a d => fun x => serves_send s rc [FunctionCall m (to_vec a) GAS_300_TERA d] x t
      | RTransfer s rc n => fun x => serves_send s rc [Transfer n] x t
      | RWait h => fun _ => Forall (poll_of h) t /\ polled h MAX_ATTEMPTS t
      | _ => fun _ => broadcasts t = []
      end x
  end.

Inductive carried : list (event P) -> list (wevent P) -> Prop :=
| carried_nil : carried [] []
| carried_cons e t l rt : serves e t -> carried l rt -> carried (e :: l) (t ++ rt).

(** The last nonce of a key. *)
Definition nonce_exhausted (rt : list (wevent P)) : Prop :=
  exists signer nonce block_hash, U64_MAX <= nonce /\ suffix [key_event signer nonce; block_event block_hash] rt.

Lemma call_kind_inv {A} (m : RpcMethod P) (k : RpcResponse m -> wire P A) t o : wrun (wbind (call m) k) t o ->
  (exists v t', t = wev (Rpc m) (inl v) :: t' /\ wrun (k v) t' o) \/
  (exists msg, t = [wev (Rpc m) (inr msg)] /\ o = Err (External msg)).
Proof.
  intros [(a & t1 & t2 & -> & H1 & H2)|[(e & -> & H1)|[-> H1]]]%wrun_bind_inv;
    apply wrun_call_inv in H1 as ([v|msg] & -> & Ho); simplify_eq; [left|right]; eauto.
Qed.

Lemma access_key_inv signer t o : wrun (near_get_access_key_info public_key signer) t o ->
  o <> Panic /\ broadcasts t = [] /\ forall n, o = Ok n -> t = [key_event signer n].
Proof.
  intros [(v & t' & -> & Hr)|(msg & -> & ->)]%call_kind_inv; [|split; [done|split; [done|done]]].
  apply wrun_inv in Hr as [-> ->]. destruct v; (split; [done|]; split; [done|]; intros n [=]; by subst).
Qed.

Lemma send_tx_inv signer receiver acts t o : wrun (near_send_tx public_key tx_hash sign signer receiver acts) t o ->
  match o with
  | Ok h => serves_send signer receiver acts (inl h) t
  | Err e => serves_send signer receiver acts (inr e) t
  | Panic => nonce_exhausted t
  end.
Proof.
  intros [(n & t1 & t2 & -> & H1 & Hr)|[(e & -> & H1)|[-> H1]]]%wrun_bind_inv;
    apply access_key_inv in H1 as (Hp & Hb & Hk); [|by left|done].
  apply call_kind_inv in Hr as [(bh & t' & -> & Hr)|(msg & -> & ->)];
    [|left; unfold broadcasts in *; by rewrite omap_app, Hb].
  rewrite (Hk n eq_refl). destruct (N.ltb_spec n U64_MAX) as [Hlt|Hge]; cbn [expect wbind] in Hr.
  - destruct (wrun_call_inv (MBroadcast (signed signer receiver acts (n + 1) bh)) _ _ Hr) as ([h|msg] & -> & ->);
      [|right; exists msg]; by exists n, bh.
  - apply wrun_inv in Hr as [-> ->]. exists signer, n, bh. split; [done|]. by exists [].
Qed.

(** Programs that broadcast nothing and do not panic. *)
Definition quiet {A} (p : wire P A) : Prop := forall t o, wrun p t o -> broadcasts t = [] /\ o <> Panic.

Lemma quiet_call {A} (m : RpcMethod P) (k : RpcResponse m -> outcome anyhow A) :
  broadcast_of (wev (Rpc m) (inr EmptyString)) = None -> (forall v, k v <> Panic) ->
  quiet (wbind (call m) (fun v => WRet (k v))).
Proof.
  intros Hm Hk t o [(v & t' & -> & Hr)|(msg & -> & ->)]%call_kind_inv; unfold broadcasts; cbn.
  - apply wrun_inv in Hr as [-> ->]. unfold broadcast_of in *; cbn in *. by rewrite Hm.
  - unfold broadcast_of in *; cbn in *. by rewrite Hm.
Qed.

Lemma quiet_map {A B} (p : wire P A) (f : A -> B) : quiet p -> quiet (wbind p (fun a => WRet (Ok (f a)))).
Proof.
  intros Hp t o [(a & t1 & t2 & -> & H1 & H2)|[(e & -> & H1)|[-> H1]]]%wrun_bind_inv; apply Hp in H1 as [Hb Ho]; [|done..].
  apply wrun_inv in H2 as [-> ->]. by rewrite app_nil_r.
Qed.

Lemma poll_run n h t o : wrun (near_poll account h n) t o -> Forall (poll_of h) t /\ polled h n t /\ o <> Panic.
Proof.
  revert t. induction n as [|n IH]; intros t Hr; cbn [near_poll] in Hr; apply wrun_inv in Hr.
  - destruct Hr as [-> ->]. split; [constructor|]. split; [by right; right|done].
  - destruct Hr as (x & t' & -> & Hr). set (e := wev (Rpc (MTxStatus h account TxNone)) x).
    assert (Hrec : wrun (near_poll account h n) t' o \/
      (t' = [] /\ o <> Panic /\ (reports_final h e = true \/ breaks_off e = true))).
    { destruct x as [[status out]|msg].
      - destruct status; cbn [is_final] in Hr; try (by left). destruct (outcome_status <$> out) as [[]|]; try (by left);
          apply wrun_inv in Hr as [-> ->]; right; (split; [done|]; split; [done|]; left; apply N.eqb_refl).
      - destruct (not_yet msg) eqn:Em; [by left|]. apply wrun_inv in Hr as [-> ->]. right. split; [done|]. split; [done|].
        right. cbn. by rewrite Em. }
    destruct Hrec as [Hrec|(-> & Ho & He)].
    + apply IH in Hrec as (Hf & Hp & Ho). split; [by constructor|]. split; [|done].
      destruct Hp as [(e' & Hin & He')|[(e' & Hin & He')|Hl]]; [left|right; left|right; right; cbn [length]; by rewrite Hl];
        (exists e'; split; [by right|done]).
    + split; [by repeat constructor|]. split; [|done]. destruct He; [left|right; left]; (exists e; split; [by left|done]).
Qed.

Lemma attempt_quiet {A} (p : wire P A) t o : quiet p -> wrun (wattempt p) t o ->
  broadcasts t = [] /\ exists x, o = Ok x.
Proof.
  intros Hp Hr%wrun_attempt_inv. destruct o as [[a|e]|e|]; [| |done|]; apply Hp in Hr as [Hb Ho]; by eauto.
Qed.

Lemma wait_run h t o : wrun (near_wait_for_success account h) t o ->
  (Forall (poll_of h) t /\ polled h MAX_ATTEMPTS t) /\ o <> Panic.
Proof.
  unfold near_wait_for_success. generalize MAX_ATTEMPTS. intros n Hr. by apply poll_run in Hr as (Hf & Hp & Ho).
Qed.
Lemma gas_price_quiet : quiet (near_get_gas_price (P:=P)).
Proof. by apply quiet_call. Qed.
Lemma executed_quiet h : quiet (let@ o := near_wait_for_executed (P:=P) account h in WRet (Ok (outcome_hash o))).
Proof. apply quiet_map, quiet_call; [done|by intros [? []]]. Qed.

Lemma step_serves r t o : wrun (step r) t o ->
  match o with Ok x => serves (ev r x) t | Err _ => False | Panic => nonce_exhausted t end.
Proof.
  destruct r; cbn [near_step]; intros Hr;
    try (apply wrun_inv in Hr as (x & t' & -> & Hr); apply wrun_inv in Hr as [-> ->]; reflexivity).
  - apply attempt_quiet in Hr as [Hb [x ->]]; [exact Hb|]. apply quiet_call; [done|by intros []].
  - apply wrun_attempt_inv in Hr. destruct o as [[h|e]|e|]; [| |done|]; by apply send_tx_inv in Hr.
  - apply wrun_attempt_inv in Hr. destruct o as [[h|e]|e|]; [| |done|]; by apply send_tx_inv in Hr.
  - apply wrun_attempt_inv in Hr. destruct o as [[h|e]|e|]; [| |done|]; apply wait_run in Hr as [Hs Ho]; [exact Hs|exact Hs|done].
  - apply attempt_quiet in Hr as [Hb [x ->]]; [exact Hb|apply executed_quiet].
  - apply attempt_quiet in Hr as [Hb [x ->]]; [exact Hb|]. apply quiet_call; [done|by intros []].
  - apply attempt_quiet in Hr as [Hb [x ->]]; [exact Hb|apply gas_price_quiet].
Qed.

Lemma lower_carried {A} (p : prog P A) rt o : wrun (lowered p) rt o ->
  (exists l, run p l o /\ carried l rt) \/ (o = Panic /\ nonce_exhausted rt).
Proof.
  revert rt. induction p as [o'|r k IH]; intros rt Hr; cbn [lower] in Hr.
  - apply wrun_inv in Hr as [-> ->]. left. exists []. split; constructor.
  - apply wrun_bind_inv in Hr as [(x & t1 & t2 & -> & H1 & H2)|[(e & -> & H1)|[-> H1]]]; apply step_serves in H1; [|done|by right].
    destruct (IH x t2 H2) as [(l & Hl & Hc)|[-> (s & n & bh & Hn & Hs)]].
    + left. exists (ev r x :: l). split; by constructor.
    + right. split; [done|]. exists s, n, bh. split; [done|]. by apply suffix_app_r.
Qed.
End spec.

(** The loop over the wire is the loop of [Rpc], on the answers it got. *)
Definition poll_answer {P} (e : wevent P) : option ((TxExecutionStatus * option (FinalExecutionStatus P)) + string) :=
  match e with
  | existT c x =>
      match c return Reply c -> option ((TxExecutionStatus * option (FinalExecutionStatus P)) + string) with
      | Rpc (MTxStatus _ _ _) => fun x =>
          Some (match x with inl (status, out) => inl (status, outcome_status <$> out) | inr msg => inr msg end)
      | _ => fun _ => None
      end x
  end.
Lemma poll_is_poll {P} account h n : forall k (answers : nat -> _) (t : list (wevent P)) o,
  wrun (near_poll account h n) t o -> (forall i e, t !! i = Some e -> poll_answer e = Some (answers (k + i)%nat)) ->
  o = poll answers k n.
Proof.
  induction n as [|n IH]; intros k answers t o Hr Ha; cbn [near_poll poll] in *; apply wrun_inv in Hr; [by destruct Hr|].
  destruct Hr as (x & t' & -> & Hr). pose proof (Ha O _ eq_refl) as H0. rewrite Nat.add_0_r in H0. cbn in H0.
  apply (inj Some) in H0. rewrite <- H0.
  assert (Hrec : wrun (near_poll account h n) t' o -> o = poll answers (S k) n).
  { intros Hn. apply (IH _ _ t'); [done|]. intros i e Hi. specialize (Ha (S i) e Hi). by rewrite Nat.add_succ_r in Ha. }
  destruct x as [[status out]|msg].
  - destruct (is_final status); [|by apply Hrec]. destruct (outcome_status <$> out) as [[]|]; try (by apply Hrec);
      by apply wrun_inv in Hr as [-> ->].
  - destruct (not_yet msg); [by apply Hrec|]. by apply wrun_inv in Hr as [-> ->].
Qed.

(** * Waiting between transactions *)
Section waited.
Context {P : Type}.

(** The handle a send was answered with. *)
Definition sent_as (e : event P) : option TxId :=
  match e with
  | existT r x =>
      match r return Resp P r -> option TxId with
      | RExec _ _ _ _ _ | RTransfer _ _ _ => fun x => match x with inl h => Some h | inr _ => None end
      | _ => fun _ => None
      end x
  end.

(** Every transaction is waited for at once. *)
Inductive waited : list (event P) -> Prop :=
| waited_nil : waited []
| waited_other e t : sent_as e = None -> waited t -> waited (e :: t)
| waited_sent e h y t : sent_as e = Some h -> waited t -> waited (e :: ev (RWait h) y :: t).

#[export] Instance waited_composable : Composable waited.
Proof.
  split; [constructor|]. intros t t' Ht Ht'. induction Ht; cbn; [done|by constructor|by eapply waited_sent].
Qed.

Lemma keeps_unsent {A} r (f : Resp P r -> outcome anyhow A) :
  (forall x, sent_as (ev r x) = None) -> keeps (Op r (fun x => Ret (f x))) waited.
Proof. intros H. apply keeps_call. intros x. constructor; [apply H|constructor]. Qed.

Definition wait_first {A} (h : TxId) (p : prog P A) : Prop :=
  wp p (fun t _ => exists y t', t = ev (RWait h) y :: t' /\ waited t').
Lemma wait_first_op {A} h (f : Resp P (RWait h) -> prog P A) :
  (forall x, keeps (f x) waited) -> wait_first h (Op (RWait h) f).
Proof. intros Hf. apply wp_op. intros y. eapply wp_mono; [apply Hf|]. eauto. Qed.
Lemma keeps_answer {A B} (x : A + anyhow) (k : A -> prog P B) :
  (forall a, keeps (k a) waited) -> keeps (bind (Ret (of_answer x)) k) waited.
Proof. intros Hk. destruct x; cbn; [apply Hk|apply keeps_ret, _]. Qed.
(** A send whose continuation begins by waiting. *)
Lemma keeps_op_wait {A} r (f : Resp P r -> prog P A) :
  (forall x, match sent_as (ev r x) with
             | None => keeps (f x) waited
             | Some h => wait_first h (f x)
             end) -> keeps (Op r f) waited.
Proof.
  intros H. apply wp_op. intros x. specialize (H x). destruct (sent_as (ev r x)) as [h|] eqn:E.
  - eapply wp_mono; [exact H|]. intros t o (y & t' & -> & Ht). by eapply waited_sent.
  - eapply wp_mono; [exact H|]. intros t o Ht. by constructor.
Qed.
Lemma exec_wait {A} w receiver method args d (k : FinalExecutionStatus P -> prog P A) :
  (forall v, keeps (k v) waited) ->
  keeps (bind (exec_contract (P:=P) w receiver method args d) (fun tx => bind (wait_for_success tx) k)) waited.
Proof.
  intros Hk. apply keeps_op_wait. intros [h|e]; cbn.
  - apply wait_first_op. intros x. by apply keeps_answer.
  - apply keeps_ret, _.
Qed.
Lemma transfer_wait {A} w receiver n (k : FinalExecutionStatus P -> prog P A) :
  (forall v, keeps (k v) waited) ->
  keeps (bind (transfer_native_token (P:=P) w receiver n) (fun tx => bind (wait_for_success tx) k)) waited.
Proof.
  intros Hk. apply keeps_op_wait. intros [h|e]; cbn.
  - apply wait_first_op. intros x. by apply keeps_answer.
  - apply keeps_ret, _.
Qed.
(** The wait at the end of a block. *)
Lemma exec_wait_last w receiver method args d :
  keeps (bind (exec_contract (P:=P) w receiver method args d) (fun tx => wait_for_success tx)) waited.
Proof.
  apply keeps_op_wait. intros [h|e]; cbn; [|apply keeps_ret, _].
  apply wait_first_op. intros x. apply keeps_ret, _.
Qed.
End waited.

Ltac waits :=
  repeat first
    [ progress cbv beta
    | apply exec_wait; intros ?
    | apply transfer_wait; intros ?
    | apply exec_wait_last
    | keeps_step ltac:(by apply keeps_unsent; intros ?) ].

Lemma start_waited {P} `{!FromSlice P (gmap TokenAccount N)} `{!FromSlice P N} is_mainnet w cfg inputs token required :
  keeps (start (P:=P) is_mainnet w cfg inputs token required) waited.
Proof.
  unfold start, balance_of_start_token, get_deposits, refill, wrap_up_to, harvest, pay_excess,
    is_time_to_harvest, update_last_harvest, harvest_account, wnear_balance_of, wrap, deposit, withdraw.
  waits.
Qed.

Section programs.
Context {P D : Type} `{BigDecimal D} `{!Rows P D}.
Context `{!FromSlice P (option StorageBalance)} `{!FromSlice P (gmap TokenAccount N)}.
Context `{!FromSlice P StorageBalanceBounds} `{!FromSlice P TokenMetadata}.
Context (is_mainnet : bool) (w : Wallet).

Lemma chunks_waited cs ok_count fail_count :
  keeps (unregister_chunks (P:=P) is_mainnet w cs ok_count fail_count) waited.
Proof.
  revert ok_count fail_count. induction cs as [|c cs IH]; intros ok_count fail_count; cbn [unregister_chunks]; [apply keeps_ret, _|].
  apply keeps_bind; [apply _| |intros []; apply IH]. apply keeps_attempt. unfold unregister_tokens. waits.
Qed.

Lemma ensure_waited needed keep cap :
  keeps (ensure_ref_storage_setup (P:=P) is_mainnet w needed keep cap) waited.
Proof.
  unfold ensure_ref_storage_setup. destruct (_ <? _); [apply keeps_ret, _|].
  apply keeps_with_lock; [apply _|by repeat constructor..|].
  unfold initial_registration, plan_and_execute, handle_initial_register, handle_normal_plan, unregister_stale, top_up,
    balance_of, check_bounds, get_deposits, storage_deposit, register_tokens.
  waits; try apply chunks_waited.
Qed.

Lemma run_swap_wait {A} path arg (k : TxId * N -> prog P A) :
  (forall h out, wait_first h (k (h, out))) -> keeps (bind (run_swap D (P:=P) is_mainnet w path arg) k) waited.
Proof.
  intros Hk. unfold run_swap. destruct (dex_result _) as [r|e|]; cbn; [|apply keeps_ret, _..].
  apply keeps_op_wait. intros [h|e]; cbn; [apply Hk|apply keeps_ret, _].
Qed.

Lemma direct_swap_waited `{PathFinder} show_tx cfg params :
  keeps (execute_direct_swap (P:=P) (D:=D) show_tx is_mainnet w cfg params) waited.
Proof.
  unfold execute_direct_swap. apply keeps_bind; [apply _| |intros balance].
  { unfold source_balance, read_inputs, get_deposits. destruct (String.eqb _ _); [|waits].
    apply keeps_bind; [apply _|waits|intros ?; apply start_waited]. }
  destruct (balance =? 0); [apply keeps_ret, _|]. apply keeps_bind; [apply _| |intros pools].
  { unfold read_from_db, pool_get_latest, get_all_unique_between, fetch, query. waits. }
  do 2 (apply keeps_bind; [apply _|apply keeps_ret, _|intros ?]). apply keeps_bind; [apply _| |intros _].
  { unfold setup_storage. apply keeps_bind; [apply _|apply keeps_ret, _|intros ?]. apply ensure_waited. }
  unfold swap_and_record. do 2 (apply keeps_bind; [apply _|apply keeps_ret, _|intros ?]).
  apply run_swap_wait. intros h out. apply wait_first_op. intros [v|e]; cbn; [|apply keeps_ret, _].
  unfold get_token_decimals_cached, get_token_decimals, get_token_metadata, record_trade. waits.
Qed.

Lemma single_loop_waited {G} `{Petgraph G} `{HashOrder} cfg :
  keeps (single_loop (P:=P) (G:=G) (D:=D) is_mainnet w cfg) waited.
Proof.
  unfold single_loop, read_inputs. apply keeps_bind; [apply _|waits|intros inputs].
  apply keeps_bind; [apply _|apply start_waited|intros balance]. apply keeps_bind; [apply _| |intros pools].
  { unfold read_from_db, pool_get_latest, get_all_unique_between, fetch, query. waits. }
  apply keeps_bind; [apply _|apply keeps_ret, _|intros tg]. apply keeps_bind; [apply _|unfold get_gas_price; waits|intros gas].
  apply keeps_bind; [apply _|waits|intros inputs']. apply keeps_bind; [apply _|apply keeps_ret, _|intros [previews|]];
    [|apply keeps_ret, _]. unfold execute_previews. do 2 (apply keeps_bind; [apply _|apply keeps_ret, _|intros ?]).
  apply keeps_bind; [apply _|apply ensure_waited|intros _]. induction (_.1) as [|[preview path] l IH]; cbn [swap_in_turn];
    [apply keeps_ret, _|]. apply keeps_bind; [apply _| |intros []; [apply keeps_ret, _|apply IH]].
  apply keeps_attempt. unfold swap_each. apply run_swap_wait. intros h out. apply wait_first_op. intros x.
  apply keeps_answer. intros _. apply keeps_ret, _.
Qed.
End programs.

(** * Nonces *)
Section nonces.
Context {P : Type} `{!ToVec P}.
Context (public_key : AccountId -> string) (tx_hash : Transaction P -> CryptoHash).
Context (sign : AccountId -> CryptoHash -> string) (account : AccountId).
Abbreviation serves := (serves public_key tx_hash sign account).
Abbreviation carried := (carried public_key tx_hash sign account).
Abbreviation key_event := (key_event (P:=P) public_key).

(** A node that reported a transaction as final reports nonces of its key from
    that of the transaction on. *)
Definition final_nonces (rt : list (wevent P)) : Prop := forall i j k stx h n e,
  (i < j < k)%nat -> rt !! i = Some (bcast stx (inl h)) -> rt !! j = Some e -> reports_final h e = true ->
  rt !! k = Some (key_event (signer_id (transaction stx)) n) -> tx_nonce (transaction stx) <= n.

(** Every broadcast was answered with a hash. *)
Definition all_answered (rt : list (wevent P)) : Prop :=
  forall i stx x, rt !! i = Some (bcast stx x) -> exists h, x = inl h.
(** No polling broke off on an error or used up its questions. *)
Definition never_gave_up (rt : list (wevent P)) : Prop :=
  (forall e, e ∈ rt -> breaks_off e = false) /\
  forall h, (length (List.filter (asks h) rt) < MAX_ATTEMPTS)%nat.

Lemma never_gave_up_app t rt : never_gave_up (t ++ rt) -> never_gave_up rt.
Proof.
  intros [Hb Hn]. split; [intros e He; apply Hb; apply elem_of_app; by right|].
  intros h. specialize (Hn h). rewrite List.filter_app, length_app in Hn. lia.
Qed.

(** Then it ended with the report that the transaction is final. *)
Lemma polled_final h t rt : Forall (poll_of account h) t -> polled h MAX_ATTEMPTS t -> never_gave_up (t ++ rt) ->
  exists j e, t !! j = Some e /\ reports_final h e = true.
Proof.
  intros Hf [(e & Hin & He)|[(e & Hin & He)|Hl]] [Hb Hn].
  - apply list_elem_of_lookup in Hin as [j Hj]. by exists j, e.
  - rewrite Hb in He; [done|]. apply elem_of_app. by left.
  - exfalso. specialize (Hn h). rewrite List.filter_app, length_app in Hn.
    enough (Ha : length (List.filter (asks h) t) = length t) by lia.
    clear -Hf. induction Hf as [|e t He Hf IH]; [done|]. cbn [List.filter].
    assert (Hh : asks h e = true) by (unfold asks; rewrite He; apply N.eqb_refl). rewrite Hh. cbn [length]. by rewrite IH.
Qed.

Lemma lookup_app_add {A} (l1 l2 : list A) i : (l1 ++ l2) !! (length l1 + i)%nat = l2 !! i.
Proof. rewrite lookup_app_r by lia. f_equal. lia. Qed.
(** The transaction and the answer of a broadcast. *)
Definition broadcast_answer (e : wevent P) : option (SignedTransaction P * (CryptoHash + string)) :=
  match e with
  | existT c x =>
      match c return Reply c -> option (SignedTransaction P * (CryptoHash + string)) with
      | Rpc (MBroadcast stx) => fun x => Some (stx, x)
      | _ => fun _ => None
      end x
  end.
Lemma bcast_inj stx x stx' x' : bcast (P:=P) stx x = bcast stx' x' -> stx = stx' /\ x = x'.
Proof. intros E. apply (f_equal broadcast_answer) in E. by injection E as -> ->. Qed.

Lemma no_bcast t i stx x : broadcasts t = [] -> t !! i <> Some (bcast (P:=P) stx x).
Proof.
  intros Hb Hi. assert (Hin : stx ∈ broadcasts t); [|rewrite Hb in Hin; by apply elem_of_nil in Hin].
  apply list_elem_of_omap. exists (bcast stx x). split; [by eapply list_elem_of_lookup_2|done].
Qed.
Lemma polls_quiet h t : Forall (poll_of account h) t -> broadcasts (P:=P) t = [].
Proof.
  induction 1 as [|e t He Ht IH]; [done|]. unfold broadcasts in *; cbn [omap list_omap]. unfold broadcast_of at 1.
  unfold poll_of in He. by rewrite He.
Qed.

(** The part of the wire that serves a request: nothing is broadcast, or the
    nonce, the block and the transaction. *)
Lemma serves_cases e t : serves e t ->
  (broadcasts t = [] /\ sent_as e = None) \/
  exists s rc acts x n bh, n < U64_MAX /\
    t = [key_event s n; block_event bh; bcast (signed_tx public_key tx_hash sign s rc acts (n + 1) bh) x] /\
    forall h, x = inl h -> sent_as e = Some h.
Proof.
  destruct e as [r x]; destruct r; cbn; intros Hs; try (left; by split).
  3: { left. destruct Hs as [Hf _]. split; [by eapply polls_quiet|done]. }
  all: destruct x as [h|e]; [destruct Hs as (n & bh & Hn & ->)|destruct Hs as [Hb|(msg & n & bh & Hn & ->)]; [by left|]];
    right; do 6 eexists; (split; [exact Hn|]; split; [reflexivity|]; by intros ? [= ->]).
Qed.

Lemma carried_bcast l rt i stx x : carried l rt -> rt !! i = Some (bcast stx x) ->
  exists k n bh, i = S (S k) /\ rt !! k = Some (key_event (signer_id (transaction stx)) n) /\
    rt !! S k = Some (block_event bh) /\ tx_nonce (transaction stx) = n + 1.
Proof.
  intros Hc. revert i. induction Hc as [|e t l rt He Hc IH]; intros i Hi; [done|].
  apply lookup_app_Some in Hi as [Hi|[Hlen Hi]].
  - destruct (serves_cases e t He) as [[Hb _]|(s & rc & acts & y & n & bh & Hn & -> & _)]; [by apply no_bcast in Hi|].
    destruct i as [|[|[|i]]]; [done..| |done]. cbn in Hi. apply (inj Some), bcast_inj in Hi as [<- _]. by exists O, n, bh.
  - destruct (IH _ Hi) as (k & n & bh & Hk & Hkey & Hbh & Hn). exists (length t + k)%nat, n, bh. split; [lia|].
    rewrite <- Nat.add_succ_r, !lookup_app_add. done.
Qed.

(** Between a transaction and the next look at a key lies the report that the
    transaction is final. *)
Lemma carried_polled l : forall rt i k stx h s n, waited l -> carried l rt -> never_gave_up rt ->
  rt !! i = Some (bcast stx (inl h)) -> (i < k)%nat ->
  rt !! k = Some (key_event s n) -> exists j e, (i < j < k)%nat /\ rt !! j = Some e /\ reports_final h e = true.
Proof.
  intros rt i k stx h s n Hw. revert rt i k. induction Hw as [|e l He Hw IH|e h0 y l He Hw IH]; intros rt i k Hc Hg Hi Hlt Hk;
    inversion Hc as [|? t ? rt' Hs Hc']; subst; [done|..]; apply never_gave_up_app in Hg.
  - apply lookup_app_Some in Hi as [Hi|[Hlen Hi]].
    + destruct (serves_cases e t Hs) as [[Hb _]|(s' & rc & acts & z & m & bh & _ & -> & Hz)]; [by apply no_bcast in Hi|].
      destruct i as [|[|[|i]]]; [done..| |done]. cbn in Hi. apply (inj Some), bcast_inj in Hi as [_ ->]. specialize (Hz h eq_refl). congruence.
    + rewrite lookup_app_r in Hk by lia. destruct (IH rt' (i - length t)%nat (k - length t)%nat Hc' Hg Hi ltac:(lia) Hk) as (j & e' & Hj & He' & Ha).
      exists (length t + j)%nat, e'. split; [lia|]. by rewrite lookup_app_add.
  - inversion Hc' as [|? t2 ? rt2 Hs2 Hc2]; subst. destruct Hs2 as [Hf Hp].
    apply lookup_app_Some in Hi as [Hi|[Hlen Hi]].
    + destruct (serves_cases e t Hs) as [[Hb _]|(s' & rc & acts & z & m & bh & _ & -> & Hz)]; [by apply no_bcast in Hi|].
      destruct i as [|[|[|i]]]; [done..| |done]. cbn in Hi. apply (inj Some), bcast_inj in Hi as [_ ->]. specialize (Hz h eq_refl).
      rewrite He in Hz. injection Hz as ->. destruct (polled_final h t2 rt2 Hf Hp Hg) as (j & q & Hj & Hq).
      exists (3 + j)%nat, q. split; [|split; [|done]].
      * split; [lia|]. destruct (Nat.lt_ge_cases (3 + j) k) as [|Hge]; [done|exfalso].
        destruct k as [|[|[|k]]]; [lia..|]. change ((t2 ++ rt2) !! k = Some (key_event s n)) in Hk.
        assert (Hkj : (k < length t2)%nat) by (apply lookup_lt_Some in Hj; lia). rewrite lookup_app_l in Hk by done.
        rewrite Forall_lookup in Hf. specialize (Hf _ _ Hk). discriminate Hf.
      * change ((t2 ++ rt2) !! j = Some q). rewrite lookup_app_l; [done|]. by eapply lookup_lt_Some.
    + apply lookup_app_Some in Hi as [Hi|[Hlen2 Hi]]; [by apply polls_quiet in Hf; apply no_bcast in Hi|].
      rewrite lookup_app_r in Hk by lia. rewrite lookup_app_r in Hk by lia. apply never_gave_up_app in Hg.
      destruct (IH rt2 _ (k - length t - length t2)%nat Hc2 Hg Hi ltac:(lia) Hk) as (j & e' & Hj & He' & Ha).
      exists (length t + (length t2 + j))%nat, e'. split; [lia|]. by rewrite !lookup_app_add.
Qed.

Lemma carried_nonces l rt i j stx1 x1 stx2 x2 : waited l -> carried l rt -> final_nonces rt -> all_answered rt ->
  never_gave_up rt -> (i < j)%nat ->
  rt !! i = Some (bcast stx1 x1) -> rt !! j = Some (bcast stx2 x2) ->
  signer_id (transaction stx1) = signer_id (transaction stx2) -> tx_nonce (transaction stx1) < tx_nonce (transaction stx2).
Proof.
  intros Hw Hc Hf Ha Hg Hij Hi Hj Hs. destruct (Ha _ _ _ Hi) as [h ->].
  destruct (carried_bcast _ _ _ _ _ Hc Hj) as (k & n & bh & -> & Hk & Hbh & ->).
  assert (Hik : (i < k)%nat).
  { assert (i <> k) by (intros ->; by rewrite Hi in Hk). assert (i <> S k) by (intros ->; by rewrite Hi in Hbh). lia. }
  destruct (carried_polled _ _ _ _ _ _ _ _ Hw Hc Hg Hi Hik Hk) as (q & e & Hq & He & Hfin).
  rewrite <- Hs in Hk. specialize (Hf _ _ _ _ _ _ _ Hq Hi He Hfin Hk). lia.
Qed.
End nonces.

Section theorems.
Context (P D : Type) `{!ToVec P}.
Context (public_key : AccountId -> string) (tx_hash : Transaction P -> CryptoHash).
Context (sign : AccountId -> CryptoHash -> string) (account : AccountId).

(** C13: The client adds nothing to a program and loses nothing of it: whatever the
    node answers, a run of any program over JSON-RPC is a run of the program as the
    other files state it, with the same outcome, so what holds of all runs there
    holds here.  In it every call or transfer is served by reading the nonce of the
    key and the last final block and broadcasting once the transaction with that
    call (300 Tgas, the given deposit), the next nonce and the signature of the
    signer, or fails; nothing else is broadcast.  Only a key whose nonces are used
    up ends in a panic. *)
Theorem client_carries_requests A (p : prog P A) rt o : wrun (lower public_key tx_hash sign account p) rt o ->
  (exists l, run p l o /\ carried public_key tx_hash sign account l rt) \/ (o = Panic /\ nonce_exhausted public_key rt).
Proof. apply lower_carried. Qed.

Context (G : Type) `{BigDecimal D} `{!Rows P D} `{Petgraph G} `{HashOrder} `{PathFinder}.
Context `{!FromSlice P (option StorageBalance)} `{!FromSlice P (gmap TokenAccount N)}.
Context `{!FromSlice P StorageBalanceBounds} `{!FromSlice P TokenMetadata}.
Context (is_mainnet : bool) (w : Wallet) (cfg : TradeConfig) (show_tx : TxId -> string).

(** A direct swap, with its funding and storage, or a round of arbitrage. *)
Definition trading_session (p : prog P unit) : Prop :=
  p = single_loop (G:=G) (D:=D) is_mainnet w cfg \/
  exists params, p = execute_direct_swap (D:=D) show_tx is_mainnet w cfg params.

(** C12: Transactions of a trading session do not collide: against a node whose
    final view of a key is not behind the transactions it reported as final, when
    every broadcast is answered with a hash, no status question of the polling is
    answered with an error other than that the transaction is not known yet, and
    fewer questions are asked about a transaction than an attempt has (thirty), so
    that no polling times out or breaks off, any two transactions of a signer that
    a direct swap or a round of arbitrage broadcasts have different nonces, the
    later one the greater: the next nonce is read only after the transaction before
    was reported as final. *)
Theorem trading_nonces_increase p rt o i j stx1 x1 stx2 x2 : trading_session p ->
  wrun (lower public_key tx_hash sign account p) rt o -> ~ nonce_exhausted public_key rt ->
  final_nonces public_key rt -> all_answered rt -> never_gave_up rt -> (i < j)%nat ->
  rt !! i = Some (bcast stx1 x1) -> rt !! j = Some (bcast stx2 x2) ->
  signer_id (transaction stx1) = signer_id (transaction stx2) -> tx_nonce (transaction stx1) < tx_nonce (transaction stx2).
Proof.
  intros Hp Hr Hn Hf Ha Hg Hij Hi Hj Hs.
  assert (Hk : keeps p waited) by (destruct Hp as [->|[params ->]]; [apply single_loop_waited|apply direct_swap_waited]).
  destruct (lower_carried public_key tx_hash sign account p rt o Hr) as [(l & Hl & Hcar)|[_ Hx]]; [|done].
  eapply carried_nonces; eauto.
Qed.
End theorems.

(** ** A node that finalises what it is sent *)
#[local] Instance opaque_args : ToVec cell := fun _ => CNothing.

(** The nonce of the key, and whether the last transaction was polled before. *)
Definition node_view (method : string) : cell :=
  if String.eqb method "get_deposits" then CDeposits {[ "usdt" := 0; "wrap.near" := 5 ]} else desk_view method.
Definition node_answer (c : Call cell) (s : N * bool) : Reply c * (N * bool) :=
  match c return Reply c * (N * bool) with
  | Rpc m =>
      match m return (RpcResponse m + string) * (N * bool) with
      | MBlock => (inl 77, s)
      | MGasPrice => (inl (10 ^ 8), s)
      | MQuery (ViewAccount _) => (inl (KViewAccount (10 ^ 25)), s)
      | MQuery (ViewAccessKey _ _) => (inl (KAccessKey s.1), s)
      | MQuery (CallFunction _ method _) => (inl (KCallResult (node_view method)), s)
      | MTxStatus _ _ _ =>
          if s.2 then (inl (TxFinal, Some (mkOutcome "hash" (SuccessValue (CAmount 1990)))), s)
          else (inr "UNKNOWN_TRANSACTION", (s.1, true))
      | MBroadcast _ => (inl (s.1 + 1), (s.1 + 1, false))
      end
  | Host r => ((desk_answer r tt).1, s)
  end.
Definition node_params : SwapParams := mkSwapParams "wrap.near" "usdt" (Some 400) "eval_1" Unprotected.
Definition node_swap := winterp node_answer
  (lower (fun s => s) (fun _ => 0) (fun s _ => s) "me.near"
     (execute_direct_swap (D:=Q) (fun _ => "tx") true desk_wallet desk_config node_params)) (41, false).
Definition node_broadcasts : list (string * N) :=
  (fun stx => (match actions (transaction stx) with [FunctionCall m _ _ _] => m | _ => "" end, tx_nonce (transaction stx)))
    <$> broadcasts node_swap.2.

Example node_swap_run :
  node_swap.1 = Ok tt /\ node_broadcasts = [("near_deposit", 42); ("ft_transfer_call", 43); ("swap", 44)].
Proof. by vm_compute. Qed.

(** Deciding the two conditions on a given run. *)
Definition key_answer {P} (e : wevent P) : option (AccountId * N) :=
  match e with
  | existT c x =>
      match c return Reply c -> option (AccountId * N) with
      | Rpc (MQuery (ViewAccessKey s _)) => fun x => match x with inl (KAccessKey n) => Some (s, n) | _ => None end
      | _ => fun _ => None
      end x
  end.
Definition below (n : nat) (f : nat -> bool) : bool := forallb f (seq 0 n).
Lemma below_true n f i : below n f = true -> (i < n)%nat -> f i = true.
Proof. unfold below. rewrite forallb_forall. intros Hf Hi. apply Hf, in_seq. lia. Qed.

Section decide.
Context {P : Type} (rt : list (wevent P)).
Definition triples (f : nat -> wevent P -> SignedTransaction P -> CryptoHash -> nat -> AccountId -> N -> bool) : bool :=
  below (length rt) (fun k => below k (fun j => below j (fun i =>
    match rt !! i ≫= broadcast_answer, rt !! j, rt !! k ≫= key_answer with
    | Some (stx, inl h), Some e, Some (s, n) => f i e stx h k s n
    | _, _, _ => true
    end))).
Lemma triples_true public_key f i j k stx h e s n : triples f = true -> (i < j < k)%nat ->
  rt !! i = Some (bcast stx (inl h)) -> rt !! j = Some e -> rt !! k = Some (key_event public_key s n) -> f i e stx h k s n = true.
Proof.
  intros Ht [Hij Hjk] Hi Hj Hk. pose proof (lookup_lt_Some _ _ _ Hk) as Hlen.
  pose proof (below_true _ _ _ (below_true _ _ _ (below_true _ _ _ Ht Hlen) Hjk) Hij) as E. cbv beta in E.
  rewrite Hi, Hj, Hk in E. exact E.
Qed.
Lemma final_nonces_decide public_key :
  triples (fun _ e stx h _ s n => implb (reports_final h e && String.eqb s (signer_id (transaction stx)))
                                    (tx_nonce (transaction stx) <=? n)) = true -> final_nonces public_key rt.
Proof.
  intros Ht i j k stx h n e Hlt Hi Hj Hf Hk. pose proof (triples_true _ _ _ _ _ _ _ _ _ _ Ht Hlt Hi Hj Hk) as E.
  cbv beta in E. rewrite Hf, String.eqb_refl in E. by apply N.leb_le.
Qed.
Lemma all_answered_decide :
  forallb (fun e => match broadcast_answer e with Some (_, inr _) => false | _ => true end) rt = true -> all_answered rt.
Proof.
  intros Ha i stx x Hi. rewrite forallb_forall in Ha. apply list_elem_of_lookup_2, list_elem_of_In, Ha in Hi. cbn in Hi.
  destruct x as [h|]; [by exists h|done].
Qed.
Definition asked_hash (e : wevent P) : option CryptoHash :=
  match projT1 e with Rpc (MTxStatus h _ TxNone) => Some h | _ => None end.
Lemma never_gave_up_decide :
  forallb (fun e => negb (breaks_off e) && match asked_hash e with
    | Some h => (length (List.filter (asks h) rt) <? MAX_ATTEMPTS)%nat
    | None => true
    end) rt = true -> never_gave_up rt.
Proof.
  intros Ha. rewrite forallb_forall in Ha. split.
  - intros e He. apply list_elem_of_In, Ha, andb_prop in He as [He _]. by apply negb_true_iff.
  - intros h. destruct (List.filter (asks h) rt) as [|e l] eqn:E; [cbn; unfold MAX_ATTEMPTS; lia|].
    assert (Hin : In e (List.filter (asks h) rt)) by (rewrite E; by left). apply List.filter_In in Hin as [Hin He].
    assert (Hh : asked_hash e = Some h).
    { unfold asks in He. unfold asked_hash. destruct (projT1 e) as [[| | |h' ? []|]|]; try done. by apply N.eqb_eq in He as ->. }
    apply Ha, andb_prop in Hin as [_ Hin]. rewrite Hh, E in Hin. by apply Nat.ltb_lt.
Qed.
End decide.

Definition broadcast_at (i : nat) : option (SignedTransaction cell * (CryptoHash + string)) :=
  node_swap.2 !! i ≫= broadcast_answer.
Definition node_tx (i : nat) : SignedTransaction cell :=
  match broadcast_at i with Some (stx, _) => stx | None => mkSigned "" (mkTransaction "" "" 0 "" 0 []) end.
Lemma node_keys_left : ~ nonce_exhausted (fun s => s) node_swap.2.
Proof.
  intros (s & n & bh & _ & l & E). change (l ++ [?x; ?y]) with (l ++ ([x] ++ [y])) in E. rewrite app_assoc in E.
  apply (f_equal (fun t => projT1 <$> list.last t)) in E. rewrite last_snoc in E.
  assert (Hl : (projT1 <$> list.last node_swap.2) =
    Some (Host (RRecordTrade "tx" "wrap.near" 5 "usdt" 2 (Some 1990) "eval_1"))) by by vm_compute.
  discriminate (eq_trans (eq_sym Hl) E).
Qed.

Lemma client_carries_requests_witness :
  (exists l, run (execute_direct_swap (D:=Q) (fun _ => "tx") true desk_wallet desk_config node_params) l node_swap.1 /\
    carried (fun s => s) (fun _ => 0) (fun s _ => s) "me.near" l node_swap.2) \/
  (node_swap.1 = Panic /\ nonce_exhausted (fun s => s) node_swap.2).
Proof. apply (client_carries_requests cell). apply winterp_run. Defined.

Lemma trading_nonces_increase_witness : node_tx 5 <> node_tx 26 /\
  tx_nonce (transaction (node_tx 5)) < tx_nonce (transaction (node_tx 26)).
Proof.
  split; [by vm_compute|].
  refine (trading_nonces_increase cell Q (fun s => s) (fun _ => 0) (fun s _ => s) "me.near" ListGraph true desk_wallet
    desk_config (fun _ => "tx") _ node_swap.2 node_swap.1 5 26 (node_tx 5) (inl 42) (node_tx 26) (inl 44) _ _ _ _ _ _ _ _ _ _).
  - right. exists node_params. reflexivity.
  - apply winterp_run.
  - exact node_keys_left.
  - apply final_nonces_decide. vm_compute. reflexivity.
  - apply all_answered_decide. vm_compute. reflexivity.
  - apply never_gave_up_decide. vm_compute. reflexivity.
  - lia.
  - vm_compute. reflexivity.
  - vm_compute. reflexivity.
  - vm_compute. reflexivity.
Defined.
