(* ===== verification/Auth.v ===== *)
(** * Auth: authentication of requests

    [crates/grpc_auth], [crates/google_auth], the types [Email] and [Role] of
    [crates/common] and the table of users ([persistence/authorized_users.rs]).
    Text is a list of Unicode scalar values, so that trimming and the checks on
    characters are those of Rust.  The crate [jsonwebtoken] (decoding of headers,
    tokens and keys), the JSON decoder and the HTTP client are parameters.  Instants
    and durations are nanoseconds.  The task that refreshes the keys is a step
    relation over them. *)

From Stdlib Require Import Ascii.
From S2P Require Import Prelude.
Local Open Scope N_scope.

(** ** Text *)
Abbreviation str := (list N) (only parsing).
Definition lit (s : string) : str := map N_of_ascii (String.list_ascii_of_string s).
Definition str_eqb (a b : str) : bool := bool_decide (a = b).

(** [char::is_whitespace], [char::is_control] and [to_ascii_lowercase]. *)
Definition is_whitespace (c : N) : bool :=
  ((9 <=? c) && (c <=? 13)) || (c =? 32) || (c =? 133) || (c =? 160) || (c =? 5760)
  || ((8192 <=? c) && (c <=? 8202)) || (c =? 8232) || (c =? 8233) || (c =? 8239) || (c =? 8287) || (c =? 12288).
Definition is_control (c : N) : bool := (c <=? 31) || ((127 <=? c) && (c <=? 159)).
Definition lower_char (c : N) : N := if (65 <=? c) && (c <=? 90) then c + 32 else c.
Definition to_ascii_lowercase (s : str) : str := map lower_char s.

Fixpoint trim_start (s : str) : str :=
  match s with
  | c :: rest => if is_whitespace c then trim_start rest else s
  | [] => []
  end.
Definition trim (s : str) : str := rev (trim_start (rev (trim_start s))).

Fixpoint split_once (sep : N) (s : str) : option (str * str) :=
  match s with
  | [] => None
  | c :: rest =>
      if c =? sep then Some ([], rest)
      else match split_once sep rest with Some (a, b) => Some (c :: a, b) | None => None end
  end.
Fixpoint split_on (sep : N) (s : str) : list str :=
  match s with
  | [] => [[]]
  | c :: rest =>
      match split_on sep rest with
      | part :: parts => if c =? sep then [] :: part :: parts else (c :: part) :: parts
      | [] => []
      end
  end.
Fixpoint strip_prefix (prefix s : str) : option str :=
  match prefix, s with
  | [], _ => Some s
  | p :: prefix, c :: s => if p =? c then strip_prefix prefix s else None
  | _ :: _, [] => None
  end.

(** ** email.rs *)
Inductive ParseEmailError : Type := Empty | InvalidCharacter | MissingAtSign | MultipleAtSigns | EmptyPart.
Record Email := mkEmail { email_str : str }.
#[global] Instance Email_eq_dec : EqDecision Email.
Proof. solve_decision. Defined.
#[global] Instance Email_countable : Countable Email.
Proof. apply (inj_countable' email_str mkEmail). by intros []. Defined.

Definition AT : N := 64.
Definition is_empty_str (s : str) : bool := match s with [] => true | _ => false end.

Definition Email_new (input : str) : outcome ParseEmailError Email :=
  let trimmed := trim input in
  if is_empty_str trimmed then Err Empty
  else if existsb (fun c => is_control c || is_whitespace c) trimmed then Err InvalidCharacter
  else
    match split_once AT trimmed with
    | None => Err MissingAtSign
    | Some (local, domain) =>
        if is_empty_str local || is_empty_str domain then Err EmptyPart
        else if existsb (N.eqb AT) domain then Err MultipleAtSigns
        else Ok (mkEmail (to_ascii_lowercase trimmed))
    end.

(** The two [unreachable!] are panics. *)
Definition masked_parts (e : Email) : outcome ParseEmailError (N * str) :=
  match split_once AT (email_str e) with
  | Some (c :: _, domain) => Ok (c, domain)
  | _ => Panic
  end.
Definition masked (e : Email) : outcome ParseEmailError str :=
  let? parts := masked_parts e in
  Ok (parts.1 :: lit "***@" ++ parts.2).

(** ** role.rs *)
Inductive Role : Type := Reader | Writer.
#[global] Instance Role_eq_dec : EqDecision Role.
Proof. solve_decision. Defined.
Definition can_write (r : Role) : bool := match r with Writer => true | Reader => false end.
Definition role_str (r : Role) : str := match r with Reader => lit "reader" | Writer => lit "writer" end.
Definition Role_from_str (s : str) : option Role :=
  if str_eqb s (lit "reader") then Some Reader
  else if str_eqb s (lit "writer") then Some Writer else None.

(** ** authorized_users.rs and user_cache.rs *)
Definition LIST_ALL_HARD_LIMIT : Z := 10000.

(** The rows as the statement returns them, at most one above the limit;
    malformed rows are skipped. *)
Definition user_of_row (row : str * str) : option (Email * Role) :=
  match Email_new row.1, Role_from_str row.2 with
  | Ok e, Some r => Some (e, r)
  | _, _ => None
  end.
Definition list_all (rows : option (list (str * str))) : option (list (Email * Role)) :=
  match rows with
  | Some results =>
      if (LIST_ALL_HARD_LIMIT <? Z.of_nat (length results))%Z then None
      else Some (omap user_of_row results)
  | None => None
  end.

Abbreviation UserCache := (gmap Email Role) (only parsing).
(** Collecting into a map: a later entry replaces an earlier one. *)
Definition from_entries (entries : list (Email * Role)) : UserCache :=
  foldl (fun m e => <[e.1 := e.2]> m) ∅ entries.
Definition reload (rows : option (list (str * str))) (cache : UserCache) : UserCache :=
  match list_all rows with Some entries => from_entries entries | None => cache end.
Definition load_from_db (rows : option (list (str * str))) : option UserCache := from_entries <$> list_all rows.
Definition lookup_user (cache : UserCache) (e : Email) : option Role := cache !! e.

(** ** authenticator.rs: the first load, the results of the attempts being [load 1, load 2, ...];
    the sleeps between them are part of the result. *)
Definition USER_CACHE_BOOTSTRAP_ATTEMPTS : nat := 5.
Definition USER_CACHE_BOOTSTRAP_INITIAL_DELAY : N := 2 * 10 ^ 9.
Definition USER_CACHE_BOOTSTRAP_MAX_DELAY : N := 30 * 10 ^ 9.
Fixpoint load_attempts (load : nat -> option (list (str * str))) (attempt n : nat) (delay : N) : option UserCache * list N :=
  match n with
  | O => (load_from_db (load attempt), [])
  | S n =>
      match load_from_db (load attempt) with
      | Some cache => (Some cache, [])
      | None =>
          let (r, sleeps) := load_attempts load (S attempt) n (N.min (delay * 2) USER_CACHE_BOOTSTRAP_MAX_DELAY) in
          (r, delay :: sleeps)
      end
  end.
Definition load_user_cache_with_retry (load : nat -> option (list (str * str))) : option UserCache * list N :=
  load_attempts load 1 (USER_CACHE_BOOTSTRAP_ATTEMPTS - 1) USER_CACHE_BOOTSTRAP_INITIAL_DELAY.

(** ** error.rs *)
Inductive AuthError : Type :=
| MissingToken
| InvalidToken (detail : string)
| EmailNotVerified
| UserNotRegistered
| InsufficientRole
| JwksUnavailable.
Inductive Status : Type :=
  unauthenticated | permission_denied | unavailable | internal | invalid_argument | failed_precondition.
Definition status_of (err : AuthError) : Status :=
  match err with
  | MissingToken | InvalidToken _ | EmailNotVerified | UserNotRegistered => unauthenticated
  | InsufficientRole => permission_denied
  | JwksUnavailable => unavailable
  end.

(** ** interceptor.rs: the header *)
Definition BEARER_SCHEME : str := lit "Bearer".

(** The header value: absent, not printable ASCII, or a text. *)
Definition extract_bearer_token (header : option (option str)) : outcome AuthError str :=
  let? value := ok_or MissingToken header in
  let? value := ok_or (InvalidToken "non-ascii authorization header") value in
  let scheme_len := length BEARER_SCHEME in
  let scheme := if (scheme_len <=? length value)%nat then Some (take scheme_len value) else None in
  let after_scheme := if (scheme_len <=? length value)%nat then Some (drop scheme_len value) else None in
  match scheme, after_scheme with
  | Some scheme, Some (sp :: rest) =>
      if str_eqb (to_ascii_lowercase scheme) (to_ascii_lowercase BEARER_SCHEME) && (sp =? 32) then
        let token := trim rest in
        if is_empty_str token then Err (InvalidToken "empty bearer token") else Ok token
      else Err (InvalidToken "missing Bearer prefix")
  | _, _ => Err (InvalidToken "missing Bearer prefix")
  end.

(** ** jwks.rs *)
Definition SEC : N := 10 ^ 9.
Definition as_secs (d : N) : N := d / SEC.
Definition DEFAULT_TTL : N := 3600 * SEC.
Definition MIN_JWKS_TTL : N := 60 * SEC.
Definition MAX_JWKS_TTL : N := 24 * 60 * 60 * SEC.
Definition MIN_REFRESH_SLEEP : N := 30 * SEC.
Definition MIN_RETRY_BACKOFF : N := 30 * SEC.
Definition MAX_RETRY_BACKOFF : N := 600 * SEC.
Definition REFRESH_CHECK_INTERVAL : N := 30 * SEC.
Definition REFRESH_NUM : N := 9.
Definition REFRESH_DEN : N := 10.
Definition MAX_JWKS_BODY_BYTES : N := 1024 * 1024.
Definition GOOGLE_JWKS_URL : str := lit "https://www.googleapis.com/oauth2/v3/certs".

(** [str::parse::<u64>]: an optional plus sign, then digits. *)
Fixpoint parse_digits (acc : N) (s : str) : option N :=
  match s with
  | [] => Some acc
  | c :: rest =>
      if (48 <=? c) && (c <=? 57) then
        let acc := acc * 10 + (c - 48) in
        if acc <=? U64_MAX then parse_digits acc rest else None
      else None
  end.
Definition parse_u64 (s : str) : option N :=
  match s with
  | [] => None
  | c :: rest => if c =? 43 then match rest with [] => None | _ => parse_digits 0 rest end else parse_digits 0 s
  end.

Fixpoint first_max_age (directives : list str) : option N :=
  match directives with
  | [] => None
  | d :: rest =>
      match strip_prefix (lit "max-age=") (trim d) with
      | Some v => match parse_u64 (trim v) with Some secs => Some (secs * SEC) | None => first_max_age rest end
      | None => first_max_age rest
      end
  end.
Definition parse_max_age (header : option (option str)) : option N :=
  match header with
  | Some (Some value) => first_max_age (split_on 44 value)
  | _ => None
  end.
Definition clamp (lo hi x : N) : N := if x <? lo then lo else if hi <? x then hi else x.
Definition ttl_of (header : option (option str)) : N :=
  clamp MIN_JWKS_TTL MAX_JWKS_TTL (default DEFAULT_TTL (parse_max_age header)).

Record Jwk := mkJwk { kid : str; alg : option str; jwk_n : str; jwk_e : str }.

(** Reading the body in chunks; [None] is a failed chunk. *)
Fixpoint read_body_with_cap (buf : list N) (chunks : list (option (list N))) (cap : N) : option (list N) :=
  match chunks with
  | [] => Some buf
  | None :: _ => None
  | Some chunk :: rest =>
      if cap <? saturating_add_u64 (len buf) (len chunk) then None
      else read_body_with_cap (buf ++ chunk) rest cap
  end.

Record Response := mkResponse {
  cache_control : option (option str);
  content_length : option N;
  body_chunks : list (option (list N));
}.

(** ** validator.rs: what a token carries and what its decoder is told to check *)
Definition ACCEPTED_ALGORITHM : string := "RS256".
Definition ACCEPTED_ISSUERS : list string := ["https://accounts.google.com"; "accounts.google.com"].

Record Header := mkHeader { header_alg : string; header_kid : option str }.
Record Claims := mkClaims { claim_email : str; email_verified : bool; iat : N }.

Inductive BoolOrString : Type := BSBool (b : bool) | BSStr (s : str).
Definition deserialize_bool_or_string (v : BoolOrString) : option bool :=
  match v with
  | BSBool b => Some b
  | BSStr s => if str_eqb s (lit "true") then Some true else if str_eqb s (lit "false") then Some false else None
  end.
(** The claims before that field is read. *)
Record RawClaims := mkRawClaims { raw_email : str; raw_verified : BoolOrString; raw_iat : N }.
Definition read_claims (r : RawClaims) : option Claims :=
  (fun v => mkClaims (raw_email r) v (raw_iat r)) <$> deserialize_bool_or_string (raw_verified r).

Definition LEEWAY_SECONDS : N := 60.
Definition MAX_TOKEN_AGE_SECONDS : N := 60 * 60.

Record Validation := mkValidation {
  v_algorithm : string;
  v_leeway : N;
  v_audience : list str;
  v_issuers : list string;
  v_exp : bool;
  v_nbf : bool;
  v_required : list string;
}.
Definition validation_for (client_id : str) : Validation :=
  mkValidation ACCEPTED_ALGORITHM LEEWAY_SECONDS [client_id] ACCEPTED_ISSUERS true true ["exp"; "aud"; "iss"; "sub"; "iat"]%string.

Section jwks.
Context {Key : Type} (parse_jwks : list N -> option (list Jwk)) (from_rsa_components : str -> str -> option Key).

Definition add_key (m : gmap str Key) (j : Jwk) : gmap str Key :=
  match alg j with
  | Some a =>
      if str_eqb a (lit "RS256") then
        match from_rsa_components (jwk_n j) (jwk_e j) with Some k => <[kid j := k]> m | None => m end
      else m
  | None => m
  end.
Definition decode_keys (jwks : list Jwk) : gmap str Key := foldl add_key ∅ jwks.

Record CachedJwks := mkCachedJwks {
  keys : gmap str Key;
  fetched_at : option N;
  expires_at : option N;
}.
Definition CachedJwks_default : CachedJwks := mkCachedJwks ∅ None None.

Definition needs_refresh (c : CachedJwks) (now : N) : bool :=
  match fetched_at c, expires_at c with
  | Some fetched, Some expires =>
      let total := saturating_sub expires fetched in
      let elapsed := saturating_sub now fetched in
      saturating_mul_u64 (as_secs total) REFRESH_NUM <=? saturating_mul_u64 (as_secs elapsed) REFRESH_DEN
  | _, _ => true
  end.

Definition clear_if_expired (c : CachedJwks) (now : N) : CachedJwks :=
  match expires_at c with
  | Some expires => if expires <=? now then mkCachedJwks ∅ (fetched_at c) (expires_at c) else c
  | None => c
  end.

(** A fetch that completes at [now]; [None] is a failed request.  The new
    snapshot and its time to live. *)
Definition refresh_once (url : str) (response : option Response) (now : N) : option (CachedJwks * N) :=
  match strip_prefix (lit "https://") url, response with
  | Some _, Some r =>
      let ttl := ttl_of (cache_control r) in
      if match content_length r with Some declared => MAX_JWKS_BODY_BYTES <? declared | None => false end then None
      else
        match read_body_with_cap [] (body_chunks r) MAX_JWKS_BODY_BYTES with
        | Some body =>
            match parse_jwks body with
            | Some jwks => Some (mkCachedJwks (decode_keys jwks) (Some now) (Some (now + ttl)), ttl)
            | None => None
            end
        | None => None
        end
  | _, _ => None
  end.

Definition new_google (response : option Response) (now : N) : CachedJwks :=
  match refresh_once GOOGLE_JWKS_URL response now with Some (c, _) => c | None => CachedJwks_default end.

(** One turn of the refresh task, begun at [now]; a fetch completes at [done]. *)
Definition refresh_turn (c : CachedJwks) (backoff now done : N) (response : option Response)
    : CachedJwks * N * N :=
  if needs_refresh c now then
    match refresh_once GOOGLE_JWKS_URL response done with
    | Some (c', ttl) =>
        (c', MIN_RETRY_BACKOFF, done + N.max (ttl * REFRESH_NUM / REFRESH_DEN) MIN_REFRESH_SLEEP)
    | None =>
        (clear_if_expired c done, N.min (backoff * 2) MAX_RETRY_BACKOFF, done + backoff)
    end
  else (c, backoff, now + REFRESH_CHECK_INTERVAL).

(** ** validator.rs *)
Context (decode_header : str -> option Header) (decode : str -> Key -> Validation -> option RawClaims).

Definition validate_id_token (token client_id : str) (c : CachedJwks) (now : option N)
    : outcome AuthError Claims :=
  if is_empty_str client_id then Err (InvalidToken "auth disabled: client_id not configured")
  else
    let? header := ok_or (InvalidToken "decode_header") (decode_header token) in
    if negb (String.eqb (header_alg header) ACCEPTED_ALGORITHM) then Err (InvalidToken "unsupported alg")
    else
      let? kid := ok_or (InvalidToken "missing kid") (header_kid header) in
      let? key := ok_or (if bool_decide (keys c = ∅) then JwksUnavailable else InvalidToken "unknown kid")
                    (keys c !! kid) in
      let? claims := ok_or (InvalidToken "decode") (decode token key (validation_for client_id) ≫= read_claims) in
      let? now := ok_or (InvalidToken "system clock before unix epoch") now in
      if saturating_add_u64 now LEEWAY_SECONDS <? iat claims then Err (InvalidToken "iat is in the future")
      else if saturating_add_u64 MAX_TOKEN_AGE_SECONDS LEEWAY_SECONDS <? saturating_sub now (iat claims)
      then Err (InvalidToken "token too old")
      else if negb (email_verified claims) then Err EmailNotVerified
      else Ok claims.

(** ** authenticator.rs *)
Record AuthenticatedUser := mkUser { user_email : Email; user_role : Role }.

Definition authenticate (client_id : str) (c : CachedJwks) (users : UserCache) (now : option N) (token : str)
    : outcome AuthError AuthenticatedUser :=
  let? claims := validate_id_token token client_id c now in
  match Email_new (claim_email claims) with
  | Ok email =>
      let? role := ok_or UserNotRegistered (lookup_user users email) in
      Ok (mkUser email role)
  | Err _ => Err (InvalidToken "email parse failed")
  | Panic => Panic
  end.

(** ** interceptor.rs: the user of a request, or the status it is refused with *)
Definition intercept (client_id : str) (c : CachedJwks) (users : UserCache) (now : option N)
    (header : option (option str)) : outcome Status AuthenticatedUser :=
  match (let? token := extract_bearer_token header in authenticate client_id c users now token) with
  | Ok user => Ok user
  | Err e => Err (status_of e)
  | Panic => Panic
  end.
End jwks.

(** ** Text *)
Lemma trim_start_id s : trim_start (trim_start s) = trim_start s.
Proof.
  induction s as [|c s IH]; cbn; [done|]. destruct (is_whitespace c) eqn:E; [done|]. cbn. by rewrite E.
Qed.
Lemma trim_start_suffix s : exists p, s = p ++ trim_start s.
Proof.
  induction s as [|c s [p IH]]; cbn; [by exists []|].
  destruct (is_whitespace c); [|by exists []]. exists (c :: p). cbn. by rewrite <- IH.
Qed.
Lemma trim_start_head c s : trim_start (c :: s) = c :: s <-> is_whitespace c = false.
Proof.
  cbn. destruct (is_whitespace c) eqn:E; [|done]. split; [|done]. intros H.
  destruct (trim_start_suffix s) as [p Hp]. apply (f_equal length) in Hp, H. rewrite length_app in Hp. cbn in H. lia.
Qed.

Lemma trim_trim s : trim (trim s) = trim s.
Proof.
  unfold trim. set (u := trim_start s). set (v := trim_start (rev u)).
  destruct (trim_start_suffix (rev u)) as [p Hp]. fold v in Hp.
  assert (Hu : u = rev v ++ rev p) by (by rewrite <- rev_app_distr, <- Hp, rev_involutive).
  assert (Hv : trim_start (rev v) = rev v).
  { destruct (rev v) as [|c r] eqn:Hr; [done|]. apply trim_start_head.
    apply (trim_start_head c (r ++ rev p)). change (c :: r ++ rev p) with ((c :: r) ++ rev p).
    rewrite <- Hu. apply trim_start_id. }
  rewrite Hv, rev_involutive. by rewrite (trim_start_id (rev u) : trim_start v = v).
Qed.

(** Lower case changes neither white space nor the separator. *)
Lemma lower_char_upper c : lower_char c = c \/ (65 <= c <= 90 /\ lower_char c = c + 32).
Proof.
  unfold lower_char. destruct (N.leb_spec 65 c), (N.leb_spec c 90); cbn; [right|left..]; lia.
Qed.
Lemma letter_not_special c : 65 <= c <= 122 -> is_whitespace c = false /\ is_control c = false.
Proof.
  intros Hc. unfold is_whitespace, is_control.
  repeat match goal with
  | |- context [?a <=? ?b] => destruct (N.leb_spec a b); try lia
  | |- context [?a =? ?b] => destruct (N.eqb_spec a b); try lia
  end; done.
Qed.
Lemma lower_whitespace c : is_whitespace (lower_char c) = is_whitespace c.
Proof.
  destruct (lower_char_upper c) as [->|[Hc ->]]; [done|].
  destruct (letter_not_special c ltac:(lia)) as [-> _], (letter_not_special (c + 32) ltac:(lia)) as [-> _]. done.
Qed.
Lemma lower_control c : is_control (lower_char c) = is_control c.
Proof.
  destruct (lower_char_upper c) as [->|[Hc ->]]; [done|].
  destruct (letter_not_special c ltac:(lia)) as [_ ->], (letter_not_special (c + 32) ltac:(lia)) as [_ ->]. done.
Qed.
Lemma lower_at c : (lower_char c =? AT) = (c =? AT).
Proof.
  destruct (lower_char_upper c) as [->|[Hc ->]]; [done|]. unfold AT.
  destruct (N.eqb_spec (c + 32) 64), (N.eqb_spec c 64); try done; lia.
Qed.
Lemma lower_lower c : lower_char (lower_char c) = lower_char c.
Proof.
  destruct (lower_char_upper c) as [E|[Hc E]]; [by rewrite !E|]. rewrite E. unfold lower_char.
  destruct (N.leb_spec (c + 32) 90); [lia|]. by rewrite andb_false_r.
Qed.

Lemma trim_start_lower s : trim_start (to_ascii_lowercase s) = to_ascii_lowercase (trim_start s).
Proof. induction s as [|c s IH]; cbn; [done|]. rewrite lower_whitespace. by destruct (is_whitespace c). Qed.
Lemma trim_lower s : trim (to_ascii_lowercase s) = to_ascii_lowercase (trim s).
Proof.
  assert (Hrev : forall l, rev (to_ascii_lowercase l) = to_ascii_lowercase (rev l)) by (intros l; symmetry; apply map_rev).
  unfold trim. by rewrite trim_start_lower, Hrev, trim_start_lower, Hrev.
Qed.

Lemma split_once_lower s : split_once AT (to_ascii_lowercase s) =
  (fun p => (to_ascii_lowercase p.1, to_ascii_lowercase p.2)) <$> split_once AT s.
Proof.
  induction s as [|c s IH]; cbn; [done|]. rewrite lower_at. destruct (c =? AT); [done|].
  fold (to_ascii_lowercase s). rewrite IH. by destruct (split_once AT s) as [[a b]|].
Qed.
Lemma split_once_Some sep s a b : split_once sep s = Some (a, b) -> s = a ++ sep :: b /\ sep ∉ a.
Proof.
  revert a. induction s as [|c s IH]; intros a; cbn; [done|].
  destruct (N.eqb_spec c sep) as [->|Hne]; [intros [= <- <-]; split; [done|apply not_elem_of_nil]|].
  destruct (split_once sep s) as [[a' b']|] eqn:E; [|done]. intros [= <- <-].
  destruct (IH a' eq_refl) as [-> Hn]. split; [done|]. apply not_elem_of_cons. split; [congruence|done].
Qed.
Lemma is_empty_lower s : is_empty_str (to_ascii_lowercase s) = is_empty_str s.
Proof. by destruct s. Qed.
Lemma existsb_lower f s : (forall c, f (lower_char c) = f c) -> existsb f (to_ascii_lowercase s) = existsb f s.
Proof. intros Hf. induction s as [|c s IH]; cbn; [done|]. fold (to_ascii_lowercase s). by rewrite Hf, IH. Qed.
Lemma lowercase_lowercase s : to_ascii_lowercase (to_ascii_lowercase s) = to_ascii_lowercase s.
Proof. unfold to_ascii_lowercase. rewrite map_map. apply map_ext, lower_lower. Qed.

(** ** Email addresses *)
Lemma Email_new_lower s : Email_new (to_ascii_lowercase s) = Email_new s.
Proof.
  unfold Email_new. rewrite trim_lower, is_empty_lower, lowercase_lowercase, split_once_lower.
  rewrite existsb_lower by (intros c; by rewrite lower_whitespace, lower_control).
  destruct (is_empty_str (trim s)); [done|]. destruct (existsb _ (trim s)); [done|].
  destruct (split_once AT (trim s)) as [[local domain]|]; [|done]. cbn [fmap option_fmap option_map fst snd].
  rewrite !is_empty_lower, existsb_lower; [done|]. intros c. rewrite !(N.eqb_sym AT). apply lower_at.
Qed.
Lemma Email_new_trim s : Email_new (trim s) = Email_new s.
Proof. unfold Email_new. by rewrite trim_trim. Qed.

(** One separator between two parts, and no character that is not canonical. *)
Definition canonical (s : str) : Prop :=
  (exists local domain, s = (local ++ AT :: domain) /\ local <> [] /\ domain <> [] /\ (AT ∉ local) /\ (AT ∉ domain)) /\
  Forall (fun c => is_control c = false /\ is_whitespace c = false /\ lower_char c = c) s.

Lemma lower_not_in s : AT ∉ s -> AT ∉ to_ascii_lowercase s.
Proof.
  intros Hs Hin. apply list_elem_of_fmap in Hin as (c & Hc & Hin). apply Hs.
  assert (E : (lower_char c =? AT) = true) by (rewrite <- Hc; reflexivity).
  rewrite lower_at in E. apply N.eqb_eq in E. by subst.
Qed.

Lemma Email_new_Ok s e : Email_new s = Ok e ->
  email_str e = to_ascii_lowercase (trim s) /\ canonical (email_str e) /\
  exists c domain, masked_parts e = Ok (c, domain).
Proof.
  unfold Email_new. destruct (is_empty_str (trim s)); [done|]. destruct (existsb _ (trim s)) eqn:Hex; [done|].
  destruct (split_once AT (trim s)) as [[local domain]|] eqn:Hsp; [|done].
  destruct (is_empty_str local) eqn:Hl; [done|]. destruct (is_empty_str domain) eqn:Hd; [done|].
  destruct (existsb (N.eqb AT) domain) eqn:Hat; [done|]. intros [= <-]. cbn [email_str].
  destruct (split_once_Some _ _ _ _ Hsp) as [Heq Hn]. split_and!; [done| |].
  - split.
    + exists (to_ascii_lowercase local), (to_ascii_lowercase domain). rewrite Heq. split_and!.
      * unfold to_ascii_lowercase. by rewrite map_app.
      * by destruct local.
      * by destruct domain.
      * by apply lower_not_in.
      * apply lower_not_in. intros Hin. rewrite (proj2 (existsb_exists _ _)) in Hat; [done|].
        exists AT. split; [by apply list_elem_of_In|apply N.eqb_refl].
    + apply List.Forall_map, Forall_elem. intros c Hc. rewrite lower_control, lower_whitespace, lower_lower.
      destruct (is_control c || is_whitespace c) eqn:Hbad.
      * rewrite (proj2 (existsb_exists _ _)) in Hex; [done|]. exists c. split; [by apply list_elem_of_In|done].
      * by apply orb_false_iff in Hbad as [-> ->].
  - unfold masked_parts. cbn [email_str]. rewrite split_once_lower, Hsp. cbn. destruct local as [|c local]; [done|].
    cbn. by eexists _, _.
Qed.

(** ** The users *)
Lemma from_entries_app a b : from_entries (a ++ b) = foldl (fun m e => <[e.1 := e.2]> m) (from_entries a) b.
Proof. apply foldl_app. Qed.
Lemma from_entries_lookup entries e r : from_entries entries !! e = Some r -> (e, r) ∈ entries.
Proof.
  induction entries as [|[e' r'] entries IH] using rev_ind; [done|]. rewrite from_entries_app. cbn.
  rewrite lookup_insert_Some, elem_of_app, list_elem_of_singleton. naive_solver.
Qed.
Lemma from_entries_None entries e : (forall r, (e, r) ∉ entries) -> from_entries entries !! e = None.
Proof.
  intros H. destruct (from_entries entries !! e) as [r|] eqn:E; [|done].
  by apply from_entries_lookup, H in E.
Qed.

(** A reload that reads the table revokes the users whose rows are gone, and
    grants only the role of a well-formed row. *)
Lemma reload_revokes rows cache e : (Z.of_nat (length rows) <= LIST_ALL_HARD_LIMIT)%Z ->
  (forall r, lookup_user (reload (Some rows) cache) e = Some r ->
     exists row, row ∈ rows /\ Email_new row.1 = Ok e /\ Role_from_str row.2 = Some r) /\
  ((forall row, row ∈ rows -> Email_new row.1 <> Ok e) -> lookup_user (reload (Some rows) cache) e = None).
Proof.
  intros Hlen. assert (Hin : forall r, lookup_user (reload (Some rows) cache) e = Some r ->
     exists row, row ∈ rows /\ Email_new row.1 = Ok e /\ Role_from_str row.2 = Some r).
  { intros r. unfold reload, list_all, lookup_user. destruct (Z.ltb_spec LIST_ALL_HARD_LIMIT (Z.of_nat (length rows))) as [Hl|_].
    { lia. }
    intros H%from_entries_lookup. apply list_elem_of_omap in H as (row & Hrow & Hu). exists row. split; [done|].
    unfold user_of_row in Hu. destruct (Email_new row.1); [|done..]. destruct (Role_from_str row.2); [|done].
    by injection Hu as -> ->. }
  split; [done|]. intros Hno. destruct (lookup_user _ e) as [r|] eqn:E; [|done].
  destruct (Hin r eq_refl) as (row & Hr & He & _). by destruct (Hno row Hr).
Qed.

(** The first load succeeds when one of its five attempts does; otherwise it
    has slept for thirty seconds. *)
Lemma load_attempts_None load attempt n delay :
  (load_attempts load attempt n delay).1 = None <->
  forall i, (attempt <= i <= attempt + n)%nat -> load_from_db (load i) = None.
Proof.
  revert attempt delay. induction n as [|n IH]; intros attempt delay; cbn.
  { split; [intros H i Hi; by replace i with attempt by lia|intros H; apply H; lia]. }
  destruct (load_from_db (load attempt)) as [c|] eqn:E.
  { split; [done|]. intros H. rewrite H in E by lia. done. }
  destruct (load_attempts _ _ _ _) as [r sl] eqn:Er. cbn.
  specialize (IH (S attempt) (N.min (delay * 2) USER_CACHE_BOOTSTRAP_MAX_DELAY)). rewrite Er in IH. cbn in IH. rewrite IH.
  split; intros H i Hi; [|apply H; lia]. destruct (decide (i = attempt)) as [->|]; [done|apply H; lia].
Qed.
Lemma bootstrap_fails load : (load_user_cache_with_retry load).1 = None ->
  (forall i, (1 <= i <= USER_CACHE_BOOTSTRAP_ATTEMPTS)%nat -> load_from_db (load i) = None) /\
  (load_user_cache_with_retry load).2 = map (fun s => s * 10 ^ 9) [2; 4; 8; 16].
Proof.
  intros H. pose proof (proj1 (load_attempts_None _ _ _ _) H) as Hn. split.
  { intros i Hi. apply Hn. unfold USER_CACHE_BOOTSTRAP_ATTEMPTS in *. lia. }
  unfold load_user_cache_with_retry, USER_CACHE_BOOTSTRAP_ATTEMPTS. cbn [load_attempts Nat.sub].
  repeat (rewrite Hn by (unfold USER_CACHE_BOOTSTRAP_ATTEMPTS; lia)). reflexivity.
Qed.

(** ** The refresh task *)
Section refresh.
Context {Key : Type} (parse_jwks : list N -> option (list Jwk)) (from_rsa_components : str -> str -> option Key).
(** How late a turn may begin, and how long a fetch may take. *)
Context (delay fetch : N).

Abbreviation turn := (refresh_turn parse_jwks from_rsa_components).

(** The task sleeps until [wake]. *)
Record Task := mkTask { task_cache : CachedJwks (Key:=Key); task_backoff : N; task_wake : N }.

Inductive task_reachable : Task -> Prop :=
| task_start response now wake :
    now <= wake -> wake <= now + delay ->
    task_reachable (mkTask (new_google parse_jwks from_rsa_components response now) MIN_RETRY_BACKOFF wake)
| task_turn s now done response c b w :
    task_reachable s ->
    task_wake s <= now -> now <= task_wake s + delay -> now <= done -> done <= now + fetch ->
    turn (task_cache s) (task_backoff s) now done response = (c, b, w) ->
    task_reachable (mkTask c b w).

(** The time to live of the keys is within its limits, and the task is awake
    again at most the longest backoff after they expire. *)
Definition task_ok (s : Task) : Prop :=
  MIN_RETRY_BACKOFF <= task_backoff s <= MAX_RETRY_BACKOFF /\
  (keys (task_cache s) = ∅ \/
   exists fetched expires, fetched_at (task_cache s) = Some fetched /\ expires_at (task_cache s) = Some expires /\
     fetched + MIN_JWKS_TTL <= expires <= fetched + MAX_JWKS_TTL /\
     task_wake s <= expires + MAX_RETRY_BACKOFF + delay).

Lemma ttl_of_bounds header : MIN_JWKS_TTL <= ttl_of header <= MAX_JWKS_TTL.
Proof.
  unfold ttl_of, clamp. set (x := default _ _).
  destruct (N.ltb_spec x MIN_JWKS_TTL); [split; [lia|vm_compute; discriminate]|].
  destruct (N.ltb_spec MAX_JWKS_TTL x); [split; [vm_compute; discriminate|lia]|lia].
Qed.

Lemma refresh_once_Some url response now c ttl :
  refresh_once parse_jwks from_rsa_components url response now = Some (c, ttl) ->
  MIN_JWKS_TTL <= ttl <= MAX_JWKS_TTL /\ fetched_at c = Some now /\ expires_at c = Some (now + ttl).
Proof.
  unfold refresh_once. destruct (strip_prefix _ _), response as [r|]; try done.
  destruct (match content_length r with Some _ => _ | None => _ end); [done|].
  destruct (read_body_with_cap _ _ _); [|done]. destruct (parse_jwks _); [|done].
  intros [= <- <-]. split; [apply ttl_of_bounds|done].
Qed.

(** Before the refresh is due, nine tenths of the time are not over. *)
Lemma not_due (c : CachedJwks (Key:=Key)) now fetched expires : fetched_at c = Some fetched -> expires_at c = Some expires ->
  fetched <= expires <= fetched + MAX_JWKS_TTL -> needs_refresh c now = false ->
  now < fetched + (expires - fetched) * 9 / 10 + SEC.
Proof.
  intros Hf He Hle Hn. unfold needs_refresh in Hn. rewrite Hf, He in Hn. apply N.leb_gt in Hn.
  unfold saturating_mul_u64, saturating_sub, as_secs, REFRESH_NUM, REFRESH_DEN in Hn.
  set (total := expires - fetched) in *. set (elapsed := now - fetched) in *.
  assert (Hlt : elapsed / SEC * 10 < total / SEC * 9) by lia.
  pose proof (N.div_mod elapsed SEC ltac:(done)) as He1. pose proof (N.mod_lt elapsed SEC ltac:(done)) as He2.
  pose proof (N.Div0.mul_div_le total SEC) as Ht.
  assert (total * 9 / 10 * 10 + 10 > total * 9).
  { pose proof (N.div_mod (total * 9) 10 ltac:(done)). pose proof (N.mod_lt (total * 9) 10 ltac:(done)). lia. }
  assert (elapsed < total * 9 / 10 + SEC); [|lia]. unfold SEC in *. lia.
Qed.

Lemma turn_ok s now done response c b w : task_ok s -> task_wake s <= now -> now <= task_wake s + delay ->
  now <= done -> turn (task_cache s) (task_backoff s) now done response = (c, b, w) -> task_ok (mkTask c b w).
Proof.
  intros [Hb Hk] Hwake Hdelay Hdone. unfold refresh_turn, task_ok. cbn [task_cache task_backoff task_wake].
  assert (Hmax : MIN_RETRY_BACKOFF <= MAX_RETRY_BACKOFF) by (vm_compute; discriminate).
  destruct (needs_refresh (task_cache s) now) eqn:Hn.
  - destruct (refresh_once _ _ _ _ _) as [[c' ttl]|] eqn:Hr; intros [= <- <- <-].
    + apply refresh_once_Some in Hr as (Httl & Hf & He). split; [split; [done|exact Hmax]|right].
      exists done, (done + ttl). split_and!; [done|done|lia|lia|].
      unfold REFRESH_NUM, REFRESH_DEN, MIN_REFRESH_SLEEP, MAX_RETRY_BACKOFF, MIN_JWKS_TTL, SEC in *.
      pose proof (N.Div0.mul_div_le (ttl * 9) 10). lia.
    + split; [lia|]. unfold clear_if_expired.
      destruct Hk as [Hk|(fetched & expires & Hf & He & Hle & Hw)].
      * left. destruct (expires_at (task_cache s)) as [e|]; [|done]. by destruct (e <=? done).
      * rewrite He. destruct (N.leb_spec expires done) as [|Hlt]; [by left|right].
        exists fetched, expires. split_and!; [done|done|lia|lia|lia].
  - intros [= <- <- <-]. split; [done|]. destruct Hk as [Hk|(fetched & expires & Hf & He & Hle & Hw)]; [by left|right].
    exists fetched, expires. split_and!; [done|done|lia|lia|].
    apply (not_due _ _ fetched expires) in Hn; [|done|done|unfold MIN_JWKS_TTL, SEC in *; lia].
    unfold REFRESH_CHECK_INTERVAL, MAX_RETRY_BACKOFF, SEC in *.
    pose proof (N.Div0.mul_div_le ((expires - fetched) * 9) 10). lia.
Qed.

Lemma task_reachable_ok s : task_reachable s -> task_ok s.
Proof.
  induction 1 as [response now wake Hle Hd|s now done response c b w _ IH Hw1 Hw2 Hd1 Hd2 Ht].
  - split; [split; [done|vm_compute; discriminate]|]. cbn [task_cache task_wake]. unfold new_google.
    destruct (refresh_once _ _ _ _ _) as [[c ttl]|] eqn:Hr; [right|by left].
    apply refresh_once_Some in Hr as (Httl & Hf & He). exists now, (now + ttl). split_and!; [done|done|lia|lia|lia].
  - by eapply turn_ok.
Qed.
End refresh.

(** ** The check of a request *)
Section check.
Context {Key : Type} (decode_header : str -> option Header) (decode : str -> Key -> Validation -> option RawClaims).
Context (decode_u64 : forall token key v raw, decode token key v = Some raw -> raw_iat raw <= U64_MAX).

(** What a step may answer: no panic, no lack of a role, and missing keys only
    when there are none. *)
Definition answers {A} (c : CachedJwks (Key:=Key)) (o : outcome AuthError A) : Prop :=
  match o with
  | Ok _ => True
  | Err e => e <> InsufficientRole /\ (e = JwksUnavailable -> keys c = ∅)
  | Panic => False
  end.
Lemma answers_bind {A B} c (o : outcome AuthError A) (f : A -> outcome AuthError B) :
  answers c o -> (forall a, o = Ok a -> answers c (f a)) -> answers c (obind o f).
Proof using Type. destruct o; cbn; auto. Qed.
Lemma answers_ok_or {A} c e (o : option A) :
  (o = None -> e <> InsufficientRole /\ (e = JwksUnavailable -> keys c = ∅)) -> answers c (ok_or e o).
Proof using Type. destruct o; cbn; auto. Qed.

Lemma extract_answers c header : answers c (extract_bearer_token header).
Proof using Type.
  unfold extract_bearer_token. apply answers_bind; [by apply answers_ok_or|intros v _].
  apply answers_bind; [by apply answers_ok_or|intros w _].
  destruct (_ <=? _)%nat; [|done]. destruct (drop _ w) as [|sp rest]; [done|].
  destruct (_ && _); [|done]. by destruct (is_empty_str (trim rest)).
Qed.
Lemma Email_new_no_panic s : Email_new s <> Panic.
Proof using Type.
  unfold Email_new. destruct (is_empty_str _); [done|]. case_match; [done|].
  destruct (split_once _ _) as [[local domain]|]; [|done].
  case_match; [done|]. by case_match.
Qed.
Lemma validate_answers token client_id c now :
  answers c (validate_id_token decode_header decode token client_id c now).
Proof using Type.
  unfold validate_id_token. destruct (is_empty_str client_id); [done|].
  apply answers_bind; [by apply answers_ok_or|intros h _]. destruct (negb _); [done|].
  apply answers_bind; [by apply answers_ok_or|intros k _].
  apply answers_bind; [apply answers_ok_or; intros _; by case_bool_decide|intros key _].
  apply answers_bind; [by apply answers_ok_or|intros claims _].
  apply answers_bind; [by apply answers_ok_or|intros t _].
  destruct (_ <? _); [done|]. destruct (_ <? _); [done|]. by destruct (negb _).
Qed.
Lemma authenticate_answers token client_id c users now :
  answers c (authenticate decode_header decode client_id c users now token).
Proof using Type.
  unfold authenticate. apply answers_bind; [apply validate_answers|intros claims _].
  destruct (Email_new (claim_email claims)) as [e|e|] eqn:He; [|done|by apply Email_new_no_panic in He].
  by apply answers_bind; [apply answers_ok_or|].
Qed.

Lemma ok_or_Ok {E A} (e : E) (o : option A) a : ok_or e o = Ok a <-> o = Some a.
Proof using Type. destruct o; cbn; split; congruence. Qed.
Lemma obind_Ok {E A B} (o : outcome E A) (f : A -> outcome E B) b :
  obind o f = Ok b <-> exists a, o = Ok a /\ f a = Ok b.
Proof using Type.
  destruct o; cbn; (split; [intros H|intros (x & Hx & H)]); try done; [by eexists|by injection Hx as ->].
Qed.
Lemma guard_Ok {E A} (b : bool) (e : E) (o : outcome E A) a : (if b then Err e else o) = Ok a <-> b = false /\ o = Ok a.
Proof using Type. destruct b; intuition congruence. Qed.

Lemma read_u64 token key v claims : decode token key v ≫= read_claims = Some claims -> iat claims <= U64_MAX.
Proof using decode_u64.
  destruct (decode token key v) as [raw|] eqn:Hd; [cbn|done]. unfold read_claims.
  destruct (deserialize_bool_or_string _); [|done]. intros [= <-]. by eapply decode_u64.
Qed.
Lemma validate_Ok token client_id c now claims :
  validate_id_token decode_header decode token client_id c now = Ok claims <->
  client_id <> [] /\ exists h k key t,
    decode_header token = Some h /\ header_alg h = ACCEPTED_ALGORITHM /\ header_kid h = Some k /\
    keys c !! k = Some key /\ decode token key (validation_for client_id) ≫= read_claims = Some claims /\
    now = Some t /\ iat claims <= t + LEEWAY_SECONDS /\
    t <= iat claims + (MAX_TOKEN_AGE_SECONDS + LEEWAY_SECONDS) /\ email_verified claims = true.
Proof using decode_u64.
  unfold validate_id_token, saturating_add_u64, saturating_sub.
  rewrite guard_Ok. setoid_rewrite obind_Ok. setoid_rewrite guard_Ok.
  assert (Hc : is_empty_str client_id = false <-> client_id <> []) by by destruct client_id.
  rewrite Hc. apply and_iff_compat_l. split.
  - intros (h & Hh & Halg & H). rewrite obind_Ok in H. destruct H as (k & Hk & H).
    rewrite obind_Ok in H. destruct H as (key & Hkey & H). rewrite obind_Ok in H. destruct H as (cl & Hcl & H).
    rewrite obind_Ok in H. destruct H as (t & Ht & H). rewrite !guard_Ok in H. destruct H as (H1 & H2 & H3 & [= ->]).
    apply ok_or_Ok in Hh, Hk, Hkey, Hcl, Ht. apply N.ltb_ge in H1, H2. apply negb_false_iff in Halg, H3. apply String.eqb_eq in Halg.
    exists h, k, key, t. split_and!; try done; unfold LEEWAY_SECONDS, MAX_TOKEN_AGE_SECONDS in *; lia.
  - intros (h & k & key & t & Hh & Halg & Hk & Hkey & Hcl & Ht & H1 & H2 & H3).
    exists h. rewrite ok_or_Ok, Halg, String.eqb_refl. split_and!; [done|done|].
    rewrite Hk. cbn [ok_or obind]. rewrite Hkey. cbn [ok_or obind]. rewrite Hcl, Ht. cbn [ok_or obind].
    rewrite !guard_Ok, H3. apply read_u64 in Hcl.
    split_and!; [apply N.ltb_ge|apply N.ltb_ge|done|done]; unfold LEEWAY_SECONDS, MAX_TOKEN_AGE_SECONDS, U64_MAX in *; lia.
Qed.
Lemma authenticate_Ok token client_id c users now u :
  authenticate decode_header decode client_id c users now token = Ok u <->
  exists claims, validate_id_token decode_header decode token client_id c now = Ok claims /\
    Email_new (claim_email claims) = Ok (user_email u) /\ users !! user_email u = Some (user_role u).
Proof using Type.
  unfold authenticate, lookup_user. rewrite obind_Ok. apply exist_proper. intros claims. apply and_iff_compat_l.
  destruct (Email_new (claim_email claims)) as [e|e|]; [|split; [done|by intros [? _]]..].
  rewrite obind_Ok. setoid_rewrite ok_or_Ok. split.
  - by intros (r & Hr & [= <-]).
  - intros [[= ->] Hr]. exists (user_role u). split; [done|]. by destruct u.
Qed.
End check.

(** ** The claims *)

(** C38: An address that was accepted is in canonical form, so masking it never
    meets its unreachable cases: two non-empty parts around a single separator, no
    control or white-space character and no upper-case ASCII letter.  Parsing it again
    gives the same address, and so does any other capitalisation of the input. *)
Theorem email_is_canonical s e :
  Email_new s = Ok e ->
  canonical (email_str e) /\ (exists m, masked e = Ok m) /\ Email_new (email_str e) = Ok e /\
  forall s', to_ascii_lowercase s' = to_ascii_lowercase s -> Email_new s' = Ok e.
Proof.
  intros He. destruct (Email_new_Ok s e He) as (Hs & Hc & c & domain & Hm). split_and!; [done| | |].
  - unfold masked. rewrite Hm. by eexists.
  - by rewrite Hs, Email_new_lower, Email_new_trim.
  - intros s' Hl. by rewrite <- Email_new_lower, Hl, Email_new_lower.
Qed.

Section theorems.
Context (Key : Type) (parse_jwks : list N -> option (list Jwk)) (from_rsa_components : str -> str -> option Key).

(** At any time until the next turn of the refresh task is over, a key that
    the cache serves was fetched with a time to live of one minute to one day, and
    it is served at most the longest backoff (ten minutes), two scheduling delays
    and one fetch beyond it, however the fetches fail. *)
Theorem stale_keys_bounded delay fetch s t id key :
  task_reachable parse_jwks from_rsa_components delay fetch s ->
  t <= task_wake s + delay + fetch -> keys (task_cache s) !! id = Some key ->
  exists fetched expires, fetched_at (task_cache s) = Some fetched /\ expires_at (task_cache s) = Some expires /\
    fetched + MIN_JWKS_TTL <= expires <= fetched + MAX_JWKS_TTL /\
    t <= expires + MAX_RETRY_BACKOFF + 2 * delay + fetch.
Proof.
  intros Hr Ht Hk. destruct (task_reachable_ok _ _ _ _ _ Hr) as [_ [He|(f & e & Hf & He & Hle & Hw)]].
  - by rewrite He in Hk.
  - exists f, e. split_and!; [done|done|lia|lia|lia].
Qed.
End theorems.

Section admission.
Context (Key : Type) (decode_header : str -> option Header) (decode : str -> Key -> Validation -> option RawClaims).

(** C37: A request is admitted as a user exactly when its header carries a bearer
    token whose RS256 header names a cached key, the token decodes with that key for
    the configured client, was issued no more than a minute in the future and no
    more than an hour and a minute ago, has a verified address, and that address is
    registered with the user's role.  The check never panics, never answers
    [permission_denied], and answers [unavailable] only when no keys are cached. *)
Theorem intercept_admits_exactly client_id c users now header :
  (forall token key v raw, decode token key v = Some raw -> raw_iat raw <= U64_MAX) ->
  (forall u, intercept decode_header decode client_id c users now header = Ok u <->
     exists token h k key claims t,
       extract_bearer_token header = Ok token /\ client_id <> [] /\
       decode_header token = Some h /\ header_alg h = ACCEPTED_ALGORITHM /\ header_kid h = Some k /\
       keys c !! k = Some key /\ decode token key (validation_for client_id) ≫= read_claims = Some claims /\
       now = Some t /\ iat claims <= t + LEEWAY_SECONDS /\ t <= iat claims + (MAX_TOKEN_AGE_SECONDS + LEEWAY_SECONDS) /\
       email_verified claims = true /\ Email_new (claim_email claims) = Ok (user_email u) /\
       users !! user_email u = Some (user_role u)) /\
  intercept decode_header decode client_id c users now header <> Panic /\
  intercept decode_header decode client_id c users now header <> Err permission_denied /\
  (intercept decode_header decode client_id c users now header = Err unavailable -> keys c = ∅).
Proof.
  intros Hiat. pose proof (extract_answers c header) as Hx. unfold intercept.
  destruct (extract_bearer_token header) as [token|e|]; cbn [obind]; [|destruct Hx as [He Hu]|done].
  - pose proof (authenticate_answers decode_header decode token client_id c users now) as Ha.
    split; [|destruct (authenticate _ _ _ _ _ _ _) as [u|e|]; [done| |done]; destruct Ha, e; naive_solver].
    intros u. transitivity (authenticate decode_header decode client_id c users now token = Ok u).
    { destruct (authenticate _ _ _ _ _ _ _); split; congruence. }
    rewrite authenticate_Ok. setoid_rewrite (validate_Ok _ _ Hiat). naive_solver.
  - split; [naive_solver|]. destruct e; naive_solver.
Qed.
End admission.

(** ** A concrete deployment *)
Definition sample_parse (body : list N) : option (list Jwk) :=
  match body with [] => None | _ => Some [mkJwk (lit "k1") (Some (lit "RS256")) (lit "n") (lit "e")] end.
Definition sample_key (n e : str) : option N := Some 7.
Definition sample_response : Response := mkResponse (Some (Some (lit "public, max-age=3600"))) (Some 2) [Some [123; 125]].
Definition sample_cache : CachedJwks (Key:=N) := mkCachedJwks {[ lit "k1" := 7 ]} (Some 0) (Some (3600 * SEC)).
Definition sample_header (token : str) : option Header := Some (mkHeader "RS256" (Some (lit "k1"))).
Definition sample_decode (token : str) (key : N) (v : Validation) : option RawClaims :=
  if str_eqb token (lit "t0ken") then Some (mkRawClaims (lit "Alice@Example.com") (BSStr (lit "true")) 1000) else None.
Definition sample_users : UserCache :=
  reload (Some [(lit " alice@example.COM", lit "writer"); (lit "bob", lit "reader")]) ∅.

(** The first fetch after the start succeeds; the refreshes due at 54 minutes,
    54:30, 55:30 and 57:30 fail. *)
Lemma sample_task_late : task_reachable sample_parse sample_key 0 0 (mkTask sample_cache (480 * SEC) (3690 * SEC)).
Proof.
  apply (task_turn _ _ _ _ (mkTask sample_cache (240 * SEC) (3450 * SEC)) (3450 * SEC) (3450 * SEC) None);
    [|vm_compute; done..].
  apply (task_turn _ _ _ _ (mkTask sample_cache (120 * SEC) (3330 * SEC)) (3330 * SEC) (3330 * SEC) None);
    [|vm_compute; done..].
  apply (task_turn _ _ _ _ (mkTask sample_cache (60 * SEC) (3270 * SEC)) (3270 * SEC) (3270 * SEC) None);
    [|vm_compute; done..].
  apply (task_turn _ _ _ _ (mkTask sample_cache (30 * SEC) (3240 * SEC)) (3240 * SEC) (3240 * SEC) None);
    [|vm_compute; done..].
  apply (task_turn _ _ _ _ (mkTask CachedJwks_default (30 * SEC) 0) 0 0 (Some sample_response)); [|vm_compute; done..].
  by apply (task_start _ _ _ _ None 0 0).
Qed.

(** A key is still served a minute and a half after its time to live, and the
    request it signs is admitted: nothing on the way looks at the expiry. *)
Example expired_key_admits : exists s,
  task_reachable sample_parse sample_key 0 0 s /\
  expires_at (task_cache s) = Some (3600 * SEC) /\ task_wake s = 3690 * SEC /\
  intercept sample_header sample_decode (lit "client") (task_cache s) sample_users (Some 1500)
    (Some (Some (lit "bearer t0ken"))) = Ok (mkUser (mkEmail (lit "alice@example.com")) Writer).
Proof. eexists. split; [apply sample_task_late|]. split_and!; vm_compute; reflexivity. Qed.

Lemma email_is_canonical_witness :
  let e := mkEmail (lit "alice@example.com") in
  canonical (email_str e) /\ (exists m, masked e = Ok m) /\ Email_new (email_str e) = Ok e /\
  forall s', to_ascii_lowercase s' = lit " alice@example.com" -> Email_new s' = Ok e.
Proof. exact (email_is_canonical (lit " Alice@Example.com") (mkEmail (lit "alice@example.com")) eq_refl). Defined.

Lemma stale_keys_bounded_witness :
  exists fetched expires, fetched_at sample_cache = Some fetched /\ expires_at sample_cache = Some expires /\
    fetched + MIN_JWKS_TTL <= expires <= fetched + MAX_JWKS_TTL /\ 3690 * SEC <= expires + MAX_RETRY_BACKOFF + 2 * 0 + 0.
Proof.
  apply (stale_keys_bounded N sample_parse sample_key 0 0 (mkTask sample_cache (480 * SEC) (3690 * SEC)) (3690 * SEC) (lit "k1") 7).
  - exact sample_task_late.
  - vm_compute; discriminate.
  - vm_compute; reflexivity.
Defined.

Lemma intercept_admits_exactly_witness :
  intercept sample_header sample_decode (lit "client") sample_cache sample_users (Some 1500)
    (Some (Some (lit "Bearer t0ken"))) <> Err permission_denied.
Proof.
  refine (proj1 (proj2 (proj2 (intercept_admits_exactly N sample_header sample_decode (lit "client") sample_cache
    sample_users (Some 1500) (Some (Some (lit "Bearer t0ken"))) _)))).
  intros token key v raw. unfold sample_decode. destruct (str_eqb _ _); [|discriminate].
  intros [= <-]. vm_compute; discriminate.
Defined.
