(* ===== verification/Config.v ===== *)
(** * Config: configuration values, their sources and the table behind them

    [crates/common/src/config] and [persistence/config_store.rs].  The sources
    are the runtime overrides, the copy of the database rows and the
    environment; the typed accessors are keys with a type code and a default,
    and [resolve] is the accessor of a key.  The table is a map from instance
    and key, with the history of its changes.  Parsing and printing of
    floating-point numbers and of durations (the crate humantime) are
    parameters.  A poisoned lock is not modelled: no code panics while it
    holds one. *)

From Stdlib Require Import Ascii.
From stdpp Require Import pretty.
From S2P Require Import Prelude F64 NearClient Records.
Local Open Scope N_scope.

(** ** Numbers as text: [parse] and [to_string] of Rust's integers *)
Definition digit (a : ascii) : option N :=
  let n := N_of_ascii a in if (48 <=? n) && (n <=? 57) then Some (n - 48) else None.

(** Checked at every digit, against the largest value of the width. *)
Fixpoint digits_value (max acc : N) (s : string) : option N :=
  match s with
  | EmptyString => Some acc
  | String a rest =>
      match digit a with
      | Some d =>
          if max <? acc * 10 then None
          else if max <? acc * 10 + d then None
          else digits_value max (acc * 10 + d) rest
      | None => None
      end
  end.
Definition magnitude (max : N) (s : string) : option N :=
  match s with EmptyString => None | _ => digits_value max 0 s end.
Definition parse_unsigned (max : N) (s : string) : option N :=
  match s with
  | String "+" rest => magnitude max rest
  | _ => magnitude max s
  end.
Definition I64_MAX : N := 2 ^ 63 - 1.
Definition parse_i64 (s : string) : option Z :=
  match s with
  | String "-" rest => (fun n => (- Z.of_N n)%Z) <$> magnitude (I64_MAX + 1) rest
  | _ => Z.of_N <$> parse_unsigned I64_MAX s
  end.

(** [to_lowercase] then [parse::<bool>]; no character outside ASCII has a
    lower case that occurs in the two words. *)
Definition lower (a : ascii) : ascii :=
  let n := N_of_ascii a in if (65 <=? n) && (n <=? 90) then ascii_of_N (n + 32) else a.
Fixpoint to_lowercase (s : string) : string :=
  match s with EmptyString => EmptyString | String a rest => String (lower a) (to_lowercase rest) end.
Definition parse_bool (s : string) : option bool :=
  let v := to_lowercase s in
  if String.eqb v "true" then Some true else if String.eqb v "false" then Some false else None.

(** ** store.rs *)
Record Sources := mkSources {
  CONFIG_STORE : gmap string string;
  DB_STORE : gmap string string;
  env : gmap string string;
}.

Definition is_empty (s : string) : bool := match s with EmptyString => true | _ => false end.

Definition get_from_env (c : Sources) (name : string) : option string :=
  match env c !! name with
  | Some val => if is_empty val then None else Some val
  | None => None
  end.
Definition get (c : Sources) (name : string) : option string :=
  match CONFIG_STORE c !! name with
  | Some value => if is_empty value then None else Some value
  | None =>
      match DB_STORE c !! name with
      | Some value => if is_empty value then None else Some value
      | None => get_from_env c name
      end
  end.
Definition get_excluding_db (c : Sources) (name : string) : option string :=
  match CONFIG_STORE c !! name with
  | Some value => if is_empty value then None else Some value
  | None => get_from_env c name
  end.

Definition set (c : Sources) (name value : string) : Sources :=
  mkSources (<[name := value]> (CONFIG_STORE c)) (DB_STORE c) (env c).
Definition remove (c : Sources) (name : string) : Sources :=
  mkSources (delete name (CONFIG_STORE c)) (DB_STORE c) (env c).
Definition load_db_config (c : Sources) (configs : gmap string string) : Sources :=
  mkSources (CONFIG_STORE c) configs (env c).

(** The guards that restore a value when they are dropped. *)
Record ConfigGuard := mkConfigGuard { guard_key : string; previous : option string }.
Definition ConfigGuard_new (c : Sources) (key value : string) : Sources * ConfigGuard :=
  (set c key value, mkConfigGuard key (CONFIG_STORE c !! key)).
Definition ConfigGuard_drop (c : Sources) (g : ConfigGuard) : Sources :=
  match previous g with Some prev => set c (guard_key g) prev | None => remove c (guard_key g) end.
Definition DbStoreGuard_new (c : Sources) : gmap string string := DB_STORE c.
Definition DbStoreGuard_drop (c : Sources) (previous : gmap string string) : Sources := load_db_config c previous.

(** ** typed.rs *)
Inductive ConfigValueType : Type :=
  Bool | U16 | U32 | U64 | U128 | I64 | F64 | String_ | Duration.
Definition as_str (t : ConfigValueType) : string :=
  match t with
  | Bool => "bool" | U16 => "u16" | U32 => "u32" | U64 => "u64" | U128 => "u128"
  | I64 => "i64" | F64 => "f64" | String_ => "string" | Duration => "duration"
  end.

(** The types that implement [ConfigResolve], their values and defaults.  A
    duration is in nanoseconds; a required value has no default. *)
Inductive CType : Type :=
  TBool | TString | TU16 | TU32 | TU64 | TU128 | TUsize | TI64 | TF64 | TDuration | TRequired.
Definition VALUE_TYPE (t : CType) : ConfigValueType :=
  match t with
  | TBool => Bool | TString => String_ | TU16 => U16 | TU32 => U32 | TU64 => U64 | TU128 => U128
  | TUsize => U64 | TI64 => I64 | TF64 => F64 | TDuration => Duration | TRequired => String_
  end.
Definition value (t : CType) : Type :=
  match t with
  | TBool => bool | TString => string | TU16 | TU32 | TU64 | TU128 | TUsize | TDuration => N
  | TI64 => Z | TF64 => f64 | TRequired => option string
  end.
Definition Default (t : CType) : Type := match t with TRequired => unit | _ => value t end.

Class Formats := {
  parse_f64 : string -> option f64;
  show_f64 : f64 -> string;
  parse_duration : string -> option N;
  format_duration : N -> string;
}.

Definition width (t : CType) : N :=
  match t with TU16 => U16_MAX | TU32 => U32_MAX | TU64 => U64_MAX | TU128 => U128_MAX | _ => USIZE_MAX end.

Section resolve.
Context `{Formats}.

(** What a type makes of the text of a value, if there is one. *)
Definition resolve_as (t : CType) : option string -> Default t -> value t :=
  match t with
  | TBool => fun v d => default d (v ≫= parse_bool)
  | TString => fun v d => default d v
  | TU16 => fun v d => default d (v ≫= parse_unsigned U16_MAX)
  | TU32 => fun v d => default d (v ≫= parse_unsigned U32_MAX)
  | TU64 => fun v d => default d (v ≫= parse_unsigned U64_MAX)
  | TU128 => fun v d => default d (v ≫= parse_unsigned U128_MAX)
  | TUsize => fun v d => default d (v ≫= parse_unsigned USIZE_MAX)
  | TI64 => fun v d => default d (v ≫= parse_i64)
  | TF64 => fun v d => default d (v ≫= parse_f64)
  | TDuration => fun v d => default d (v ≫= parse_duration)
  | TRequired => fun v _ => v
  end.

Definition display_string (t : CType) : value t -> string :=
  match t with
  | TBool => fun b : bool => if b then "true" else "false"
  | TString => fun s => s
  | TU16 | TU32 | TU64 | TU128 | TUsize => fun n : N => pretty n
  | TI64 => fun z : Z => pretty z
  | TF64 => show_f64
  | TDuration => format_duration
  | TRequired => fun o : option string => default "(未設定)" o
  end.
End resolve.

(** A key of the macro [define_typed_config]: its accessor is [resolve]. *)
Record ConfigKey := mkConfigKey {
  key : string;
  description : string;
  key_type : CType;
  default_value : Default key_type;
}.

Definition resolve `{Formats} (c : Sources) (k : ConfigKey) : value (key_type k) :=
  resolve_as (key_type k) (get c (key k)) (default_value k).
Definition resolve_without_db `{Formats} (c : Sources) (k : ConfigKey) : value (key_type k) :=
  resolve_as (key_type k) (get_excluding_db c (key k)) (default_value k).

Record ResolvedKeyInfo := mkResolvedKeyInfo {
  info_key : string;
  info_description : string;
  info_type : ConfigValueType;
  resolved_value : string;
}.

(** *** The keys *)
Definition trade_enabled : ConfigKey :=
  mkConfigKey "TRADE_ENABLED" "Whether trading is enabled" TBool false.
Definition trade_initial_investment : ConfigKey :=
  mkConfigKey "TRADE_INITIAL_INVESTMENT" "Initial investment amount in NEAR" TU32 100.
Definition trade_top_tokens : ConfigKey :=
  mkConfigKey "TRADE_TOP_TOKENS" "Number of top tokens to track" TU32 10.
Definition trade_evaluation_days : ConfigKey :=
  mkConfigKey "TRADE_EVALUATION_DAYS" "Evaluation period in days" TU32 10.
Definition trade_account_reserve : ConfigKey :=
  mkConfigKey "TRADE_ACCOUNT_RESERVE" "Account reserve in NEAR" TU32 10.
Definition trade_cron_schedule : ConfigKey :=
  mkConfigKey "TRADE_CRON_SCHEDULE" "Cron schedule for trade execution" TString "0 0 0 * * *".
Definition record_rates_cron_schedule : ConfigKey :=
  mkConfigKey "RECORD_RATES_CRON_SCHEDULE" "Cron schedule for rate recording" TString "0 */15 * * * *".
Definition trade_prediction_max_retries : ConfigKey :=
  mkConfigKey "TRADE_PREDICTION_MAX_RETRIES" "Max retries for prediction fetch" TU32 2.
Definition trade_prediction_retry_delay_seconds : ConfigKey :=
  mkConfigKey "TRADE_PREDICTION_RETRY_DELAY_SECONDS" "Delay between prediction retries in seconds" TU64 5.
Definition trade_price_history_days : ConfigKey :=
  mkConfigKey "TRADE_PRICE_HISTORY_DAYS" "Days of price history for predictions and volatility calculation" TU32 30.
Definition trade_unwrap_on_stop : ConfigKey :=
  mkConfigKey "TRADE_UNWRAP_ON_STOP" "Whether to unwrap wrap.near on stop" TBool false.
Definition trade_prediction_concurrency : ConfigKey :=
  mkConfigKey "TRADE_PREDICTION_CONCURRENCY" "Parallel prediction tasks" TU32 4.
Definition trade_prediction_chunk_size : ConfigKey :=
  mkConfigKey "TRADE_PREDICTION_CHUNK_SIZE" "Number of tokens to process per prediction chunk.
 Controls peak memory: each chunk loads chunk_size * ~2335 rows of price history.
 Recommended range: 5–50. Smaller values reduce peak memory but increase DB round-trips." TU32 20.
Definition trade_prediction_model_threads : ConfigKey :=
  mkConfigKey "TRADE_PREDICTION_MODEL_THREADS" "Number of threads for model training pool.
 Controls peak memory: each thread can hold one augurs model buffer (~200 MB).
 Independent of TRADE_PREDICTION_CONCURRENCY.
 Recommended range: 1–8. Higher values increase peak memory proportionally." TU32 3.
Definition trade_min_pool_liquidity : ConfigKey :=
  mkConfigKey "TRADE_MIN_POOL_LIQUIDITY" "Minimum pool liquidity in NEAR" TU32 100.
Definition trade_token_cache_concurrency : ConfigKey :=
  mkConfigKey "TRADE_TOKEN_CACHE_CONCURRENCY" "Parallel token cache update tasks" TU32 8.
Definition trade_token_cache_backoff_base_minutes : ConfigKey :=
  mkConfigKey "TRADE_TOKEN_CACHE_BACKOFF_BASE_MINUTES" "Base backoff interval in minutes for failed decimals RPC fetches" TU64 15.
Definition trade_token_cache_max_backoff_minutes : ConfigKey :=
  mkConfigKey "TRADE_TOKEN_CACHE_MAX_BACKOFF_MINUTES" "Maximum backoff interval in minutes for failed decimals RPC fetches" TU64 1440.
Definition trade_min_token_confidence : ConfigKey :=
  mkConfigKey "TRADE_MIN_TOKEN_CONFIDENCE" "Minimum per-token prediction confidence to include in portfolio.
 Tokens below this threshold are excluded from trading." TF64 (f64_literal 3 1).
Definition arbitrage_needed : ConfigKey :=
  mkConfigKey "ARBITRAGE_NEEDED" "Whether arbitrage engine is enabled" TBool false.
Definition arbitrage_token_not_found_wait : ConfigKey :=
  mkConfigKey "ARBITRAGE_TOKEN_NOT_FOUND_WAIT" "Wait duration when token not found" TDuration (1 * 10 ^ 9).
Definition arbitrage_other_error_wait : ConfigKey :=
  mkConfigKey "ARBITRAGE_OTHER_ERROR_WAIT" "Wait duration on other errors" TDuration (5 * 10 ^ 9).
Definition arbitrage_preview_not_found_wait : ConfigKey :=
  mkConfigKey "ARBITRAGE_PREVIEW_NOT_FOUND_WAIT" "Wait duration when preview not found" TDuration (2 * 10 ^ 9).
Definition harvest_account_id : ConfigKey :=
  mkConfigKey "HARVEST_ACCOUNT_ID" "Harvest destination account ID (required)" TRequired tt.
Definition harvest_min_amount : ConfigKey :=
  mkConfigKey "HARVEST_MIN_AMOUNT" "Minimum NEAR to trigger harvest" TU32 10.
Definition harvest_reserve_amount : ConfigKey :=
  mkConfigKey "HARVEST_RESERVE_AMOUNT" "NEAR to keep in account when harvesting" TU32 1.
Definition harvest_interval_seconds : ConfigKey :=
  mkConfigKey "HARVEST_INTERVAL_SECONDS" "Interval between harvests in seconds" TU64 86400.
Definition harvest_balance_multiplier : ConfigKey :=
  mkConfigKey "HARVEST_BALANCE_MULTIPLIER" "Multiplier for harvest balance calculation" TU128 128.
Definition rpc_max_attempts : ConfigKey :=
  mkConfigKey "RPC_MAX_ATTEMPTS" "Max RPC retry attempts" TU16 128.
Definition pool_info_retention_days : ConfigKey :=
  mkConfigKey "POOL_INFO_RETENTION_DAYS" "Retention period for pool info records in days" TU32 30.
Definition token_rates_retention_days : ConfigKey :=
  mkConfigKey "TOKEN_RATES_RETENTION_DAYS" "Retention period for token rate records in days" TU32 90.
Definition evaluation_periods_retention_days : ConfigKey :=
  mkConfigKey "EVALUATION_PERIODS_RETENTION_DAYS" "Retention period for evaluation period records in days
 (ON DELETE CASCADE also removes related trade_transactions and portfolio_holdings)" TU32 365.
Definition config_store_history_retention_days : ConfigKey :=
  mkConfigKey "CONFIG_STORE_HISTORY_RETENTION_DAYS" "Retention period for config store history records in days" TU32 365.
Definition cron_max_sleep_seconds : ConfigKey :=
  mkConfigKey "CRON_MAX_SLEEP_SECONDS" "Max sleep duration in cron loop in seconds" TU64 60.
Definition cron_log_threshold_seconds : ConfigKey :=
  mkConfigKey "CRON_LOG_THRESHOLD_SECONDS" "Log threshold for long waits in seconds" TU64 300.
Definition db_maintenance_cron_schedule : ConfigKey :=
  mkConfigKey "DB_MAINTENANCE_CRON_SCHEDULE" "Cron schedule for database maintenance (REINDEX)" TString "0 0 4 * * 7".
Definition portfolio_rebalance_threshold : ConfigKey :=
  mkConfigKey "PORTFOLIO_REBALANCE_THRESHOLD" "Portfolio rebalance trigger threshold" TF64 (f64_literal 1 1).
Definition liquidity_volume_weight : ConfigKey :=
  mkConfigKey "LIQUIDITY_VOLUME_WEIGHT" "Weight for volume-based liquidity score" TF64 (f64_literal 6 1).
Definition liquidity_pool_weight : ConfigKey :=
  mkConfigKey "LIQUIDITY_POOL_WEIGHT" "Weight for pool-based liquidity score" TF64 (f64_literal 4 1).
Definition liquidity_error_default_score : ConfigKey :=
  mkConfigKey "LIQUIDITY_ERROR_DEFAULT_SCORE" "Default liquidity score on error" TF64 (f64_literal 3 1).
Definition prediction_record_retention_days : ConfigKey :=
  mkConfigKey "PREDICTION_RECORD_RETENTION_DAYS" "Retention days for evaluated prediction records" TU32 30.
Definition prediction_unevaluated_retention_days : ConfigKey :=
  mkConfigKey "PREDICTION_UNEVALUATED_RETENTION_DAYS" "Retention days for unevaluated predictions" TU32 20.
Definition prediction_eval_tolerance_minutes : ConfigKey :=
  mkConfigKey "PREDICTION_EVAL_TOLERANCE_MINUTES" "Time tolerance for prediction evaluation in minutes" TI64 (30)%Z.
Definition prediction_accuracy_window : ConfigKey :=
  mkConfigKey "PREDICTION_ACCURACY_WINDOW" "Window size for accuracy calculation" TI64 (20)%Z.
Definition prediction_accuracy_min_samples : ConfigKey :=
  mkConfigKey "PREDICTION_ACCURACY_MIN_SAMPLES" "Min samples needed for accuracy evaluation" TUsize 5.
Definition prediction_mape_excellent : ConfigKey :=
  mkConfigKey "PREDICTION_MAPE_EXCELLENT" "MAPE threshold for excellent predictions" TF64 (f64_literal 30 1).
Definition prediction_mape_poor : ConfigKey :=
  mkConfigKey "PREDICTION_MAPE_POOR" "MAPE threshold for poor predictions" TF64 (f64_literal 150 1).
Definition ref_storage_max_top_up_yoctonear : ConfigKey :=
  mkConfigKey "REF_STORAGE_MAX_TOP_UP_YOCTONEAR" "Maximum auto top-up amount per cycle for REF Finance storage (in yoctoNEAR).
 Default: 0.5 NEAR = 500_000_000_000_000_000_000_000

 **Absolute ceiling**: regardless of the configured value (env, TOML, DB_STORE,
 CONFIG_STORE), the effective top-up per cycle is capped at
 [`REF_STORAGE_MAX_TOP_UP_ABSOLUTE_CEILING`] (= 5 NEAR). This exists to
 defend against cap bypass via DB write privilege compromise; see the
 constant's doc for the threat model." TU128 500000000000000000000000.

Definition KEY_DEFINITIONS : list ConfigKey :=
  [trade_enabled; trade_initial_investment; trade_top_tokens;
   trade_evaluation_days; trade_account_reserve; trade_cron_schedule;
   record_rates_cron_schedule; trade_prediction_max_retries; trade_prediction_retry_delay_seconds;
   trade_price_history_days; trade_unwrap_on_stop; trade_prediction_concurrency;
   trade_prediction_chunk_size; trade_prediction_model_threads; trade_min_pool_liquidity;
   trade_token_cache_concurrency; trade_token_cache_backoff_base_minutes; trade_token_cache_max_backoff_minutes;
   trade_min_token_confidence; arbitrage_needed; arbitrage_token_not_found_wait;
   arbitrage_other_error_wait; arbitrage_preview_not_found_wait; harvest_account_id;
   harvest_min_amount; harvest_reserve_amount; harvest_interval_seconds;
   harvest_balance_multiplier; rpc_max_attempts; pool_info_retention_days;
   token_rates_retention_days; evaluation_periods_retention_days; config_store_history_retention_days;
   cron_max_sleep_seconds; cron_log_threshold_seconds; db_maintenance_cron_schedule;
   portfolio_rebalance_threshold; liquidity_volume_weight; liquidity_pool_weight;
   liquidity_error_default_score; prediction_record_retention_days; prediction_unevaluated_retention_days;
   prediction_eval_tolerance_minutes; prediction_accuracy_window; prediction_accuracy_min_samples;
   prediction_mape_excellent; prediction_mape_poor; ref_storage_max_top_up_yoctonear].

Definition resolve_all_without_db `{Formats} (c : Sources) : list ResolvedKeyInfo :=
  map (fun k => mkResolvedKeyInfo (key k) (description k) (VALUE_TYPE (key_type k))
         (display_string (key_type k) (resolve_without_db c k))) KEY_DEFINITIONS.

(** ** config_store.rs *)

Record DbConfigEntry := mkDbConfigEntry {
  instance_id : string;
  entry_key : string;
  entry_value : string;
}.
#[global] Instance DbConfigEntry_eq_dec : EqDecision DbConfigEntry.
Proof. solve_decision. Defined.
Record History := mkHistory {
  h_instance : string;
  h_key : string;
  old_value : option string;
  new_value : string;
  changed_at : NaiveDateTime;
}.
(** The table, unique in instance and key, with value and description, and
    the rows of its history in the order of their insertion. *)
Record ConfigDb := mkConfigDb {
  config_store : gmap (string * string) (string * option string);
  config_store_history : list History;
}.

Definition GLOBAL : string := "*".

Section table.
(** The order of the database's collation. *)
Context (collate_le : string -> string -> bool).

Definition rows (db : ConfigDb) : list DbConfigEntry :=
  map (fun '((i, k), (v, _)) => mkDbConfigEntry i k v) (map_to_list (config_store db)).
Definition for_instance (id : string) (e : DbConfigEntry) : bool :=
  String.eqb (instance_id e) id || String.eqb (instance_id e) GLOBAL.
Definition desc (a b : DbConfigEntry) : Prop := collate_le (instance_id b) (instance_id a) = true.
#[global] Instance desc_dec a b : Decision (desc a b).
Proof. unfold desc. apply _. Defined.
Definition order_desc (l : list DbConfigEntry) : list DbConfigEntry := merge_sort desc l.

Definition select_all (db : ConfigDb) (id : string) : list DbConfigEntry :=
  order_desc (List.filter (for_instance id) (rows db)).
Definition select_key (db : ConfigDb) (id k : string) : list DbConfigEntry :=
  order_desc (List.filter (fun e => for_instance id e && String.eqb (entry_key e) k) (rows db)).

Definition insert_entry (m : gmap string string) (e : DbConfigEntry) : gmap string string :=
  <[entry_key e := entry_value e]> m.
Definition get_all_for_instance (db : ConfigDb) (id : string) : gmap string string :=
  let results := select_all db id in
  let m := foldl insert_entry ∅ (List.filter (fun e => String.eqb (instance_id e) GLOBAL) results) in
  foldl insert_entry m (List.filter (fun e => negb (String.eqb (instance_id e) GLOBAL)) results).
Definition get_one (db : ConfigDb) (id k : string) : option string :=
  entry_value <$> head (select_key db id k).
Definition reload_to_config (db : ConfigDb) (id : string) (c : Sources) : Sources :=
  load_db_config c (get_all_for_instance db id).
End table.

Definition upsert (db : ConfigDb) (now : NaiveDateTime) (id k v : string) (descr : option string) : ConfigDb :=
  let old := fst <$> config_store db !! (id, k) in
  mkConfigDb (<[(id, k) := (v, descr)]> (config_store db))
    (config_store_history db ++ [mkHistory id k old v now]).
Definition delete_config (db : ConfigDb) (now : NaiveDateTime) (id k : string) : ConfigDb :=
  match config_store db !! (id, k) with
  | Some (v, _) =>
      mkConfigDb (delete (id, k) (config_store db))
        (config_store_history db ++ [mkHistory id k (Some v) "(deleted)" now])
  | None => db
  end.

Definition CONFIG_MIN_RETENTION_DAYS : N := 7.
(** A clean-up at [now]; the date may leave the calendar, which panics. *)
Definition cleanup_old_history (db : ConfigDb) (now : NaiveDateTime) (retention_days : N) : outcome anyhow ConfigDb :=
  if retention_days =? 0 then Ok db
  else
    let effective_days := N.max retention_days CONFIG_MIN_RETENTION_DAYS in
    let? cutoff := cutoff_date now effective_days in
    Ok (mkConfigDb (config_store db) (List.filter (fun h => negb (changed_at h <? cutoff)%Z) (config_store_history db))).

(** ** startup.rs *)
Record RpcEndpoint := mkRpcEndpoint { url : string; weight : N; max_retries : N }.
Definition default_weight : N := 10.
Definition default_max_retries : N := 3.
Record StartupConfig := mkStartupConfig {
  is_mainnet : bool;
  database_url : string;
  pg_pool_size : N;
  rust_log_format : string;
  rpc_endpoints : list RpcEndpoint;
  rpc_failure_reset_seconds : N;
  root_account_id : string;
  root_mnemonic : string;
  root_hdpath : string;
  startup_instance_id : string;
  google_client_id : string;
}.
Definition env_string (e : gmap string string) (k : string) : option string :=
  match e !! k with Some v => if is_empty v then None else Some v | None => None end.
(** [bool::from_str], which is case sensitive. *)
Definition bool_from_str (s : string) : option bool :=
  if String.eqb s "true" then Some true else if String.eqb s "false" then Some false else None.
Definition env_parse {T} (from_str : string -> option T) (e : gmap string string) (k : string) : option T :=
  env_string e k ≫= from_str.
(** [from_json] is the JSON decoder of the endpoints. *)
Definition startup_resolve (from_json : string -> option (list RpcEndpoint)) (e : gmap string string) : StartupConfig :=
  mkStartupConfig
    (default true (env_parse bool_from_str e "USE_MAINNET"))
    (default "" (env_string e "DATABASE_URL"))
    (default 2 (env_parse (parse_unsigned USIZE_MAX) e "PG_POOL_SIZE"))
    (default "json" (env_string e "RUST_LOG_FORMAT"))
    (default [] (env_parse from_json e "RPC_ENDPOINTS"))
    (default 300 (env_parse (parse_unsigned U64_MAX) e "RPC_FAILURE_RESET_SECONDS"))
    (default "" (env_string e "ROOT_ACCOUNT_ID"))
    (default "" (env_string e "ROOT_MNEMONIC"))
    (default "m/44'/397'/0'" (env_string e "ROOT_HDPATH"))
    (default GLOBAL (env_string e "INSTANCE_ID"))
    (default "" (env_string e "GOOGLE_CLIENT_ID")).

(** What the debug output shows of a secret. *)
Definition presence (s : string) : string := if is_empty s then "[unset]" else "[redacted]".

(** ** Numbers and their text *)
Lemma digit_char x : x < 10 -> digit (pretty_N_char x) = Some x.
Proof.
  intros Hx. assert (x = 0 \/ x = 1 \/ x = 2 \/ x = 3 \/ x = 4 \/ x = 5 \/ x = 6 \/ x = 7 \/ x = 8 \/ x = 9)
    as Hcases by lia.
  by repeat (destruct Hcases as [->|Hcases]; [reflexivity|]); subst.
Qed.
Lemma pretty_digits max x s : x <= max ->
  digits_value max 0 (pretty_N_go x s) = digits_value max x s.
Proof.
  revert s. induction (N.lt_wf_0 x) as [x _ IH]. intros s Hx.
  destruct (decide (x = 0)) as [->|Hx0]; [by rewrite pretty_N_go_0|].
  pose proof (N.div_mod x 10 ltac:(done)) as Hdm. pose proof (N.mod_lt x 10 ltac:(done)) as Hm.
  pose proof (N.Div0.mul_div_le x 10) as Hle. assert (Hpos : 0 < x) by lia.
  rewrite pretty_N_go_step by done. rewrite IH; [|by apply N.div_lt|lia]. cbn [digits_value].
  rewrite digit_char by done. replace (x / 10 * 10 + x mod 10) with x by lia.
  destruct (N.ltb_spec max (x / 10 * 10)); [lia|]. by destruct (N.ltb_spec max x); [lia|].
Qed.

(** The text of a number begins with a digit. *)
Definition starts_with_digit (s : string) : Prop := exists a rest d, s = String a rest /\ digit a = Some d.
Lemma pretty_go_digit x s : 0 < x \/ starts_with_digit s -> starts_with_digit (pretty_N_go x s).
Proof.
  revert s. induction (N.lt_wf_0 x) as [x _ IH]. intros s Hs.
  destruct (decide (x = 0)) as [->|Hx0]; [rewrite pretty_N_go_0; by destruct Hs|].
  rewrite pretty_N_go_step by lia. apply IH; [apply N.div_lt; lia|right].
  eexists _, s, _. split; [done|]. by apply digit_char, N.mod_lt.
Qed.
Lemma pretty_digit (x : N) : starts_with_digit (pretty x).
Proof.
  unfold pretty, pretty_N. case_decide; [by exists "0"%char, "", 0|]. apply pretty_go_digit. left. lia.
Qed.

Lemma magnitude_pretty max (n : N) : n <= max -> magnitude max (pretty n) = Some n.
Proof.
  intros Hn. destruct (pretty_digit n) as (a & r & d & Heq & _). unfold magnitude. rewrite Heq, <- Heq.
  unfold pretty, pretty_N. case_decide as H0; [|by rewrite pretty_digits].
  subst n. by destruct max.
Qed.
Lemma starts_no_sign s b rest : starts_with_digit s -> s = String b rest -> b <> "+"%char /\ b <> "-"%char.
Proof. intros (a & r & d & -> & Hd) [= -> ->]. split; intros ->; discriminate. Qed.
Lemma parse_unsigned_digit max s : starts_with_digit s -> parse_unsigned max s = magnitude max s.
Proof.
  intros Hs. destruct s as [|a r]; [done|]. destruct (starts_no_sign _ _ _ Hs eq_refl) as [Ha _].
  destruct a as [[] [] [] [] [] [] [] []]; try reflexivity. by destruct Ha.
Qed.
Lemma parse_i64_digit s : starts_with_digit s -> parse_i64 s = Z.of_N <$> parse_unsigned I64_MAX s.
Proof.
  intros Hs. destruct s as [|a r]; [done|]. destruct (starts_no_sign _ _ _ Hs eq_refl) as [_ Ha].
  destruct a as [[] [] [] [] [] [] [] []]; try reflexivity. by destruct Ha.
Qed.
Lemma parse_pretty max (n : N) : n <= max -> parse_unsigned max (pretty n) = Some n.
Proof. intros Hn. rewrite parse_unsigned_digit by apply pretty_digit. by apply magnitude_pretty. Qed.
Lemma parse_pretty_Z (z : Z) : (- 2 ^ 63 <= z < 2 ^ 63)%Z -> parse_i64 (pretty z) = Some z.
Proof.
  intros Hz. destruct z as [|p|p].
  - reflexivity.
  - change (pretty (Z.pos p)) with (pretty (N.pos p)).
    rewrite parse_i64_digit by apply pretty_digit. rewrite parse_pretty; [done|]. unfold I64_MAX. lia.
  - change (pretty (Z.neg p)) with (String "-" (pretty (N.pos p))). cbn [parse_i64].
    rewrite magnitude_pretty; [done|]. unfold I64_MAX. lia.
Qed.

(** ** Values and their text *)
Section text.
Context `{Formats}.

(** A value that survives being written as text. *)
Definition storable (t : CType) : value t -> Prop :=
  match t with
  | TBool => fun _ => True
  | TString => fun s : string => s <> ""
  | TU16 => fun n : N => n <= U16_MAX
  | TU32 => fun n : N => n <= U32_MAX
  | TU64 => fun n : N => n <= U64_MAX
  | TU128 => fun n : N => n <= U128_MAX
  | TUsize => fun n : N => n <= USIZE_MAX
  | TI64 => fun z : Z => (- 2 ^ 63 <= z < 2 ^ 63)%Z
  | TF64 => fun x => parse_f64 (show_f64 x) = Some x /\ show_f64 x <> ""
  | TDuration => fun d => parse_duration (format_duration d) = Some d /\ format_duration d <> ""
  | TRequired => fun o : option string => exists s, o = Some s /\ s <> ""
  end.

Lemma is_empty_false s : is_empty s = false <-> s <> "".
Proof using Type. by destruct s. Qed.
Lemma starts_nonempty s : starts_with_digit s -> is_empty s = false.
Proof using Type. by intros (a & r & d & -> & _). Qed.

Lemma resolve_display t v d : storable t v ->
  is_empty (display_string t v) = false /\ resolve_as t (Some (display_string t v)) d = v.
Proof using Type.
  destruct t; cbn [storable display_string resolve_as option_bind mbind]; intros Hv.
  - by destruct v.
  - by rewrite is_empty_false.
  - split; [apply starts_nonempty, pretty_digit|]. cbn. by rewrite parse_pretty.
  - split; [apply starts_nonempty, pretty_digit|]. cbn. by rewrite parse_pretty.
  - split; [apply starts_nonempty, pretty_digit|]. cbn. by rewrite parse_pretty.
  - split; [apply starts_nonempty, pretty_digit|]. cbn. by rewrite parse_pretty.
  - split; [apply starts_nonempty, pretty_digit|]. cbn. by rewrite parse_pretty.
  - split; [|cbn; by rewrite parse_pretty_Z].
    destruct v as [|p|p]; [done|apply (starts_nonempty _ (pretty_digit (N.pos p)))|done].
  - destruct Hv as [Hp Hn]. rewrite is_empty_false. cbn. by rewrite Hp.
  - destruct Hv as [Hp Hn]. rewrite is_empty_false. cbn. by rewrite Hp.
  - destruct Hv as (s & -> & Hs). by rewrite is_empty_false.
Qed.
End text.

Lemma keys_distinct : NoDup (map key KEY_DEFINITIONS).
Proof. apply (bool_decide_unpack _). vm_compute. exact I. Qed.

(** ** The rows of an instance *)
(** The value of a key for an instance: its own row, else the global one. *)
Definition effective (db : ConfigDb) (id k : string) : option string :=
  match config_store db !! (id, k) with
  | Some (v, _) => Some v
  | None => fst <$> config_store db !! (GLOBAL, k)
  end.

Lemma elem_of_rows db e : e ∈ rows db <->
  exists descr, config_store db !! (instance_id e, entry_key e) = Some (entry_value e, descr).
Proof.
  unfold rows. rewrite list_elem_of_fmap. split.
  - intros ([[i k] [v descr]] & -> & Hin). apply elem_of_map_to_list in Hin. by exists descr.
  - intros [descr Hin]. exists ((instance_id e, entry_key e), (entry_value e, descr)).
    split; [by destruct e|by apply elem_of_map_to_list].
Qed.
Lemma elem_of_filterb {A} (f : A -> bool) (l : list A) x : x ∈ List.filter f l <-> x ∈ l /\ f x = true.
Proof. rewrite !list_elem_of_In. apply filter_In. Qed.
Lemma rows_unique db e e' : e ∈ rows db -> e' ∈ rows db ->
  instance_id e = instance_id e' -> entry_key e = entry_key e' -> e = e'.
Proof.
  rewrite !elem_of_rows. destruct e as [i k v], e' as [i' k' v']. cbn. intros [d Hd] [d' Hd'] -> ->. congruence.
Qed.
Lemma for_instance_true id e : for_instance id e = true <-> instance_id e = id \/ instance_id e = GLOBAL.
Proof. unfold for_instance. by rewrite orb_true_iff, !String.eqb_eq. Qed.

Lemma foldl_insert_None m l k : (forall e, e ∈ l -> entry_key e <> k) -> foldl insert_entry m l !! k = m !! k.
Proof.
  revert m. induction l as [|e l IH]; intros m Hl; [done|]. cbn. rewrite IH.
  - unfold insert_entry. rewrite lookup_insert_ne; [done|]. apply Hl. by left.
  - intros e' He'. apply Hl. by right.
Qed.
Lemma foldl_insert_Some m l e : e ∈ l -> (forall e', e' ∈ l -> entry_key e' = entry_key e -> e' = e) ->
  foldl insert_entry m l !! entry_key e = Some (entry_value e).
Proof.
  revert m. induction l as [|x l IH]; intros m Hin Hu; [by apply not_elem_of_nil in Hin|]. cbn.
  destruct (decide (e ∈ l)) as [Hl|Hl].
  - apply IH; [done|]. intros e' He'. apply Hu. by right.
  - apply elem_of_cons in Hin as [->|Hin]; [|done]. rewrite foldl_insert_None.
    + unfold insert_entry. by rewrite lookup_insert_eq.
    + intros e' He' Hk. apply Hl. rewrite <- (Hu e'); [done|by right|done].
Qed.

Section table.
Context (collate_le : string -> string -> bool).

Lemma elem_of_order_desc l e : e ∈ order_desc collate_le l <-> e ∈ l.
Proof using Type. unfold order_desc. by rewrite merge_sort_Permutation. Qed.
Lemma elem_of_select_all db id e : e ∈ select_all collate_le db id <->
  e ∈ rows db /\ (instance_id e = id \/ instance_id e = GLOBAL).
Proof using Type. unfold select_all. by rewrite elem_of_order_desc, elem_of_filterb, for_instance_true. Qed.
Lemma elem_of_select_key db id k e : e ∈ select_key collate_le db id k <->
  e ∈ rows db /\ (instance_id e = id \/ instance_id e = GLOBAL) /\ entry_key e = k.
Proof using Type.
  unfold select_key. by rewrite elem_of_order_desc, elem_of_filterb, andb_true_iff, for_instance_true, String.eqb_eq.
Qed.

(** The rows of one instance among those selected, entered into a map. *)
Lemma foldl_instance m db l i k :
  (forall e, e ∈ l <-> e ∈ rows db /\ instance_id e = i) ->
  foldl insert_entry m l !! k =
  match config_store db !! (i, k) with Some (v, _) => Some v | None => m !! k end.
Proof using Type.
  intros Hl. destruct (config_store db !! (i, k)) as [[v descr]|] eqn:Hk.
  - apply (foldl_insert_Some m l (mkDbConfigEntry i k v)).
    + apply Hl. rewrite elem_of_rows. cbn. split; [by exists descr|done].
    + intros e' He' Hke. apply Hl in He' as [Hr Hi].
      apply (rows_unique db); [done|apply elem_of_rows; cbn; by exists descr|done|done].
  - apply foldl_insert_None. intros e He Hke. apply Hl in He as [Hr Hi]. apply elem_of_rows in Hr as [d Hr].
    rewrite Hi, Hke, Hk in Hr. done.
Qed.
Lemma get_all_lookup db id k : get_all_for_instance collate_le db id !! k = effective db id k.
Proof using Type.
  unfold get_all_for_instance, effective.
  assert (Hg : forall m, foldl insert_entry m
    (List.filter (fun e => String.eqb (instance_id e) GLOBAL) (select_all collate_le db id)) !! k =
    match config_store db !! (GLOBAL, k) with Some (v, _) => Some v | None => m !! k end).
  { intros m. apply (foldl_instance m db). intros e.
    rewrite elem_of_filterb, elem_of_select_all, String.eqb_eq. intuition. }
  destruct (decide (id = GLOBAL)) as [->|Hne].
  - rewrite foldl_insert_None.
    + rewrite Hg. by destruct (config_store db !! (GLOBAL, k)) as [[]|].
    + intros e He. exfalso. apply elem_of_filterb in He as [He Hn]. apply elem_of_select_all in He as [_ He].
      apply negb_true_iff, String.eqb_neq in Hn. by destruct He.
  - rewrite (foldl_instance _ db _ id k).
    + rewrite Hg. destruct (config_store db !! (id, k)) as [[]|]; [done|].
      by destruct (config_store db !! (GLOBAL, k)) as [[]|].
    + intros e. rewrite elem_of_filterb, elem_of_select_all, negb_true_iff, String.eqb_neq. intuition congruence.
Qed.

Context (collate_total : forall a b, collate_le a b = true \/ collate_le b a = true).
Context (collate_trans : forall a b c, collate_le a b = true -> collate_le b c = true -> collate_le a c = true).

#[local] Instance desc_total : Total (desc collate_le).
Proof using collate_total. intros a b. unfold desc. destruct (collate_total (instance_id a) (instance_id b)); auto. Qed.
#[local] Instance desc_trans : Transitive (desc collate_le).
Proof using collate_trans. intros a b c. unfold desc. eauto. Qed.

Lemma order_desc_head l e e' : head (order_desc collate_le l) = Some e -> e' ∈ l -> e' = e \/ desc collate_le e e'.
Proof using collate_total collate_trans.
  intros Hh He'. pose proof (StronglySorted_merge_sort (desc collate_le) l) as Hs.
  apply elem_of_order_desc in He'. unfold order_desc in *. destruct (merge_sort _ l) as [|x r]; [done|].
  injection Hh as ->. apply StronglySorted_inv in Hs as [_ Hs]. rewrite Forall_forall in Hs.
  apply elem_of_cons in He' as [->|He']; [by left|right]. by apply Hs, list_elem_of_In.
Qed.

Lemma get_one_effective db id k : id = GLOBAL \/ collate_le id GLOBAL = false ->
  get_one collate_le db id k = effective db id k.
Proof using collate_total collate_trans.
  intros Hid. unfold get_one, effective.
  destruct (head (select_key collate_le db id k)) as [e|] eqn:Hh.
  - assert (He : e ∈ select_key collate_le db id k).
    { destruct (select_key _ _ _ _); [done|]. injection Hh as ->. by left. }
    apply elem_of_select_key in He as (Hr & Hi & Hk). pose proof Hr as Hr'. apply elem_of_rows in Hr' as [d Hd].
    rewrite Hk in Hd. destruct (decide (instance_id e = id)) as [Hid'|Hne].
    { rewrite Hid' in Hd. by rewrite Hd. }
    destruct Hi as [|Hg]; [done|]. rewrite Hg in Hd. rewrite Hd.
    destruct (config_store db !! (id, k)) as [[v' d']|] eqn:Hown; [|done]. exfalso.
    destruct (order_desc_head _ _ (mkDbConfigEntry id k v') Hh) as [<-|Hdesc].
    + apply elem_of_filterb. split; [apply elem_of_rows; cbn; by eexists|]. cbn.
      apply andb_true_iff. split; [|apply String.eqb_refl]. apply for_instance_true. by left.
    + done.
    + unfold desc in Hdesc. cbn in Hdesc. rewrite Hg in Hdesc.
      destruct Hid as [->|Hid]; [by rewrite Hg in Hne|congruence].
  - assert (Hnone : forall e, e ∉ select_key collate_le db id k) by (destruct (select_key _ _ _ _); [apply not_elem_of_nil|done]).
    assert (Hno : forall i, i = id \/ i = GLOBAL -> config_store db !! (i, k) = None).
    { intros i Hi. destruct (config_store db !! (i, k)) as [[v d]|] eqn:E; [|done]. exfalso.
      apply (Hnone (mkDbConfigEntry i k v)). apply elem_of_select_key. split_and!; [|done|done].
      apply elem_of_rows. cbn. by exists d. }
    rewrite !Hno by auto. done.
Qed.
End table.

(** ** Byte order, the collation "C" *)
Lemma ascii_compare a b : Ascii.compare a b = (N_of_ascii a ?= N_of_ascii b)%N.
Proof. reflexivity. Qed.
Lemma leb_cons a s b t : String.leb (String a s) (String b t) = true <->
  N_of_ascii a < N_of_ascii b \/ (a = b /\ String.leb s t = true).
Proof.
  unfold String.leb. cbn [String.compare]. rewrite ascii_compare.
  destruct (N.compare_spec (N_of_ascii a) (N_of_ascii b)) as [E|Hlt|Hgt].
  - assert (a = b) as -> by (by rewrite <- (ascii_N_embedding a), <- (ascii_N_embedding b), E).
    split; [by right|]. intros [Hlt|[_ Hc]]; [lia|done].
  - split; [by left|done].
  - split; [done|]. intros [?|[-> _]]; lia.
Qed.
Lemma leb_trans a b c : String.leb a b = true -> String.leb b c = true -> String.leb a c = true.
Proof.
  revert b c. induction a as [|x a IH]; intros [|y b] [|z c]; try done.
  rewrite !leb_cons. intros [Hxy|[-> Hab]] [Hyz|[-> Hbc]]; [left; lia|by left|by left|right]. eauto.
Qed.
Lemma leb_either a b : String.leb a b = true \/ String.leb b a = true.
Proof.
  revert b. induction a as [|x a IH]; intros [|y b]; [by left|by left|by right|]. rewrite !leb_cons.
  destruct (N.lt_trichotomy (N_of_ascii x) (N_of_ascii y)) as [|[E|]]; [by left; left| |by right; left].
  assert (x = y) as -> by (by rewrite <- (ascii_N_embedding x), <- (ascii_N_embedding y), E).
  destruct (IH b); auto.
Qed.

(** ** Reading through the sources *)
Section sources.
Context `{Formats} (collate_le : string -> string -> bool).
Abbreviation reload := (reload_to_config collate_le).

Lemma reload_get db id c k : CONFIG_STORE c !! k = None ->
  get (reload db id c) k =
  match effective db id k with Some v => if is_empty v then None else Some v | None => get_from_env c k end.
Proof using Type. intros Hc. unfold get. cbn. by rewrite Hc, get_all_lookup. Qed.
Lemma reload_get_same db db' id id' c k : effective db id k = effective db' id' k ->
  get (reload db id c) k = get (reload db' id' c) k.
Proof using Type. intros He. unfold get. cbn. by rewrite !get_all_lookup, He. Qed.
Lemma effective_upsert db now id k v descr id' k' :
  effective (upsert db now id k v descr) id' k' =
  if decide ((id, k) = (id', k')) then Some v
  else match config_store db !! (id', k') with
       | Some (w, _) => Some w
       | None => if decide ((id, k) = (GLOBAL, k')) then Some v else fst <$> config_store db !! (GLOBAL, k')
       end.
Proof using Type.
  unfold effective, upsert. cbn [config_store]. rewrite !lookup_insert.
  destruct (decide ((id, k) = (id', k'))); [done|]. destruct (config_store db !! (id', k')) as [[]|]; [done|].
  by destruct (decide ((id, k) = (GLOBAL, k'))).
Qed.
Lemma effective_delete db now id k : id <> GLOBAL ->
  effective (delete_config db now id k) id k = fst <$> config_store db !! (GLOBAL, k).
Proof using Type.
  intros Hid. unfold effective, delete_config. destruct (config_store db !! (id, k)) as [[v d]|] eqn:E; cbn [config_store].
  - rewrite lookup_delete_eq, lookup_delete_ne by congruence. done.
  - by rewrite E.
Qed.
End sources.

(** ** The claims *)

(** C40: A value of any type that is written for an instance in its text form,
    with no runtime override, is what the typed accessor returns after that
    instance reloads, whatever the environment and the global rows hold.  No
    other accessor changes, nor any other instance, unless the value was
    written globally: then every instance without a row of its own reads it.
    Deleting the row makes the accessor fall back to the environment and the
    default when there is no global row.  The listing of effective values
    without the database never changes. *)
Theorem configured_value_read_back `{Formats} collate_le db now id k (v : value (key_type k)) descr c :
  storable (key_type k) v -> CONFIG_STORE c !! key k = None ->
  let db' := upsert db now id (key k) (display_string (key_type k) v) descr in
  let reload := reload_to_config collate_le in
  resolve (reload db' id c) k = v /\
  (forall k', key k' <> key k -> resolve (reload db' id c) k' = resolve (reload db id c) k') /\
  (forall id' k', id' <> id -> id <> GLOBAL -> resolve (reload db' id' c) k' = resolve (reload db id' c) k') /\
  (forall id', id = GLOBAL -> config_store db !! (id', key k) = None -> resolve (reload db' id' c) k = v) /\
  (forall later, id <> GLOBAL -> config_store db !! (GLOBAL, key k) = None ->
     resolve (reload (delete_config db' later id (key k)) id c) k = resolve_without_db c k) /\
  resolve_all_without_db (reload db' id c) = resolve_all_without_db c.
Proof.
  intros Hv Hc db' reload. destruct (resolve_display _ v (default_value k) Hv) as [Hne Hres].
  unfold resolve, reload, db'. split_and!.
  - rewrite reload_get, effective_upsert, decide_True, Hne by done. exact Hres.
  - intros k' Hk. f_equal. apply reload_get_same. rewrite effective_upsert, !decide_False by congruence. done.
  - intros id' k' Hid Hg. f_equal. apply reload_get_same. rewrite effective_upsert, !decide_False by congruence. done.
  - intros id' -> Hown. rewrite reload_get, effective_upsert by done. rewrite Hown, (decide_True (P:=_ = (GLOBAL, _))) by done.
    destruct (decide _); rewrite Hne; exact Hres.
  - intros later Hg Hglob. unfold resolve_without_db, get_excluding_db.
    rewrite reload_get, effective_delete by done. unfold upsert. cbn [config_store].
    rewrite lookup_insert_ne, Hglob, Hc by congruence. done.
  - reflexivity.
Qed.

(** Where the database sorts the id of the instance above the global id,
    reading one key and reading all keys of an instance agree: the row of the
    instance if there is one, else the global row. *)
Theorem one_and_all_agree collate_le db id k :
  (forall a b, collate_le a b = true \/ collate_le b a = true) ->
  (forall a b c, collate_le a b = true -> collate_le b c = true -> collate_le a c = true) ->
  id = GLOBAL \/ collate_le id GLOBAL = false ->
  get_one collate_le db id k = effective db id k /\
  get_all_for_instance collate_le db id !! k = effective db id k.
Proof. intros Ht Htr Hid. split; [by apply get_one_effective|apply get_all_lookup]. Qed.

(** ** Concrete inputs *)
Definition sample_formats : Formats :=
  {| parse_f64 := fun _ => None; show_f64 := fun _ => ""; parse_duration := parse_unsigned U64_MAX; format_duration := pretty |}.
Definition sample_sources : Sources := mkSources ∅ ∅ {[ "RPC_MAX_ATTEMPTS" := "7" ]}.
Definition sample_db : ConfigDb := upsert (mkConfigDb ∅ []) 0 GLOBAL "RPC_MAX_ATTEMPTS" "9" None.

(** An id that sorts below the global one gets the global value from one
    query and its own from the other. *)
Example low_instance_reads_global :
  let db := upsert sample_db 1 "#1" "RPC_MAX_ATTEMPTS" "11" None in
  get_one String.leb db "#1" "RPC_MAX_ATTEMPTS" = Some "9" /\
  get_all_for_instance String.leb db "#1" !! "RPC_MAX_ATTEMPTS" = Some "11".
Proof. split; vm_compute; reflexivity. Qed.

(** A value that does not parse, or is empty, hides the sources below it: the
    accessor answers the default.  The start-up flag is case sensitive. *)
Example unreadable_value_hides_environment :
  let c text := reload_to_config String.leb (upsert sample_db 1 "main" "RPC_MAX_ATTEMPTS" text None) "main" sample_sources in
  @resolve sample_formats (c "65536") rpc_max_attempts = 128 /\
  @resolve sample_formats (c " 5") rpc_max_attempts = 128 /\
  @resolve sample_formats (c "") rpc_max_attempts = 128 /\
  @resolve sample_formats (c "+005") rpc_max_attempts = 5 /\
  @resolve sample_formats sample_sources rpc_max_attempts = 7 /\
  is_mainnet (startup_resolve (fun _ => None) {[ "USE_MAINNET" := "False" ]}) = true /\
  is_mainnet (startup_resolve (fun _ => None) {[ "USE_MAINNET" := "false" ]}) = false.
Proof. split_and!; vm_compute; reflexivity. Qed.

Lemma configured_value_read_back_witness :
  @resolve sample_formats (reload_to_config String.leb
    (upsert sample_db 1 "main" "RPC_MAX_ATTEMPTS" "11" None) "main" sample_sources) rpc_max_attempts = 11.
Proof.
  refine (proj1 (@configured_value_read_back sample_formats String.leb sample_db 1 "main" rpc_max_attempts 11 None
    sample_sources _ _)); [vm_compute; discriminate|vm_compute; reflexivity].
Defined.

Lemma one_and_all_agree_witness :
  let db := upsert sample_db 1 "main" "RPC_MAX_ATTEMPTS" "11" None in
  get_one String.leb db "main" "RPC_MAX_ATTEMPTS" = Some "11" /\
  get_all_for_instance String.leb db "main" !! "RPC_MAX_ATTEMPTS" = Some "11".
Proof.
  apply (one_and_all_agree String.leb (upsert sample_db 1 "main" "RPC_MAX_ATTEMPTS" "11" None) "main" "RPC_MAX_ATTEMPTS").
  - exact leb_either.
  - exact leb_trans.
  - right. vm_compute. reflexivity.
Defined.
