(* ===== verification/Web.v ===== *)
(** * Web: the authenticated services

    [crates/web/src/services]: the checks on the caller ([auth.rs]), the
    configuration service ([config.rs]) behind the interceptor, as [lib.rs]
    puts them together, and the valuation of recorded holdings
    ([portfolio.rs]).  A statement of the database succeeds or fails as a
    whole; a service call, a background clean-up and the passing of time are
    the steps of the running server. *)

From S2P Require Import Prelude NearClient F64 BigDecimal Units Records Auth Config.
Local Open Scope N_scope.

(** ** auth.rs *)
Definition require_reader (user : option AuthenticatedUser) : outcome Status AuthenticatedUser :=
  ok_or (status_of MissingToken) user.
Definition require_writer (user : option AuthenticatedUser) : outcome Status AuthenticatedUser :=
  let? user := ok_or (status_of MissingToken) user in
  if negb (can_write (user_role user)) then Err (status_of InsufficientRole) else Ok user.

(** ** config.rs *)
Definition resolve_instance_id (id : string) : string := if is_empty id then GLOBAL else id.

Inductive ConfigRequest : Type :=
| GetAllConfigRequest (instance_id : string)
| GetOneConfigRequest (instance_id key : string)
| UpsertConfigRequest (instance_id key value : string) (description : option string)
| DeleteConfigRequest (instance_id key : string)
| ListKeyDefinitionsRequest.

Record ConfigEntry := mkConfigEntry { ce_key : string; ce_value : string; ce_instance_id : string }.
(** The [value_type] of an entry is the proto enum of the same constructors. *)
Record KeyDefinitionEntry := mkKeyDefinitionEntry {
  kd_key : string;
  kd_description : string;
  kd_value_type : ConfigValueType;
  kd_resolved_value : string;
}.
Inductive ConfigResponse : Type :=
| GetAllConfigResponse (entries : list ConfigEntry)
| GetOneConfigResponse (value : option string)
| UpsertConfigResponse
| DeleteConfigResponse
| ListKeyDefinitionsResponse (definitions : list KeyDefinitionEntry).

Section service.
Context `{Formats} (collate_le : string -> string -> bool).

(** The reply, the table after the call, and whether a clean-up was started.
    [up]: the database answers. *)
Abbreviation handled := (outcome Status ConfigResponse * ConfigDb * bool)%type.

Definition config_get_all (user : option AuthenticatedUser) (up : bool) (db : ConfigDb) (id : string) : handled :=
  ((let? _ := require_reader user in
    let id := resolve_instance_id id in
    let? configs := ok_or internal (if up then Some (get_all_for_instance collate_le db id) else None) in
    Ok (GetAllConfigResponse (map (fun '(k, v) => mkConfigEntry k v id) (map_to_list configs)))),
   db, false).

Definition config_get_one (user : option AuthenticatedUser) (up : bool) (db : ConfigDb) (id k : string) : handled :=
  ((let? _ := require_reader user in
    let id := resolve_instance_id id in
    if is_empty k then Err invalid_argument
    else
      let? value := ok_or internal (if up then Some (get_one collate_le db id k) else None) in
      Ok (GetOneConfigResponse value)),
   db, false).

Definition config_upsert (user : option AuthenticatedUser) (up : bool) (db : ConfigDb) (now : NaiveDateTime)
    (id k v : string) (descr : option string) : handled :=
  match require_writer user with
  | Ok _ =>
      let id := resolve_instance_id id in
      if is_empty k then (Err invalid_argument, db, false)
      else if up then (Ok UpsertConfigResponse, upsert db now id k v descr, true)
      else (Err internal, db, false)
  | Err e => (Err e, db, false)
  | Panic => (Panic, db, false)
  end.

Definition config_delete (user : option AuthenticatedUser) (up : bool) (db : ConfigDb) (now : NaiveDateTime)
    (id k : string) : handled :=
  match require_writer user with
  | Ok _ =>
      let id := resolve_instance_id id in
      if is_empty k then (Err invalid_argument, db, false)
      else if up then (Ok DeleteConfigResponse, delete_config db now id k, true)
      else (Err internal, db, false)
  | Err e => (Err e, db, false)
  | Panic => (Panic, db, false)
  end.

(** The descriptions are kept as [trim] leaves them. *)
Definition list_key_definitions (user : option AuthenticatedUser) (c : Sources) (db : ConfigDb) : handled :=
  ((let? _ := require_reader user in
    Ok (ListKeyDefinitionsResponse
      (map (fun i => mkKeyDefinitionEntry (info_key i) (info_description i) (info_type i) (resolved_value i))
         (resolve_all_without_db c)))),
   db, false).

Definition config_handler (user : option AuthenticatedUser) (up : bool) (c : Sources) (db : ConfigDb)
    (now : NaiveDateTime) (req : ConfigRequest) : handled :=
  match req with
  | GetAllConfigRequest id => config_get_all user up db id
  | GetOneConfigRequest id k => config_get_one user up db id k
  | UpsertConfigRequest id k v descr => config_upsert user up db now id k v descr
  | DeleteConfigRequest id k => config_delete user up db now id k
  | ListKeyDefinitionsRequest => list_key_definitions user c db
  end.

(** The background clean-up, with the retention of the configuration; its
    failure or panic leaves the table as it is. *)
Definition spawn_cleanup_old_config_history (c : Sources) (up : bool) (db : ConfigDb) (now : NaiveDateTime) : ConfigDb :=
  let retention_days : N := resolve c config_store_history_retention_days in
  match cleanup_old_history db now retention_days with
  | Ok db' => if up then db' else db
  | _ => db
  end.

(** *** lib.rs: the service behind the interceptor *)
Section intercepted.
Context {Key : Type} (decode_header : str -> option Header) (decode : str -> Key -> Validation -> option RawClaims).

Definition config_call (client_id : str) (jwks : CachedJwks (Key:=Key)) (users : UserCache) (clock : option N)
    (header : option (option str)) (up : bool) (c : Sources) (db : ConfigDb) (now : NaiveDateTime)
    (req : ConfigRequest) : handled :=
  match intercept decode_header decode client_id jwks users clock header with
  | Ok user => config_handler (Some user) up c db now req
  | Err s => (Err s, db, false)
  | Panic => (Panic, db, false)
  end.
End intercepted.
End service.

(** ** portfolio.rs: the value of a recorded holding *)
Section portfolio.
Context {P D : Type} `{BigDecimal D}.

Definition wnear_token (is_mainnet : bool) : TokenAccount := if is_mainnet then "wrap.near" else "wrap.testnet".

Definition holding_value (wnear : TokenAccount) (rates : gmap TokenAccount (ExchangeRate D)) (th : TokenHolding D)
    : outcome Status (YoctoValue D) :=
  let amount := with_decimals (th_balance th) (th_decimals th) in
  if String.eqb (th_token th) wnear then
    let? near_value := amount_div_rate amount wnear_rate in
    Ok (near_value_to_yocto near_value)
  else
    let? spot_rate := ok_or failed_precondition (rates !! th_token th) in
    let? near_value := amount_div_rate amount spot_rate in
    Ok (near_value_to_yocto near_value).

(** The holdings with their values, and the total. *)
Fixpoint value_holdings (wnear : TokenAccount) (rates : gmap TokenAccount (ExchangeRate D))
    (total_yocto : YoctoValue D) (parsed : list (TokenHolding D))
    : outcome Status (list (TokenHolding D * YoctoValue D) * YoctoValue D) :=
  match parsed with
  | [] => Ok ([], total_yocto)
  | th :: parsed =>
      let? yocto := holding_value wnear rates th in
      let? rest := value_holdings wnear rates (yocto_value_add total_yocto yocto) parsed in
      Ok ((th, yocto) :: rest.1, rest.2)
  end.
Definition db_holding_to_proto (wnear : TokenAccount) (parsed : list (TokenHolding D))
    (rates : gmap TokenAccount (ExchangeRate D)) : outcome Status (list (TokenHolding D * YoctoValue D) * YoctoValue D) :=
  value_holdings wnear rates yocto_value_zero parsed.

(** The page of evaluation periods that is asked for. *)
Definition page_of (page page_size : Z) : Z * Z := (Z.max page 0, Z.max 1 (Z.min page_size 200)).
End portfolio.

(** ** The abstract service: a map and a log, driven by a journal of the
    requests that were answered *)
Record Entry := mkEntry { by_user : AuthenticatedUser; at_time : NaiveDateTime; request : ConfigRequest }.
Abbreviation Table := (gmap (string * string) string) (only parsing).

Definition is_write (req : ConfigRequest) : bool :=
  match req with UpsertConfigRequest _ _ _ _ | DeleteConfigRequest _ _ => true | _ => false end.
Definition spec_write (m : Table) (e : Entry) : Table :=
  match request e with
  | UpsertConfigRequest id k v _ => <[(resolve_instance_id id, k) := v]> m
  | DeleteConfigRequest id k => delete (resolve_instance_id id, k) m
  | _ => m
  end.
Definition spec_log (m : Table) (e : Entry) : list History :=
  match request e with
  | UpsertConfigRequest id k v _ =>
      let id := resolve_instance_id id in [mkHistory id k (m !! (id, k)) v (at_time e)]
  | DeleteConfigRequest id k =>
      let id := resolve_instance_id id in
      match m !! (id, k) with Some v => [mkHistory id k (Some v) "(deleted)" (at_time e)] | None => [] end
  | _ => []
  end.
Definition replay (journal : list Entry) : Table * list History :=
  foldl (fun '(m, log) e => (spec_write m e, log ++ spec_log m e)) (∅, []) journal.

Lemma replay_snoc journal e :
  replay (journal ++ [e]) =
  (spec_write (replay journal).1 e, (replay journal).2 ++ spec_log (replay journal).1 e).
Proof. unfold replay. rewrite foldl_app. cbn. by destruct (foldl _ _ journal). Qed.

Definition values (db : ConfigDb) : Table := fst <$> config_store db.
Lemma values_lookup db k : values db !! k = fst <$> config_store db !! k.
Proof. apply lookup_fmap. Qed.

(** The part of a log that a clean-up with this date leaves. *)
Definition since (cutoff : NaiveDateTime) (log : list History) : list History :=
  List.filter (fun h => negb (changed_at h <? cutoff)%Z) log.
Lemma since_since a b log : since a (since b log) = since (Z.max a b) log.
Proof.
  unfold since. induction log as [|h log IH]; [done|]. cbn [List.filter].
  destruct (Z.ltb_spec (changed_at h) b), (Z.ltb_spec (changed_at h) (Z.max a b)); cbn [negb List.filter]; try lia.
  - done.
  - destruct (Z.ltb_spec (changed_at h) a); [done|lia].
  - destruct (Z.ltb_spec (changed_at h) a); [lia|]. cbn. by rewrite IH.
Qed.
Lemma since_app cutoff a b : since cutoff (a ++ b) = since cutoff a ++ since cutoff b.
Proof. apply filter_app. Qed.
Lemma since_spec_log cutoff m e : (cutoff <= at_time e)%Z -> since cutoff (spec_log m e) = spec_log m e.
Proof.
  intros Hc. assert (Hkeep : negb (at_time e <? cutoff)%Z = true) by (apply negb_true_iff, Z.ltb_ge; lia).
  unfold since, spec_log. destruct (request e); try done; cbn -[Z.ltb].
  - by rewrite Hkeep.
  - destruct (m !! _); [|done]. cbn -[Z.ltb]. by rewrite Hkeep.
Qed.

Section server.
Context `{Formats} (collate_le : string -> string -> bool).
Context {Key : Type} (decode_header : str -> option Header) (decode : str -> Key -> Validation -> option RawClaims).

Abbreviation handler := (config_handler collate_le).

(** One answered request is one step of the abstract service. *)
Lemma handler_answered user up c db now req r db' spawned :
  handler (Some user) up c db now req = (Ok r, db', spawned) ->
  let e := mkEntry user now req in
  (is_write req = true -> can_write (user_role user) = true) /\ spawned = is_write req /\
  values db' = spec_write (values db) e /\
  config_store_history db' = config_store_history db ++ spec_log (values db) e.
Proof using Type.
  destruct req as [id|id k|id k v descr|id k|]; cbn [config_handler is_write spec_write spec_log request at_time].
  - intros [= _ <- <-]. by rewrite app_nil_r.
  - intros [= _ <- <-]. by rewrite app_nil_r.
  - unfold config_upsert, require_writer. cbn [ok_or obind]. destruct (can_write (user_role user)); [cbn [negb]|done].
    destruct (is_empty k); [done|]. destruct up; [|done]. intros [= _ <- <-]. split_and!; [done|done| |].
    + unfold values, upsert. cbn [config_store]. by rewrite fmap_insert.
    + unfold upsert. cbn [config_store_history]. by rewrite values_lookup.
  - unfold config_delete, require_writer. cbn [ok_or obind]. destruct (can_write (user_role user)); [cbn [negb]|done].
    destruct (is_empty k); [done|]. destruct up; [|done]. intros [= _ <- <-].
    rewrite values_lookup. unfold delete_config.
    destruct (config_store db !! _) as [[v d]|] eqn:E; cbn; split_and!; try done.
    + unfold values. cbn [config_store]. by rewrite fmap_delete.
    + rewrite delete_id; [done|]. by rewrite values_lookup, E.
    + by rewrite app_nil_r.
  - intros [= _ <- <-]. by rewrite app_nil_r.
Qed.

(** A request that is not answered changes nothing. *)
Lemma handler_refused user up c db now req o db' spawned :
  handler (Some user) up c db now req = (o, db', spawned) -> (forall r, o <> Ok r) -> db' = db /\ spawned = false.
Proof using Type.
  destruct req as [id|id k|id k v descr|id k|]; cbn [config_handler].
  - by intros [= _ <- <-].
  - by intros [= _ <- <-].
  - unfold config_upsert. destruct (require_writer _), (is_empty k), up; intros [= <- <- <-] Ho; try done; by destruct (Ho UpsertConfigResponse).
  - unfold config_delete. destruct (require_writer _), (is_empty k), up; intros [= <- <- <-] Ho; try done; by destruct (Ho DeleteConfigResponse).
  - by intros [= _ <- <-].
Qed.

(** The running server: the table, the time and the clean-ups under way. *)
Record Server := mkServer { s_db : ConfigDb; s_now : NaiveDateTime; s_pending : nat }.

Inductive server_run : list Entry -> Server -> Prop :=
| run_start now : server_run [] (mkServer (mkConfigDb ∅ []) now 0)
| run_answered journal s now client_id jwks users clock header user up c req r db' spawned :
    server_run journal s -> (s_now s <= now)%Z ->
    intercept decode_header decode client_id jwks users clock header = Ok user ->
    config_call collate_le decode_header decode client_id jwks users clock header up c (s_db s) now req = (Ok r, db', spawned) ->
    server_run (journal ++ [mkEntry user now req]) (mkServer db' now (s_pending s + if spawned then 1 else 0))
| run_refused journal s now client_id jwks users clock header up c req o db' spawned :
    server_run journal s -> (s_now s <= now)%Z ->
    config_call collate_le decode_header decode client_id jwks users clock header up c (s_db s) now req = (o, db', spawned) ->
    (forall r, o <> Ok r) ->
    server_run journal (mkServer db' now (s_pending s + if spawned then 1 else 0))
| run_cleanup journal s now n c up :
    server_run journal s -> (s_now s <= now)%Z -> s_pending s = S n ->
    server_run journal (mkServer (spawn_cleanup_old_config_history c up (s_db s) now) now n).

Definition WEEK : Z := 7 * NANOS_PER_DAY.

(** Every entry is in the past, and every write is by a user who may write. *)
Definition entry_ok (now : NaiveDateTime) (e : Entry) : Prop :=
  (at_time e <= now)%Z /\ (is_write (request e) = true -> can_write (user_role (by_user e)) = true).
Lemma entries_later journal now later : Forall (entry_ok now) journal -> (now <= later)%Z -> Forall (entry_ok later) journal.
Proof using Type. intros Hj Hle. eapply List.Forall_impl; [|exact Hj]. intros e [He Hw]. split; [lia|done]. Qed.

(** The table is that of the abstract service, and so is its history, up to a
    date at least a week back. *)
Definition server_ok (journal : list Entry) (s : Server) : Prop :=
  Forall (entry_ok (s_now s)) journal /\
  values (s_db s) = (replay journal).1 /\
  exists cutoff, (cutoff <= s_now s - WEEK)%Z /\
    config_store_history (s_db s) = since cutoff (replay journal).2.

Lemma cleanup_since c up db now :
  values (spawn_cleanup_old_config_history c up db now) = values db /\
  (config_store_history (spawn_cleanup_old_config_history c up db now) = config_store_history db \/
   exists cutoff, (cutoff <= now - WEEK)%Z /\
     config_store_history (spawn_cleanup_old_config_history c up db now) = since cutoff (config_store_history db)).
Proof using Type.
  unfold spawn_cleanup_old_config_history, cleanup_old_history. set (days := resolve c config_store_history_retention_days : N).
  destruct (days =? 0); [destruct up; split; auto|]. unfold cutoff_date.
  destruct (_ <? _)%Z; cbn [obind]; [split; auto|]. destruct up; [|split; auto]. cbn [config_store_history].
  split; [done|right]. eexists. split; [|reflexivity].
  unfold WEEK, CONFIG_MIN_RETENTION_DAYS, NANOS_PER_DAY. lia.
Qed.

Lemma server_run_ok journal s : server_run journal s -> server_ok journal s.
Proof using Type.
  induction 1 as [now|journal s now client_id jwks users clock header user up c req r db' spawned _ (Hj & Hv & cutoff & Hc & Hh) Hnow Hi Hcall
    |journal s now client_id jwks users clock header up c req o db' spawned _ (Hj & Hv & cutoff & Hc & Hh) Hnow Hcall Ho
    |journal s now n c up _ (Hj & Hv & cutoff & Hc & Hh) Hnow Hp].
  - split_and!; [constructor|apply fmap_empty|]. exists (now - WEEK)%Z. split; [cbn; lia|done].
  - unfold config_call in Hcall. rewrite Hi in Hcall. apply handler_answered in Hcall as (Hw & _ & Hval & Hhist).
    split_and!; cbn [s_db s_now].
    + apply Forall_app. split; [by eapply entries_later|]. repeat constructor; [cbn; lia|done].
    + by rewrite Hval, replay_snoc, Hv.
    + exists cutoff. split; [lia|]. rewrite Hhist, replay_snoc. cbn [snd]. rewrite since_app, Hh, Hv. f_equal.
      symmetry. apply since_spec_log. cbn [at_time]. unfold WEEK, NANOS_PER_DAY in Hc. lia.
  - assert (db' = s_db s) as ->.
    { unfold config_call in Hcall. destruct (intercept _ _ _ _ _ _ _); [|by injection Hcall as <- <- <-..].
      by eapply handler_refused in Hcall as [-> _]. }
    split_and!; cbn [s_db s_now]; [by eapply entries_later|done|exists cutoff; split; [lia|done]].
  - destruct (cleanup_since c up (s_db s) now) as [Hval Hcl]. split_and!; cbn [s_db s_now].
    + by eapply entries_later.
    + by rewrite Hval.
    + destruct Hcl as [->|(cut & Hcut & ->)]; [exists cutoff; split; [lia|done]|].
      exists (Z.max cut cutoff). split; [lia|]. by rewrite Hh, since_since.
Qed.
End server.

(** ** Holdings *)
Section holdings.
Context {D : Type} `{BigDecimal D}.

(** The reply lists every holding with its value, in order, and the total is
    their sum; without a rate for some token there is no reply. *)
Lemma holdings_valued wnear rates total parsed :
  match value_holdings wnear rates total parsed with
  | Ok (l, sum) =>
      map fst l = parsed /\ Forall (fun p => holding_value wnear rates p.1 = Ok p.2) l /\
      sum = foldl yocto_value_add total (map snd l)
  | Err e => exists th, th ∈ parsed /\ holding_value wnear rates th = Err e
  | Panic => exists th, th ∈ parsed /\ holding_value wnear rates th = Panic
  end.
Proof using Type.
  revert total. induction parsed as [|th parsed IH]; intros total; cbn [value_holdings]; [done|].
  destruct (holding_value wnear rates th) as [y|e|] eqn:Hv; cbn [obind]; [|exists th; split; [by left|done]..].
  specialize (IH (yocto_value_add total y)). destruct (value_holdings _ _ _ parsed) as [[l sum]|e|]; cbn.
  - destruct IH as (<- & Hl & ->). split_and!; [done|by constructor|done].
  - destruct IH as (x & Hx & He). exists x. split; [by right|done].
  - destruct IH as (x & Hx & He). exists x. split; [by right|done].
Qed.
End holdings.

(** ** The claims *)

(** C39: The configuration service behind the interceptor refines a map with a
    log: in every run of calls and background clean-ups, whatever the tokens,
    keys, users and database failures, the table is the replay of the requests
    that were answered, each write among them by an admitted user with the
    writer role; and its history is the log of that replay, old values included,
    from some date on that is at least a week back. *)
Theorem config_service_refines `{Formats} collate_le {Key} decode_header
    (decode : str -> Key -> Validation -> option RawClaims) journal s :
  server_run collate_le decode_header decode journal s ->
  Forall (entry_ok (s_now s)) journal /\
  values (s_db s) = (replay journal).1 /\
  exists cutoff, (cutoff <= s_now s - WEEK)%Z /\
    config_store_history (s_db s) = since cutoff (replay journal).2.
Proof. apply server_run_ok. Qed.

(** ** A concrete run: a write by a registered writer, a refused one by a
    reader, and the clean-up *)
Definition sample_writer : AuthenticatedUser := mkUser (mkEmail (lit "alice@example.com")) Writer.
Definition sample_readers : UserCache := {[ mkEmail (lit "alice@example.com") := Reader ]}.
Definition sample_request : ConfigRequest := UpsertConfigRequest "" "RPC_MAX_ATTEMPTS" "7" None.
Definition sample_call (users : UserCache) (db : ConfigDb) (now : Z) :=
  @config_call sample_formats String.leb N sample_header sample_decode (lit "client") sample_cache users (Some 1500)
    (Some (Some (lit "Bearer t0ken"))) true sample_sources db now sample_request.

Example reader_may_not_write : (sample_call sample_readers (mkConfigDb ∅ []) 0).1.1 = Err permission_denied.
Proof. vm_compute. reflexivity. Qed.

Lemma config_service_refines_witness : exists s,
  @server_run sample_formats String.leb N sample_header sample_decode [mkEntry sample_writer 5 sample_request] s /\
  values (s_db s) !! (GLOBAL, "RPC_MAX_ATTEMPTS") = Some "7" /\
  Forall (entry_ok (s_now s)) [mkEntry sample_writer 5 sample_request].
Proof.
  assert (Hrun : @server_run sample_formats String.leb N sample_header sample_decode
    ([] ++ [mkEntry sample_writer 5 sample_request])
    (mkServer (upsert (mkConfigDb ∅ []) 5 GLOBAL "RPC_MAX_ATTEMPTS" "7" None) 5 1)).
  { apply (run_answered String.leb sample_header sample_decode [] (mkServer (mkConfigDb ∅ []) 0 0) 5 (lit "client") sample_cache
      sample_users (Some 1500) (Some (Some (lit "Bearer t0ken"))) sample_writer true sample_sources sample_request
      UpsertConfigResponse (upsert (mkConfigDb ∅ []) 5 GLOBAL "RPC_MAX_ATTEMPTS" "7" None) true);
      [apply run_start|done|vm_compute; reflexivity|vm_compute; reflexivity]. }
  eexists. split; [exact Hrun|]. split; [vm_compute; reflexivity|].
  exact (proj1 (@config_service_refines sample_formats String.leb N sample_header sample_decode _ _ Hrun)).
Defined.
