(* ===== verification/PortfolioService.v ===== *)
(** * PortfolioService: the queries of the portfolio service

    [crates/web/src/services/portfolio.rs] on top of the valuation in [Web]: the
    pages of evaluation periods and the recorded holdings of a period with their
    values at the rates of the time.  A reply is an answer or a status of the
    protocol; its amounts stay numbers, the text they are sent as is left out.
    The two statements of a page are started together; here the first is sent
    first. *)

From S2P Require Import Prelude NearClient F64 BigDecimal Units Records Auth Config Web.
Local Open Scope N_scope.

(** Rows of the two tables, with the columns the replies show. *)
Record PeriodRow (D : Type) := mkPeriodRow { pr_id : Z; pr_period : EvaluationPeriod D }.
Arguments mkPeriodRow {D} _ _.
Arguments pr_id {D} _.
Arguments pr_period {D} _.
Record HoldingRow (P : Type) := mkHoldingRow { hr_timestamp : NaiveDateTime; hr_holding : DbPortfolioHolding P }.
Arguments mkHoldingRow {P} _ _.
Arguments hr_timestamp {P} _.
Arguments hr_holding {P} _.

(** A timestamp of the protocol: whole seconds. *)
Definition naive_to_timestamp (dt : NaiveDateTime) : Z * Z := ((dt / 10 ^ 9)%Z, 0%Z).

Record PeriodEntry (D : Type) := mkPeriodEntry {
  pe_id : Z;
  pe_period_id : string;
  pe_start_time : Z * Z;
  pe_initial_value : YoctoAmount D;
  pe_selected_tokens : list string;
}.
Arguments mkPeriodEntry {D} _ _ _ _ _.
Arguments pe_selected_tokens {D} _.
Definition evaluation_period_to_proto {D} (ep : PeriodRow D) : PeriodEntry D :=
  let p := pr_period ep in
  mkPeriodEntry (pr_id ep) (ep_period_id p) (naive_to_timestamp (ep_start_time p)) (ep_initial_value p)
    (omap id (default [] (ep_selected_tokens p))).

Record HoldingEntry (D : Type) := mkHoldingEntry {
  he_timestamp : Z * Z;
  he_token_holdings : list (TokenHolding D * YoctoValue D);
  he_total_value : YoctoValue D;
}.
Arguments mkHoldingEntry {D} _ _ _.
Arguments he_timestamp {D} _.
Arguments he_token_holdings {D} _.
Arguments he_total_value {D} _.

Section service.
Context {P D : Type} `{BigDecimal D} `{!Rows P D}.
Context `{!FromSlice P (list (PeriodRow D))} `{!FromSlice P (list (HoldingRow P))}.
Context (valid_account : string -> bool) (is_mainnet : bool).
Abbreviation reply A := (prog P (A + Status)).
Abbreviation wnear := (wnear_token is_mainnet).

(** [?] in a handler: a status ends it. *)
Definition handle {A B} (p : reply A) (k : A -> reply B) : reply B :=
  let! x := p in match x with inl a => k a | inr e => Ret (Ok (inr e)) end.
Definition of_status {A} (o : outcome Status A) : reply A :=
  match o with Ok a => Ret (Ok (inl a)) | Err e => Ret (Ok (inr e)) | Panic => Ret Panic end.
(** [map_err] to an internal error. *)
Definition or_internal {A} (p : prog P A) : reply A :=
  let! x := attempt p in Ret (Ok (match x with inl a => inl a | inr _ => inr internal end)).

Definition get_evaluation_periods (user : option AuthenticatedUser) (page page_size : Z)
    : reply (list (PeriodEntry D) * Z) :=
  handle (of_status (require_reader user)) (fun _ =>
    let '(page, page_size) := page_of page page_size in
    let! periods := attempt (fetch (QPeriodsPage page_size (page * page_size)%Z)) in
    let! total_count := attempt (fetch (H := rows_count (D:=D)) QCountPeriods) in
    Ret (Ok (match periods, total_count with
             | inl periods, inl total_count => inl (evaluation_period_to_proto <$> periods, total_count)
             | _, _ => inr internal
             end))).

Definition parse_and_fetch_rates (row : HoldingRow P)
    : reply (list (TokenHolding D) * gmap TokenAccount (ExchangeRate D)) :=
  handle (or_internal (lift (parse_holdings (hr_holding row)))) (fun parsed =>
    match bfilter (fun t => negb (String.eqb t wnear)) (th_token <$> parsed) with
    | [] => Ret (Ok (inl (parsed, ∅)))
    | tokens =>
        handle (or_internal (get_spot_rates_at_time valid_account tokens wnear (hr_timestamp row))) (fun rates =>
          Ret (Ok (inl (parsed, rates))))
    end).

Fixpoint holding_entries (rows : list (HoldingRow P)) : reply (list (HoldingEntry D)) :=
  match rows with
  | [] => Ret (Ok (inl []))
  | row :: rows =>
      handle (parse_and_fetch_rates row) (fun pr =>
        handle (of_status (db_holding_to_proto wnear pr.1 pr.2)) (fun v =>
          handle (holding_entries rows) (fun rest =>
            Ret (Ok (inl (mkHoldingEntry (naive_to_timestamp (hr_timestamp row)) v.1 v.2 :: rest))))))
  end.

Definition get_portfolio_holdings (user : option AuthenticatedUser) (period_id : string) : reply (list (HoldingEntry D)) :=
  handle (of_status (require_reader user)) (fun _ =>
    if is_empty period_id then Ret (Ok (inr invalid_argument))
    else handle (or_internal (fetch (QHoldingsOfPeriod period_id))) holding_entries).
End service.

(** * What a reply shows *)
Section facts.
Context {P D : Type} `{BigDecimal D} `{!Rows P D}.
Context `{!FromSlice P (list (PeriodRow D))} `{!FromSlice P (list (HoldingRow P))}.
Context (valid_account : string -> bool) (is_mainnet : bool).
Abbreviation wnear := (wnear_token is_mainnet).

(** The answers of a handler, where it gives one. *)
Definition replies {A} (p : prog P (A + Status)) (R : A -> Prop) : Prop :=
  wp p (fun _ o => forall a, o = Ok (inl a) -> R a).

Lemma replies_handle {A B} (p : prog P (A + Status)) (k : A -> prog P (B + Status)) (R : A -> Prop) (R' : B -> Prop) :
  replies p R -> (forall a, R a -> replies (k a) R') -> replies (handle p k) R'.
Proof using Type.
  intros Hp Hk. apply wp_bind. eapply wp_mono; [exact Hp|]. intros t [[a|e]|e|] Ha; try done; [|by apply wp_ret].
  eapply wp_mono; [by apply Hk, Ha|]. intros t' o Ho. exact Ho.
Qed.
Lemma replies_done {A} (a : A) (R : A -> Prop) : R a -> replies (Ret (Ok (inl a))) R.
Proof using Type. intros HR. apply wp_ret. by intros a' [= <-]. Qed.
Lemma replies_status {A} (o : outcome Status A) : replies (of_status o) (fun a => o = Ok a).
Proof using Type. destruct o; apply wp_ret; by intros a' [= <-]. Qed.
Lemma replies_internal {A} (p : prog P A) : replies (or_internal p) (fun a => exists t, run p t (Ok a)).
Proof using Type.
  apply wp_bind, wp_attempt. eapply wp_mono; [apply wp_run|]. intros t [a|e|] Hr; [| |done]; apply wp_ret; intros x Hx;
    simplify_eq. eauto.
Qed.

(** A holding with the values of its tokens, at some rates, and their sum. *)
Definition valued (row : HoldingRow P) (e : HoldingEntry D) : Prop :=
  he_timestamp e = naive_to_timestamp (hr_timestamp row) /\
  parse_holdings (hr_holding row) = Ok (map fst (he_token_holdings e)) /\
  (exists rates, Forall (fun p => holding_value wnear rates p.1 = Ok p.2) (he_token_holdings e)) /\
  he_total_value e = foldl yocto_value_add yocto_value_zero (map snd (he_token_holdings e)).

Lemma parse_and_fetch_parses row :
  replies (parse_and_fetch_rates (D:=D) valid_account is_mainnet row) (fun pr => parse_holdings (hr_holding row) = Ok pr.1).
Proof using Type.
  unfold parse_and_fetch_rates. eapply replies_handle; [apply replies_internal|]. intros parsed [t Ht].
  apply run_inv in Ht as [_ Ht]. destruct (bfilter _ _) as [|t0 tokens]; [by apply replies_done|].
  eapply replies_handle; [apply replies_internal|]. intros rates _. by apply replies_done.
Qed.

Lemma holding_entries_valued rows :
  replies (holding_entries (D:=D) valid_account is_mainnet rows) (fun es => Forall2 valued rows es).
Proof using Type.
  induction rows as [|row rows IH]; cbn [holding_entries]; [by apply replies_done|].
  eapply replies_handle; [apply parse_and_fetch_parses|]. intros [parsed rates] Hp. cbn [fst snd] in *.
  eapply replies_handle; [apply replies_status|]. intros [l total] Hv.
  eapply replies_handle; [apply IH|]. intros rest Hrest. apply replies_done. constructor; [|done].
  pose proof (holdings_valued wnear rates yocto_value_zero parsed) as Hh. unfold db_holding_to_proto in Hv. rewrite Hv in Hh.
  destruct Hh as (<- & Hl & ->). split_and!; [done|done|by exists rates|done].
Qed.

Lemma holdings_rows period_id :
  wp (handle (or_internal (fetch (QHoldingsOfPeriod period_id))) (holding_entries (D:=D) valid_account is_mainnet))
    (fun t o => forall entries, o = Ok (inl entries) -> exists raw rows,
       ev (RDb (QHoldingsOfPeriod period_id)) (inl raw) ∈ t /\ from_slice raw = Some rows /\ Forall2 valued rows entries).
Proof using Type.
  apply wp_bind, wp_bind, wp_attempt, wp_bind, wp_call. intros [raw|e]; cbn; [|by repeat apply wp_ret].
  unfold decode, lift. destruct (from_slice raw) as [rows|] eqn:Hraw; cbn [ok_or]; apply wp_ret; apply wp_ret; cbn; [|by apply wp_ret].
  eapply wp_mono; [apply holding_entries_valued|]. intros t o Ho entries ->. exists raw, rows.
  split; [by left|]. split; [done|]. by apply Ho.
Qed.

(** Without an authenticated caller the service refuses and sends nothing to the
    database. *)
Theorem portfolio_service_guarded period_id page page_size :
  (forall t o, run (get_portfolio_holdings (D:=D) valid_account is_mainnet None period_id) t o ->
     t = [] /\ o = Ok (inr (status_of MissingToken))) /\
  (forall t o, run (get_evaluation_periods (P:=P) (D:=D) None page page_size) t o ->
     t = [] /\ o = Ok (inr (status_of MissingToken))).
Proof using Type. split; intros t o Hr; apply run_inv in Hr; exact Hr. Qed.

(** Of the pages, only the given one is asked for. *)
Definition page_event (limit offset : Z) (e : event P) : Prop :=
  forall l' o', projT1 e = RDb (QPeriodsPage l' o') -> l' = limit /\ o' = offset.
#[local] Instance Forall_events (F : event P -> Prop) : Composable (Forall F).
Proof using Type. split; [constructor|]. intros t t' Ht Ht'. by apply Forall_app_2. Qed.
Lemma keeps_fetch {A} `{!FromSlice P A} (F : event P -> Prop) q :
  (forall x, F (ev (RDb q) x)) -> keeps (fetch (A:=A) q) (Forall F).
Proof using Type.
  intros HF. apply keeps_bind; [apply _| |intros raw; apply keeps_ret, _]. apply keeps_call. intros x. by constructor.
Qed.

(** A page of evaluation periods asks for 1 to 200 rows from a row that exists
    or follows the last, whatever the request says. *)
Theorem periods_page_bounded user page page_size t o limit offset x :
  run (get_evaluation_periods (P:=P) (D:=D) user page page_size) t o ->
  ev (RDb (QPeriodsPage limit offset)) x ∈ t -> (1 <= limit <= 200)%Z /\ (0 <= offset)%Z /\ (offset mod limit = 0)%Z.
Proof using Type.
  destruct user as [u|]; [|intros [-> _]%run_inv Hin; by apply elem_of_nil in Hin].
  set (l := Z.max 1 (Z.min page_size 200)). intros Hr Hin.
  assert (Hg : Forall (page_event l (Z.max page 0 * l)%Z) t).
  { refine (_ t o Hr). apply (keeps_bind (Forall (page_event l (Z.max page 0 * l)%Z)) (attempt _)).
    - apply keeps_attempt, keeps_fetch. by intros ? ? ? [= <- <-].
    - intros periods. apply keeps_bind; [apply _| |intros ?; apply keeps_ret, _].
      apply keeps_attempt, keeps_fetch. by intros ? ? ? [=]. }
  rewrite list.Forall_forall in Hg. destruct (Hg _ Hin _ _ eq_refl) as [-> ->].
  assert (1 <= l <= 200)%Z by (unfold l; lia). split; [done|]. split; [nia|]. apply Z.mod_mul. lia.
Qed.

(** The reply for a period has an entry for each of its recorded holdings, in
    order: the holdings that were recorded, each with its value, and their sum. *)
Theorem portfolio_holdings_complete user period_id t entries :
  run (get_portfolio_holdings (D:=D) valid_account is_mainnet user period_id) t (Ok (inl entries)) ->
  is_Some user /\ period_id <> "" /\ exists raw rows, ev (RDb (QHoldingsOfPeriod period_id)) (inl raw) ∈ t /\
    from_slice raw = Some rows /\ Forall2 valued rows entries.
Proof using Type.
  destruct user as [u|]; [|by intros [_ [=]]%run_inv]. intros Hr.
  assert (Hi : is_empty period_id = false) by (destruct (is_empty period_id) eqn:E; [|done]; unfold get_portfolio_holdings, handle in Hr;
    cbn in Hr; rewrite E in Hr; by apply run_inv in Hr as [_ [=]]).
  split; [done|]. split; [by intros ->|].
  assert (Hrun : run (handle (or_internal (fetch (QHoldingsOfPeriod period_id))) (holding_entries (D:=D) valid_account is_mainnet))
    t (Ok (inl entries))) by (unfold get_portfolio_holdings, handle at 1 in Hr; cbn in Hr; by rewrite Hi in Hr).
  exact (holdings_rows period_id t _ Hrun entries eq_refl).
Qed.
End facts.
