(* ===== verification/Pools.v ===== *)
(** * Pools: reading all pools of the exchange

    [blockchain/src/ref_finance/pool_info.rs].  The number of pools is asked
    for first, then every page; the pages are requested concurrently, so all
    of them are requested also when one fails, and the first failure is the
    result.  The list is the one the token graph is built from. *)

From S2P Require Import Prelude NearClient StoragePlanner Storage Dex.
Local Open Scope N_scope.

(** [2 << 8]. *)
Definition LIMIT : nat := 512.

(** [(0..number_of_pools).step_by(LIMIT)] *)
Definition page_starts (number_of_pools : N) : list nat :=
  map (fun k => k * LIMIT)%nat (seq 0 ((N.to_nat number_of_pools + (LIMIT - 1)) / LIMIT)).

(** A list of results is a result: the first error wins. *)
Fixpoint collect {A} (l : list (A + anyhow)) : outcome anyhow (list A) :=
  match l with
  | [] => Ok []
  | inl a :: l => let? rest := collect l in Ok (a :: rest)
  | inr e :: _ => Err e
  end.

Section pools.
Context {P : Type} `{!FromSlice P N} `{!FromSlice P (list PoolInfoBared)} (is_mainnet : bool).

Definition get_number_of_pools : prog P N :=
  let! raw := view_contract (CONTRACT_ADDRESS is_mainnet) "get_number_of_pools" (JObj []) in
  lift (decode raw).

Definition get_pools (index : nat) : prog P (list PoolInfoBared) :=
  let! raw := view_contract (CONTRACT_ADDRESS is_mainnet) "get_pools"
    (JObj [("from_index", JU32 (N.of_nat index)); ("limit", JU32 (N.of_nat LIMIT))]) in
  lift (decode raw).

Fixpoint join_pages (starts : list nat) : prog P (list (nat * list PoolInfoBared + anyhow)) :=
  match starts with
  | [] => Ret (Ok [])
  | index :: starts =>
      let! result := attempt (get_pools index) in
      let! rest := join_pages starts in
      Ret (Ok (match result with inl l => inl (index, l) | inr e => inr e end :: rest))
  end.

(** [PoolInfo::new(i as u32 + index, bare, now)] for every element of a page;
    the addition traps when it leaves 32 bits. *)
Fixpoint number_page (index i : nat) (page : list PoolInfoBared) : prog P (list PoolInfo) :=
  match page with
  | [] => Ret (Ok [])
  | bare :: page =>
      let! timestamp := utc_now in
      let pool_id := N.of_nat i mod 2 ^ 32 + N.of_nat index in
      if U32_MAX <? pool_id then Ret Panic
      else
        let! rest := number_page index (S i) page in
        Ret (Ok (mkPoolInfo pool_id bare timestamp :: rest))
  end.
Fixpoint number_pages (pages : list (nat * list PoolInfoBared)) : prog P (list PoolInfo) :=
  match pages with
  | [] => Ret (Ok [])
  | (index, page) :: pages =>
      let! head := number_page index 0 page in
      let! rest := number_pages pages in
      Ret (Ok (head ++ rest))
  end.

Definition read_pools_from_node : prog P PoolInfoList :=
  let! number_of_pools := get_number_of_pools in
  let! lists := join_pages (page_starts number_of_pools) in
  let! oks := lift (collect lists) in
  let! pools := number_pages oks in
  Ret (Ok (PoolInfoList_new pools)).
End pools.

(** ** Pages and positions *)
Definition indexed {A} (o : nat) (l : list A) : list (N * A) := imap (fun i a => (N.of_nat (o + i), a)) l.

Lemma indexed_app {A} o (l k : list A) : indexed o (l ++ k) = indexed o l ++ indexed (o + length l) k.
Proof.
  unfold indexed. rewrite imap_app. f_equal. apply imap_ext. intros i x _. cbn. do 2 f_equal. lia.
Qed.
Lemma indexed_pages {A} (L : nat) : (0 < L)%nat -> forall m o (l : list A), (length l <= m * L)%nat ->
  concat (map (fun k => indexed (o + k * L) (take L (drop (k * L) l))) (seq 0 m)) = indexed o l.
Proof.
  intros HL m. induction m as [|m IH]; intros o l Hl.
  - by destruct l; [|cbn in Hl; lia].
  - cbn [seq map concat]. rewrite <- seq_shift, map_map. rewrite Nat.mul_0_l, Nat.add_0_r, drop_0.
    rewrite <- (take_drop L l) at 2. rewrite indexed_app. f_equal.
    destruct (decide (length l <= L)%nat) as [Hs|Hs].
    + rewrite (drop_ge l L) by lia.
      generalize (seq 0 m). intros ks. induction ks as [|k ks IHk]; [done|]. cbn [map concat].
      rewrite IHk, drop_ge by lia. by rewrite take_nil.
    + rewrite length_take, Nat.min_l by lia. rewrite <- IH by (rewrite length_drop; lia).
      f_equal. apply map_ext. intros k. rewrite drop_drop. replace (o + S k * L)%nat with (o + L + k * L)%nat by lia.
      by replace (S k * L)%nat with (L + k * L)%nat by lia.
Qed.
Lemma page_starts_cover {A} (l : list A) :
  concat (map (fun s => indexed s (take LIMIT (drop s l))) (page_starts (len l))) = indexed 0 l.
Proof.
  unfold page_starts. rewrite map_map. refine (indexed_pages LIMIT _ _ 0 l _); [unfold LIMIT; lia|].
  unfold len. rewrite Nat2N.id. pose proof (Nat.div_mod (length l + (LIMIT - 1)) LIMIT ltac:(done)).
  pose proof (Nat.mod_upper_bound (length l + (LIMIT - 1)) LIMIT ltac:(done)). unfold LIMIT in *. lia.
Qed.
Lemma page_starts_bound n s : s ∈ page_starts n -> (s < N.to_nat n)%nat.
Proof.
  unfold page_starts. intros (k & -> & Hk)%list_elem_of_fmap. apply elem_of_seq in Hk.
  pose proof (Nat.Div0.mul_div_le (N.to_nat n + (LIMIT - 1)) LIMIT). unfold LIMIT in *. nia.
Qed.

(** ** Reading against a contract *)
Section reading.
Context {P S : Type} `{!FromSlice P N} `{!FromSlice P (list PoolInfoBared)} (is_mainnet : bool).
Context (answer : forall r, S -> Resp P r * S).
Abbreviation result p s := (interp answer p s).1.1.
Abbreviation after p s := (interp answer p s).2.

Lemma result_bind {A B} (p : prog P A) (k : A -> prog P B) s a : result p s = Ok a ->
  result (bind p k) s = result (k a) (after p s).
Proof using Type.
  intros Hp. rewrite interp_bind. destruct (interp answer p s) as [[o t] s']. cbn in *. subst o.
  by destruct (interp answer (k a) s') as [[o' t'] s''].
Qed.
Lemma result_attempt {A} (p : prog P A) s a : result p s = Ok a -> result (attempt p) s = Ok (inl a).
Proof using Type.
  revert s. induction p as [[]|r f IH]; intros s; [by intros [= ->]|done|done|].
  change (attempt (Op r f)) with (Op r (fun x => attempt (f x))). cbn [interp]. destruct (answer r s) as [x s']. specialize (IH x s').
  destruct (interp answer (f x) s') as [[o t] s''], (interp answer (attempt (f x)) s') as [[o' t'] s''']. cbn in *. auto.
Qed.

(** A contract with these pools, as its two views document them. *)
Context (ps : list PoolInfoBared).
Context (number_view : forall s, exists raw,
  (answer (RView (CONTRACT_ADDRESS is_mainnet) "get_number_of_pools" (JObj [])) s).1 = inl raw /\
  from_slice raw = Some (len ps)).
Context (pools_view : forall s index, exists raw,
  (answer (RView (CONTRACT_ADDRESS is_mainnet) "get_pools"
     (JObj [("from_index", JU32 (N.of_nat index)); ("limit", JU32 (N.of_nat LIMIT))])) s).1 = inl raw /\
  from_slice raw = Some (take LIMIT (drop index ps))).

Lemma view_reads receiver method args s raw : (answer (RView receiver method args) s).1 = inl raw ->
  result (view_contract receiver method args) s = Ok raw.
Proof using Type.
  intros Ha. unfold view_contract. cbn [interp]. destruct (answer _ s) as [x s']. cbn in Ha. by subst x.
Qed.
Lemma number_reads s : result (get_number_of_pools is_mainnet) s = Ok (len ps).
Proof using number_view.
  destruct (number_view s) as (raw & Ha & Hd). unfold get_number_of_pools.
  erewrite result_bind by (by apply view_reads).
  unfold decode. by rewrite Hd.
Qed.
Lemma page_reads index s : result (get_pools is_mainnet index) s = Ok (take LIMIT (drop index ps)).
Proof using pools_view.
  destruct (pools_view s index) as (raw & Ha & Hd). unfold get_pools.
  erewrite result_bind by (by apply view_reads).
  unfold decode. by rewrite Hd.
Qed.
Lemma join_reads starts s :
  result (join_pages is_mainnet starts) s = Ok (map (fun i => inl (i, take LIMIT (drop i ps))) starts).
Proof using pools_view.
  revert s. induction starts as [|i starts IH]; intros s; cbn [join_pages map]; [done|].
  rewrite (result_bind _ _ s _ (result_attempt _ s _ (page_reads i s))). by rewrite (result_bind _ _ _ _ (IH _)).
Qed.
Lemma collect_inl {A} (l : list A) : collect (map inl l) = Ok l.
Proof using Type. induction l as [|a l IH]; cbn; [done|]. by rewrite IH. Qed.

Definition identified (p : PoolInfo) : N * PoolInfoBared := (id p, bare p).

Lemma number_page_reads index i page s : (index + i + length page <= N.to_nat U32_MAX)%nat ->
  exists pools, result (number_page (P:=P) index i page) s = Ok pools /\
    identified <$> pools = indexed (index + i) page.
Proof using Type.
  revert i s. induction page as [|b page IH]; intros i s Hb; cbn [number_page]; [by exists []|].
  cbn [length] in Hb. set (now := (answer RUtcNow s).1). set (s' := (answer RUtcNow s).2).
  rewrite (result_bind utc_now _ s now).
  2: { unfold utc_now. cbn [interp]. unfold now. by destruct (answer RUtcNow s). }
  replace (after utc_now s) with s' by (unfold utc_now, s'; cbn [interp]; by destruct (answer RUtcNow s)).
  assert (Hid : N.of_nat i mod 2 ^ 32 + N.of_nat index = N.of_nat (index + i)).
  { rewrite N.mod_small; [lia|]. unfold U32_MAX in Hb. lia. }
  cbn zeta. rewrite Hid. destruct (N.ltb_spec U32_MAX (N.of_nat (index + i))); [lia|].
  destruct (IH (Datatypes.S i) s' ltac:(lia)) as (rest & Hr & Hi). exists (mkPoolInfo (N.of_nat (index + i)) b now :: rest).
  rewrite (result_bind _ _ s' _ Hr). split; [done|].
  rewrite fmap_cons, Hi. unfold indexed. cbn [imap identified id bare]. f_equal; [by rewrite Nat.add_0_r|].
  apply imap_ext. intros j x _. cbn. do 2 f_equal. lia.
Qed.
Lemma number_pages_reads pages s : Forall (fun p => (p.1 + length p.2 <= N.to_nat U32_MAX)%nat) pages ->
  exists pools, result (number_pages (P:=P) pages) s = Ok pools /\
    identified <$> pools = concat (map (fun p => indexed p.1 p.2) pages).
Proof using Type.
  revert s. induction pages as [|[index page] pages IH]; intros s Hp; cbn [number_pages map concat]; [by exists []|].
  apply list.Forall_cons in Hp as [Hp1 Hp2]. cbn in Hp1.
  destruct (number_page_reads index 0 page s ltac:(lia)) as (hd & Hh & Hih).
  destruct (IH (after (number_page (P:=P) index 0 page) s) Hp2) as (rest & Hr & Hir). exists (hd ++ rest).
  rewrite (result_bind _ _ s _ Hh), (result_bind _ _ _ _ Hr). split; [done|].
  rewrite fmap_app, Hih, Hir, Nat.add_0_r. done.
Qed.

Context (number_u32 : len ps <= U32_MAX).

Lemma read_pools_reads s : exists pools,
  result (read_pools_from_node is_mainnet) s = Ok (PoolInfoList_new pools) /\ identified <$> pools = indexed 0 ps.
Proof using number_view pools_view number_u32.
  unfold read_pools_from_node.
  rewrite (result_bind _ _ s _ (number_reads s)), (result_bind _ _ _ _ (join_reads _ _)).
  rewrite <- (map_map (fun i => (i, take LIMIT (drop i ps))) inl), collect_inl. rewrite (result_bind (lift _) _ _ _ eq_refl).
  destruct (number_pages_reads (map (fun i => (i, take LIMIT (drop i ps))) (page_starts (len ps)))
    (after (join_pages is_mainnet (page_starts (len ps))) (after (get_number_of_pools is_mainnet) s)))
    as (pools & Hr & Hi).
  - apply List.Forall_map, Forall_elem. intros i Hi%page_starts_bound. cbn [fst snd].
    rewrite length_take, length_drop. unfold len in *. rewrite Nat2N.id in Hi. lia.
  - exists pools. rewrite (result_bind _ _ _ _ Hr). split; [done|].
    rewrite Hi, map_map. apply page_starts_cover.
Qed.
End reading.

Lemma indexed_ids {A} o (l : list A) : fst <$> indexed o l = N.of_nat <$> seq o (length l).
Proof.
  revert o. induction l as [|a l IH]; intros o; [done|]. change (a :: l) with ([a] ++ l).
  rewrite indexed_app, fmap_app, IH. cbn. by rewrite Nat.add_0_r, Nat.add_1_r.
Qed.
Lemma elem_of_indexed {A} o (l : list A) n a : (n, a) ∈ indexed o l <-> exists i, n = N.of_nat (o + i) /\ l !! i = Some a.
Proof.
  unfold indexed. rewrite elem_of_lookup_imap. split.
  - intros (i & b & [= -> ->] & Hi). eauto.
  - intros (i & -> & Hi). eauto.
Qed.
Lemma by_id_of_elem l k p : by_id_of l !! k = Some p -> p ∈ l /\ id p = k.
Proof.
  unfold by_id_of. induction l as [|q l IH] using rev_ind; [done|]. rewrite foldl_app. cbn.
  rewrite lookup_insert_Some, elem_of_app, list_elem_of_singleton. intros [[Hk ->]|[Hne Hl]]; [auto|].
  destruct (IH Hl). auto.
Qed.

(** ** The claim *)

(** On a contract that answers its two views as documented, reading the
    pools succeeds in whatever state the client is, asks for every page, and
    gives every pool of the contract under its own index, once, and nothing
    else; so the ids are distinct and the lookup by id agrees with the list. *)
Theorem pools_read_exactly {P S} `{!FromSlice P N} `{!FromSlice P (list PoolInfoBared)} is_mainnet
    (answer : forall r, S -> Resp P r * S) ps s :
  (forall s, exists raw,
    (answer (RView (CONTRACT_ADDRESS is_mainnet) "get_number_of_pools" (JObj [])) s).1 = inl raw /\
    from_slice raw = Some (len ps)) ->
  (forall s index, exists raw,
    (answer (RView (CONTRACT_ADDRESS is_mainnet) "get_pools"
       (JObj [("from_index", JU32 (N.of_nat index)); ("limit", JU32 (N.of_nat LIMIT))])) s).1 = inl raw /\
    from_slice raw = Some (take LIMIT (drop index ps))) ->
  len ps <= U32_MAX ->
  exists l, (interp answer (read_pools_from_node is_mainnet) s).1.1 = Ok l /\
    length (pools_list l) = length ps /\ NoDup (id <$> pools_list l) /\
    (forall p, p ∈ pools_list l -> by_id l !! id p = Some p) /\
    forall i b, ps !! i = Some b <-> exists ts, by_id l !! N.of_nat i = Some (mkPoolInfo (N.of_nat i) b ts).
Proof.
  intros Hn Hp Hu. destruct (read_pools_reads is_mainnet answer ps Hn Hp Hu s) as (pools & -> & Hid).
  assert (Hids : id <$> pools = N.of_nat <$> seq 0 (length ps)).
  { rewrite <- indexed_ids, <- Hid, <- list_fmap_compose. done. }
  assert (Hnd : NoDup (id <$> pools)) by (rewrite Hids; apply NoDup_fmap_2; [apply _|apply NoDup_seq]).
  destruct (PoolInfoList_new_distinct pools Hnd) as [Hnd' Hby].
  eexists. split; [reflexivity|]. split_and!; [|done|done|].
  - cbn [pools_list PoolInfoList_new]. rewrite (sort_by_perm _ pools).
    apply (f_equal length) in Hids. by rewrite !length_fmap, length_seq in Hids.
  - assert (Hin : forall i b, ps !! i = Some b <-> (N.of_nat i, b) ∈ identified <$> pools).
    { intros i b. rewrite Hid, elem_of_indexed. cbn. split; [eauto|]. by intros (j & ->%Nat2N.inj & Hj). }
    intros i b. rewrite Hin, list_elem_of_fmap. split.
    + intros ([n b' ts] & [= -> ->] & Hin'). exists ts. apply (Hby (mkPoolInfo _ _ _)).
      cbn [pools_list PoolInfoList_new]. by rewrite (sort_by_perm _ pools).
    + intros (ts & Hl). apply by_id_of_elem in Hl as [Hl _]. by exists (mkPoolInfo (N.of_nat i) b ts).
Qed.

(** ** A contract with three pools *)
Inductive sample_bytes : Type := SNumber (n : N) | SPools (l : list PoolInfoBared).
#[local] Instance sample_number : FromSlice sample_bytes N := fun b => match b with SNumber n => Some n | _ => None end.
#[local] Instance sample_page : FromSlice sample_bytes (list PoolInfoBared) :=
  fun b => match b with SPools l => Some l | _ => None end.
Definition sample_pools : list PoolInfoBared :=
  map (fun fee => mkPoolInfoBared POOL_KIND_SIMPLE ["a.near"; "b.near"] [1000; 2000] fee 10 0) [30; 25; 5].
Definition sample_view (method : string) (args : json) : sample_bytes :=
  match args with
  | JObj [(_, JU32 from); (_, JU32 limit)] => SPools (take (N.to_nat limit) (drop (N.to_nat from) sample_pools))
  | _ => SNumber (len sample_pools)
  end.
Definition sample_answer (r : Req) (s : unit) : Resp sample_bytes r * unit :=
  (match r as r return Resp sample_bytes r with
   | RView _ m args => inl (sample_view m args)
   | RExec _ _ _ _ _ | RTransfer _ _ _ => inr (External "none")
   | RWait _ => inr (External "none")
   | RWaitExecuted _ => inr (External "none")
   | RRecordTrade _ _ _ _ _ _ _ => inl tt
   | RDb _ => inr (External "none")
   | RUtcNow => 0%Z
   | RReadInputs => (0, 0)
   | RGasPrice => inl 0
   | RDecimals _ => None
   | RNative _ => inl 0
   | RNow | RLoadLastHarvest | RLoadHarvestTime => 0
   | RStoreLastHarvest _ | RStoreHarvestTime _ | RLock _ | RUnlock _ | RCacheDecimals _ _ | RReplaceDecimals _ | RSleep _ | RReloadConfig => tt
   | RPredict _ _ => inr (External "none")
   | RSetting _ => 0
   end, s).

Lemma pools_read_exactly_witness : exists l,
  (interp sample_answer (read_pools_from_node true) tt).1.1 = Ok l /\ length (pools_list l) = 3%nat.
Proof.
  destruct (pools_read_exactly true sample_answer sample_pools tt) as (l & Hl & Hlen & _).
  - intros s. exists (SNumber 3). split; reflexivity.
  - intros s index. exists (SPools (take LIMIT (drop index sample_pools))). cbn [sample_answer fst sample_view].
    split; [|reflexivity]. by rewrite !Nat2N.id.
  - vm_compute. discriminate.
  - exists l. split; [exact Hl|exact Hlen].
Defined.
