(* ===== verification/TokenCache.v ===== *)
(** * TokenCache: the decimals of tokens and the retries of failed requests

    [trade/src/token_cache.rs]: the cache of decimals, filled from the
    database and by requests to the node, and the records of failed requests
    with their exponential backoff.  The requests of one call run concurrently;
    [fetch] gives their results in the order of completion.  Times are
    nanoseconds.  The calls that fetch are made one after the other by the job
    that records rates; every other operation may come in between. *)

From S2P Require Import Prelude NearClient.
Local Open Scope N_scope.

Record FailureRecord := mkFailureRecord { failure_count : N; last_failure : NaiveDateTime }.
#[global] Instance FailureRecord_eq_dec : EqDecision FailureRecord.
Proof. solve_decision. Defined.

(** [TOKEN_DECIMALS_CACHE] and [TOKEN_DECIMALS_FAILURES]. *)
Record Caches := mkCaches {
  decimals : gmap TokenAccount N;
  failures : gmap TokenAccount FailureRecord;
}.

Definition MINUTE_NANOS : Z := 60 * 10 ^ 9.
(** [as i64], and [TimeDelta::minutes], which panics beyond [i64::MAX]
    milliseconds. *)
Definition as_i64 (n : N) : Z := if n <? 2 ^ 63 then Z.of_N n else (Z.of_N n - 2 ^ 64)%Z.
Definition MAX_DELTA_SECONDS : Z := 9223372036854775.
Definition time_delta_minutes (m : Z) : outcome anyhow Z :=
  if (Z.abs (m * 60) <=? MAX_DELTA_SECONDS)%Z then Ok (m * MINUTE_NANOS)%Z else Panic.

Definition backoff_minutes (r : FailureRecord) (base_minutes max_backoff_minutes : N) : N :=
  let exponent := N.min (failure_count r) 8 in
  N.min (saturating_mul_u64 base_minutes (N.min (2 ^ exponent) U64_MAX)) max_backoff_minutes.
Definition should_retry (r : FailureRecord) (now : NaiveDateTime) (base_minutes max_backoff_minutes : N)
    : outcome anyhow bool :=
  let elapsed := (now - last_failure r)%Z in
  let? wait := time_delta_minutes (as_i64 (backoff_minutes r base_minutes max_backoff_minutes)) in
  Ok (wait <=? elapsed)%Z.

Definition load_from_db (decimals_map : outcome anyhow (gmap TokenAccount N)) (st : Caches) : outcome anyhow Caches :=
  let? m := decimals_map in Ok (mkCaches m (failures st)).
Definition get_cached_decimals (st : Caches) (token_id : TokenAccount) : option N := decimals st !! token_id.
(** [get_token_decimals_cached], with the answer of the node. *)
Definition cache_or_fetch (answer : outcome anyhow N) (token_id : TokenAccount) (st : Caches) : outcome anyhow N * Caches :=
  match decimals st !! token_id with
  | Some d => (Ok d, st)
  | None =>
      match answer with
      | Ok d => (Ok d, mkCaches (<[token_id := d]> (decimals st)) (failures st))
      | o => (o, st)
      end
  end.

(** ** ensure_decimals_cached *)

(** What the cache holds of the tokens, and the others. *)
Fixpoint split_cached (cache : gmap TokenAccount N) (result : gmap TokenAccount N) (token_ids : list TokenAccount)
    : gmap TokenAccount N * list TokenAccount :=
  match token_ids with
  | [] => (result, [])
  | t :: token_ids =>
      match cache !! t with
      | Some d => split_cached cache (<[t := d]> result) token_ids
      | None => let (result, missing) := split_cached cache result token_ids in (result, t :: missing)
      end
  end.

Fixpoint retain_due (fs : gmap TokenAccount FailureRecord) (now : NaiveDateTime) (base max : N) (missing : list TokenAccount)
    : outcome anyhow (list TokenAccount) :=
  match missing with
  | [] => Ok []
  | t :: missing =>
      let? due := match fs !! t with Some r => should_retry r now base max | None => Ok true end in
      let? rest := retain_due fs now base max missing in
      Ok (if due then t :: rest else rest)
  end.

Definition record_fetched (now : NaiveDateTime) (st : Caches) (f : TokenAccount * option N) : outcome anyhow Caches :=
  let (token_id, fetch_result) := f in
  match fetch_result with
  | Some d => Ok (mkCaches (<[token_id := d]> (decimals st)) (delete token_id (failures st)))
  | None =>
      let r := default (mkFailureRecord 0 now) (failures st !! token_id) in
      if failure_count r =? U32_MAX then Panic
      else Ok (mkCaches (decimals st) (<[token_id := mkFailureRecord (failure_count r + 1) now]> (failures st)))
  end.
Fixpoint record_all (now : NaiveDateTime) (st : Caches) (fetched : list (TokenAccount * option N)) : outcome anyhow Caches :=
  match fetched with
  | [] => Ok st
  | f :: fetched => let? st := record_fetched now st f in record_all now st fetched
  end.
Definition add_fetched (result : gmap TokenAccount N) (f : TokenAccount * option N) : gmap TokenAccount N :=
  match f.2 with Some d => <[f.1 := d]> result | None => result end.

Section ensure.
Context (fetch : list TokenAccount -> list (TokenAccount * option N)).

(** The decimals that are known at the end, the requests with their results,
    and the caches. *)
Definition ensure_decimals_cached (st : Caches) (now : NaiveDateTime) (base_minutes max_backoff : N)
    (token_ids : list TokenAccount)
    : outcome anyhow (gmap TokenAccount N * list (TokenAccount * option N) * Caches) :=
  let (result, missing) := split_cached (decimals st) ∅ token_ids in
  match missing with
  | [] => Ok (result, [], st)
  | _ =>
      let? missing := retain_due (failures st) now base_minutes max_backoff missing in
      match missing with
      | [] => Ok (result, [], st)
      | _ =>
          let fetched := fetch missing in
          let? st := record_all now st fetched in
          Ok (foldl add_fetched result fetched, fetched, st)
      end
  end.
End ensure.

Definition cleanup_stale_failures (st : Caches) (active_token_ids : list TokenAccount) : Caches :=
  mkCaches (decimals st) (filter (fun kv => kv.1 ∈ active_token_ids) (failures st)).

(** ** What a call returns and whom it asks *)
Lemma split_cached_missing cache result ids : (split_cached cache result ids).2 = List.filter (fun t => bool_decide (cache !! t = None)) ids.
Proof.
  revert result. induction ids as [|t ids IH]; intros result; [done|]. cbn [split_cached List.filter].
  destruct (cache !! t) as [d|] eqn:E; [rewrite bool_decide_eq_false_2 by congruence; apply IH|].
  rewrite bool_decide_eq_true_2 by done. specialize (IH result). destruct (split_cached cache result ids). cbn in *. by rewrite IH.
Qed.
Lemma elem_of_missing cache ids t : t ∈ (split_cached cache ∅ ids).2 <-> t ∈ ids /\ cache !! t = None.
Proof. rewrite split_cached_missing, !list_elem_of_In, filter_In, bool_decide_eq_true. done. Qed.
Lemma split_cached_result cache result ids t d : (split_cached cache result ids).1 !! t = Some d ->
  result !! t = Some d \/ (t ∈ ids /\ cache !! t = Some d).
Proof.
  revert result. induction ids as [|x ids IH]; intros result; cbn [split_cached]; [by left|].
  destruct (cache !! x) as [dx|] eqn:E.
  - intros Hl. destruct (IH _ Hl) as [Hi|[Hi Hc]].
    + apply lookup_insert_Some in Hi as [[-> <-]|[_ Hi]]; [right; split; [by left|done]|by left].
    + right. split; [by right|done].
  - specialize (IH result). destruct (split_cached cache result ids). cbn in *. intros Hl.
    destruct (IH Hl) as [|[]]; [by left|right]. split; [by right|done].
Qed.

Lemma retain_due_elem fs now base max missing due t : retain_due fs now base max missing = Ok due ->
  t ∈ due -> t ∈ missing /\ forall r, fs !! t = Some r -> should_retry r now base max = Ok true.
Proof.
  revert due. induction missing as [|x missing IH]; intros due; cbn [retain_due]; [intros [= <-] Ht; by apply not_elem_of_nil in Ht|].
  destruct (match fs !! x with Some r => should_retry r now base max | None => Ok true end) as [b|e|] eqn:Hb; [|done..].
  cbn [obind]. destruct (retain_due fs now base max missing) as [rest|e|]; [|done..]. cbn [obind]. intros [= <-] Ht.
  assert (Hrest : t ∈ rest -> t ∈ x :: missing /\ forall r, fs !! t = Some r -> should_retry r now base max = Ok true).
  { intros Hr. destruct (IH rest eq_refl Hr). split; [by right|done]. }
  destruct b; [|by apply Hrest]. apply elem_of_cons in Ht as [->|Ht]; [|by apply Hrest].
  split; [by left|]. intros r Hr. by rewrite Hr in Hb.
Qed.

Lemma backoff_le_max r base max : backoff_minutes r base max <= max.
Proof. unfold backoff_minutes. lia. Qed.
Lemma as_i64_small n : n < 2 ^ 63 -> as_i64 n = Z.of_N n.
Proof. unfold as_i64. intros Hn. by destruct (N.ltb_spec n (2 ^ 63)); [|lia]. Qed.

(** A retry that is due has waited. *)
Lemma should_retry_waited r now base max : max < 2 ^ 63 -> should_retry r now base max = Ok true ->
  (last_failure r + Z.of_N (backoff_minutes r base max) * MINUTE_NANOS <= now)%Z.
Proof.
  intros Hm. pose proof (backoff_le_max r base max). unfold should_retry, time_delta_minutes. rewrite as_i64_small by lia.
  destruct (_ <=? _)%Z; [|done]. cbn [obind]. intros [= Hw]. apply Z.leb_le in Hw. lia.
Qed.
(** With a longest backoff that is a time span, the check answers, and a
    failure that long ago is due. *)
Definition span (max : N) : Prop := (Z.of_N max * 60 <= MAX_DELTA_SECONDS)%Z.
Lemma should_retry_span r now base max : span max -> exists b, should_retry r now base max = Ok b /\
  ((last_failure r + Z.of_N max * MINUTE_NANOS <= now)%Z -> b = true).
Proof.
  unfold span, MAX_DELTA_SECONDS. intros Hs. pose proof (backoff_le_max r base max).
  unfold should_retry, time_delta_minutes, MAX_DELTA_SECONDS. rewrite as_i64_small by lia.
  destruct (Z.leb_spec (Z.abs (Z.of_N (backoff_minutes r base max) * 60)) 9223372036854775); [|lia].
  eexists. split; [reflexivity|]. intros Hl. apply Z.leb_le. unfold MINUTE_NANOS in *. nia.
Qed.
Lemma retain_due_span fs now base max missing : span max -> exists due, retain_due fs now base max missing = Ok due /\
  forall t, t ∈ missing -> (forall r, fs !! t = Some r -> (last_failure r + Z.of_N max * MINUTE_NANOS <= now)%Z) -> t ∈ due.
Proof.
  intros Hs. induction missing as [|x missing (due & Hd & IH)]; cbn [retain_due]; [exists []; split; [done|]; intros t Ht; by apply not_elem_of_nil in Ht|].
  destruct (fs !! x) as [r|] eqn:Hx.
  - destruct (should_retry_span r now base max Hs) as (b & -> & Hb). rewrite Hd. cbn [obind].
    eexists. split; [reflexivity|]. intros t Ht Hr. apply elem_of_cons in Ht as [->|Ht].
    + rewrite (Hb (Hr r Hx)). by left.
    + destruct b; [right|]; by apply IH.
  - rewrite Hd. cbn [obind]. eexists. split; [reflexivity|]. intros t Ht Hr.
    apply elem_of_cons in Ht as [->|Ht]; [by left|right; by apply IH].
Qed.

(** ** The history of requests *)
Inductive Event : Type :=
| Requested (at_time : NaiveDateTime) (batch : list (TokenAccount * option N))
| Cleaned (active : list TokenAccount).

(** The failures since the last success or clean-up of a token. *)
Definition after_result (t : TokenAccount) (at_time : NaiveDateTime) (o : option FailureRecord)
    (f : TokenAccount * option N) : option FailureRecord :=
  if decide (f.1 = t) then
    match f.2 with
    | Some _ => None
    | None => Some (mkFailureRecord (failure_count (default (mkFailureRecord 0 at_time) o) + 1) at_time)
    end
  else o.
Definition after_event (t : TokenAccount) (o : option FailureRecord) (e : Event) : option FailureRecord :=
  match e with
  | Requested at_time batch => foldl (after_result t at_time) o batch
  | Cleaned active => if decide (t ∈ active) then o else None
  end.
Definition unanswered (t : TokenAccount) (log : list Event) : option FailureRecord := foldl (after_event t) None log.
Lemma unanswered_snoc t log e : unanswered t (log ++ [e]) = after_event t (unanswered t log) e.
Proof. unfold unanswered. by rewrite foldl_app. Qed.

Lemma record_all_failures now st fetched st' t : record_all now st fetched = Ok st' ->
  failures st' !! t = foldl (after_result t now) (failures st !! t) fetched.
Proof.
  revert st. induction fetched as [|[x res] fetched IH]; intros st; cbn [record_all foldl]; [by intros [= <-]|].
  destruct (record_fetched now st (x, res)) as [st1|e|] eqn:Hf; [|done..]. cbn [obind]. intros Hr. rewrite (IH _ Hr).
  f_equal. unfold record_fetched in Hf. unfold after_result. cbn [fst snd]. destruct res as [d|].
  - injection Hf as <-. cbn [failures]. rewrite lookup_delete. by destruct (decide (x = t)).
  - destruct (_ =? _); [done|]. injection Hf as <-. cbn [failures]. rewrite lookup_insert.
    destruct (decide (x = t)) as [->|]; done.
Qed.

Inductive cache_run (base max : N) : list Event -> Caches -> Prop :=
| cr_start : cache_run base max [] (mkCaches ∅ ∅)
| cr_load log st m st' :
    cache_run base max log st -> load_from_db m st = Ok st' -> cache_run base max log st'
| cr_get log st answer t o st' :
    cache_run base max log st -> cache_or_fetch answer t st = (o, st') -> cache_run base max log st'
| cr_ensure log st fetch now ids result batch st' :
    cache_run base max log st -> (forall l, map fst (fetch l) ≡ₚ l) ->
    ensure_decimals_cached fetch st now base max ids = Ok (result, batch, st') ->
    cache_run base max (log ++ [Requested now batch]) st'
| cr_clean log st active :
    cache_run base max log st -> cache_run base max (log ++ [Cleaned active]) (cleanup_stale_failures st active).

(** Every request waited for the backoff of the failures before it. *)
Definition waited (base max : N) (log : list Event) : Prop :=
  forall pre now batch post t res r, log = pre ++ Requested now batch :: post -> (t, res) ∈ batch ->
    unanswered t pre = Some r -> (last_failure r + Z.of_N (backoff_minutes r base max) * MINUTE_NANOS <= now)%Z.
Lemma waited_snoc base max log e : waited base max log ->
  (forall now batch t res r, e = Requested now batch -> (t, res) ∈ batch -> unanswered t log = Some r ->
     (last_failure r + Z.of_N (backoff_minutes r base max) * MINUTE_NANOS <= now)%Z) ->
  waited base max (log ++ [e]).
Proof.
  intros Hw He pre now batch post t res r Heq Hin Hr. destruct post as [|e' post] using rev_ind.
  - apply app_inj_tail in Heq as [-> ->]. by eapply He.
  - clear IHpost. rewrite app_comm_cons, app_assoc in Heq. apply app_inj_tail in Heq as [-> ->]. by eapply Hw.
Qed.

(** The requests of a call, and the records it leaves. *)
Lemma ensure_batch fetch st now base max ids result batch st' : (forall l, map fst (fetch l) ≡ₚ l) ->
  ensure_decimals_cached fetch st now base max ids = Ok (result, batch, st') ->
  (forall t res, (t, res) ∈ batch -> decimals st !! t = None /\
     forall r, failures st !! t = Some r -> should_retry r now base max = Ok true) /\
  (forall t, failures st' !! t = foldl (after_result t now) (failures st !! t) batch).
Proof.
  intros Hf. unfold ensure_decimals_cached. pose proof (elem_of_missing (decimals st) ids) as Hm.
  destruct (split_cached (decimals st) ∅ ids) as [res0 missing]. cbn [snd] in Hm.
  assert (Hnone : forall t res, (t, res) ∈ @nil (TokenAccount * option N) -> decimals st !! t = None /\
     forall r, failures st !! t = Some r -> should_retry r now base max = Ok true) by (intros t res Hn; by apply not_elem_of_nil in Hn).
  destruct missing as [|m0 missing]; [by intros [= <- <- <-]|].
  destruct (retain_due (failures st) now base max (m0 :: missing)) as [due|e|] eqn:Hd; [|done..]. cbn [obind].
  destruct due as [|d0 due]; [by intros [= <- <- <-]|].
  destruct (record_all now st (fetch (d0 :: due))) as [st1|e|] eqn:Hr; [|done..]. cbn [obind]. intros [= <- <- <-].
  split; [|intros t; by apply record_all_failures].
  intros t res Hin. assert (Ht : t ∈ d0 :: due).
  { rewrite <- (Hf (d0 :: due)). apply list_elem_of_fmap. by exists (t, res). }
  destruct (retain_due_elem _ _ _ _ _ _ _ Hd Ht) as [Htm Hr']. split; [by apply Hm|done].
Qed.

Lemma cache_run_ok base max log st : max < 2 ^ 63 -> cache_run base max log st ->
  (forall t, failures st !! t = unanswered t log) /\ waited base max log.
Proof.
  intros Hmax. induction 1 as [|log st m st' _ [IHf IHw] Hl|log st answer t o st' _ [IHf IHw] Hg
    |log st fetch now ids result batch st' _ [IHf IHw] Hf He|log st active _ [IHf IHw]].
  - split; [done|]. intros pre now batch post t res r Heq. by destruct pre.
  - unfold load_from_db in Hl. destruct m; [|done..]. cbn in Hl. by injection Hl as <-.
  - unfold cache_or_fetch in Hg. destruct (decimals st !! t), answer; by injection Hg as <- <-.
  - destruct (ensure_batch _ _ _ _ _ _ _ _ _ Hf He) as [Hb Hfail]. split.
    + intros t. rewrite unanswered_snoc. cbn [after_event]. by rewrite Hfail, IHf.
    + apply waited_snoc; [done|]. intros now' batch' t res r [= <- <-] Hin Hr. rewrite <- IHf in Hr.
      apply should_retry_waited; [done|]. by eapply Hb.
  - split.
    + intros t. rewrite unanswered_snoc. cbn [after_event cleanup_stale_failures failures].
      destruct (decide (t ∈ active)) as [Hin|Hin].
      * rewrite <- IHf. destruct (failures st !! t) as [r|] eqn:E.
        -- by apply map_lookup_filter_Some_2.
        -- apply map_lookup_filter_None_2. by left.
      * apply map_lookup_filter_None_2. right. by intros r _.
    + apply waited_snoc; [done|]. by intros.
Qed.

(** What a call returns is cached afterwards. *)
Lemma record_all_decimals now st fetched st' t d : record_all now st fetched = Ok st' ->
  foldl add_fetched (decimals st) fetched !! t = Some d <-> decimals st' !! t = Some d.
Proof.
  revert st. induction fetched as [|[x res] fetched IH]; intros st; cbn [record_all foldl]; [by intros [= <-]|].
  destruct (record_fetched now st (x, res)) as [st1|e|] eqn:Hf; [|done..]. cbn [obind]. intros Hr. rewrite <- (IH _ Hr).
  enough (decimals st1 = add_fetched (decimals st) (x, res)) as -> by done.
  unfold record_fetched in Hf. unfold add_fetched. cbn [fst snd]. destruct res as [dx|]; [by injection Hf as <-|].
  destruct (_ =? _); [done|]. by injection Hf as <-.
Qed.
Lemma add_fetched_mono (a b : gmap TokenAccount N) fetched : a ⊆ b -> foldl add_fetched a fetched ⊆ foldl add_fetched b fetched.
Proof.
  revert a b. induction fetched as [|[x [d|]] fetched IH]; intros a b Hab; cbn; [done| |by apply IH].
  apply IH. cbn. by apply insert_mono.
Qed.
Lemma ensure_result_cached fetch st now base max ids result batch st' t d :
  ensure_decimals_cached fetch st now base max ids = Ok (result, batch, st') ->
  result !! t = Some d -> decimals st' !! t = Some d.
Proof.
  unfold ensure_decimals_cached. pose proof (split_cached_result (decimals st) ∅ ids) as Hs.
  destruct (split_cached (decimals st) ∅ ids) as [res0 missing]. cbn [fst] in Hs.
  assert (Hsub : res0 ⊆ decimals st).
  { apply map_subseteq_spec. intros x dx Hx. apply Hs in Hx as [Hx|[_ Hx]]; [by rewrite lookup_empty in Hx|done]. }
  assert (H0 : res0 !! t = Some d -> decimals st !! t = Some d) by (intros Hx; by eapply lookup_weaken).
  destruct missing as [|m0 missing]; [by intros [= <- <- <-]|].
  destruct (retain_due _ _ _ _ _) as [due|e|]; [|done..]. cbn [obind].
  destruct due as [|d0 due]; [by intros [= <- <- <-]|].
  destruct (record_all now st (fetch (d0 :: due))) as [st1|e|] eqn:Hr; [|done..]. cbn [obind]. intros [= <- <- <-] Hl.
  apply (record_all_decimals _ _ _ _ _ _ Hr). eapply lookup_weaken; [exact Hl|]. by apply add_fetched_mono.
Qed.

(** ** The claim *)

(** In any run of the cache, a failure record holds the number of failures
    of its token since the last success or clean-up and the time of the last
    one; every request waited, after those failures, for the base time doubled
    per failure up to eight times and capped at the maximum; and when the
    maximum is a time span, the check never panics and a token that is asked
    for, is not cached and last failed at least the maximum ago is requested. *)
Theorem requests_back_off base max log st :
  max < 2 ^ 63 -> cache_run base max log st ->
  (forall t, failures st !! t = unanswered t log) /\
  (forall pre now batch post t res r, log = pre ++ Requested now batch :: post -> (t, res) ∈ batch ->
     unanswered t pre = Some r ->
     (last_failure r + Z.of_N (backoff_minutes r base max) * MINUTE_NANOS <= now)%Z) /\
  (span max -> forall now ids t, t ∈ ids -> decimals st !! t = None ->
     (forall r, unanswered t log = Some r -> (last_failure r + Z.of_N max * MINUTE_NANOS <= now)%Z) ->
     exists due, retain_due (failures st) now base max (split_cached (decimals st) ∅ ids).2 = Ok due /\ t ∈ due).
Proof.
  intros Hm Hr. destruct (cache_run_ok base max log st Hm Hr) as [Hf Hw]. split_and!; [done|done|].
  intros Hs now ids t Ht Hc Hlate.
  destruct (retain_due_span (failures st) now base max (split_cached (decimals st) ∅ ids).2 Hs) as (due & -> & Hd).
  exists due. split; [done|]. apply Hd; [by apply elem_of_missing|]. intros r Hfr. apply Hlate. by rewrite <- Hf.
Qed.

(** ** A token that keeps failing *)
Definition sample_fetch (l : list TokenAccount) : list (TokenAccount * option N) :=
  map (fun t => (t, if String.eqb t "bad.near" then None else Some 6)) l.
Definition sample_step (st : Caches) (minute : Z) :=
  ensure_decimals_cached sample_fetch st (minute * MINUTE_NANOS) 15 1440 ["ok.near"; "bad.near"].
Definition sample_once : Caches :=
  mkCaches {[ "ok.near" := 6 ]} {[ "bad.near" := mkFailureRecord 1 0 ]}.

(** The first retry is due after twice the base time, not after it. *)
Example first_retry_after_30_minutes :
  sample_step (mkCaches ∅ ∅) 0 = Ok ({[ "ok.near" := 6 ]}, [("ok.near", Some 6); ("bad.near", None)], sample_once) /\
  sample_step sample_once 29 = Ok ({[ "ok.near" := 6 ]}, [], sample_once) /\
  (exists st, sample_step sample_once 30 = Ok ({[ "ok.near" := 6 ]}, [("bad.near", None)], st) /\
     failures st !! "bad.near" = Some (mkFailureRecord 2 (30 * MINUTE_NANOS))).
Proof. split_and!; [vm_compute; reflexivity..|]. eexists. split; vm_compute; reflexivity. Qed.

Lemma sample_fetch_all l : map fst (sample_fetch l) ≡ₚ l.
Proof. unfold sample_fetch. rewrite map_map. cbn. by rewrite map_id. Qed.

Lemma requests_back_off_witness :
  failures sample_once !! "bad.near" =
  unanswered "bad.near" ([] ++ [Requested 0 [("ok.near", Some 6); ("bad.near", None)]]).
Proof.
  refine (proj1 (requests_back_off 15 1440 _ sample_once _ _) "bad.near"); [vm_compute; reflexivity|].
  apply (cr_ensure 15 1440 [] (mkCaches ∅ ∅) sample_fetch 0 ["ok.near"; "bad.near"] {[ "ok.near" := 6 ]}).
  - constructor.
  - exact sample_fetch_all.
  - vm_compute. reflexivity.
Defined.
