(* ===== verification/Vectors.v ===== *)
(** * Vectors: lists of [f64] and the matrices of the optimiser

    The part of Rust's standard library that [common/src/algorithm/portfolio.rs]
    uses on [Vec<f64>]: sums, extrema, square roots, clamping, indexing and
    assignment by index.  An index out of range, or a [clamp] whose bounds are
    not ordered, is a panic: [None].  A matrix is the list of its rows.

    The lemmas are about signs and shapes: [nn], the numbers that are not
    below zero, is closed under the arithmetic that computes weights, whatever
    is rounded, overflows or becomes a NaN on the way. *)

From Stdlib Require Import ZArith SpecFloat.
From S2P Require Import Prelude F64.
Local Open Scope nat_scope.

#[global] Instance f64_inhabited : Inhabited f64 := populate f64_zero.

Definition f64_leb : f64 -> f64 -> bool := SFleb.
Definition f64_sqrt : f64 -> f64 := SFsqrt f64_prec f64_emax.
Definition f64_of_nat (n : nat) : f64 := f64_of_Z (Z.of_nat n).
Definition f64_infinity : f64 := S754_infinity false.
Definition f64_neg_infinity : f64 := S754_infinity true.
Definition f64_is_nan (x : f64) : bool := match x with S754_nan => true | _ => false end.
Definition f64_is_zero (x : f64) : bool := match x with S754_zero _ => true | _ => false end.
(** [powi(2)]. *)
Definition f64_sq (x : f64) : f64 := f64_mul x x.

(** [f64::max] and [f64::min]: a NaN gives way to the other argument. *)
Definition f64_max (x y : f64) : f64 :=
  if f64_is_nan x then y else if f64_is_nan y then x else if f64_ltb x y then y else x.
Definition f64_min (x y : f64) : f64 :=
  if f64_is_nan x then y else if f64_is_nan y then x else if f64_ltb y x then y else x.

(** [iter().sum::<f64>()], which starts at [-0.0]. *)
Definition f64_sum (l : list f64) : f64 := foldl f64_add (S754_zero true) l.

(** [clamp] asserts that its bounds are ordered. *)
Definition clamp_checked (x lo hi : f64) : option f64 :=
  if f64_leb lo hi then Some (f64_clamp x lo hi) else None.

(** [v[i] = x], [v.remove(i)]. *)
Definition vec_set {A} (l : list A) (i : nat) (x : A) : option (list A) :=
  if (i <? length l) then Some (<[i := x]> l) else None.
Definition vec_remove {A} (i : nat) (l : list A) : option (list A) :=
  if (i <? length l) then Some (delete i l) else None.

(** [for (k, &i) in idxs.iter().enumerate() { w[i] = vals[k] }]. *)
Fixpoint scatter {A} (w : list A) (idxs : list nat) (vals : list A) : option (list A) :=
  match idxs, vals with
  | [], _ => Some w
  | i :: idxs, v :: vals => w ← vec_set w i v; scatter w idxs vals
  | _ :: _, [] => None
  end.

(** Every index of [idxs] gets the same value. *)
Definition fill {A} (w : list A) (idxs : list nat) (v : A) : option (list A) :=
  scatter w idxs (replicate (length idxs) v).

Abbreviation matrix := (list (list f64)) (only parsing).

(** [m[[i, j]]]. *)
Definition mat_get (m : matrix) (i j : nat) : option f64 := r ← m !! i; r !! j.
(** [from_fn] of nalgebra and [from_shape_fn] of ndarray. *)
Definition mat_fn (rows cols : nat) (f : nat -> nat -> option f64) : option matrix :=
  mapM (fun i => mapM (f i) (seq 0 cols)) (seq 0 rows).
(** The entries with both indices in [idxs]. *)
Definition submatrix (m : matrix) (idxs : list nat) : option matrix :=
  mapM (fun i => mapM (mat_get m i) idxs) idxs.

(** ** Signs *)

(** Comparison is a strict order, in which NaN has no place. *)
Lemma f64_ltb_trans a b c : f64_ltb a b = true -> f64_ltb b c = true -> f64_ltb a c = true.
Proof.
  destruct a as [[]|[]| |[] ma ea], b as [[]|[]| |[] mb eb], c as [[]|[]| |[] mc ec]; try done;
    unfold f64_ltb, SFltb, SFcompare; change (Pos.compare_cont Eq ?x ?y) with (x ?= y)%positive.
  - destruct (Z.compare_spec ea eb), (Z.compare_spec eb ec), (Z.compare_spec ea ec); subst; try done; try lia;
      repeat (change (Pos.compare_cont Eq ?x ?y) with (x ?= y)%positive);
      destruct (Pos.compare_spec ma mb), (Pos.compare_spec mb mc), (Pos.compare_spec ma mc); try done; lia.
  - destruct (Z.compare_spec ea eb), (Z.compare_spec eb ec), (Z.compare_spec ea ec); subst; try done; try lia;
      repeat (change (Pos.compare_cont Eq ?x ?y) with (x ?= y)%positive);
      destruct (Pos.compare_spec ma mb), (Pos.compare_spec mb mc), (Pos.compare_spec ma mc); try done; lia.
Qed.

Lemma f64_ltb_irrefl a : f64_ltb a a = false.
Proof.
  destruct a as [[]|[]| |[] m e]; try done; cbv [f64_ltb SFltb SFcompare];
    by rewrite Z.compare_refl, Pos.compare_cont_refl.
Qed.

(** Not below zero: [x < 0.0] is false (a NaN included). *)
Definition nn (x : f64) : Prop :=
  match x with
  | S754_zero _ | S754_nan | S754_infinity false | S754_finite false _ _ => True
  | S754_infinity true | S754_finite true _ _ => False
  end.

Create HintDb f64.

Lemma nn_iff x : nn x <-> f64_ltb x f64_zero = false.
Proof. by destruct x as [[]|[]| |[]]. Qed.

Lemma nn_of_not_lt x : f64_ltb x f64_zero = false -> nn x.
Proof. apply nn_iff. Qed.

Lemma nn_positive x : f64_ltb f64_zero x = true -> nn x.
Proof. by destruct x as [[]|[]| |[]]. Qed.

Lemma nn_nonneg x : f64_leb f64_zero x = true -> nn x.
Proof. by destruct x as [[]|[]| |[]]. Qed.

Lemma nn_round m e l : nn (binary_round_aux f64_prec f64_emax false m e l).
Proof.
  unfold binary_round_aux. destruct (shr_fexp _ _ m e l) as [q e1].
  destruct (shr_fexp _ _ _ e1 loc_Exact) as [q2 e2]. destruct (shr_m q2); cbn; [done| |done].
  by destruct (_ <=? _)%Z.
Qed.

Lemma nn_normalize m e : (0 <= m)%Z -> nn (binary_normalize f64_prec f64_emax m e false).
Proof.
  destruct m as [|p|p]; intros; [done| |lia]. unfold binary_normalize, binary_round.
  destruct (shl_align _ _ _) as [m' e']. apply nn_round.
Qed.

Lemma nn_add x y : nn x -> nn y -> nn (f64_add x y).
Proof.
  destruct x as [[]|[]| |[]], y as [[]|[]| |[]]; cbn; try done; intros _ _.
  apply nn_normalize. cbn [cond_Zopp]. lia.
Qed.

Lemma nn_mul x y : nn x -> nn y -> nn (f64_mul x y).
Proof.
  destruct x as [[]|[]| |[]], y as [[]|[]| |[]]; try done; intros _ _. apply nn_round.
Qed.

Lemma nn_div x y : nn x -> f64_ltb f64_zero y = true -> nn (f64_div x y).
Proof.
  destruct x as [[]|[]| |[]], y as [[]|[]| |[]]; try done; intros _ _.
  unfold f64_div, SFdiv. destruct (SFdiv_core_binary _ _ _ _ _ _) as [[qq ee] ll]. apply nn_round.
Qed.

Lemma nn_foldl l acc : nn acc -> Forall nn l -> nn (foldl f64_add acc l).
Proof.
  intros Ha Hl. revert acc Ha. induction Hl as [|x l Hx Hl IH]; intros acc Ha; cbn; [done|].
  apply IH. by apply nn_add.
Qed.

Lemma nn_sum l : Forall nn l -> nn (f64_sum l).
Proof. by apply nn_foldl. Qed.

Lemma nn_clamp x hi : nn hi -> nn (f64_clamp x f64_zero hi).
Proof.
  intros Hhi. unfold f64_clamp. destruct (f64_ltb x f64_zero) eqn:Ex.
  - by destruct (f64_ltb hi f64_zero).
  - destruct (f64_ltb hi x); [done|]. by apply nn_iff.
Qed.

Lemma nn_of_nat n : nn (f64_of_nat n).
Proof. apply nn_normalize. lia. Qed.

Lemma nn_zero : nn f64_zero. Proof. done. Qed.
Lemma nn_one : nn f64_one. Proof. done. Qed.

(** Positive sign: a quotient of such numbers is not below zero. *)
Definition ps (x : f64) : Prop :=
  match x with
  | S754_zero false | S754_nan | S754_infinity false | S754_finite false _ _ => True
  | _ => False
  end.

Lemma ps_nn x : ps x -> nn x.
Proof. by destruct x as [[]|[]| |[]]. Qed.

Lemma ps_round m e l : ps (binary_round_aux f64_prec f64_emax false m e l).
Proof.
  unfold binary_round_aux. destruct (shr_fexp _ _ m e l) as [q e1].
  destruct (shr_fexp _ _ _ e1 loc_Exact) as [q2 e2]. destruct (shr_m q2); cbn; [done| |done].
  by destruct (_ <=? _)%Z.
Qed.

Lemma ps_normalize p e : ps (binary_normalize f64_prec f64_emax (Zpos p) e false).
Proof. unfold binary_normalize, binary_round. destruct (shl_align _ _ _) as [m' e']. apply ps_round. Qed.

Lemma ps_of_nat n : ps (f64_of_nat n).
Proof. unfold f64_of_nat, f64_of_Z. destruct n as [|n]; [done|]. apply ps_normalize. Qed.

Lemma ps_mul x y : ps x -> ps y -> ps (f64_mul x y).
Proof. destruct x as [[]|[]| |[]], y as [[]|[]| |[]]; try done; intros _ _. apply ps_round. Qed.

Lemma ps_div x y : ps x -> ps y -> ps (f64_div x y).
Proof.
  destruct x as [[]|[]| |[]], y as [[]|[]| |[]]; try done; intros _ _.
  unfold f64_div, SFdiv. destruct (SFdiv_core_binary _ _ _ _ _ _) as [[qq ee] ll]. apply ps_round.
Qed.

(** An equal share [x / (k * x)]. *)
Lemma nn_share k x : f64_leb f64_zero x = true -> nn (f64_div x (f64_mul (f64_of_nat k) x)).
Proof.
  intros Hx. destruct (decide (f64_is_zero x = true)) as [Hz|Hz].
  - pose proof (ps_of_nat k) as Hk. destruct x as [[]| | |]; try done; destruct (f64_of_nat k) as [[]|[]| |[]]; done.
  - apply ps_nn, ps_div; [|apply ps_mul; [apply ps_of_nat|]]; by destruct x as [[]|[]| |[]].
Qed.

(** [clamp] between positive constants. *)
Lemma nn_clamp_pos x m1 e1 hi : nn hi -> nn (f64_clamp x (S754_finite false m1 e1) hi).
Proof.
  intros Hhi. unfold f64_clamp. destruct (f64_ltb x (S754_finite false m1 e1)) eqn:Ex.
  - by destruct (f64_ltb hi _).
  - destruct (f64_ltb hi x); [done|]. by destruct x as [[]|[]| |[]].
Qed.

#[export] Hint Resolve nn_zero nn_one nn_add nn_mul nn_div nn_sum nn_clamp nn_of_nat : f64.

(** Zero divided by a positive number is zero. *)
Lemma zero_div x y : f64_is_zero x = true -> f64_ltb f64_zero y = true -> f64_is_zero (f64_div x y) = true.
Proof. by destruct x as [[]|[]| |[]], y as [[]|[]| |[]]. Qed.

(** A NaN spreads through sums and quotients. *)
Lemma nan_add_l y : f64_add S754_nan y = S754_nan.
Proof. done. Qed.
Lemma nan_add_r x : f64_add x S754_nan = S754_nan.
Proof. by destruct x. Qed.
Lemma nan_div_r x : f64_div x S754_nan = S754_nan.
Proof. by destruct x. Qed.

Lemma nan_foldl l : foldl f64_add S754_nan l = S754_nan.
Proof. induction l as [|y l IH]; [done|]. cbn [foldl]. by rewrite nan_add_l. Qed.

Lemma nan_sum l : S754_nan ∈ l -> f64_sum l = S754_nan.
Proof.
  unfold f64_sum. generalize (S754_zero true). induction l as [|x l IH]; intros acc Hin; [by apply elem_of_nil in Hin|].
  apply elem_of_cons in Hin as [<-|Hin]; cbn [foldl]; [|by apply IH].
  by rewrite nan_add_r, nan_foldl.
Qed.

(** ** Shapes *)

Definition square (n : nat) (m : matrix) : Prop := length m = n /\ Forall (fun r => length r = n) m.
Definition below (n : nat) (idxs : list nat) : Prop := Forall (fun i => i < n) idxs.

Lemma mat_get_Some n m i j : square n m -> i < n -> j < n -> is_Some (mat_get m i j).
Proof.
  intros [Hn Hf] Hi Hj. unfold mat_get. destruct (lookup_lt_is_Some_2 m i) as [r Hr]; [lia|].
  rewrite Hr. cbn. apply lookup_lt_is_Some_2. rewrite Forall_lookup in Hf. by rewrite (Hf i r Hr).
Qed.

Lemma mapM_pure {A B} (f : A -> B) (l : list A) : mapM (fun x => Some (f x)) l = Some (f <$> l).
Proof. induction l as [|x l IH]; [done|]. cbn. cbn in IH. by rewrite IH. Qed.

Lemma mapM_Some_length {A B} (f : A -> option B) l : Forall (fun x => is_Some (f x)) l ->
  exists k, mapM f l = Some k /\ length k = length l.
Proof.
  intros Hl. destruct (mapM_is_Some_2 f l Hl) as [k E]. exists k. split; [done|].
  symmetry. by eapply length_mapM.
Qed.

Lemma mapM_shape {A} (f : A -> option (list f64)) (P : list f64 -> Prop) l :
  (forall x, x ∈ l -> exists r, f x = Some r /\ P r) ->
  exists k, mapM f l = Some k /\ length k = length l /\ Forall P k.
Proof.
  intros Hf. destruct (mapM_Some_length f l) as (k & E & Hlen).
  { apply list.Forall_forall. intros x Hx. destruct (Hf x Hx) as (r & -> & _). eauto. }
  exists k. split; [done|]. split; [done|]. apply mapM_Some_1 in E. apply list.Forall_forall. intros r Hr.
  apply list_elem_of_lookup in Hr as [i Hi]. destruct (Forall2_lookup_r _ _ _ _ _ E Hi) as (x & Hx & Ex).
  destruct (Hf x) as (r' & Er & HP); [by eapply list_elem_of_lookup_2|]. congruence.
Qed.

Lemma submatrix_square n m idxs : square n m -> below n idxs ->
  exists k, submatrix m idxs = Some k /\ square (length idxs) k.
Proof.
  intros Hm Hi. unfold submatrix, square.
  destruct (mapM_shape (fun i => mapM (mat_get m i) idxs) (fun r => length r = length idxs) idxs)
    as (k & E & Hk & Hf); [|by eauto].
  intros i Hin. unfold below in Hi. rewrite list.Forall_forall in Hi.
  destruct (mapM_Some_length (mat_get m i) idxs) as (r & E & Hr); [|by eauto].
  apply list.Forall_forall. intros j Hj. eapply mat_get_Some; eauto.
Qed.

Lemma mat_fn_square n f : (forall i j, i < n -> j < n -> is_Some (f i j)) ->
  exists k, mat_fn n n f = Some k /\ square n k.
Proof.
  intros Hf. unfold mat_fn, square.
  destruct (mapM_shape (fun i => mapM (f i) (seq 0 n)) (fun r => length r = n) (seq 0 n))
    as (k & E & Hk & Hr); [|rewrite length_seq in Hk; by eauto].
  intros i Hi. apply elem_of_seq in Hi.
  destruct (mapM_Some_length (f i) (seq 0 n)) as (r & E & Hr); [|rewrite length_seq in Hr; by eauto].
  apply list.Forall_forall. intros j Hj. apply elem_of_seq in Hj. apply Hf; lia.
Qed.

(** Gathering the entries at indices in range. *)
Lemma gather_Some {A} (v : list A) idxs : below (length v) idxs ->
  exists k, mapM (fun i => v !! i) idxs = Some k /\ length k = length idxs.
Proof.
  intros Hi. apply mapM_Some_length. eapply List.Forall_impl; [|exact Hi]. intros i ?. by apply lookup_lt_is_Some_2.
Qed.

(** ** Assignment by index *)

Lemma vec_set_Some {A} (w : list A) i v : i < length w -> vec_set w i v = Some (<[i := v]> w).
Proof. intros Hi. unfold vec_set. by rewrite (proj2 (Nat.ltb_lt _ _) Hi). Qed.

Lemma vec_set_inv {A} (w : list A) i v w' : vec_set w i v = Some w' -> i < length w /\ w' = <[i := v]> w.
Proof. unfold vec_set. destruct (Nat.ltb_spec i (length w)); [intros [= <-]; done|done]. Qed.

Lemma scatter_Some {A} (w : list A) idxs vals : below (length w) idxs -> length idxs <= length vals ->
  exists w', scatter w idxs vals = Some w'.
Proof.
  intros Hi. revert w vals Hi. induction idxs as [|i idxs IH]; intros w vals Hi Hl; [by exists w|].
  apply list.Forall_cons in Hi as [Hi His]. destruct vals as [|v vals]; [cbn in Hl; lia|].
  cbn [scatter]. rewrite vec_set_Some by done. cbn [mbind option_bind]. apply IH; [|cbn in Hl; lia].
  unfold below. by rewrite length_insert.
Qed.

Lemma scatter_length {A} (w : list A) idxs vals w' : scatter w idxs vals = Some w' -> length w' = length w.
Proof.
  revert w vals. induction idxs as [|i idxs IH]; intros w vals; [by intros [= <-]|].
  destruct vals as [|v vals]; [done|]. cbn [scatter]. destruct (vec_set w i v) as [w1|] eqn:E; [|done].
  cbn. intros H. rewrite (IH _ _ H). apply vec_set_inv in E as [_ ->]. apply length_insert.
Qed.

Lemma scatter_Forall {A} (P : A -> Prop) (w : list A) idxs vals w' :
  Forall P w -> Forall P vals -> scatter w idxs vals = Some w' -> Forall P w'.
Proof.
  revert w vals. induction idxs as [|i idxs IH]; intros w vals Hw Hv; [by intros [= <-]|].
  destruct vals as [|v vals]; [done|]. apply list.Forall_cons in Hv as [Hv Hvs]. cbn [scatter].
  destruct (vec_set w i v) as [w1|] eqn:E; [|done]. cbn. apply IH; [|done].
  apply vec_set_inv in E as [_ ->]. by apply Forall_insert.
Qed.

(** Indices that are not assigned keep their value. *)
Lemma scatter_outside {A} (w : list A) idxs vals w' i :
  scatter w idxs vals = Some w' -> i ∉ idxs -> w' !! i = w !! i.
Proof.
  revert w vals. induction idxs as [|j idxs IH]; intros w vals; [by intros [= <-]|].
  destruct vals as [|v vals]; [done|]. cbn [scatter]. destruct (vec_set w j v) as [w1|] eqn:E; [|done].
  cbn. intros H Hi. apply not_elem_of_cons in Hi as [Hne Hi]. rewrite (IH _ _ H Hi).
  apply vec_set_inv in E as [_ ->]. by apply list_lookup_insert_ne.
Qed.

Lemma fill_Some {A} (w : list A) idxs v : below (length w) idxs -> exists w', fill w idxs v = Some w'.
Proof. intros. apply scatter_Some; [done|]. by rewrite length_replicate. Qed.
