(* ===== verification/F64Order.v ===== *)
(** * F64Order: values, order and rounding of [f64]

    A number is canonical when its exponent is the one its digits call for, as
    for every number a Rust program computes with.  On canonical numbers the
    comparison of the code is the comparison of the values ([leb_val]); the
    results of division, addition and subtraction are canonical; and rounding
    does not cross a canonical bound ([round_upper], [round_lower]).  This is
    what interval bounds on computed factors are proved with. *)

From Stdlib Require Import ZArith SpecFloat.
From S2P Require Import Prelude F64 Vectors.
Local Open Scope Z_scope.

Abbreviation fexp64 := (fexp f64_prec f64_emax).
Definition EMIN : Z := -1074.

Lemma fexp64_eq e : fexp64 e = Z.max (e - 53) EMIN.
Proof. done. Qed.

Definition canonical (x : f64) : Prop :=
  match x with S754_finite _ m e => fexp64 (Z.pos (digits2_pos m) + e) = e | _ => True end.

(** The value of a finite number, in units of [2 ^ -3000]. *)
Definition scaled (m e : Z) : Z := m * 2 ^ (e + 3000).
Definition val (x : f64) : Z :=
  match x with S754_finite s m e => cond_Zopp s (scaled (Z.pos m) e) | _ => 0 end.

Lemma pow2_pos n : 0 <= n -> 0 < 2 ^ n.
Proof. intros. by apply Z.pow_pos_nonneg. Qed.

Lemma canonical_mantissa_bounds m e : fexp64 (Z.pos (digits2_pos m) + e) = e ->
  EMIN <= e /\ Z.pos m < 2 ^ 53 /\ (EMIN < e -> 2 ^ 52 <= Z.pos m).
Proof.
  rewrite fexp64_eq. unfold EMIN. intros He. destruct (digits2_bounds m) as [Hl Hh].
  split; [lia|]. split.
  - eapply Z.lt_le_trans; [exact Hh|]. apply Z.pow_le_mono_r; lia.
  - intros. etrans; [|exact Hl]. apply Z.pow_le_mono_r; lia.
Qed.

(** Between two exponents. *)
Lemma scaled_gap m1 e1 m2 e2 : -3000 <= e1 -> e1 < e2 -> m1 < 2 ^ 53 -> 2 ^ 52 <= m2 -> scaled m1 e1 < scaled m2 e2.
Proof.
  intros H0 He H1 H2. unfold scaled. apply Z.lt_le_trans with (2 ^ 53 * 2 ^ (e1 + 3000)).
  - apply Z.mul_lt_mono_pos_r; [apply pow2_pos; lia|done].
  - apply Z.le_trans with (2 ^ 52 * 2 ^ (e2 + 3000)).
    + rewrite <- !Z.pow_add_r by lia. apply Z.pow_le_mono_r; lia.
    + apply Z.mul_le_mono_nonneg_r; [apply Z.lt_le_incl, pow2_pos; lia|done].
Qed.

Lemma scaled_le m1 m2 e : -3000 <= e -> scaled m1 e <= scaled m2 e <-> m1 <= m2.
Proof. intros He. unfold scaled. symmetry. apply Z.mul_le_mono_pos_r, pow2_pos. lia. Qed.

Lemma scaled_shift m e k : 0 <= k -> -3000 <= e -> scaled m (e + k) = scaled (m * 2 ^ k) e.
Proof. intros. unfold scaled. rewrite <- Z.mul_assoc, <- Z.pow_add_r by lia. do 2 f_equal. lia. Qed.

(** The comparison is that of the values. *)
Lemma leb_val m1 e1 m2 e2 : canonical (S754_finite false m1 e1) -> canonical (S754_finite false m2 e2) ->
  f64_leb (S754_finite false m1 e1) (S754_finite false m2 e2) = true <->
  scaled (Z.pos m1) e1 <= scaled (Z.pos m2) e2.
Proof.
  intros H1%canonical_mantissa_bounds H2%canonical_mantissa_bounds. unfold EMIN in *.
  cbv [f64_leb SFleb SFcompare]. destruct (Z.compare_spec e1 e2) as [->|Hlt|Hgt].
  - rewrite scaled_le by lia. change (Pos.compare_cont Eq m1 m2) with (m1 ?= m2)%positive.
    destruct (Pos.compare_spec m1 m2); split; intros; try done; subst; lia.
  - split; [|done]. intros _. apply Z.lt_le_incl, scaled_gap; lia.
  - split; [done|]. intros Hle. pose proof (scaled_gap (Z.pos m2) e2 (Z.pos m1) e1). lia.
Qed.

(** ** The result of a rounding *)

Lemma Zdigits2_bounds m : 0 < m -> 2 ^ (Zdigits2 m - 1) <= m < 2 ^ Zdigits2 m.
Proof. destruct m as [|p|p]; try lia. intros _. apply digits2_bounds. Qed.

Lemma digits_unique m d : 0 < d -> 2 ^ (d - 1) <= m < 2 ^ d -> Zdigits2 m = d.
Proof.
  intros Hd [Hl Hh]. assert (Hm : 0 < m) by (pose proof (pow2_pos (d - 1)); lia).
  destruct (Zdigits2_bounds m Hm) as [Hl' Hh'].
  assert (Zdigits2 m - 1 < d) by (apply (Z.pow_lt_mono_r_iff 2); lia).
  assert (d - 1 < Zdigits2 m).
  { apply (Z.pow_lt_mono_r_iff 2); [lia| |lia]. destruct m; cbn; lia. }
  lia.
Qed.

(** The first shift leaves at most 53 digits, exactly 53 above the least exponent. *)
Definition roundable (m e : Z) : Prop := (0 < m \/ (m = 0 /\ e <= EMIN)) /\ e <= fexp64 (Zdigits2 m + e).

Lemma shifted_bounds m e k : 0 < m \/ (m = 0 /\ e <= EMIN) -> k = fexp64 (Zdigits2 m + e) - e -> 0 <= k ->
  EMIN <= e + k /\ 0 <= m / 2 ^ k < 2 ^ 53 /\ (EMIN < e + k -> 2 ^ 52 <= m / 2 ^ k).
Proof.
  intros [Hm|[-> He]] -> Hk; rewrite fexp64_eq in *; unfold EMIN in *.
  2: { cbn [Zdigits2] in *. rewrite Z.div_0_l by (apply Z.pow_nonzero; lia). lia. }
  set (k := _ - e) in *. destruct (Zdigits2_bounds m Hm) as [Hl Hh]. pose proof (pow2_pos k Hk) as Hp. split; [lia|]. split.
  - split; [apply Z.div_pos; lia|]. apply Z.div_lt_upper_bound; [done|]. eapply Z.lt_le_trans; [exact Hh|].
    rewrite <- Z.pow_add_r by lia. apply Z.pow_le_mono_r; lia.
  - intros. apply Z.div_le_lower_bound; [done|]. etrans; [|exact Hl]. rewrite <- Z.pow_add_r by lia.
    apply Z.pow_le_mono_r; lia.
Qed.

(** The last step of a rounding: a value with its exponent. *)
Definition finish (s : bool) (m e : Z) : f64 :=
  match m with
  | 0 => S754_zero s
  | Z.pos p => if e <=? 971 then S754_finite s p e else S754_infinity s
  | Z.neg _ => S754_nan
  end.

Lemma shr_fexp_quotient m e l : 0 <= m -> 0 <= fexp64 (Zdigits2 m + e) - e ->
  let k := fexp64 (Zdigits2 m + e) - e in
  exists q, shr_fexp f64_prec f64_emax m e l = (q, e + k) /\ shr_m q = m / 2 ^ k.
Proof.
  intros Hm Hk. unfold shr_fexp, shr. set (k := _ - e) in *. cbv zeta.
  assert (Hm0 : shr_m (shr_record_of_loc m l) = m) by (by destruct l as [|[]]).
  destruct k as [|p|p]; [| |lia].
  - eexists. split; [by rewrite Z.add_0_r|]. by rewrite Hm0, Z.pow_0_r, Z.div_1_r.
  - rewrite iter_pos_iter. eexists. split; [done|].
    destruct (iter_shr_spec (Pos.to_nat p) (shr_record_of_loc m l)) as (_ & Hq & _); [by rewrite Hm0|].
    by rewrite Hq, Hm0, positive_nat_Z.
Qed.

Lemma round_second s r e : 0 <= r <= 2 ^ 53 -> EMIN <= e ->
  exists m' e', m' * 2 ^ (e' - e) = r /\ e <= e' /\ 0 <= m' < 2 ^ 53 /\ (EMIN < e' -> EMIN < e \/ r = 2 ^ 53) /\
    (r = 2 ^ 53 -> m' = 2 ^ 52) /\ (r < 2 ^ 53 -> m' = r /\ e' = e) /\
    (let '(q, e'') := shr_fexp f64_prec f64_emax r e loc_Exact in
     match shr_m q with
     | 0 => S754_zero s
     | Z.pos p => if e'' <=? f64_emax - f64_prec then S754_finite s p e'' else S754_infinity s
     | Z.neg _ => S754_nan
     end) = finish s m' e'.
Proof.
  intros Hr He. destruct (Z.eq_dec r (2 ^ 53)) as [->|Hne].
  - exists (2 ^ 52), (e + 1). replace (e + 1 - e) with 1 by lia. split; [done|]. split; [lia|]. split; [lia|].
    split; [auto|]. split; [done|]. split; [lia|].
    destruct (shr_fexp_quotient (2 ^ 53) e loc_Exact) as (q & -> & Hq); [lia| |].
    { rewrite fexp64_eq. change (Zdigits2 (2 ^ 53)) with 54. lia. }
    rewrite Hq, fexp64_eq. change (Zdigits2 (2 ^ 53)) with 54. unfold EMIN in *.
    replace (Z.max (54 + e - 53) (-1074) - e) with 1 by lia. change (2 ^ 53 / 2 ^ 1) with (Z.pos 4503599627370496).
    change (2 ^ 52) with (Z.pos 4503599627370496). done.
  - exists r, e. rewrite Z.sub_diag, Z.pow_0_r. split; [lia|]. split; [lia|]. split; [lia|]. split; [auto|].
    split; [lia|]. split; [done|].
    assert (Hd : Zdigits2 r <= 53) by (apply Zdigits2_le; lia).
    pose proof (shr_fexp_rounded r e ltac:(lia)) as Hs. destruct (shr_fexp _ _ r e loc_Exact) as [q e'].
    unfold shift_of in Hs. rewrite fexp64_eq in Hs. rewrite Z.max_l in Hs by (unfold EMIN in *; lia).
    destruct Hs as (-> & -> & _). rewrite Z.pow_0_r, Z.div_1_r, Z.add_0_r. done.
Qed.

(** The rounded mantissa [r] at exponent [e + k], and the number it gives. *)
Lemma round_result s m e l : roundable m e ->
  let k := fexp64 (Zdigits2 m + e) - e in
  exists r m' e', binary_round_aux f64_prec f64_emax s m e l = finish s m' e' /\
    m / 2 ^ k <= r <= m / 2 ^ k + 1 /\ (l = loc_Exact -> rounded m k r) /\
    e + k <= e' /\ m' * 2 ^ (e' - (e + k)) = r /\
    EMIN <= e + k /\ 0 <= m' < 2 ^ 53 /\ (EMIN < e' -> 2 ^ 52 <= m').
Proof.
  intros [Hm Hk]. set (k := _ - e). cbv zeta. assert (Hk0 : 0 <= k) by (unfold k; lia).
  destruct (shifted_bounds m e k Hm eq_refl Hk0) as (He & Hq & Hn).
  unfold binary_round_aux. destruct (shr_fexp_quotient m e l) as (q & Eq & Hqm); [lia|unfold k in Hk0; lia|].
  fold k in Eq, Hqm. rewrite Eq. set (r := round_nearest_even (shr_m q) (loc_of_shr_record q)).
  assert (Hr : m / 2 ^ k <= r <= m / 2 ^ k + 1).
  { unfold r. rewrite <- Hqm. destruct (round_nearest_even_cases q) as [->|[-> _]]; lia. }
  destruct (round_second s r (e + k)) as (m' & e' & Hv & He' & Hm' & H1 & H2 & H3 & ->); [lia|done|].
  exists r, m', e'. split; [done|]. split; [done|]. split.
  { intros ->. pose proof (shr_fexp_rounded m e ltac:(lia)) as Hs. rewrite Eq in Hs. destruct Hs as (_ & _ & Hs).
    unfold shift_of in Hs. rewrite Z.max_r in Hs by (unfold k in Hk0; lia). exact Hs. }
  split; [done|]. split; [done|]. split; [done|]. split; [done|]. intros Hgt.
  destruct (Z.eq_dec r (2 ^ 53)) as [Hr53|Hr53]; [rewrite (H2 Hr53); lia|].
  destruct (H3 ltac:(lia)) as [-> ->]. specialize (Hn Hgt). lia.
Qed.

Lemma finish_canonical s m e : 0 <= m < 2 ^ 53 -> EMIN <= e -> (EMIN < e -> 2 ^ 52 <= m) ->
  canonical (finish s m e) /\ finish s m e <> S754_nan.
Proof.
  intros Hm He Hn. destruct m as [|p|p]; [done| |lia]. cbn [finish]. destruct (e <=? 971); [|done].
  split; [|done]. cbn [canonical]. rewrite fexp64_eq. change (Z.pos (digits2_pos p)) with (Zdigits2 (Z.pos p)).
  destruct (Z.eq_dec e EMIN) as [->|Hne].
  - assert (Zdigits2 (Z.pos p) <= 53) by (apply Zdigits2_le; lia). unfold EMIN. lia.
  - rewrite (digits_unique (Z.pos p) 53); unfold EMIN in *; lia.
Qed.

Lemma round_canonical s m e l : roundable m e ->
  canonical (binary_round_aux f64_prec f64_emax s m e l) /\ binary_round_aux f64_prec f64_emax s m e l <> S754_nan.
Proof.
  intros Hm. destruct (round_result s m e l Hm) as (r & m' & e' & -> & _ & _ & He' & _ & H1 & H2 & H3).
  apply finish_canonical; [done|lia|done].
Qed.

(** ** Rounding does not cross a canonical bound *)

Lemma scaled_digits m1 e1 m2 e2 : 0 < m1 -> 0 < m2 -> -2500 <= e1 -> -2500 <= e2 -> scaled m1 e1 <= scaled m2 e2 ->
  Zdigits2 m1 + e1 <= Zdigits2 m2 + e2.
Proof.
  intros H1 H2 He1 He2 Hle. destruct (Zdigits2_bounds m1 H1) as [Hl _], (Zdigits2_bounds m2 H2) as [_ Hh].
  assert (0 < Zdigits2 m1 /\ 0 < Zdigits2 m2) by (by destruct m1, m2).
  enough (Zdigits2 m1 - 1 + (e1 + 3000) < Zdigits2 m2 + (e2 + 3000)) by lia.
  apply (Z.pow_lt_mono_r_iff 2); [lia|lia|].
  rewrite (Z.pow_add_r 2 (Zdigits2 m1 - 1)), (Z.pow_add_r 2 (Zdigits2 m2)) by lia. unfold scaled in Hle.
  eapply Z.le_lt_trans; [apply Z.mul_le_mono_nonneg_r; [apply Z.lt_le_incl, pow2_pos; lia|exact Hl]|].
  eapply Z.le_lt_trans; [exact Hle|]. apply Z.mul_lt_mono_pos_r; [apply pow2_pos; lia|done].
Qed.

Lemma finish_value m' e' r e1 : -3000 <= e1 -> e1 <= e' -> m' * 2 ^ (e' - e1) = r -> scaled m' e' = scaled r e1.
Proof.
  intros H1 H2 <-. rewrite <- scaled_shift by lia. f_equal. lia.
Qed.

Lemma round_upper m e bm be : 0 < m -> -2500 <= e -> roundable m e ->
  canonical (S754_finite false bm be) -> be <= 971 -> scaled m e <= scaled (Z.pos bm) be ->
  let R := binary_round_aux f64_prec f64_emax false m e loc_Exact in
  canonical R /\ f64_leb f64_zero R = true /\ f64_leb R (S754_finite false bm be) = true.
Proof.
  intros Hm He Hk Hb Hbe Hle. cbv zeta. pose proof (proj2 Hk) as Hk2. destruct (round_canonical false m e loc_Exact Hk) as [Hcan _].
  split; [done|]. revert Hcan.
  destruct (round_result false m e loc_Exact Hk) as (r & m' & e' & -> & _ & Hr & He' & Hv & H1 & H2 & H3).
  specialize (Hr eq_refl). pose proof Hb as (Hbl & Hbh & _)%canonical_mantissa_bounds. unfold EMIN in *.
  pose proof (scaled_digits m e (Z.pos bm) be Hm ltac:(lia) He ltac:(lia) Hle) as Hd.
  cbn [Zdigits2] in Hd. cbn [canonical] in Hb. rewrite fexp64_eq in *. unfold EMIN in *.
  set (k := Z.max (Zdigits2 m + e - 53) (-1074) - e) in *.
  assert (Hek : e + k <= be) by lia.
  assert (Hrb : r <= Z.pos bm * 2 ^ (be - (e + k))).
  { apply (rounded_upper m k r); [lia|done|]. apply (scaled_le _ _ e); [lia|].
    rewrite <- scaled_shift by lia. rewrite <- (scaled_shift (Z.pos bm)) by lia.
    replace (e + k + (be - (e + k))) with be by lia. done. }
  assert (Hval : scaled m' e' <= scaled (Z.pos bm) be).
  { rewrite (finish_value m' e' r (e + k)) by (lia || done).
    assert (E : scaled (Z.pos bm) be = scaled (Z.pos bm * 2 ^ (be - (e + k))) (e + k))
      by (rewrite <- scaled_shift by lia; f_equal; lia).
    rewrite E. apply scaled_le; [lia|done]. }
  destruct m' as [|p|p]; [intros _; done| |lia]. cbn [finish].
  destruct (Z.leb_spec e' 971) as [Hf|Hf].
  - intros Hc. split; [done|]. by apply leb_val.
  - intros _. exfalso. pose proof (scaled_gap (Z.pos bm) be (Z.pos p) e' ltac:(lia) ltac:(lia) Hbh (H3 ltac:(lia))). lia.
Qed.

Lemma round_lower m e bm be : 0 < m -> -2500 <= e -> roundable m e ->
  canonical (S754_finite false bm be) -> scaled (Z.pos bm) be <= scaled m e ->
  f64_leb (S754_finite false bm be) (binary_round_aux f64_prec f64_emax false m e loc_Exact) = true.
Proof.
  intros Hm He Hk Hb Hle. pose proof (proj2 Hk) as Hk2. destruct (round_canonical false m e loc_Exact Hk) as [Hcan _]. revert Hcan.
  destruct (round_result false m e loc_Exact Hk) as (r & m' & e' & -> & _ & Hr & He' & Hv & H1 & H2 & H3).
  specialize (Hr eq_refl). pose proof Hb as (Hbl & Hbh & _)%canonical_mantissa_bounds.
  rewrite fexp64_eq in *. unfold EMIN in *. set (k := Z.max (Zdigits2 m + e - 53) (-1074) - e) in *.
  assert (Hval : scaled (Z.pos bm) be <= scaled m' e').
  { destruct (Z.lt_ge_cases be e') as [Hlt|Hge].
    - apply Z.lt_le_incl, scaled_gap; [lia|done|done|apply H3; lia].
    - assert (E : scaled (Z.pos bm) be = scaled (Z.pos bm * 2 ^ (be - e')) e')
        by (rewrite <- scaled_shift by lia; f_equal; lia).
      rewrite E. apply scaled_le; [lia|].
      apply (Z.mul_le_mono_pos_r _ _ (2 ^ (e' - (e + k)))); [apply pow2_pos; lia|]. rewrite Hv.
      apply (rounded_lower m k r); [lia|done|]. apply (scaled_le _ _ e); [lia|].
      rewrite <- !scaled_shift by lia. replace (e + k + (e' - (e + k)) + (be - e')) with be by lia. done. }
  destruct m' as [|p|p]; [|intros Hc|lia].
  - exfalso. unfold scaled in Hval. pose proof (pow2_pos (be + 3000) ltac:(lia)). lia.
  - cbn [finish] in *. destruct (e' <=? 971); [|done]. by apply leb_val.
Qed.

(** ** Results of the operations *)

Lemma iter_xO m d : Z.pos (Pos.iter xO m d) = Z.pos m * 2 ^ Z.pos d.
Proof.
  induction d as [|d IH] using Pos.peano_ind; [cbn; lia|].
  rewrite Pos.iter_succ, Pos2Z.inj_xO, IH, Pos2Z.inj_succ, Z.pow_succ_r by lia. lia.
Qed.

Lemma shl_align_value m e e' : let '(mz, ez) := shl_align m e e' in
  ez = Z.min e e' /\ Z.pos mz = Z.pos m * 2 ^ (e - ez).
Proof.
  unfold shl_align. destruct (e' - e) as [|d|d] eqn:E.
  - split; [lia|]. by rewrite Z.sub_diag, Z.pow_0_r, Z.mul_1_r.
  - split; [lia|]. by rewrite Z.sub_diag, Z.pow_0_r, Z.mul_1_r.
  - split; [lia|]. replace (e - e') with (Z.pos d) by lia.
    apply iter_xO.
Qed.

Lemma digits_shift m k : 0 < m -> 0 <= k -> Zdigits2 (m * 2 ^ k) = Zdigits2 m + k.
Proof.
  intros Hm Hk. destruct (Zdigits2_bounds m Hm) as [Hl Hh]. assert (0 < Zdigits2 m) by (by destruct m).
  pose proof (pow2_pos k Hk). apply digits_unique; [lia|].
  replace (Zdigits2 m + k - 1) with ((Zdigits2 m - 1) + k) by lia. rewrite !Z.pow_add_r by lia. nia.
Qed.

(** [binary_normalize] of a positive integer is a rounding that meets the
    conditions above. *)
Lemma normalize_round p e : exists mz ez,
  binary_normalize f64_prec f64_emax (Z.pos p) e false = binary_round_aux f64_prec f64_emax false mz ez loc_Exact /\
  0 < mz /\ ez = Z.min e (fexp64 (Zdigits2 (Z.pos p) + e)) /\ mz = Z.pos p * 2 ^ (e - ez) /\
  roundable mz ez.
Proof.
  unfold binary_normalize, binary_round.
  pose proof (shl_align_value p e (fexp64 (Z.pos (digits2_pos p) + e))) as Hv.
  destruct (shl_align p e _) as [mz ez]. destruct Hv as [Hez Hmz]. exists (Z.pos mz), ez.
  split; [done|]. split; [lia|]. split; [done|]. split; [done|]. split; [lia|]. rewrite Hmz, digits_shift by lia.
  replace (Zdigits2 (Z.pos p) + (e - ez) + ez) with (Zdigits2 (Z.pos p) + e) by lia. cbn [Zdigits2]. lia.
Qed.

Lemma normalize_canonical m e : canonical (binary_normalize f64_prec f64_emax m e false).
Proof.
  destruct m as [|p|p]; [done| |].
  - destruct (normalize_round p e) as (mz & ez & -> & _ & _ & _ & Hf). by apply round_canonical.
  - unfold binary_normalize, binary_round.
    pose proof (shl_align_value p e (fexp64 (Z.pos (digits2_pos p) + e))) as Hv.
    destruct (shl_align p e _) as [mz ez]. destruct Hv as [Hez Hmz]. apply round_canonical. split; [lia|].
    rewrite Hmz, digits_shift by lia. replace (Zdigits2 (Z.pos p) + (e - ez) + ez) with (Zdigits2 (Z.pos p) + e) by lia.
    cbn [Zdigits2]. lia.
Qed.

(** A quotient is canonical, and a NaN only for [0 / 0], [inf / inf] and NaNs. *)
Lemma div_finite_canonical s1 m1 e1 s2 m2 e2 :
  let R := f64_div (S754_finite s1 m1 e1) (S754_finite s2 m2 e2) in canonical R /\ R <> S754_nan.
Proof.
  unfold f64_div, SFdiv, SFdiv_core_binary. set (e' := Z.min _ _).
  set (m' := match e1 - e2 - e' with Z.pos _ => _ | 0 => _ | Z.neg _ => 0 end).
  assert (Hs : 0 <= e1 - e2 - e') by (unfold e'; lia).
  assert (Hm' : m' = Z.pos m1 * 2 ^ (e1 - e2 - e')).
  { unfold m'. destruct (e1 - e2 - e') as [|p|p] eqn:E; [by rewrite Z.pow_0_r, Z.mul_1_r| |lia].
    rewrite Z.shiftl_mul_pow2 by lia. done. }
  destruct (Z.div_eucl m' (Z.pos m2)) as [q r] eqn:Eq.
  assert (Hq : q = m' / Z.pos m2) by (unfold Z.div; by rewrite Eq).
  apply round_canonical. clear Eq. subst q. rewrite Hm'. clear m' Hm'. set (k := e1 - e2 - e') in *.
  destruct (digits2_bounds m1) as [Hl1 _], (digits2_bounds m2) as [_ Hh2].
  set (d1 := Z.pos (digits2_pos m1)) in *. set (d2 := Z.pos (digits2_pos m2)) in *.
  pose proof (pow2_pos k Hs) as Hpk.
  assert (He' : e' <= fexp64 (d1 + e1 - (d2 + e2))) by (unfold e', d1, d2; cbn [Zdigits2]; lia).
  rewrite fexp64_eq in He'. unfold EMIN in He'.
  assert (Hd : d1 + k - d2 <= Zdigits2 (Z.pos m1 * 2 ^ k / Z.pos m2) /\
    (0 < Z.pos m1 * 2 ^ k / Z.pos m2 \/ (Z.pos m1 * 2 ^ k / Z.pos m2 = 0 /\ d1 + k - d2 <= 0))).
  { assert (Hq0 : 0 <= Z.pos m1 * 2 ^ k / Z.pos m2) by (apply Z.div_pos; lia).
    destruct (Z.le_gt_cases (d1 + k - d2) 0) as [Hn|Hp].
    - split; [|lia]. destruct (Z.pos m1 * 2 ^ k / Z.pos m2); cbn; lia.
    - assert (Hq : 2 ^ (d1 + k - d2 - 1) <= Z.pos m1 * 2 ^ k / Z.pos m2).
      { apply Z.div_le_lower_bound; [lia|]. apply Z.le_trans with (2 ^ (d1 - 1) * 2 ^ k).
        - apply Z.le_trans with (2 ^ d2 * 2 ^ (d1 + k - d2 - 1)).
          + apply Z.mul_le_mono_nonneg_r; [apply Z.lt_le_incl, pow2_pos; lia|lia].
          + rewrite <- !Z.pow_add_r by lia. apply Z.pow_le_mono_r; lia.
        - apply Z.mul_le_mono_nonneg_r; lia. }
      pose proof (pow2_pos (d1 + k - d2 - 1) ltac:(lia)). split; [|lia].
      destruct (Zdigits2_bounds (Z.pos m1 * 2 ^ k / Z.pos m2)) as [_ Hh]; [lia|].
      enough (d1 + k - d2 - 1 < Zdigits2 (Z.pos m1 * 2 ^ k / Z.pos m2)) by lia.
      apply (Z.pow_lt_mono_r_iff 2); [lia| |lia]. destruct (Z.pos m1 * 2 ^ k / Z.pos m2); cbn; lia. }
  destruct Hd as [Hd Hq]. split; [destruct Hq as [Hq|[Hq Hn]]; [by left|right; split; [done|unfold EMIN; lia]]|].
  rewrite fexp64_eq. unfold EMIN. lia.
Qed.

(** ** Intervals *)

(** A canonical finite number from [lo] to [hi], both in units of [2 ^ -3000]. *)
Definition between (lo hi : Z) (x : f64) : Prop :=
  canonical x /\ match x with S754_zero _ | S754_finite false _ _ => True | _ => False end /\ lo <= val x <= hi.

Lemma val_pos m e : canonical (S754_finite false m e) -> 0 < val (S754_finite false m e).
Proof.
  intros He%canonical_mantissa_bounds. unfold EMIN in *. cbn [val cond_Zopp]. unfold scaled.
  apply Z.mul_pos_pos; [lia|apply pow2_pos; lia].
Qed.

Lemma val_one : 0 <= val f64_one.
Proof. apply Z.lt_le_incl, (val_pos 4503599627370496 (-52)). done. Qed.

Lemma between_leb lo hi x a b : between lo hi x -> canonical a -> canonical b -> nn a -> nn b ->
  f64_is_finite a = true -> f64_is_finite b = true -> val a <= lo -> hi <= val b ->
  f64_leb a x = true /\ f64_leb x b = true.
Proof.
  intros (Hx & Hf & Hlo) Ha Hb Hna Hnb Hfa Hfb Hal Hbh.
  pose proof val_pos as Hpos. cbn [val cond_Zopp] in Hpos.
  destruct x as [s| | |[] mx ex]; try done; destruct a as [sa|[]| |[] ma ea]; try done;
    destruct b as [sb|[]| |[] mb eb]; try done; cbn [val cond_Zopp] in *;
    repeat match goal with H : canonical (S754_finite false ?m ?e) |- _ =>
      lazymatch goal with _ : 0 < scaled (Z.pos m) e |- _ => fail | _ => pose proof (Hpos m e H) end end;
    (split; [try done|try done]); try lia; apply leb_val; done || lia.
Qed.

Lemma not_lt_leb m1 e1 m2 e2 : f64_ltb (S754_finite false m1 e1) (S754_finite false m2 e2) = false ->
  f64_leb (S754_finite false m2 e2) (S754_finite false m1 e1) = true.
Proof.
  cbv [f64_leb f64_ltb SFleb SFltb SFcompare]. rewrite (Z.compare_antisym e1 e2).
  destruct (e1 ?= e2); cbn [CompOpp]; [|done..]. change (Pos.compare_cont Eq ?a ?b) with (a ?= b)%positive.
  rewrite (Pos.compare_antisym m1 m2). change (Pos.compare_cont Eq ?a ?b) with (a ?= b)%positive.
  by destruct (m1 ?= m2)%positive.
Qed.

(** [clamp] to the unit interval. *)
Lemma clamp_unit x : canonical x -> f64_is_nan x = false -> between 0 (val f64_one) (f64_clamp x f64_zero f64_one).
Proof.
  intros Hc Hn. unfold f64_clamp. destruct (f64_ltb x f64_zero) eqn:E0.
  { split; [done|]. split; [done|]. split; [done|apply val_one]. }
  destruct (f64_ltb f64_one x) eqn:E1.
  { split; [done|]. split; [done|]. split; [apply val_one|done]. }
  destruct x as [s|[]| |[] m e]; try done.
  - split; [done|]. split; [done|]. assert (Hle : f64_leb (S754_finite false m e) f64_one = true).
    { by apply (not_lt_leb 4503599627370496 (-52)). }
    change f64_one with (S754_finite false 4503599627370496 (-52)) in *. apply leb_val in Hle; [|done..].
    split; [|done]. by apply Z.lt_le_incl, val_pos.
Qed.

Lemma f64_mul_comm x y : f64_mul x y = f64_mul y x.
Proof.
  destruct x as [[]|[]| |[] m e], y as [[]|[]| |[] m' e']; try done;
    unfold f64_mul, SFmul; by rewrite Pos.mul_comm, Z.add_comm.
Qed.

(** Products with a constant of full precision are rounded as above. *)
Lemma mul_roundable mc ec mx ex : 2 ^ 52 <= Z.pos mc -> roundable (Z.pos (mc * mx)) (ec + ex).
Proof.
  intros Hmc. split; [lia|]. rewrite fexp64_eq.
  enough (53 <= Zdigits2 (Z.pos (mc * mx))) by (unfold EMIN; lia).
  destruct (Zdigits2_bounds (Z.pos (mc * mx))) as [_ Hh]; [lia|].
  enough (52 < Zdigits2 (Z.pos (mc * mx))) by lia.
  apply (Z.pow_lt_mono_r_iff 2); [lia|cbn; lia|]. eapply Z.le_lt_trans; [|exact Hh]. nia.
Qed.

Lemma scaled_mul mc ec mx ex : -1000 <= ec <= 0 -> -2000 <= ex ->
  scaled (mc * mx) (ec + ex) * 2 ^ (- ec) = mc * scaled mx ex.
Proof.
  intros Hec Hex. unfold scaled. rewrite <- !Z.mul_assoc, <- Z.pow_add_r by lia. do 3 f_equal. lia.
Qed.

Lemma mul_between mc ec lo hi x am ae bm be : let c := S754_finite false mc ec in
  let a := S754_finite false am ae in let b := S754_finite false bm be in
  between lo hi x -> 2 ^ 52 <= Z.pos mc -> -1000 <= ec <= 0 -> canonical b -> canonical a -> be <= 971 ->
  Z.pos mc * hi <= val b * 2 ^ (- ec) -> (val a * 2 ^ (- ec) <= Z.pos mc * lo \/ lo = 0) ->
  between (if lo =? 0 then 0 else val a) (val b) (f64_mul c x).
Proof.
  intros c a b (Hx & Hf & Hlo) Hmc Hec Hb Ha Hbe Hhi Hl.
  pose proof (val_pos bm be Hb) as Hvb. fold b in Hvb. pose proof (val_pos am ae Ha) as Hva. fold a in Hva.
  assert (Hp : 0 < 2 ^ (- ec)) by (apply pow2_pos; lia).
  destruct x as [s| | |[] mx ex]; try done.
  - cbn [val] in Hlo. split; [done|]. split; [done|]. cbn [f64_mul SFmul c val].
    destruct (Z.eqb_spec lo 0); [lia|]. destruct Hl as [Hl|]; [|done]. nia.
  - pose proof Hx as Hxb%canonical_mantissa_bounds. unfold EMIN in Hxb. cbn [val cond_Zopp] in Hlo.
    change (f64_mul c (S754_finite false mx ex)) with (binary_round_aux f64_prec f64_emax false (Z.pos (mc * mx)) (ec + ex) loc_Exact).
    pose proof (mul_roundable mc ec mx ex Hmc) as Hr.
    pose proof (scaled_mul (Z.pos mc) ec (Z.pos mx) ex Hec ltac:(lia)) as Hsm.
    destruct (round_upper (Z.pos (mc * mx)) (ec + ex) bm be) as (Hcan & H0 & Hub); [lia|lia|done|done|done| |].
    { apply (Z.mul_le_mono_pos_r _ _ (2 ^ (- ec))); [done|]. rewrite Pos2Z.inj_mul, Hsm. cbn in Hhi. nia. }
    assert (Hlb : lo = 0 \/ f64_leb a (binary_round_aux f64_prec f64_emax false (Z.pos (mc * mx)) (ec + ex) loc_Exact) = true).
    { destruct Hl as [Hl|Hl]; [right|by left]. apply round_lower; [lia|lia|done|done|].
      apply (Z.mul_le_mono_pos_r _ _ (2 ^ (- ec))); [done|]. rewrite Pos2Z.inj_mul, Hsm. cbn in Hl. nia. }
    fold b in Hub. set (R := binary_round_aux _ _ _ _ _ _) in *. clearbody R.
    destruct R as [sr|[]| |[] mr er]; try done.
    + split; [done|]. split; [done|]. cbn [val]. destruct (Z.eqb_spec lo 0); [lia|]. by destruct Hlb as [|Hlb].
    + split; [done|]. split; [done|]. apply leb_val in Hub; [|done..]. cbn [val cond_Zopp b].
      split; [|done]. destruct (Z.eqb_spec lo 0).
      * by apply Z.lt_le_incl, (val_pos mr er).
      * destruct Hlb as [|Hlb]; [done|]. apply leb_val in Hlb; done.
Qed.

(** A constant minus a number in an interval that stays below it. *)
Lemma sub_between mc ec lo hi y am ae bm be : let c := S754_finite false mc ec in
  let a := S754_finite false am ae in let b := S754_finite false bm be in
  between lo hi y -> canonical c -> canonical a -> canonical b -> be <= 971 ->
  val a <= val c - hi -> val c - lo <= val b -> between (val a) (val b) (f64_sub c y).
Proof.
  intros c a b (Hy & Hf & Hlo) Hc Ha Hb Hbe Hal Hbh.
  pose proof (val_pos am ae Ha) as Hva. fold a in Hva.
  destruct y as [s| | |[] my ey]; try done.
  - cbn [val] in Hlo. change (f64_sub c (S754_zero s)) with c. split; [done|]. split; [done|]. lia.
  - pose proof Hy as Hyb%canonical_mantissa_bounds. pose proof Hc as Hcb%canonical_mantissa_bounds. unfold EMIN in *.
    unfold f64_sub, SFsub, c at 1. cbv zeta. cbn [cond_Zopp].
    pose proof (shl_align_value mc ec (Z.min ec ey)) as H1. destruct (shl_align mc ec (Z.min ec ey)) as [m1 e1].
    pose proof (shl_align_value my ey (Z.min ec ey)) as H2. destruct (shl_align my ey (Z.min ec ey)) as [m2 e2].
    cbn [fst] in *. destruct H1 as [He1 H1], H2 as [He2 H2]. replace e1 with (Z.min ec ey) in * by lia.
    replace e2 with (Z.min ec ey) in * by lia. set (ez := Z.min ec ey) in *.
    assert (Hd : scaled (Z.pos m1 - Z.pos m2) ez = val c - scaled (Z.pos my) ey).
    { cbn [val cond_Zopp c]. rewrite H1, H2. unfold scaled. rewrite Z.mul_sub_distr_r, <- !Z.mul_assoc.
      rewrite <- (Z.pow_add_r 2 (ec - ez)), <- (Z.pow_add_r 2 (ey - ez)) by lia.
      by replace (ec - ez + (ez + 3000)) with (ec + 3000) by lia; replace (ey - ez + (ez + 3000)) with (ey + 3000) by lia. }
    cbn [val cond_Zopp] in Hlo. destruct (Z.pos m1 - Z.pos m2) as [|p|p] eqn:Ed.
    { unfold scaled in Hd at 1. lia. }
    2: { unfold scaled in Hd at 1. pose proof (pow2_pos (ez + 3000) ltac:(lia)). nia. }
    destruct (normalize_round p ez) as (mz & ez' & -> & Hmz & Hez' & Hv & Hr). rewrite fexp64_eq in Hez'. unfold EMIN in Hez'.
    assert (Hsc : scaled mz ez' = scaled (Z.pos p) ez).
    { rewrite Hv. rewrite <- scaled_shift by lia. f_equal. lia. }
    destruct (round_upper mz ez' bm be) as (Hcan & H0 & Hub); [done|lia|done|done|done| |].
    { rewrite Hsc, Hd. change (scaled (Z.pos bm) be) with (val b). lia. }
    assert (Hlb : f64_leb a (binary_round_aux f64_prec f64_emax false mz ez' loc_Exact) = true).
    { apply round_lower; [done|lia|done|done|]. rewrite Hsc, Hd. change (scaled (Z.pos am) ae) with (val a). lia. }
    fold b in Hub. set (R := binary_round_aux _ _ _ _ _ _) in *. clearbody R.
    destruct R as [sr|[]| |[] mr er]; try done.
    split; [done|]. split; [done|]. apply leb_val in Hub; [|done..]. apply leb_val in Hlb; done.
Qed.

(** ** Numbers that are not NaN *)

Lemma round_not_nan s m e l : (0 <= m)%Z -> binary_round_aux f64_prec f64_emax s m e l <> S754_nan.
Proof.
  intros Hm. unfold binary_round_aux.
  assert (Hq : (0 <= shr_m (shr_fexp f64_prec f64_emax m e l).1)%Z).
  { unfold shr_fexp, shr. assert (H0 : shr_m (shr_record_of_loc m l) = m) by (by destruct l as [|[]]).
    destruct (_ - e)%Z; cbn [fst]; try lia. rewrite iter_pos_iter. apply iter_shr_spec. lia. }
  destruct (shr_fexp f64_prec f64_emax m e l) as [q e1]. cbn [fst] in Hq.
  set (r := round_nearest_even _ _).
  assert (Hr : (0 <= r)%Z) by (unfold r; destruct (round_nearest_even_cases q Hq) as [->|[-> _]]; lia).
  pose proof (shr_fexp_rounded r e1 Hr) as Hs. destruct (shr_fexp _ _ r e1 loc_Exact) as [q2 e2].
  destruct Hs as (_ & Hs & _). assert (0 <= shr_m q2)%Z.
  { rewrite Hs. apply Z.div_pos; [done|]. apply pow2_pos. unfold shift_of. lia. }
  destruct (shr_m q2); [done|by destruct (_ <=? _)%Z|lia].
Qed.

Lemma normalize_not_nan m e : binary_normalize f64_prec f64_emax m e false <> S754_nan.
Proof.
  destruct m as [|p|p]; [done| |]; unfold binary_normalize, binary_round;
    destruct (shl_align _ _ _) as [mz ez]; by apply round_not_nan.
Qed.

Lemma is_nan_false x : f64_is_nan x = false <-> x <> S754_nan.
Proof. by destruct x. Qed.

Lemma sub_finite_not_nan x m e : f64_is_nan x = false -> f64_is_nan (f64_sub x (S754_finite false m e)) = false.
Proof.
  intros Hx. destruct x as [[]|[]| |s mx ex]; try done. apply is_nan_false. apply normalize_not_nan.
Qed.

Lemma div_const x m e : f64_is_nan x = false ->
  let R := f64_div x (S754_finite false m e) in canonical R /\ f64_is_nan R = false.
Proof.
  intros Hx. destruct x as [[]|[]| |s mx ex]; try done.
  destruct (div_finite_canonical s mx ex false m e) as [Hc Hn]. split; [done|]. by apply is_nan_false.
Qed.

(** ** Constants and intervals *)

Lemma f64_one_eq : f64_one = S754_finite false 4503599627370496 (-52).
Proof. reflexivity. Qed.

(** Decidable side conditions on constants. *)
Lemma zle_of_leb a b : (a <=? b)%Z = true -> (a <= b)%Z.
Proof. apply Z.leb_le. Qed.
Ltac compute_le := apply zle_of_leb; vm_compute; reflexivity.

(** [c * x] for [x] from 0 to 1. *)
Lemma mul_unit mc ec x : between 0 (val f64_one) x -> canonical (S754_finite false mc ec) ->
  (2 ^ 52 <= Z.pos mc)%Z -> (-1000 <= ec <= 0)%Z ->
  (Z.pos mc * val f64_one <= val (S754_finite false mc ec) * 2 ^ (- ec))%Z ->
  between 0 (val (S754_finite false mc ec)) (f64_mul (S754_finite false mc ec) x).
Proof.
  intros Hx Hc Hmc Hec Hle.
  pose proof (mul_between mc ec 0 (val f64_one) x mc ec mc ec Hx Hmc Hec Hc Hc ltac:(lia) Hle (or_intror eq_refl)) as Hm.
  cbv zeta in Hm. by rewrite Z.eqb_refl in Hm.
Qed.

Lemma clamp_between x ml el mh eh : let lo := S754_finite false ml el in let hi := S754_finite false mh eh in
  canonical x -> f64_is_nan x = false -> canonical lo -> canonical hi -> (val lo <= val hi)%Z ->
  f64_ltb hi lo = false -> between (val lo) (val hi) (f64_clamp x lo hi).
Proof.
  intros lo hi Hx Hn Hlo Hhi Hle Hlt. unfold f64_clamp.
  destruct (f64_ltb x lo) eqn:E0.
  { rewrite Hlt. split; [done|]. split; [done|]. lia. }
  destruct (f64_ltb hi x) eqn:E1.
  { split; [done|]. split; [done|]. lia. }
  destruct x as [s|[]| |[] m e]; try done.
  apply not_lt_leb, leb_val in E0; [|done..]. apply not_lt_leb, leb_val in E1; [|done..].
  split; [done|]. split; [done|]. cbn [val cond_Zopp lo hi]. lia.
Qed.

Lemma add_const_canonical m e y : canonical (S754_finite false m e) -> f64_is_nan y = false ->
  canonical (f64_add (S754_finite false m e) y) /\ f64_is_nan (f64_add (S754_finite false m e) y) = false.
Proof.
  intros Hc Hy. destruct y as [s|s| |s my ey]; try done.
  split; [apply normalize_canonical|apply is_nan_false, normalize_not_nan].
Qed.

Lemma mul_finite_not_nan x y : f64_is_finite x = true -> f64_is_finite y = true -> f64_is_nan (f64_mul x y) = false.
Proof.
  destruct x as [s| | |s m e], y as [s'| | |s' m' e']; try done; intros _ _.
  apply is_nan_false, round_not_nan. lia.
Qed.

(** A sum of numbers from 0 on. *)
Lemma add_between hi1 hi2 x y bm be : let b := S754_finite false bm be in
  between 0 hi1 x -> between 0 hi2 y -> canonical b -> be <= 971 -> hi1 + hi2 <= val b ->
  between 0 (val b) (f64_add x y).
Proof.
  intros b (Hx & Hfx & Hvx) (Hy & Hfy & Hvy) Hb Hbe Hle. pose proof (val_pos bm be Hb) as Hvb. fold b in Hvb.
  destruct x as [sx| | |[] mx ex]; try done; destruct y as [sy| | |[] my ey]; try done.
  - split; [by destruct sx, sy|]. split; [by destruct sx, sy|]. destruct sx, sy; cbn [f64_add SFadd val]; lia.
  - split; [by destruct sx|]. split; [by destruct sx|]. destruct sx; cbn [f64_add SFadd] in *; lia.
  - split; [by destruct sy|]. split; [by destruct sy|]. destruct sy; cbn [f64_add SFadd] in *; lia.
  - pose proof Hx as Hxb%canonical_mantissa_bounds. pose proof Hy as Hyb%canonical_mantissa_bounds. unfold EMIN in *.
    unfold f64_add, SFadd. cbv zeta. cbn [cond_Zopp val] in *.
    pose proof (shl_align_value mx ex (Z.min ex ey)) as H1. destruct (shl_align mx ex (Z.min ex ey)) as [m1 e1].
    pose proof (shl_align_value my ey (Z.min ex ey)) as H2. destruct (shl_align my ey (Z.min ex ey)) as [m2 e2].
    cbn [fst] in *. destruct H1 as [He1 H1], H2 as [He2 H2]. set (ez := Z.min ex ey) in *.
    assert (Hd : scaled (Z.pos (m1 + m2)) ez = scaled (Z.pos mx) ex + scaled (Z.pos my) ey).
    { rewrite Pos2Z.inj_add, H1, H2. unfold scaled. rewrite Z.mul_add_distr_r, <- !Z.mul_assoc.
      replace e1 with ez by lia. replace e2 with ez by lia.
      rewrite <- (Z.pow_add_r 2 (ex - ez)), <- (Z.pow_add_r 2 (ey - ez)) by lia.
      by replace (ex - ez + (ez + 3000)) with (ex + 3000) by lia; replace (ey - ez + (ez + 3000)) with (ey + 3000) by lia. }
    change (Z.pos m1 + Z.pos m2) with (Z.pos (m1 + m2)).
    destruct (normalize_round (m1 + m2) ez) as (mz & ez' & -> & Hmz & Hez' & Hv & Hr).
    rewrite fexp64_eq in Hez'. unfold EMIN in Hez'.
    assert (Hsc : scaled mz ez' = scaled (Z.pos (m1 + m2)) ez).
    { rewrite Hv. rewrite <- scaled_shift by lia. f_equal. lia. }
    destruct (round_upper mz ez' bm be) as (Hcan & H0 & Hub); [done|lia|done|done|done| |].
    { rewrite Hsc, Hd. change (scaled (Z.pos bm) be) with (val b). lia. }
    fold b in Hub. set (R := binary_round_aux _ _ _ _ _ _) in *. clearbody R.
    destruct R as [sr|[]| |[] mr er]; try done.
    + split; [done|]. split; [done|]. cbn [val]. lia.
    + split; [done|]. split; [done|]. apply leb_val in Hub; [|done..].
      split; [by apply Z.lt_le_incl, (val_pos mr er)|done].
Qed.

(** A difference of finite numbers is a number. *)
Lemma sub_canonical x y : canonical x -> canonical y -> f64_is_finite x = true -> f64_is_finite y = true ->
  canonical (f64_sub x y) /\ f64_is_nan (f64_sub x y) = false.
Proof.
  destruct x as [[]| | |sx mx ex], y as [[]| | |[] my ey]; try done; intros Hx Hy _ _;
    (split; [apply normalize_canonical || done|apply is_nan_false, normalize_not_nan || done]).
Qed.

Lemma div_number x y : f64_is_nan x = false -> f64_is_finite y = true -> f64_is_zero y = false ->
  canonical (f64_div x y) /\ f64_is_nan (f64_div x y) = false.
Proof.
  intros Hx Hy Hz. destruct x as [[]|[]| |s mx ex], y as [ | | |sy my ey]; try done;
    try (destruct (div_finite_canonical s mx ex sy my ey) as [Hc Hn]; split; [done|by apply is_nan_false]).
  all: by destruct sy.
Qed.
