(* ===== verification/Combinations.v ===== *)
(** * Combinations: the iterator over the subsets of a given size

    [Combinations] of [common/src/algorithm/portfolio.rs]: a loop without
    recursion that turns one combination of [k] indices below [n] into the next.
    It is shown to produce exactly the increasing lists of [k] indices, each
    once, in lexicographic order, and then to stop. *)

From Stdlib Require Import Sorted.
From S2P Require Import Prelude.
Local Open Scope nat_scope.

Record Combinations := mkCombinations {
  cb_indices : list nat;
  cb_n : nat;
  cb_k : nat;
  cb_first : bool;
}.

Definition Combinations_new (n k : nat) : Combinations := mkCombinations (seq 0 k) n k true.

(** The search from the right end for a position that can be increased. *)
Fixpoint find_position (c : Combinations) (i : nat) : option nat :=
  match i with
  | O => None
  | S i =>
      if cb_indices c !!! i <? cb_n c - cb_k c + i then Some i else find_position c i
  end.

(** The positions after it are filled with consecutive numbers. *)
Definition fill_after (indices : list nat) (i k : nat) : list nat :=
  foldl (fun l j => <[j := l !!! (j - 1) + 1]> l) indices (seq (i + 1) (k - (i + 1))).

Definition combinations_next (c : Combinations) : option (list nat) * Combinations :=
  if (cb_k c =? 0) || (cb_n c <? cb_k c) then (None, c)
  else if cb_first c then
    (Some (cb_indices c), mkCombinations (cb_indices c) (cb_n c) (cb_k c) false)
  else
    match find_position c (cb_k c) with
    | None => (None, c)
    | Some i =>
        let indices := <[i := cb_indices c !!! i + 1]> (cb_indices c) in
        let indices := fill_after indices i (cb_k c) in
        (Some indices, mkCombinations indices (cb_n c) (cb_k c) false)
    end.

(** A [for] loop over the iterator: its items until it returns [None].  No
    result means that the fuel did not suffice. *)
Fixpoint drain (fuel : nat) (c : Combinations) : option (list (list nat)) :=
  match fuel with
  | O => None
  | S fuel =>
      match combinations_next c with
      | (None, _) => Some []
      | (Some l, c) => (fun ls => l :: ls) <$> drain fuel c
      end
  end.

(** The number of subsets of [k] among [n], which is the fuel. *)
Fixpoint binomial (n k : nat) : nat :=
  match n, k with
  | _, O => 1
  | O, S _ => 0
  | S n, S k => binomial n k + binomial n (S k)
  end.

Definition combinations (n k : nat) : option (list (list nat)) :=
  drain (S (binomial n k)) (Combinations_new n k).

(** ** The reference: subsets by recursion on the list *)

Fixpoint choose {A} (k : nat) (l : list A) : list (list A) :=
  match k, l with
  | O, _ => [[]]
  | S _, [] => []
  | S k', x :: l => (cons x <$> choose k' l) ++ choose k l
  end.

Lemma choose_cons {A} k (x : A) l : choose (S k) (x :: l) = (cons x <$> choose k l) ++ choose (S k) l.
Proof. done. Qed.

Lemma length_choose {A} k (l : list A) : length (choose k l) = binomial (length l) k.
Proof.
  revert k. induction l as [|x l IH]; intros [|k]; try done.
  rewrite choose_cons, length_app, length_fmap, !IH. done.
Qed.

Lemma choose_short {A} k (l : list A) : length l < k -> choose k l = [].
Proof.
  revert k. induction l as [|x l IH]; intros [|k] Hk; cbn in Hk; try lia; [done|].
  rewrite choose_cons, !IH by lia. done.
Qed.

Lemma elem_of_choose {A} k (l s : list A) : s ∈ choose k l <-> length s = k /\ s `sublist_of` l.
Proof.
  revert k s. induction l as [|x l IH]; intros [|k] s.
  - cbn. rewrite list_elem_of_singleton. split; [intros ->; done|intros [? _]; by destruct s].
  - cbn. rewrite elem_of_nil. split; [done|]. intros [Hl Hs]. apply sublist_nil_r in Hs as ->. done.
  - cbn. rewrite list_elem_of_singleton. split; [intros ->; split; [done|apply sublist_nil_l]|].
    intros [? _]. by destruct s.
  - rewrite choose_cons, elem_of_app, list_elem_of_fmap. split.
    + intros [(s' & -> & Hs)|Hs]; apply IH in Hs as [Hl Hs]; cbn; split; try lia; by constructor.
    + intros [Hl Hs]. apply sublist_cons_r in Hs as [Hs|(s' & -> & Hs)].
      * right. apply IH. done.
      * left. exists s'. split; [done|]. apply IH. cbn in Hl. split; [lia|done].
Qed.

Lemma choose_fmap {A B} (f : A -> B) k (l : list A) : choose k (f <$> l) = (fmap f : list A -> list B) <$> choose k l.
Proof.
  revert k. induction l as [|x l IH]; intros [|k]; try done.
  change (f <$> x :: l) with (f x :: (f <$> l)). rewrite !choose_cons, fmap_app, !IH, <- !list_fmap_compose. done.
Qed.

(** ** One step is the lexicographic successor *)

Fixpoint succ (n : nat) (l : list nat) : option (list nat) :=
  match l with
  | [] => None
  | x :: r =>
      match succ n r with
      | Some r' => Some (x :: r')
      | None => if x <? n - S (length r) then Some (seq (S x) (S (length r))) else None
      end
  end.

(** Position [i] of a list of [k] can be increased. *)
Definition movable (n : nat) (l : list nat) (i : nat) : Prop := l !!! i < n - length l + i.

Lemma movable_cons n x l i : S (length l) <= n -> movable n (x :: l) (S i) <-> movable n l i.
Proof.
  intros Hn. unfold movable. change ((x :: l) !!! S i) with (l !!! i). cbn [length]. lia.
Qed.
Lemma movable_head n x l : movable n (x :: l) 0 <-> x < n - S (length l).
Proof. unfold movable. change ((x :: l) !!! 0) with x. cbn [length]. lia. Qed.

Lemma succ_stuck n l : length l <= n -> (forall i, i < length l -> ~ movable n l i) -> succ n l = None.
Proof.
  induction l as [|x l IH]; intros Hn Hm; [done|]. cbn [succ length] in *.
  rewrite IH; [|lia|].
  - destruct (Nat.ltb_spec x (n - S (length l))); [|done].
    destruct (Hm 0); [lia|]. by apply movable_head.
  - intros i Hi Hmv. apply (Hm (S i)); [lia|]. apply movable_cons; [lia|done].
Qed.

Lemma succ_moves n l i : length l <= n -> i < length l -> movable n l i ->
  (forall j, i < j -> j < length l -> ~ movable n l j) ->
  succ n l = Some (take i l ++ seq (S (l !!! i)) (length l - i)).
Proof.
  revert i. induction l as [|x l IH]; intros i Hn Hi Hmv Hlast; [cbn in Hi; lia|].
  cbn [succ length] in *. destruct i as [|i].
  - rewrite succ_stuck; [|lia|].
    + apply movable_head in Hmv. by rewrite (proj2 (Nat.ltb_lt _ _)).
    + intros j Hj Hm. apply (Hlast (S j)); [lia..|]. apply movable_cons; [lia|done].
  - rewrite (IH i); [done|lia|lia|by apply movable_cons in Hmv|].
    intros j Hij Hj Hm. apply (Hlast (S j)); [lia..|]. apply movable_cons; [lia|done].
Qed.

Lemma find_position_spec c i :
  match find_position c i with
  | Some j => j < i /\ cb_indices c !!! j < cb_n c - cb_k c + j /\
      (forall j', j < j' -> j' < i -> ~ cb_indices c !!! j' < cb_n c - cb_k c + j')
  | None => forall j, j < i -> ~ cb_indices c !!! j < cb_n c - cb_k c + j
  end.
Proof.
  induction i as [|i IH]; cbn [find_position]; [lia|].
  destruct (Nat.ltb_spec (cb_indices c !!! i) (cb_n c - cb_k c + i)) as [Hlt|Hge].
  - split; [lia|]. split; [done|]. lia.
  - destruct (find_position c i) as [j|].
    + destruct IH as (Hj & Hm & Hl). split; [lia|]. split; [done|].
      intros j' H1 H2. destruct (decide (j' = i)) as [->|]; [lia|apply Hl; lia].
    + intros j Hj. destruct (decide (j = i)) as [->|]; [lia|apply IH; lia].
Qed.

(** Filling consecutive numbers after position [i]. *)
Lemma fill_steps l i m : i + m < length l ->
  foldl (fun l j => <[j := l !!! (j - 1) + 1]> l) l (seq (i + 1) m) =
  take (i + 1) l ++ seq (S (l !!! i)) m ++ drop (i + 1 + m) l.
Proof.
  intros Hm. induction m as [|m IH].
  - cbn. by rewrite Nat.add_0_r, take_drop.
  - rewrite !seq_S, foldl_app, IH by lia. cbn [foldl].
    assert (Hlen : length (take (i + 1) l) = i + 1) by (rewrite length_take; lia).
    assert (Hprev : (take (i + 1) l ++ seq (S (l !!! i)) m ++ drop (i + 1 + m) l) !!! (i + 1 + m - 1) = l !!! i + m).
    { apply list_lookup_total_correct. destruct m as [|m].
      - rewrite lookup_app_l, lookup_take_lt by lia. rewrite Nat.add_0_r.
        replace (i + 1 - 1) with i by lia. rewrite Nat.add_0_r. apply list_lookup_lookup_total_lt. lia.
      - rewrite lookup_app_r by lia. rewrite Hlen. rewrite lookup_app_l by (rewrite length_seq; lia).
        apply lookup_seq. lia. }
    rewrite Hprev. rewrite insert_app_r_alt by lia. rewrite Hlen. f_equal.
    rewrite insert_app_r_alt by (rewrite length_seq; lia). rewrite length_seq.
    replace (i + 1 + m - (i + 1) - m) with 0 by lia. rewrite <- app_assoc. f_equal.
    destruct (drop (i + 1 + m) l) as [|y r] eqn:E.
    + apply (f_equal length) in E. rewrite length_drop in E. cbn in E. lia.
    + cbn. f_equal; [lia|]. replace (i + 1 + S m) with (1 + (i + 1 + m)) by lia.
      rewrite <- (drop_drop l (i + 1 + m) 1), E || rewrite Nat.add_comm, <- drop_drop, E. done.
Qed.

Lemma next_is_succ c : cb_k c <> 0 -> cb_k c <= cb_n c -> cb_first c = false -> length (cb_indices c) = cb_k c ->
  combinations_next c =
    match succ (cb_n c) (cb_indices c) with
    | Some l => (Some l, mkCombinations l (cb_n c) (cb_k c) false)
    | None => (None, c)
    end.
Proof.
  intros Hk Hkn Hf Hlen. unfold combinations_next. rewrite Hf.
  rewrite (proj2 (Nat.eqb_neq _ _)) by done. rewrite (proj2 (Nat.ltb_ge _ _)) by lia. cbn [orb].
  pose proof (find_position_spec c (cb_k c)) as Hp.
  destruct (find_position c (cb_k c)) as [i|].
  - destruct Hp as (Hi & Hm & Hl). rewrite (succ_moves _ _ i); [|lia|lia| |].
    + cbv zeta. unfold fill_after. rewrite fill_steps by (rewrite length_insert; lia).
      rewrite <- Hlen.
      assert (E : take (i + 1) (<[i:=cb_indices c !!! i + 1]> (cb_indices c)) ++
          seq (S (<[i:=cb_indices c !!! i + 1]> (cb_indices c) !!! i)) (length (cb_indices c) - (i + 1)) ++
          drop (i + 1 + (length (cb_indices c) - (i + 1))) (<[i:=cb_indices c !!! i + 1]> (cb_indices c)) =
          take i (cb_indices c) ++ seq (S (cb_indices c !!! i)) (length (cb_indices c) - i)); [|by rewrite E].
      rewrite list_lookup_total_insert_eq by lia.
      rewrite (drop_ge (<[_ := _]> _)) by (rewrite length_insert; lia). rewrite app_nil_r.
      rewrite insert_take_drop by lia. rewrite take_app, length_take, take_take.
      replace ((i + 1) `min` i) with i by lia. rewrite <- app_assoc. f_equal.
      replace (i + 1 - i `min` length (cb_indices c)) with 1 by lia. cbn [take app].
      replace (length (cb_indices c) - i) with (S (length (cb_indices c) - (i + 1))) by lia.
      cbn [seq]. rewrite ?firstn_O; cbn [app]; rewrite Nat.add_1_r; done.
    + unfold movable. rewrite Hlen. done.
    + intros j Hij Hj. unfold movable. rewrite Hlen. apply Hl; lia.
  - rewrite succ_stuck; [done|lia|]. intros i Hi. unfold movable. rewrite Hlen. apply Hp. lia.
Qed.

(** ** Iterating the successor enumerates the subsets *)

(** [ls] starts at [l], each element is the successor of the one before, and
    the last has none. *)
Fixpoint chain (n : nat) (l : list nat) (ls : list (list nat)) : Prop :=
  match ls with
  | [] => False
  | x :: ls =>
      x = l /\ match ls with [] => succ n x = None | y :: _ => succ n x = Some y /\ chain n y ls end
  end.

(** Putting an index in front of a chain, and what follows when it is over. *)
Lemma chain_cons_app n x k s ls rest : chain n s ls -> Forall (fun l => length l = k) ls ->
  match rest with
  | [] => ~ x < n - S k
  | t :: _ => x < n - S k /\ t = seq (S x) (S k) /\ chain n t rest
  end -> chain n (x :: s) ((cons x <$> ls) ++ rest).
Proof.
  intros Hc Hk Hrest. revert s Hc. induction ls as [|y ls IH]; intros s Hc; [done|].
  apply list.Forall_cons in Hk as [Hy Hk]. destruct Hc as [-> Hc].
  destruct ls as [|z ls].
  - cbn [fmap list_fmap app]. destruct rest as [|t rest]; cbn [chain].
    + split; [done|]. cbn [succ]. rewrite Hc, Hy. by rewrite (proj2 (Nat.ltb_nlt _ _)).
    + split; [done|]. destruct Hrest as (Hx & -> & Hr). split; [|done]. cbn [succ].
      rewrite Hc, Hy. by rewrite (proj2 (Nat.ltb_lt _ _)).
  - destruct Hc as [Hsucc Hc]. specialize (IH Hk z Hc). cbn [fmap list_fmap app] in *.
    split; [done|]. split; [|done]. cbn [succ]. by rewrite Hsucc.
Qed.

Lemma choose_lengths {A} k (l : list A) : Forall (fun s => length s = k) (choose k l).
Proof. apply list.Forall_forall. intros s Hs. by apply elem_of_choose in Hs as [? _]. Qed.

Lemma choose_head n a m k : k <= m -> a + m = n ->
  chain n (seq a k) (choose k (seq a m)) /\ choose k (seq a m) !! 0 = Some (seq a k).
Proof.
  revert a k. induction m as [|m IH]; intros a k Hk Hn.
  - assert (k = 0) as -> by lia. done.
  - destruct k as [|k]; [done|]. change (seq a (S m)) with (a :: seq (S a) m). rewrite choose_cons.
    change (seq a (S k)) with (a :: seq (S a) k).
    destruct (IH (S a) k) as [Hc H0]; [lia..|]. split.
    + apply (chain_cons_app n a k); [done|apply choose_lengths|].
      destruct (decide (S k <= m)) as [Hle|Hgt].
      * destruct (IH (S a) (S k)) as [Hc1 H1]; [lia..|].
        destruct (choose (S k) (seq (S a) m)) as [|t rest]; [done|]. cbn in H1. injection H1 as ->.
        split; [lia|]. done.
      * rewrite choose_short by (rewrite length_seq; lia). lia.
    + rewrite lookup_app_l; [by rewrite list_lookup_fmap, H0|].
      rewrite length_fmap. by apply lookup_lt_Some in H0.
Qed.

Lemma drain_chain n k l ls fuel : k <> 0 -> k <= n -> chain n l ls -> Forall (fun l => length l = k) ls ->
  length ls <= fuel -> (cons l <$> drain fuel (mkCombinations l n k false)) = Some ls.
Proof.
  intros Hk Hkn. revert l fuel. induction ls as [|x ls IH]; intros l fuel Hc Hl Hf; [done|].
  destruct Hc as [-> Hc]. apply list.Forall_cons in Hl as [Hx Hl].
  destruct fuel as [|fuel]; [cbn in Hf; lia|]. cbn [drain].
  rewrite next_is_succ by done. cbn [cb_n cb_indices].
  destruct ls as [|y ls].
  - by rewrite Hc.
  - destruct Hc as [-> Hc]. cbn [cb_n cb_k]. cbn in Hf.
    pose proof (IH y fuel Hc Hl ltac:(cbn; lia)) as E. by destruct (drain fuel _); simplify_eq/=.
Qed.

Lemma combinations_choose n k : k <> 0 -> combinations n k = Some (choose k (seq 0 n)).
Proof.
  intros Hk. unfold combinations. cbn [drain]. unfold combinations_next at 1. cbn [cb_k cb_n cb_first Combinations_new].
  rewrite (proj2 (Nat.eqb_neq _ _)) by done. cbn [orb]. destruct (Nat.ltb_spec n k) as [Hlt|Hge].
  - by rewrite choose_short by (rewrite length_seq; lia).
  - cbn [cb_indices]. destruct (choose_head n 0 n k) as [Hc _]; [lia..|].
    apply (drain_chain n k); try done; [apply choose_lengths|].
    rewrite length_choose, length_seq. done.
Qed.

(** ** Order *)

(** The lexicographic order. *)
Fixpoint lex (l k : list nat) : Prop :=
  match l, k with
  | x :: l, y :: k => x < y \/ (x = y /\ lex l k)
  | _, _ => False
  end.

Lemma StronglySorted_app_2 {A} (R : A -> A -> Prop) l k : StronglySorted R l -> StronglySorted R k ->
  (forall x y, x ∈ l -> y ∈ k -> R x y) -> StronglySorted R (l ++ k).
Proof.
  intros Hl Hk. induction Hl as [|x l Hl IH Hx]; intros Hc; [done|]. cbn. constructor.
  - apply IH. intros. apply Hc; [by apply list_elem_of_further|done].
  - apply List.Forall_app. split; [done|]. apply list.Forall_forall. intros y Hy. apply Hc; [apply list_elem_of_here|done].
Qed.

Lemma choose_ordered a m k : StronglySorted lex (choose k (seq a m)).
Proof.
  revert a k. induction m as [|m IH]; intros a [|k]; try (by repeat constructor).
  change (seq a (S m)) with (a :: seq (S a) m). rewrite choose_cons. apply StronglySorted_app_2; [|apply IH|].
  - specialize (IH (S a) k). induction IH as [|s ls Hs IHs Hf]; [constructor|]. cbn. constructor; [done|].
    apply list.Forall_forall. intros t Ht. apply list_elem_of_fmap in Ht as (t' & -> & Ht).
    right. split; [done|]. eapply list.Forall_forall in Hf; [exact Hf|done].
  - intros s t Hs Ht. apply list_elem_of_fmap in Hs as (s' & -> & _).
    apply elem_of_choose in Ht as [Hl Ht]. destruct t as [|y t]; [done|]. left.
    assert (Hy : y ∈ seq (S a) m) by (eapply elem_of_sublist; [apply list_elem_of_here|exact Ht]).
    apply elem_of_seq in Hy. lia.
Qed.

Lemma lex_irrefl l : ~ lex l l.
Proof. induction l as [|x l IH]; cbn; [tauto|]. intros [?|[_ ?]]; [lia|tauto]. Qed.

Lemma StronglySorted_NoDup {A} (R : A -> A -> Prop) l : (forall x, ~ R x x) -> StronglySorted R l -> NoDup l.
Proof.
  intros HR Hl. induction Hl as [|x l Hl IH Hx]; constructor; [|done].
  intros Hin. eapply list.Forall_forall in Hx; [|exact Hin]. by eapply HR.
Qed.

(** Sublists of the indices below [n] are the increasing lists of such indices. *)
Lemma sublist_seq a m s : s `sublist_of` seq a m <-> StronglySorted lt s /\ Forall (fun i => a <= i < a + m) s.
Proof.
  revert a s. induction m as [|m IH]; intros a s.
  - split; [intros Hs%sublist_nil_r; subst; split; constructor|]. intros [_ Hf].
    destruct s as [|x s]; [constructor|]. apply list.Forall_cons in Hf as [? _]. lia.
  - change (seq a (S m)) with (a :: seq (S a) m). split.
    + intros Hs. apply sublist_cons_r in Hs as [Hs|(s' & -> & Hs)].
      * apply IH in Hs as [Hs Hf]. split; [done|]. eapply List.Forall_impl; [|exact Hf]. cbn. lia.
      * apply IH in Hs as [Hs Hf]. split.
        -- constructor; [done|]. eapply List.Forall_impl; [|exact Hf]. cbn. lia.
        -- constructor; [lia|]. eapply List.Forall_impl; [|exact Hf]. cbn. lia.
    + intros [Hs Hf]. destruct s as [|x s]; [apply sublist_nil_l|].
      apply list.Forall_cons in Hf as [Hx Hf]. apply StronglySorted_inv in Hs as [Hs Hlt].
      destruct (decide (x = a)) as [->|Hne].
      * apply sublist_skip, IH. split; [done|].
        apply list.Forall_forall. intros i Hi. eapply list.Forall_forall in Hf, Hlt; [|done..]. lia.
      * apply sublist_cons, IH. split; [by constructor|]. constructor; [lia|].
        apply list.Forall_forall. intros i Hi. eapply list.Forall_forall in Hf, Hlt; [|done..]. lia.
Qed.

(** C25: iterating over [Combinations::new(n, k)] for a positive [k] ends after
    "n choose k" items, and gives every increasing list of [k] indices below
    [n], and nothing else, exactly once and in lexicographic order; it is the
    list of subsets defined by recursion. *)
Theorem combinations_enumerate (n k : nat) (Hk : 0 < k) :
  exists ls, combinations n k = Some ls /\ ls = choose k (seq 0 n) /\ length ls = binomial n k /\
    NoDup ls /\ StronglySorted lex ls /\
    (forall l, l ∈ ls <-> length l = k /\ StronglySorted lt l /\ Forall (fun i => i < n) l).
Proof.
  exists (choose k (seq 0 n)). split; [apply combinations_choose; lia|]. split; [done|].
  split; [by rewrite length_choose, length_seq|].
  split; [eapply StronglySorted_NoDup, choose_ordered; exact lex_irrefl|]. split; [apply choose_ordered|].
  intros l. rewrite elem_of_choose, sublist_seq.
  split; intros (? & ? & Hf); (split; [done|]); (split; [done|]); (eapply List.Forall_impl; [|exact Hf]); cbn; lia.
Qed.

Lemma combinations_enumerate_witness :
  combinations 4 2 = Some [[0; 1]; [0; 2]; [0; 3]; [1; 2]; [1; 3]; [2; 3]] /\
  exists ls, combinations 15 6 = Some ls /\ ls = choose 6 (seq 0 15) /\ length ls = binomial 15 6 /\
    NoDup ls /\ StronglySorted lex ls /\
    (forall l, l ∈ ls <-> length l = 6 /\ StronglySorted lt l /\ Forall (fun i => i < 15) l).
Proof. split; [vm_compute; reflexivity|]. exact (combinations_enumerate 15 6 ltac:(lia)). Defined.
