(* ===== verification/Optimizer.v ===== *)
(** * Optimizer: portfolio optimisation

    [common/src/algorithm/portfolio.rs]: expected returns and covariances of
    the tokens, the active-set and risk-parity loops that turn them into
    weights, the enumeration of subsets that limits the number of holdings, and
    the report with the actions to execute.

    Numbers are [f64] at their width ([F64], [Vectors]).  The matrix
    decompositions and products of the crates nalgebra and ndarray are the
    operations of [Class Numerics]; what is used of them is their shape
    ([NumericsLaws]).  A panic (an index out of range, a failed assertion, an
    unordered [clamp]) is [None] inside the optimiser and [Panic] in the report.
    The theorems are in [OptimizerFacts]. *)

From Stdlib Require Import ZArith SpecFloat.
From S2P Require Import Prelude F64 Vectors Combinations BigDecimal Units Execution.
Local Open Scope nat_scope.

(** The linear algebra of nalgebra and ndarray, and the order in which
    [sort_by] leaves pairs whose weights are not all comparable: the standard
    library leaves it unspecified and may panic. *)
Class Numerics := {
  Cholesky : Type;
  LU : Type;
  cholesky : matrix -> option Cholesky;
  chol_solve : Cholesky -> list f64 -> list f64;
  lu : matrix -> LU;
  lu_solve : LU -> list f64 -> option (list f64);
  symmetric_eigen : matrix -> list f64 * matrix;
  na_mul : matrix -> matrix -> matrix;
  nd_dot : list f64 -> list f64 -> f64;
  nd_mat_vec : matrix -> list f64 -> list f64;
  sort_incomparable : list (nat * f64) -> option (list (nat * f64));
}.

(** Their shapes: a solution has the length of its right-hand side, a product
    the rows of its first factor, a sort permutes. *)
Class NumericsLaws `{Numerics} := {
  chol_solve_length m c b : square (length b) m -> cholesky m = Some c -> length (chol_solve c b) = length b;
  lu_solve_length m b z : square (length b) m -> lu_solve (lu m) b = Some z -> length z = length b;
  eigen_shape n m : square n m ->
    length (symmetric_eigen m).1 = n /\ square n (symmetric_eigen m).2;
  na_mul_shape n a b : square n a -> square n b -> square n (na_mul a b);
  mat_vec_length m v : length (nd_mat_vec m v) = length m;
  sort_incomparable_perm l k : sort_incomparable l = Some k -> k ≡ₚ l;
}.

(** ** Constants *)
Definition RISK_FREE_RATE : f64 := f64_literal 5479 8.
Definition MAX_POSITION_SIZE : f64 := f64_literal 6 1.
Definition MIN_POSITION_SIZE : f64 := f64_literal 5 2.
Definition MAX_HOLDINGS : nat := 6.
Definition MIN_EIGENVALUE_THRESHOLD : f64 := f64_literal 1 6.
Definition RIDGE_EPSILON : f64 := f64_literal 1 6.
Definition MIN_LIQUIDITY_SCORE : f64 := f64_literal 5 1.
Definition HIGH_VOLATILITY_THRESHOLD : f64 := f64_literal 157 4.
Definition LOW_VOLATILITY_THRESHOLD : f64 := f64_literal 523 5.
Definition MAX_RISK_PARITY_ITERATIONS : nat := 50.
Definition RISK_PARITY_CONVERGENCE_TOLERANCE : f64 := f64_literal 1 6.
Definition PREDICTION_ALPHA_FLOOR : f64 := f64_literal 5 1.
Definition PRUNE_KEEP_PER : nat := 12.
Definition MAX_PHASE3_CANDIDATES : nat := 15.
Definition LIQUIDITY_PENALTY_LAMBDA : f64 := f64_literal 1 2.
Definition PINNED_RC_RELEASE_FACTOR : f64 := f64_literal 15 1.

Definition f64_two : f64 := f64_of_Z 2.
Definition tiny (e : Z) : f64 := f64_literal 1 e.

(** ** Returns and covariances *)

(** The mean of a series. *)
Definition mean (r : list f64) : f64 := f64_div (f64_sum r) (f64_of_nat (length r)).

(** The last [t] entries: [r[r.len() - t..]]. *)
Definition tail_of {A} (t : nat) (r : list A) : list A := drop (length r - t) r.

Definition calculate_covariance (returns1 returns2 : list f64) : f64 :=
  let min_len := length returns1 `min` length returns2 in
  if min_len <? 2 then f64_zero
  else
    let r1 := tail_of min_len returns1 in
    let r2 := tail_of min_len returns2 in
    let mean1 := f64_div (f64_sum r1) (f64_of_nat min_len) in
    let mean2 := f64_div (f64_sum r2) (f64_of_nat min_len) in
    f64_div (f64_sum (zip_with (fun v1 v2 => f64_mul (f64_sub v1 mean1) (f64_sub v2 mean2)) r1 r2))
      (f64_of_nat (min_len - 1)).

(** [min] over the lengths of the series, 0 for none. *)
Definition min_length {A} (l : list (list A)) : nat :=
  match l with [] => 0 | r :: l => foldl (fun m r => m `min` length r) (length r) l end.

Definition zeros (n : nat) : matrix := replicate n (replicate n f64_zero).
(** A matrix from its entries; the indices of the loops below stay in it. *)
Definition mat_of (n : nat) (f : nat -> nat -> f64) : matrix :=
  (fun i => f i <$> seq 0 n) <$> seq 0 n.
Definition entry (m : matrix) (i j : nat) : f64 := (m !!! i) !!! j.

(** [for i { diagonal; for j in i + 1.. { upper } }] into an accumulator. *)
Definition fold_upper (n : nat) (diag : nat -> f64 -> f64) (upper : nat -> nat -> f64 -> f64) (acc : f64) : f64 :=
  foldl (fun acc i => foldl (fun acc j => upper i j acc) (diag i acc) (seq (i + 1) (n - (i + 1))))
    acc (seq 0 n).

Definition ledoit_wolf_shrink (daily_returns : list (list f64)) : matrix :=
  let n := length daily_returns in
  match daily_returns with
  | [] => []
  | [r] =>
      match r with
      | [] => zeros 1
      | _ =>
          let m := mean r in
          let var := f64_div (f64_sum ((fun v => f64_sq (f64_sub v m)) <$> r))
                       (f64_max (f64_sub (f64_of_nat (length r)) f64_one) f64_one) in
          [[var]]
      end
  | _ =>
      let t := min_length daily_returns in
      if t <? 2 then zeros n
      else
        let series i := tail_of t (daily_returns !!! i) in
        let means i := f64_div (f64_sum (series i)) (f64_of_nat t) in
        (* each pair is computed once, for the smaller index first *)
        let sample_cov := mat_of n (fun i j => calculate_covariance (series (i `min` j)) (series (i `max` j))) in
        let s := entry sample_cov in
        let mu := f64_div (f64_sum ((fun i => s i i) <$> seq 0 n)) (f64_of_nat n) in
        let delta_sq := fold_upper n
          (fun i acc => f64_add acc (f64_sq (f64_sub (s i i) mu)))
          (fun i j acc => f64_add acc (f64_mul f64_two (f64_sq (s i j)))) f64_zero in
        if f64_ltb delta_sq (tiny 30) then
          mat_of n (fun i j => if i =? j then mu else f64_zero)
        else
          let x day i := f64_sub (series i !!! day) (means i) in
          let norm_sq day := fold_upper n
            (fun i acc => let diff := f64_sub (f64_mul (x day i) (x day i)) (s i i) in
              f64_add acc (f64_mul diff diff))
            (fun i j acc => let diff := f64_sub (f64_mul (x day i) (x day j)) (s i j) in
              f64_add acc (f64_mul (f64_mul f64_two diff) diff)) f64_zero in
          let beta_hat := foldl (fun acc day => f64_add acc (norm_sq day)) f64_zero (seq 0 t) in
          let beta_hat := f64_div beta_hat (f64_mul (f64_of_nat t) (f64_of_nat t)) in
          let shrinkage := f64_clamp (f64_div beta_hat delta_sq) f64_zero f64_one in
          let one_minus_s := f64_sub f64_one shrinkage in
          mat_of n (fun i j =>
            if i =? j then f64_add (f64_mul shrinkage mu) (f64_mul one_minus_s (s i i))
            else f64_mul one_minus_s (s (i `min` j) (i `max` j)))
  end.

(** A round of a loop returns its weights or goes on with another state. *)
Inductive round (State : Type) := Return (w : list f64) | Continue (s : State).
Arguments Return {State}.
Arguments Continue {State}.

(** The cache of the weights of a subset. *)
Abbreviation Cache := (gmap (list nat) (list f64)) (only parsing).

Section numerics.
Context `{Numerics}.

(** Products of ndarray with a square matrix: the shapes must agree. *)
Definition mat_vec (m : matrix) (v : list f64) : option (list f64) :=
  if (length m =? length v) && forallb (fun r => length r =? length v) m then Some (nd_mat_vec m v) else None.
Definition dot (v w : list f64) : option f64 :=
  if length v =? length w then Some (nd_dot v w) else None.
(** [w.dot(&cov.dot(&w))]. *)
Definition variance (cov : matrix) (w : list f64) : option f64 :=
  cw ← mat_vec cov w; dot w cw.

Definition transpose (n : nat) (m : matrix) : matrix := mat_of n (fun i j => entry m j i).

Definition ensure_positive_semi_definite (covariance : matrix) : option matrix :=
  let n := length covariance in
  if n <=? 1 then Some covariance
  else
    mat ← mat_fn n n (mat_get covariance);
    let '(eigenvalues, eigenvectors) := symmetric_eigen mat in
    let min_eigenvalue := foldl f64_min f64_infinity eigenvalues in
    if f64_leb MIN_EIGENVALUE_THRESHOLD min_eigenvalue then Some covariance
    else
      clamped ← mat_fn n n (fun i j =>
        if i =? j then v ← eigenvalues !! i; Some (f64_max v MIN_EIGENVALUE_THRESHOLD) else Some f64_zero);
      let reconstructed := na_mul (na_mul eigenvectors clamped) (transpose n eigenvectors) in
      mat_fn n n (mat_get reconstructed).

Definition calculate_covariance_matrix (daily_returns : list (list f64)) : option matrix :=
  match daily_returns with
  | [] => Some []
  | _ => ensure_positive_semi_definite (ledoit_wolf_shrink daily_returns)
  end.

Definition calculate_portfolio_return (weights expected_returns : list f64) : f64 :=
  f64_sum (zip_with f64_mul weights expected_returns).

Definition calculate_portfolio_std (weights : list f64) (cov : matrix) : option f64 :=
  v ← variance cov weights; Some (f64_max (f64_sqrt v) (tiny 10)).

(** ** Weights *)

Definition normalize_weights (weights : list f64) : list f64 :=
  let sum := f64_sum weights in
  if f64_ltb f64_zero sum then (fun w => f64_div w sum) <$> weights else weights.

Definition clamp_and_normalize (weights : list f64) (max_position : f64) : option (list f64) :=
  weights ← mapM (fun w => clamp_checked w f64_zero max_position) weights;
  Some (normalize_weights weights).

Definition equal_weights (n : nat) : list f64 := replicate n (f64_div f64_one (f64_of_nat n)).

(** [(max - min).abs() < 1e-12]: all returns are the same. *)
Definition same_returns (expected_returns : list f64) : bool :=
  let min_return := foldl f64_min f64_infinity expected_returns in
  let max_return := foldl f64_max f64_neg_infinity expected_returns in
  f64_ltb (f64_abs (f64_sub max_return min_return)) (tiny 12).

(** [Σ + εI]. *)
Definition ridge (m : matrix) : matrix :=
  imap (fun i r => alter (fun x => f64_add x RIDGE_EPSILON) i r) m.

Definition solve_ridge (m : matrix) (b : list f64) : option (list f64) :=
  (fun c => chol_solve c b) <$> cholesky (ridge m).

(** Cholesky first, then LU, then Cholesky of the regularised matrix. *)
Definition solve_spd (m : matrix) (b : list f64) : option (list f64) :=
  match cholesky m with
  | Some c => Some (chol_solve c b)
  | None => match lu_solve (lu m) b with Some z => Some z | None => solve_ridge m b end
  end.

(** [enumerate().min_by(partial_cmp or Equal)]: the first of the least. *)
Definition min_entry (z : list f64) : option (nat * f64) :=
  match imap pair z with
  | [] => None
  | e :: l => Some (foldl (fun best e =>
      match f64_partial_cmp best.2 e.2 with Some Gt => e | _ => best end) e l)
  end.

(** The loop of the active set; an asset leaves it in every round but the last. *)
Fixpoint sharpe_loop (fuel : nat) (n : nat) (cov : matrix) (excess : list f64) (active : list nat)
  : option (list f64) :=
  match fuel with
  | O => None
  | S fuel =>
      match active with
      | [] => Some (equal_weights n)
      | _ =>
          cov_sub ← submatrix cov active;
          excess_sub ← mapM (fun i => excess !! i) active;
          match solve_spd cov_sub excess_sub with
          | None => Some (equal_weights n)
          | Some z =>
              let finish :=
                let sum_z := f64_sum z in
                if f64_leb sum_z f64_zero then Some (equal_weights n)
                else scatter (replicate n f64_zero) active ((fun x => f64_div x sum_z) <$> z) in
              match min_entry z with
              | Some (idx, val) =>
                  if f64_ltb val f64_zero then
                    active ← vec_remove idx active; sharpe_loop fuel n cov excess active
                  else finish
              | None => finish
              end
          end
      end
  end.

Definition excess_of (expected_returns : list f64) : list f64 :=
  (fun r => f64_sub r RISK_FREE_RATE) <$> expected_returns.

Definition maximize_sharpe_ratio (expected_returns : list f64) (cov : matrix) : option (list f64) :=
  match length expected_returns with
  | 0 => Some []
  | 1 => Some [f64_one]
  | n =>
      if same_returns expected_returns then Some (equal_weights n)
      else sharpe_loop (S n) n cov (excess_of expected_returns) (seq 0 n)
  end.

Inductive BoundState := Free | Lower | Upper.
#[global] Instance BoundState_eq_dec : EqDecision BoundState.
Proof. solve_decision. Defined.

Definition in_state (s : BoundState) (state : list BoundState) : list nat :=
  List.filter (fun i => bool_decide (state !! i = Some s)) (seq 0 (length state)).

(** The factorisation is computed once and used for both right-hand sides. *)
Inductive Factored := Chol (c : Cholesky) | Lu (l : LU).
Definition factor (m : matrix) : Factored :=
  match cholesky m with Some c => Chol c | None => Lu (lu m) end.
Definition solve_factored (f : Factored) (m : matrix) (b : list f64) : option (list f64) :=
  match (match f with Chol c => Some (chol_solve c b) | Lu l => lu_solve l b end) with
  | Some z => Some z
  | None => solve_ridge m b
  end.

(** The row of the covariance times the weights. *)
Definition row_times (cov : matrix) (weights : list f64) (i : nat) : option f64 :=
  terms ← mapM (fun j => c ← mat_get cov i j; w ← weights !! j; Some (f64_mul c w)) (seq 0 (length weights));
  Some (f64_sum terms).

(** The first fixed asset whose gradient asks for its release. *)
Fixpoint release (cov : matrix) (excess weights : list f64) (gamma : f64) (state : list BoundState)
  (idxs : list nat) : option (option nat) :=
  match idxs with
  | [] => Some None
  | i :: idxs =>
      st ← state !! i;
      let grad := e ← excess !! i; s ← row_times cov weights i; Some (f64_sub e (f64_mul gamma s)) in
      match st with
      | Free => release cov excess weights gamma state idxs
      | Lower => g ← grad;
          if f64_ltb (tiny 10) g then Some (Some i) else release cov excess weights gamma state idxs
      | Upper => g ← grad;
          if f64_ltb g (f64_neg (tiny 10)) then Some (Some i)
          else release cov excess weights gamma state idxs
      end
  end.

(** The first free asset whose weight satisfies [p]. *)
Definition first_violation (p : f64 -> bool) (free : list nat) (w_free : list f64) : option nat :=
  fst <$> List.find (fun '(_, w) => p w) (zip free w_free).

(** What the round does when no free weight violates a bound. *)
Definition box_settled (n : nat) (cov : matrix) (excess : list f64) (effective_max gamma : f64)
  (state : list BoundState) (free upper : list nat) (w_free : list f64) : option (round (list BoundState)) :=
  weights ← scatter (replicate n f64_zero) free w_free;
  weights ← fill weights upper effective_max;
  released ← release cov excess weights gamma state (seq 0 n);
  match released with
  | Some i => state ← vec_set state i Free; Some (Continue state)
  | None =>
      if f64_leb (f64_sum weights) f64_zero then Some (Return (equal_weights n))
      else Return <$> clamp_and_normalize (normalize_weights weights) effective_max
  end.

(** The weights of the free assets when the solutions are [p] and [q]. *)
Definition box_move (n : nat) (cov : matrix) (excess : list f64) (effective_max budget_free : f64)
  (state : list BoundState) (free upper : list nat) (p q : list f64) : option (round (list BoundState)) :=
  let sum_p := f64_sum p in
  let sum_q := f64_sum q in
  if f64_ltb (f64_abs sum_p) (tiny 15) then Some (Return (equal_weights n))
  else
    let gamma := f64_div (f64_add budget_free sum_q) sum_p in
    let w_free := zip_with (fun a b => f64_sub (f64_mul gamma a) b) p q in
    match first_violation (fun w => f64_ltb w (f64_neg (tiny 10))) free w_free with
    | Some i => state ← vec_set state i Lower; Some (Continue state)
    | None =>
        match first_violation (fun w => f64_ltb (f64_add effective_max (tiny 10)) w) free w_free with
        | Some i => state ← vec_set state i Upper; Some (Continue state)
        | None => box_settled n cov excess effective_max gamma state free upper w_free
        end
    end.

(** [Σ_FU · w_U]. *)
Definition cov_times_upper (cov : matrix) (effective_max : f64) (free upper : list nat) : option (list f64) :=
  mapM (fun f_idx => cells ← mapM (mat_get cov f_idx) upper;
    Some (foldl (fun sum c => f64_add sum (f64_mul c effective_max)) f64_zero cells)) free.

Definition box_round (n : nat) (cov : matrix) (excess : list f64) (effective_max : f64)
  (state : list BoundState) : option (round (list BoundState)) :=
  let free := in_state Free state in
  let upper := in_state Upper state in
  match free, upper with
  | [], [] => Some (Return (equal_weights n))
  | [], _ => w ← fill (replicate n f64_zero) upper effective_max; Some (Return (normalize_weights w))
  | _, _ =>
      let m := length free in
      let budget_upper := f64_sum (replicate (length upper) effective_max) in
      let budget_free := f64_sub f64_one budget_upper in
      if f64_leb budget_free f64_zero then
        let total := f64_mul (f64_of_nat (length upper)) effective_max in
        w ← fill (replicate n f64_zero) upper (f64_div effective_max total); Some (Return w)
      else
        cov_ff ← submatrix cov free;
        excess_f ← mapM (fun i => excess !! i) free;
        let factored := factor cov_ff in
        match solve_factored factored cov_ff excess_f with
        | None => Some (Return (equal_weights n))
        | Some p =>
            match upper with
            | [] => box_move n cov excess effective_max budget_free state free upper p (replicate m f64_zero)
            | _ =>
                cov_fu_wu ← cov_times_upper cov effective_max free upper;
                match solve_factored factored cov_ff cov_fu_wu with
                | None => Some (Return (equal_weights n))
                | Some q => box_move n cov excess effective_max budget_free state free upper p q
                end
            end
        end
  end.

Fixpoint box_loop (iterations : nat) (n : nat) (cov : matrix) (excess : list f64) (effective_max : f64)
  (state : list BoundState) : option (list f64) :=
  match iterations with
  | O => Some (equal_weights n)
  | S iterations =>
      r ← box_round n cov excess effective_max state;
      match r with
      | Return w => Some w
      | Continue state => box_loop iterations n cov excess effective_max state
      end
  end.

(** The cap on one position, raised when [n] of them could not add up to 1. *)
Definition effective_max_of (n : nat) (max_position : f64) : f64 :=
  if f64_ltb (f64_mul (f64_of_nat n) max_position) f64_one then f64_div f64_one (f64_of_nat n)
  else max_position.

Definition box_maximize_sharpe (expected_returns : list f64) (cov : matrix) (max_position : f64)
  : option (list f64) :=
  match length expected_returns with
  | 0 => Some []
  | 1 => Some [f64_one]
  | n =>
      let effective_max := effective_max_of n max_position in
      if f64_leb f64_one effective_max then maximize_sharpe_ratio expected_returns cov
      else if same_returns expected_returns then Some (equal_weights n)
      else box_loop (3 * n + 10) n cov (excess_of expected_returns) effective_max (replicate n Free)
  end.

(** ** Risk parity *)

(** The adjustment of each weight towards an equal share of the risk. *)
Definition rp_adjust (vol target : f64) (weights marginal : list f64) : list f64 :=
  zip_with (fun w mr =>
    if f64_ltb f64_zero mr then
      let rc := f64_div (f64_mul w mr) vol in
      if f64_ltb f64_zero rc then
        f64_mul w (f64_clamp (f64_div target rc) (f64_literal 5 1) f64_two)
      else w
    else w) weights marginal.

Definition max_change (new old : list f64) : f64 :=
  foldl f64_max f64_zero (zip_with (fun a b => f64_abs (f64_sub a b)) new old).

(** [rescale] is the normalisation of the caller, by the sum of the weights. *)
Fixpoint rp_loop (iterations : nat) (cov : matrix) (rescale : f64 -> f64 -> f64) (weights : list f64)
  : option (list f64) :=
  match iterations with
  | O => Some weights
  | S iterations =>
      v ← variance cov weights;
      if f64_leb v f64_zero then Some weights
      else
        let vol := f64_sqrt v in
        marginal ← mat_vec cov weights;
        let target := f64_div vol (f64_of_nat (length weights)) in
        let adjusted := rp_adjust vol target weights marginal in
        let sum := f64_sum adjusted in
        let scaled := if f64_ltb f64_zero sum then (fun w => rescale sum w) <$> adjusted else adjusted in
        if f64_ltb (max_change scaled weights) RISK_PARITY_CONVERGENCE_TOLERANCE then Some scaled
        else rp_loop iterations cov rescale scaled
  end.

Definition apply_risk_parity (weights : list f64) (cov : matrix) : option (list f64) :=
  match weights with
  | [] => Some []
  | _ => rp_loop MAX_RISK_PARITY_ITERATIONS cov (fun sum w => f64_div w sum) weights
  end.

Definition pinned_at (pinned : list bool) (b : bool) : list nat :=
  List.filter (fun i => bool_decide (pinned !! i = Some b)) (seq 0 (length pinned)).

(** The first pinned asset whose share of the risk exceeds the limit. *)
Fixpoint unpin (current_w mg : list f64) (pvol target_rc : f64) (pinned : list bool) (idxs : list nat)
  : option (option nat) :=
  match idxs with
  | [] => Some None
  | i :: idxs =>
      b ← pinned !! i;
      if (b : bool) then
        w ← current_w !! i; g ← mg !! i;
        if f64_ltb (f64_mul target_rc PINNED_RC_RELEASE_FACTOR) (f64_div (f64_mul w g) pvol)
        then Some (Some i) else unpin current_w mg pvol target_rc pinned idxs
      else unpin current_w mg pvol target_rc pinned idxs
  end.

(** The weights of a round: the free ones as computed, the pinned at the cap. *)
Definition assemble (base : list f64) (free pins : list nat) (w_free : list f64) (effective_max : f64)
  : option (list f64) :=
  w ← scatter base free w_free; fill w pins effective_max.

Definition rp_settled (n : nat) (cov : matrix) (effective_max : f64) (pinned : list bool)
  (free pins : list nat) (w_free : list f64) : option (round (list bool)) :=
  current_w ← assemble (replicate n f64_zero) free pins w_free effective_max;
  pv ← variance cov current_w;
  released ←
    (if f64_ltb f64_zero pv then
       let pvol := f64_sqrt pv in
       mg ← mat_vec cov current_w;
       unpin current_w mg pvol (f64_div pvol (f64_of_nat n)) pinned (seq 0 n)
     else Some None);
  match released with
  | Some i => pinned ← vec_set pinned i false; Some (Continue pinned)
  | None =>
      weights ← assemble (equal_weights n) free pins w_free effective_max;
      Return <$> clamp_and_normalize (normalize_weights weights) effective_max
  end.

Definition rp_round (n : nat) (cov : matrix) (effective_max : f64) (pinned : list bool)
  : option (round (list bool)) :=
  let free := pinned_at pinned false in
  let pins := pinned_at pinned true in
  let pinned_count := n - length free in
  let s := f64_mul (f64_of_nat pinned_count) effective_max in
  match free with
  | [] => Some (Return (replicate n (f64_div effective_max s)))
  | _ =>
      let budget_free := f64_sub f64_one s in
      if f64_leb budget_free f64_zero then
        w ← fill (replicate n f64_zero) pins (f64_div effective_max s); Some (Return w)
      else
        let m := length free in
        cov_sub ← submatrix cov free;
        w_free ← rp_loop MAX_RISK_PARITY_ITERATIONS cov_sub (fun sum w => f64_mul w (f64_div budget_free sum))
                   (replicate m (f64_div budget_free (f64_of_nat m)));
        let over := fst <$> List.filter (fun '(_, w) => f64_ltb (f64_add effective_max (tiny 10)) w) (zip free w_free) in
        match over with
        | [] => rp_settled n cov effective_max pinned free pins w_free
        | _ => pinned ← fill pinned over true; Some (Continue pinned)
        end
  end.

Fixpoint box_rp_loop (iterations : nat) (n : nat) (cov : matrix) (effective_max : f64) (pinned : list bool)
  : option (list f64) :=
  match iterations with
  | O => Some (equal_weights n)
  | S iterations =>
      r ← rp_round n cov effective_max pinned;
      match r with
      | Return w => Some w
      | Continue pinned => box_rp_loop iterations n cov effective_max pinned
      end
  end.

Definition box_risk_parity (cov : matrix) (max_position : f64) : option (list f64) :=
  match length cov with
  | 0 => Some []
  | 1 => Some [f64_one]
  | n =>
      let effective_max := effective_max_of n max_position in
      if f64_leb f64_one effective_max then apply_risk_parity (equal_weights n) cov
      else box_rp_loop (2 * n) n cov effective_max (replicate n false)
  end.

(** ** Subsets *)

Definition extract_sub_portfolio (expected_returns : list f64) (cov : matrix) (indices : list nat)
  : option (list f64 * matrix) :=
  sub_returns ← mapM (fun i => expected_returns !! i) indices;
  sub_cov ← submatrix cov indices;
  Some (sub_returns, sub_cov).

(** [alphas.get(i).expect(..)] for each pair of weights. *)
Fixpoint blend (alphas : list f64) (subset_indices : list nat) (w_sharpe w_rp : list f64) : option (list f64) :=
  match w_sharpe, w_rp with
  | ws :: w_sharpe, wr :: w_rp =>
      match subset_indices with
      | [] => None
      | idx :: subset_indices =>
          a ← alphas !! idx;
          rest ← blend alphas subset_indices w_sharpe w_rp;
          Some (f64_add (f64_mul a ws) (f64_mul (f64_sub f64_one a) wr) :: rest)
      end
  | _, _ => Some []
  end.

Definition blend_and_expand (sub_returns : list f64) (sub_cov : matrix) (max_position : f64)
  (alphas : list f64) (subset_indices : list nat) (n_total : nat) : option (list f64) :=
  if negb (forallb (fun idx => idx <? length alphas) subset_indices) then None
  else if negb (forallb (fun idx => idx <? n_total) subset_indices) then None
  else
    w_sharpe ← box_maximize_sharpe sub_returns sub_cov max_position;
    w_rp ← box_risk_parity sub_cov max_position;
    blended ← blend alphas subset_indices w_sharpe w_rp;
    scatter (replicate n_total f64_zero) subset_indices (normalize_weights blended).

Record SubsetOptParams := mkSubsetOptParams {
  sp_expected_returns : list f64;
  sp_covariance_matrix : matrix;
  sp_max_position : f64;
  sp_alphas : list f64;
}.

Definition cached_blend_and_expand (cache : Cache) (params : SubsetOptParams) (subset_indices : list nat)
  (n_total : nat) : option (list f64 * Cache) :=
  match cache !! subset_indices with
  | Some cached => Some (cached, cache)
  | None =>
      '(sub_ret, sub_cov) ← extract_sub_portfolio (sp_expected_returns params) (sp_covariance_matrix params) subset_indices;
      weights ← blend_and_expand sub_ret sub_cov (sp_max_position params) (sp_alphas params) subset_indices n_total;
      Some (weights, <[subset_indices := weights]> cache)
  end.

Definition risk_parity_divergence (weights : list f64) (cov : matrix) : option f64 :=
  match weights with
  | [] => Some f64_zero
  | _ =>
      let n := length weights in
      port_var ← variance cov weights;
      if f64_leb port_var f64_zero then Some f64_zero
      else
        let port_vol := f64_sqrt port_var in
        marginal ← mat_vec cov weights;
        let target_rc := f64_div port_vol (f64_of_nat n) in
        let sum_sq := foldl f64_add f64_zero
          (zip_with (fun w g => f64_sq (f64_sub (f64_div (f64_mul w g) port_vol) target_rc)) weights marginal) in
        Some (f64_div sum_sq (f64_of_nat n))
  end.

(** The lengths are a debug assertion. *)
Definition adjust_returns_for_liquidity (expected_returns liquidity_scores : list f64) : option (list f64) :=
  if length expected_returns =? length liquidity_scores then
    Some (zip_with (fun r liq =>
      f64_sub r (f64_mul LIQUIDITY_PENALTY_LAMBDA (f64_sub f64_one (f64_clamp liq f64_zero f64_one))))
      expected_returns liquidity_scores)
  else None.

(** Tokens below the least size leave, and the rest are optimised again. *)
Fixpoint filter_loop (iterations : nat) (params : SubsetOptParams) (min_position_size : f64)
  (weights : list f64) (current_indices : list nat) (cache : Cache) : option (list f64 * list nat * Cache) :=
  match iterations with
  | O => Some (weights, current_indices, cache)
  | S iterations =>
      ws ← mapM (fun i => weights !! i) current_indices;
      let survivors := fst <$> List.filter (fun '(_, w) => f64_leb min_position_size w) (zip current_indices ws) in
      if (length survivors =? length current_indices) || (length survivors =? 0)
      then Some (weights, current_indices, cache)
      else
        '(weights, cache) ← cached_blend_and_expand cache params survivors (length (sp_expected_returns params));
        filter_loop iterations params min_position_size weights survivors cache
  end.

Definition filter_and_reoptimize (weights : list f64) (current_indices : list nat) (params : SubsetOptParams)
  (min_position_size : f64) (cache : Cache) : option (list f64 * list nat * Cache) :=
  filter_loop (length current_indices) params min_position_size weights current_indices cache.

(** The score of a candidate; [None] of the inner option when no weight is positive. *)
Definition score_of (expected_returns : list f64) (cov : matrix) (alphas weights : list f64)
  : option (option f64) :=
  let active := List.filter (fun '(_, w) => f64_ltb f64_zero w) (imap pair weights) in
  let active_w := snd <$> active in
  let active_idx := fst <$> active in
  match active with
  | [] => Some None
  | _ =>
      '(ar, ac) ← extract_sub_portfolio expected_returns cov active_idx;
      let port_ret := calculate_portfolio_return active_w ar in
      port_std ← calculate_portfolio_std active_w ac;
      let sharpe := if f64_ltb f64_zero port_std
        then f64_div (f64_sub port_ret RISK_FREE_RATE) port_std else f64_zero in
      rp_div ← risk_parity_divergence active_w ac;
      let rp_div_normalized := if f64_ltb f64_zero port_std
        then f64_div rp_div (f64_mul port_std port_std) else f64_zero in
      alphas ← mapM (fun idx => alphas !! idx) active_idx;
      let effective_alpha := f64_div (f64_sum alphas) (f64_of_nat (length active_idx)) in
      Some (Some (f64_sub (f64_mul effective_alpha sharpe)
                    (f64_mul (f64_sub f64_one effective_alpha) rp_div_normalized)))
  end.

(** One subset: its optimum, refined, replaces the best one if it scores more. *)
Definition try_subset (params : SubsetOptParams) (min_position_size : f64) (subset_indices : list nat)
  (best : f64 * list f64) (cache : Cache) : option (f64 * list f64 * Cache) :=
  '(blended, cache) ← cached_blend_and_expand cache params subset_indices (length (sp_expected_returns params));
  '(effective_blended, _, cache) ← filter_and_reoptimize blended subset_indices params min_position_size cache;
  sc ← score_of (sp_expected_returns params) (sp_covariance_matrix params) (sp_alphas params) effective_blended;
  match sc with
  | None => Some (best, cache)
  | Some score => Some (if f64_ltb best.1 score then (score, effective_blended) else best, cache)
  end.

Fixpoint try_subsets (params : SubsetOptParams) (min_position_size : f64) (active_indices : list nat)
  (combos : list (list nat)) (best : f64 * list f64) (cache : Cache) : option (f64 * list f64) :=
  match combos with
  | [] => Some best
  | combo :: combos =>
      subset_indices ← mapM (fun ci => active_indices !! ci) combo;
      '(best, cache) ← try_subset params min_position_size subset_indices best cache;
      try_subsets params min_position_size active_indices combos best cache
  end.

Definition exhaustive_optimize (active_indices : list nat) (expected_returns : list f64) (cov : matrix)
  (max_position : f64) (max_holdings : nat) (min_position_size : f64) (alphas : list f64) : option (list f64) :=
  let n_total := length expected_returns in
  let n_active := length active_indices in
  if n_active =? 0 then Some (replicate n_total f64_zero)
  else
    let params := mkSubsetOptParams expected_returns cov max_position alphas in
    if n_active <=? max_holdings then
      '(weights, cache) ← cached_blend_and_expand ∅ params active_indices n_total;
      '(weights, _, _) ← filter_and_reoptimize weights active_indices params min_position_size cache;
      Some weights
    else
      combos ← combinations n_active max_holdings;
      '(_, best_weights) ← try_subsets params min_position_size active_indices combos
        (f64_neg_infinity, replicate n_total f64_zero) ∅;
      if forallb (fun w => f64_eqb w f64_zero) best_weights then
        let k := max_holdings `min` n_active in
        first ← mapM (fun i => active_indices !! i) (seq 0 k);
        fill best_weights first (f64_div f64_one (f64_of_nat k))
      else Some best_weights.

(** ** The three phases *)

(** [sort_by(|a, b| b.1.partial_cmp(&a.1).unwrap_or(Equal))]: descending and
    stable when all weights compare. *)
Definition rank_desc (l : list (nat * f64)) : option (list (nat * f64)) :=
  if existsb (fun p => f64_is_nan p.2) l then sort_incomparable l
  else Some (sort_by (fun a b => f64_leb b.2 a.2) l).

Definition unified_optimize (expected_returns : list f64) (cov : matrix) (liquidity_scores : list f64)
  (max_position : f64) (max_holdings : nat) (min_position_size : f64) (alphas : list f64) : option (list f64) :=
  match length expected_returns with
  | 0 => Some []
  | 1 => Some [f64_one]
  | n =>
      adj_returns ← adjust_returns_for_liquidity expected_returns liquidity_scores;
      w_sharpe ← box_maximize_sharpe adj_returns cov max_position;
      w_rp ← box_risk_parity cov max_position;
      let keep := PRUNE_KEEP_PER `min` n in
      sharpe_ranked ← rank_desc (imap pair w_sharpe);
      rp_ranked ← rank_desc (imap pair w_rp);
      (* a [BTreeSet]: increasing, without repetitions *)
      let active_set := sort_by Nat.leb
        (remove_dups (fst <$> (take keep sharpe_ranked ++ take keep rp_ranked))) in
      let active_indices := match active_set with [] => seq 0 n | _ => active_set end in
      active_indices ←
        (if (MAX_PHASE3_CANDIDATES <? length active_indices) && (max_holdings <? length active_indices) then
           scored ← mapM (fun i => a ← alphas !! i; ws ← w_sharpe !! i; wr ← w_rp !! i;
             Some (i, f64_add (f64_mul a ws) (f64_mul (f64_sub f64_one a) wr))) active_indices;
           scored ← rank_desc scored;
           Some (sort_by Nat.leb (fst <$> take MAX_PHASE3_CANDIDATES scored))
         else Some active_indices);
      weights ← exhaustive_optimize active_indices adj_returns cov max_position max_holdings min_position_size alphas;
      Some (normalize_weights weights)
  end.

End numerics.

(** ** Risk limits from the volatility of the market *)

Definition calculate_market_volatility (daily_returns : list (list f64)) : f64 :=
  match daily_returns with
  | [] => f64_zero
  | _ =>
      f64_div (f64_sum ((fun returns =>
        if length returns <? 2 then f64_zero
        else
          let m := mean returns in
          f64_sqrt (f64_div (f64_sum ((fun r => f64_sq (f64_sub r m)) <$> returns))
                      (f64_of_nat (length returns - 1)))) <$> daily_returns))
        (f64_of_nat (length daily_returns))
  end.

Definition volatility_ratio (avg_volatility : f64) : f64 :=
  f64_clamp (f64_div (f64_sub avg_volatility LOW_VOLATILITY_THRESHOLD)
    (f64_sub HIGH_VOLATILITY_THRESHOLD LOW_VOLATILITY_THRESHOLD)) f64_zero f64_one.

Definition volatility_blend_alpha (avg_volatility : f64) : f64 :=
  f64_sub (f64_literal 9 1)
    (f64_mul (volatility_ratio avg_volatility) (f64_sub (f64_literal 9 1) (f64_literal 7 1))).

Definition dynamic_max_position (avg_volatility : f64) : f64 :=
  f64_mul MAX_POSITION_SIZE
    (f64_sub f64_one (f64_mul (f64_literal 3 1) (volatility_ratio avg_volatility))).

(** The share of the Sharpe weights in the blend of one token. *)
Definition token_alpha (alpha_vol : f64) (confidence : option f64) : f64 :=
  match confidence with
  | Some c =>
      f64_clamp (f64_add PREDICTION_ALPHA_FLOOR (f64_mul (f64_sub alpha_vol PREDICTION_ALPHA_FLOOR) c))
        PREDICTION_ALPHA_FLOOR (f64_literal 9 1)
  | None => f64_max (f64_mul alpha_vol (f64_literal 5 1)) PREDICTION_ALPHA_FLOOR
  end.

(** The replaced weights, and whether any was replaced. *)
Definition validate_weights (weights : list f64) : list f64 * bool :=
  let valid w := f64_is_finite w && f64_leb f64_zero w in
  ((fun w => if valid w then w else f64_zero) <$> weights, existsb (fun w => negb (valid w)) weights).

Definition needs_rebalancing (current_weights target_weights : list f64) (rebalance_threshold : f64) : bool :=
  if negb (length current_weights =? length target_weights) then true
  else existsb (fun '(c, t) => f64_ltb rebalance_threshold (f64_abs (f64_sub c t)))
         (zip current_weights target_weights).

Definition calculate_turnover_rate (old_weights new_weights : list f64) : f64 :=
  if negb (length old_weights =? length new_weights) then f64_one
  else f64_div (f64_sum (zip_with (fun o w => f64_abs (f64_sub o w)) old_weights new_weights)) f64_two.

Definition calculate_sortino_ratio (returns : list f64) (risk_free_rate : f64) : f64 :=
  match returns with
  | [] => f64_zero
  | _ =>
      let excess_return := f64_sub (mean returns) risk_free_rate in
      let downside_variance := f64_div
        (f64_sum ((fun r => f64_sq (f64_min (f64_sub r risk_free_rate) f64_zero)) <$> returns))
        (f64_of_nat (length returns)) in
      let downside_deviation := f64_sqrt downside_variance in
      if f64_eqb downside_deviation f64_zero then f64_zero else f64_div excess_return downside_deviation
  end.

Definition calculate_max_drawdown (cumulative_returns : list f64) : f64 :=
  match cumulative_returns with
  | [] => f64_zero
  | first :: rest =>
      snd (foldl (fun '(peak, max_drawdown) value =>
        let peak := if f64_ltb peak value then value else peak in
        if f64_ltb f64_zero peak then
          let drawdown := f64_div (f64_sub peak value) peak in
          (peak, if f64_ltb max_drawdown drawdown then drawdown else max_drawdown)
        else (peak, max_drawdown)) (first, f64_zero) rest)
  end.

(** ** Data of the tokens, and the report *)

(** [BigDecimal::from_f64], and [with_scale_round(10, HalfUp)]. *)
Class FromF64 (D : Type) := {
  bd_from_f64 : f64 -> option D;
  bd_round_half_up : D -> N -> D;
}.

Section types.
Context (D : Type).

Record PricePoint := mkPricePoint {
  pp_timestamp : Z;
  pp_price : TokenPrice D;
  pp_volume : option D;
}.
Record PriceHistory := mkPriceHistory {
  hist_token : TokenAccount;
  hist_quote_token : TokenAccount;
  hist_prices : list PricePoint;
}.
Record TokenData := mkTokenData {
  td_symbol : TokenAccount;
  td_current_rate : ExchangeRate D;
  td_historical_volatility : f64;
  td_liquidity_score : option f64;
  td_market_cap : option (NearValue D);
}.
Record WalletInfo := mkWalletInfo {
  wl_holdings : gmap TokenAccount (TokenAmount D);
  wl_total_value : NearValue D;
  wl_cash_balance : NearValue D;
}.
Record PortfolioData := mkPortfolioData {
  pd_tokens : list TokenData;
  pd_predictions : gmap TokenAccount (TokenPrice D);
  pd_historical_prices : gmap TokenAccount PriceHistory;
  pd_prediction_confidences : gmap TokenAccount f64;
}.
Record PortfolioWeights := mkPortfolioWeights {
  pw_weights : gmap TokenAccount D;
  pw_timestamp : Z;
  pw_expected_return : f64;
  pw_expected_volatility : f64;
  pw_sharpe_ratio : f64;
}.
Record PortfolioMetrics := mkPortfolioMetrics {
  pm_sortino_ratio : f64;
  pm_max_drawdown : f64;
  pm_calmar_ratio : f64;
  pm_turnover_rate : f64;
}.
Record PortfolioExecutionReport := mkPortfolioExecutionReport {
  rp_actions : list (TradingAction D);
  rp_optimal_weights : PortfolioWeights;
  rp_rebalance_needed : bool;
  rp_expected_metrics : PortfolioMetrics;
  rp_timestamp : Z;
}.
End types.
Arguments mkPricePoint {D}.
Arguments mkPriceHistory {D}.
Arguments mkTokenData {D}.
Arguments mkWalletInfo {D}.
Arguments mkPortfolioData {D}.
Arguments mkPortfolioWeights {D}.
Arguments mkPortfolioExecutionReport {D}.
Arguments pp_timestamp {D}.
Arguments pp_price {D}.
Arguments pp_volume {D}.
Arguments hist_token {D}.
Arguments hist_quote_token {D}.
Arguments hist_prices {D}.
Arguments td_symbol {D}.
Arguments td_current_rate {D}.
Arguments td_historical_volatility {D}.
Arguments td_liquidity_score {D}.
Arguments td_market_cap {D}.
Arguments wl_holdings {D}.
Arguments wl_total_value {D}.
Arguments wl_cash_balance {D}.
Arguments pd_tokens {D}.
Arguments pd_predictions {D}.
Arguments pd_historical_prices {D}.
Arguments pd_prediction_confidences {D}.
Arguments pw_weights {D}.
Arguments pw_timestamp {D}.
Arguments pw_expected_return {D}.
Arguments pw_expected_volatility {D}.
Arguments pw_sharpe_ratio {D}.
Arguments rp_actions {D}.
Arguments rp_optimal_weights {D}.
Arguments rp_rebalance_needed {D}.
Arguments rp_expected_metrics {D}.
Arguments rp_timestamp {D}.

Section report.
Context `{Numerics} {D : Type} `{BigDecimal D} `{FromF64 D}.

(** [collect] into a [BTreeMap]: a later entry replaces an earlier one. *)
Definition collect_map {V} (l : list (string * V)) : gmap string V :=
  foldl (fun m '(k, v) => <[k := v]> m) ∅ l.

Definition weight_from_f64 (value : f64) : D :=
  bd_round_half_up (default bd_zero (bd_from_f64 value)) 10.

(** A conversion that is not finite fails a debug assertion. *)
Definition bigdecimal_to_f64_safe (value : D) : option f64 :=
  match bd_to_f64 value with
  | Some f => if f64_is_finite f then Some f else None
  | None => None
  end.

Definition expected_return (current predicted : TokenPrice D) : option f64 :=
  cur ← bigdecimal_to_f64_safe (price_bd current);
  pred ← bigdecimal_to_f64_safe (price_bd predicted);
  Some (if f64_eqb cur f64_zero then f64_zero else f64_div (f64_sub pred cur) cur).

Definition calculate_expected_returns (tokens : list (TokenData D)) (predictions : gmap TokenAccount (TokenPrice D))
  : option (list f64) :=
  mapM (fun token =>
    match predictions !! td_symbol token with
    | Some predicted_price =>
        let current_price := to_price (td_current_rate token) in
        if price_is_zero current_price || price_is_zero predicted_price then Some f64_zero
        else expected_return current_price predicted_price
    | None => Some f64_zero
    end) tokens.

(** The returns between consecutive prices, oldest first. *)
Fixpoint returns_between (prev : f64) (prices : list f64) : list f64 :=
  match prices with
  | [] => []
  | cur :: prices =>
      if f64_ltb f64_zero prev then f64_div (f64_sub cur prev) prev :: returns_between cur prices
      else returns_between cur prices
  end.

Definition calculate_returns_from_prices (prices : list (PricePoint D)) : list f64 :=
  if length prices <? 2 then []
  else
    let sorted := sort_by (fun a b => (pp_timestamp a <=? pp_timestamp b)%Z) prices in
    match (fun p => default f64_zero (bd_to_f64 (price_bd (pp_price p)))) <$> sorted with
    | [] => []
    | first :: rest => returns_between first rest
    end.

(** Only the first history of a token is used. *)
Fixpoint first_histories (seen : gset string) (l : list (PriceHistory D)) : list (PriceHistory D) :=
  match l with
  | [] => []
  | p :: l =>
      if decide (hist_token p ∈ seen) then first_histories seen l
      else p :: first_histories ({[hist_token p]} ∪ seen) l
  end.

Definition calculate_daily_returns (historical_prices : list (PriceHistory D)) : list (list f64) :=
  (fun p => calculate_returns_from_prices (hist_prices p)) <$> first_histories ∅ historical_prices.

Definition min_market_cap : NearValue D := from_near (bd_of_Z 10000).

Definition passes_hard_filter (t : TokenData D) : bool :=
  f64_leb MIN_LIQUIDITY_SCORE (default f64_zero (td_liquidity_score t)) &&
  match td_market_cap t with
  | Some cap => bd_leb (near_value_bd min_market_cap) (near_value_bd cap)
  | None => true
  end.

Definition hard_filter_tokens (tokens : list (TokenData D)) : list (TokenData D) :=
  List.filter passes_hard_filter tokens.

(** The share of each token in the wallet; the division by a rate asserts that
    the decimals agree. *)
Definition calculate_current_weights (tokens : list (TokenData D)) (wallet : WalletInfo D) : option (list f64) :=
  mapM (fun token =>
    match wl_holdings wallet !! td_symbol token with
    | None => Some f64_zero
    | Some holding =>
        match amount_div_rate (E:=anyhow) holding (td_current_rate token) with
        | Ok value_near =>
            if near_value_is_zero (wl_total_value wallet) then Some f64_zero
            else Some (default f64_zero (bd_to_f64 (near_value_ratio value_near (wl_total_value wallet))))
        | _ => None
        end
    end) tokens.

(** The positive weights under the symbols of their tokens. *)
Definition weight_map (tokens : list (TokenData D)) (weights : list f64) : gmap TokenAccount D :=
  collect_map ((fun '(t, w) => (td_symbol t, weight_from_f64 w)) <$>
    List.filter (fun '(_, w) => f64_ltb f64_zero w) (zip tokens weights)).

(** [target_weights[i]] is read for every token. *)
Definition generate_rebalance_actions (tokens : list (TokenData D)) (target_weights : list f64)
  : option (list (TradingAction D)) :=
  if length target_weights <? length tokens then None
  else
    let target_map := weight_map tokens target_weights in
    Some (if decide (target_map = ∅) then [] else [Rebalance target_map]).

(** The day-by-day return of the portfolio over the days all series have. *)
Definition portfolio_daily_returns (daily_returns : list (list f64)) (weights : list f64) : list f64 :=
  let min_return_len := min_length daily_returns in
  if (0 <? min_return_len) && negb (length weights =? 0) then
    (fun day => f64_sum (zip_with (fun w returns => f64_mul w (tail_of min_return_len returns !!! day))
                           weights daily_returns)) <$> seq 0 min_return_len
  else [].

Fixpoint cumulate (last : f64) (returns : list f64) : list f64 :=
  match returns with
  | [] => []
  | r :: returns => let v := f64_mul last (f64_add f64_one r) in v :: cumulate v returns
  end.

Definition hold_report (now : Z) : PortfolioExecutionReport D :=
  mkPortfolioExecutionReport [Hold] (mkPortfolioWeights ∅ now f64_zero f64_zero f64_zero) false
    (mkPortfolioMetrics f64_zero f64_zero f64_zero f64_zero) now.

(** The metrics of past returns under the new weights. *)
Definition metrics_of (daily_returns : list (list f64)) (current_weights optimal_weights : list f64)
  : PortfolioMetrics :=
  let returns := portfolio_daily_returns daily_returns optimal_weights in
  let max_drawdown := calculate_max_drawdown (f64_one :: cumulate f64_one returns) in
  let backtest_mean_return := match returns with [] => f64_zero | _ => mean returns end in
  mkPortfolioMetrics (calculate_sortino_ratio returns RISK_FREE_RATE) max_drawdown
    (if f64_ltb f64_zero max_drawdown then f64_div backtest_mean_return max_drawdown else f64_zero)
    (calculate_turnover_rate current_weights optimal_weights).

(** The tokens that pass the filter and have a history. *)
Definition selected_of (data : PortfolioData D) : list (TokenData D) :=
  List.filter (fun t => bool_decide (is_Some (pd_historical_prices data !! td_symbol t)))
    (hard_filter_tokens (pd_tokens data)).

(** What is computed of the selected tokens: returns, series, covariance,
    limits, and the weights. *)
Definition optimize_selected (data : PortfolioData D)
  : option (list f64 * list (list f64) * matrix * list f64) :=
  let selected_tokens := selected_of data in
  let selected_predictions :=
    filter (fun '(symbol, _) => Exists (fun t => td_symbol t = symbol) selected_tokens) (pd_predictions data) in
  expected_returns ← calculate_expected_returns selected_tokens selected_predictions;
  let selected_price_histories := omap (fun t => pd_historical_prices data !! td_symbol t) selected_tokens in
  let daily_returns := calculate_daily_returns selected_price_histories in
  covariance ← calculate_covariance_matrix daily_returns;
  let avg_volatility := calculate_market_volatility daily_returns in
  let max_position := dynamic_max_position avg_volatility in
  let alpha_vol := volatility_blend_alpha avg_volatility in
  let alphas := (fun t => token_alpha alpha_vol (pd_prediction_confidences data !! td_symbol t)) <$> selected_tokens in
  let liquidity_scores := (fun t => default f64_zero (td_liquidity_score t)) <$> selected_tokens in
  optimal_weights ← unified_optimize expected_returns covariance liquidity_scores max_position
    MAX_HOLDINGS MIN_POSITION_SIZE alphas;
  Some (expected_returns, daily_returns, covariance, optimal_weights).

(** The report for the selected tokens. *)
Definition report_selected (now : Z) (wallet : WalletInfo D) (data : PortfolioData D) (rebalance_threshold : f64)
  : option (PortfolioExecutionReport D) :=
  let selected_tokens := selected_of data in
  '(expected_returns, daily_returns, covariance, optimal_weights) ← optimize_selected data;
  current_weights ← calculate_current_weights selected_tokens wallet;
  let rebalance_needed := needs_rebalancing current_weights optimal_weights rebalance_threshold in
  actions ← (if rebalance_needed then generate_rebalance_actions selected_tokens optimal_weights else Some [Hold]);
  let portfolio_return := calculate_portfolio_return optimal_weights expected_returns in
  portfolio_vol ← calculate_portfolio_std optimal_weights covariance;
  let sharpe_ratio := if f64_ltb f64_zero portfolio_vol
    then f64_div (f64_sub portfolio_return RISK_FREE_RATE) portfolio_vol else f64_zero in
  Some (mkPortfolioExecutionReport actions
    (mkPortfolioWeights (weight_map selected_tokens optimal_weights) now portfolio_return portfolio_vol sharpe_ratio)
    rebalance_needed (metrics_of daily_returns current_weights optimal_weights) now).

(** [now] stands for the reads of the clock. *)
Definition execute_portfolio_optimization (now : Z) (wallet : WalletInfo D) (data : PortfolioData D)
  (rebalance_threshold : f64) : outcome anyhow (PortfolioExecutionReport D) :=
  match hard_filter_tokens (pd_tokens data) with
  | [] => Ok (hold_report now)
  | _ => expect (report_selected now wallet data rebalance_threshold)
  end.
End report.
