(* ===== verification/OptimizerFacts.v ===== *)
(** * OptimizerFacts: what the optimiser guarantees

    Theorems about [Optimizer], for every behaviour of the matrix libraries
    that respects the shapes: no panic, as many weights as tokens, none below
    zero, at most [max_holdings] of them other than zero; the search over the
    subsets equals its definition without a cache; the report. *)

From Stdlib Require Import ZArith SpecFloat.
From S2P Require Import Prelude F64 Vectors Combinations BigDecimal Units Execution Optimizer.
Local Open Scope nat_scope.

(** A vector of [n] weights, none below zero. *)
Definition weights_ok (n : nat) (w : list f64) : Prop := length w = n /\ Forall nn w.
(** A computation that returns such a vector. *)
Definition good (n : nat) (o : option (list f64)) : Prop := exists w, o = Some w /\ weights_ok n w.

Lemma good_Some n w : weights_ok n w -> good n (Some w).
Proof. unfold good. eauto. Qed.

Lemma equal_weights_ok n : weights_ok n (equal_weights n).
Proof.
  split; [apply length_replicate|]. apply list.Forall_replicate. apply ps_nn, ps_div; [done|apply ps_of_nat].
Qed.

Lemma zeros_ok n : weights_ok n (replicate n f64_zero).
Proof. split; [apply length_replicate|by apply list.Forall_replicate]. Qed.

Lemma good_equal n : good n (Some (equal_weights n)).
Proof. apply good_Some, equal_weights_ok. Qed.
#[export] Hint Resolve good_Some equal_weights_ok zeros_ok good_equal : f64.

Lemma length_normalize w : length (normalize_weights w) = length w.
Proof. unfold normalize_weights. destruct (f64_ltb _ _); [apply length_fmap|done]. Qed.

Lemma normalize_ok n w : weights_ok n w -> weights_ok n (normalize_weights w).
Proof.
  intros [Hl Hw]. split; [by rewrite length_normalize|]. unfold normalize_weights.
  destruct (f64_ltb f64_zero (f64_sum w)) eqn:Es; [|done].
  apply Forall_fmap. eapply List.Forall_impl; [|exact Hw]. cbn. eauto with f64.
Qed.

Lemma clamp_and_normalize_good w hi : f64_leb f64_zero hi = true -> good (length w) (clamp_and_normalize w hi).
Proof.
  intros Hhi. unfold clamp_and_normalize, clamp_checked. rewrite Hhi.
  rewrite mapM_pure. cbn. apply good_Some. rewrite <- (length_fmap (fun x => f64_clamp x f64_zero hi) w).
  apply normalize_ok. split; [done|]. apply Forall_fmap, List.Forall_forall. intros x _.
  apply nn_clamp. by apply nn_nonneg.
Qed.

Lemma scatter_ok n w idxs vals : weights_ok n w -> below n idxs -> length idxs <= length vals -> Forall nn vals ->
  good n (scatter w idxs vals).
Proof.
  intros [Hl Hw] Hi Hv Hn. destruct (scatter_Some w idxs vals) as [w' E]; [by rewrite Hl|done|].
  exists w'. split; [done|]. split; [by rewrite (scatter_length _ _ _ _ E)|exact (scatter_Forall nn _ _ _ _ Hw Hn E)].
Qed.

Lemma fill_ok n w idxs v : weights_ok n w -> below n idxs -> nn v -> good n (fill w idxs v).
Proof.
  intros Hw Hi Hv. apply scatter_ok; [done|done|by rewrite length_replicate|by apply list.Forall_replicate].
Qed.

Section shapes.
Context `{NumericsLaws}.

Lemma square_rows n m v : square n m -> length v = n -> mat_vec m v = Some (nd_mat_vec m v).
Proof.
  intros [Hl Hf] Hv. unfold mat_vec. rewrite Hl, Hv, Nat.eqb_refl. cbn [andb].
  rewrite (proj2 (List.forallb_forall _ m)); [done|]. intros r Hr. apply Nat.eqb_eq.
  rewrite List.Forall_forall in Hf. by apply Hf.
Qed.

Lemma variance_Some n m v : square n m -> length v = n -> exists x, variance m v = Some x.
Proof.
  intros Hm Hv. unfold variance. rewrite (square_rows n) by done. cbn. unfold dot.
  rewrite mat_vec_length, Hv. destruct Hm as [-> _]. rewrite Nat.eqb_refl. eauto.
Qed.

Lemma ridge_square n m : square n m -> square n (ridge m).
Proof.
  intros [Hl Hf]. unfold ridge. split; [by rewrite length_imap|].
  apply Forall_lookup. intros i r Hr. rewrite list_lookup_imap in Hr.
  destruct (m !! i) as [r0|] eqn:E; [|done]. injection Hr as <-. rewrite length_alter.
  rewrite Forall_lookup in Hf. by eapply Hf.
Qed.

Lemma solve_ridge_length m b z : square (length b) m -> solve_ridge m b = Some z -> length z = length b.
Proof.
  unfold solve_ridge. intros Hm. destruct (cholesky (ridge m)) as [c|] eqn:E; [|done]. intros [= <-].
  eapply chol_solve_length; [|exact E]. by apply ridge_square.
Qed.

Lemma solve_factored_length m b z : square (length b) m -> solve_factored (factor m) m b = Some z ->
  length z = length b.
Proof.
  intros Hm. unfold solve_factored, factor. destruct (cholesky m) as [c|] eqn:E.
  - intros [= <-]. by eapply chol_solve_length.
  - destruct (lu_solve (lu m) b) as [z'|] eqn:El; [intros [= <-]; by eapply lu_solve_length|].
    by apply solve_ridge_length.
Qed.

Lemma solve_spd_length m b z : square (length b) m -> solve_spd m b = Some z -> length z = length b.
Proof.
  intros Hm Hz. apply (solve_factored_length m b z Hm). unfold solve_spd, solve_factored, factor in *.
  destruct (cholesky m) as [c|]; [done|]. by destruct (lu_solve (lu m) b).
Qed.

(** ** The active-set loop of [maximize_sharpe_ratio] *)

(** Either a NaN was seen, or a minimum that is not negative means that
    nothing is. *)
Definition min_inv (best : nat * f64) (seen : list (nat * f64)) : Prop :=
  best ∈ seen /\ ((exists i, (i, S754_nan) ∈ seen) \/ (nn best.2 -> Forall (fun e => nn e.2) seen)).

Lemma partial_cmp_sign x y c : f64_partial_cmp x y = Some c ->
  match c with Gt => nn y -> nn x | _ => nn x -> nn y end.
Proof.
  destruct x as [[]|[]| |[]], y as [[]|[]| |[]]; cbn; intros [= <-]; try done;
    by repeat match goal with |- context [match ?X with _ => _ end] => destruct X end.
Qed.

Lemma partial_cmp_None x y : f64_partial_cmp x y = None -> x = S754_nan \/ y = S754_nan.
Proof.
  destruct x as [[]|[]| |[]], y as [[]|[]| |[]]; cbn; intros E; try done; auto.
Qed.

Lemma min_fold l best seen : min_inv best seen ->
  min_inv (foldl (fun best e => match f64_partial_cmp best.2 e.2 with Some Gt => e | _ => best end) best l)
    (seen ++ l).
Proof.
  revert best seen. induction l as [|e l IH]; intros best seen Hi; [by rewrite app_nil_r|].
  cbn [foldl]. replace (seen ++ e :: l) with ((seen ++ [e]) ++ l) by (by rewrite <- app_assoc).
  apply IH. clear IH l. destruct Hi as [Hb Hi].
  assert (Hb' : best ∈ seen ++ [e]) by set_solver.
  assert (He : e ∈ seen ++ [e]) by set_solver.
  destruct Hi as [[i Hi]|Hi].
  { split; [by destruct (f64_partial_cmp _ _) as [[]|]|]. left. exists i. set_solver. }
  destruct (f64_partial_cmp best.2 e.2) as [c|] eqn:Ec.
  - pose proof (partial_cmp_sign _ _ _ Ec) as Hs.
    split; [by destruct c|]. right. rewrite Forall_app, Forall_singleton. destruct c; intros; split; auto.
  - split; [done|]. left. destruct best as [ib xb], e as [ie xe]. cbn in Ec.
    apply partial_cmp_None in Ec as [-> | ->]; eauto.
Qed.

Lemma snd_imap_pair (f : nat -> nat) (l : list f64) : snd <$> imap (fun i x => (f i, x)) l = l.
Proof. revert f. induction l as [|x l IH]; intros f; [done|]. cbn. f_equal. apply (IH (f ∘ S)). Qed.

Lemma min_entry_spec z : match min_entry z with
  | Some (idx, val) => idx < length z /\ (S754_nan ∈ z \/ (nn val -> Forall nn z))
  | None => z = []
  end.
Proof.
  unfold min_entry. destruct z as [|x z]; [done|]. cbn [imap].
  pose proof (min_fold (imap (pair ∘ S) z) (0, x) [(0, x)]) as Hm.
  destruct (foldl _ (0, x) _) as [idx val]. destruct Hm as [Hin Hm].
  { split; [set_solver|]. right. intros. by apply Forall_singleton. }
  change ([(0, x)] ++ imap (pair ∘ S) z) with (imap pair (x :: z)) in *.
  pose proof (snd_imap_pair id (x :: z)) as Hsnd.
  split.
  - apply list_elem_of_lookup in Hin as [i Hi]. rewrite list_lookup_imap in Hi.
    destruct ((x :: z) !! i) eqn:E; [|done]. injection Hi as <- <-. by apply lookup_lt_Some in E.
  - destruct Hm as [[i Hn]|Hm].
    + left. rewrite <- Hsnd. apply list_elem_of_fmap. by exists (i, S754_nan).
    + right. intros Hv. specialize (Hm Hv). rewrite <- Hsnd. by apply Forall_fmap.
Qed.

Lemma quotients_nn z : S754_nan ∈ z \/ Forall nn z -> f64_leb (f64_sum z) f64_zero = false ->
  Forall nn ((fun x => f64_div x (f64_sum z)) <$> z).
Proof.
  intros Hz Hs. apply Forall_fmap.
  destruct (f64_is_nan (f64_sum z)) eqn:En.
  { destruct (f64_sum z); try done. apply List.Forall_forall. intros x _. cbn. by rewrite nan_div_r. }
  destruct Hz as [Hz|Hz]; [by rewrite (nan_sum z Hz) in En|].
  assert (Hpos : f64_ltb f64_zero (f64_sum z) = true) by (by destruct (f64_sum z) as [[]|[]| |[]]).
  eapply List.Forall_impl; [|exact Hz]. cbn. eauto with f64.
Qed.

Lemma below_delete n i idxs : below n idxs -> below n (delete i idxs).
Proof. apply Forall_delete. Qed.

Lemma sharpe_loop_good fuel n cov excess active : square n cov -> length excess = n -> below n active ->
  length active < fuel -> good n (sharpe_loop fuel n cov excess active).
Proof.
  intros Hc He. revert active. induction fuel as [|fuel IH]; intros active Ha Hf; [lia|].
  cbn [sharpe_loop]. destruct active as [|a active]; [apply good_equal|]. set (act := a :: active) in *.
  destruct (submatrix_square n cov act Hc Ha) as (cs & -> & Hcs).
  destruct (gather_Some excess act) as (es & -> & Hes); [by rewrite He|]. cbn [mbind option_bind].
  destruct (solve_spd cs es) as [z|] eqn:Ez; [|apply good_equal].
  apply solve_spd_length in Ez as Hz; [|by rewrite Hes]. rewrite Hes in Hz.
  pose proof (min_entry_spec z) as Hm.
  assert (Hfin : S754_nan ∈ z \/ Forall nn z ->
    good n (if f64_leb (f64_sum z) f64_zero then Some (equal_weights n)
            else scatter (replicate n f64_zero) act ((fun x => f64_div x (f64_sum z)) <$> z))).
  { intros Hnn. destruct (f64_leb (f64_sum z) f64_zero) eqn:Es; [apply good_equal|].
    apply scatter_ok; [apply zeros_ok|done|rewrite length_fmap; lia|by apply quotients_nn]. }
  destruct (min_entry z) as [[idx val]|].
  - destruct Hm as [Hidx Hm]. destruct (f64_ltb val f64_zero) eqn:Ev.
    + unfold vec_remove. rewrite (proj2 (Nat.ltb_lt _ _)) by lia. cbn [mbind option_bind].
      apply IH; [by apply below_delete|].
      rewrite length_delete by (apply lookup_lt_is_Some_2; lia). lia.
    + apply Hfin. destruct Hm as [?|Hm]; [by left|right]. by apply Hm, nn_iff.
  - subst z. apply Hfin. right. constructor.
Qed.

Lemma below_seq n : below n (seq 0 n).
Proof. apply list.Forall_forall. intros i Hi. apply elem_of_seq in Hi. lia. Qed.

Lemma maximize_sharpe_good returns cov : square (length returns) cov ->
  good (length returns) (maximize_sharpe_ratio returns cov).
Proof.
  intros Hc. unfold maximize_sharpe_ratio. destruct (length returns) as [|[|n]] eqn:Hn.
  - by exists [].
  - exists [f64_one]. split; [done|]. split; [done|]. by constructor.
  - destruct (same_returns returns); [apply good_equal|].
    apply sharpe_loop_good; [done|unfold excess_of; by rewrite length_fmap|apply below_seq|].
    rewrite length_seq. lia.
Qed.

(** ** The three sets of [box_maximize_sharpe] *)

Lemma in_state_below s state : below (length state) (in_state s state).
Proof.
  apply list.Forall_forall. intros i Hi. unfold in_state in Hi. apply list_elem_of_In, List.filter_In in Hi as [Hi _].
  apply list_elem_of_In, elem_of_seq in Hi. lia.
Qed.

Lemma pinned_below b pinned : below (length pinned) (pinned_at pinned b).
Proof.
  apply list.Forall_forall. intros i Hi. unfold pinned_at in Hi. apply list_elem_of_In, List.filter_In in Hi as [Hi _].
  apply list_elem_of_In, elem_of_seq in Hi. lia.
Qed.

Lemma row_times_Some n cov weights i : square n cov -> length weights = n -> i < n ->
  exists x, row_times cov weights i = Some x.
Proof.
  intros Hc Hw Hi. unfold row_times.
  destruct (mapM_Some_length (fun j => c ← mat_get cov i j; w ← weights !! j; Some (f64_mul c w)) (seq 0 (length weights)))
    as (k & -> & _); [|cbn; eauto].
  apply list.Forall_forall. intros j Hj. apply elem_of_seq in Hj.
  destruct (mat_get_Some n cov i j) as [c ->]; [done..|lia|].
  destruct (lookup_lt_is_Some_2 weights j) as [w ->]; [lia|]. cbn. eauto.
Qed.

Lemma release_Some n cov excess weights gamma state idxs : square n cov -> length excess = n ->
  length weights = n -> length state = n -> below n idxs ->
  exists r, release cov excess weights gamma state idxs = Some r /\ (forall i, r = Some i -> i < n).
Proof.
  intros Hc He Hw Hs Hi. induction Hi as [|i idxs Hi _ IH]; [exists None; split; done|]. cbn [release].
  destruct (lookup_lt_is_Some_2 state i) as [st ->]; [lia|].
  destruct (lookup_lt_is_Some_2 excess i) as [e ->]; [lia|].
  destruct (row_times_Some n cov weights i) as [x ->]; [done..|]. cbn [mbind option_bind].
  destruct st; [done| |]; (destruct (f64_ltb _ _); [|done]); exists (Some i); (split; [done|]); by intros ? [= <-].
Qed.

(** A round ends with good weights or goes on with as many states. *)
Definition round_ok {A} (n : nat) (r : option (round (list A))) : Prop :=
  match r with
  | Some (Return w) => weights_ok n w
  | Some (Continue s) => length s = n
  | None => False
  end.

Lemma round_ok_set {A} n (state : list A) i x : length state = n -> i < n ->
  round_ok n (s ← vec_set state i x; Some (Continue s)).
Proof. intros Hs Hi. rewrite vec_set_Some by lia. cbn. by rewrite length_insert. Qed.

Lemma round_ok_Return {A} n (o : option (list f64)) : good n o -> round_ok n ((Return : _ -> round (list A)) <$> o).
Proof. intros (w & -> & Hw). done. Qed.

Lemma first_violation_in p free w_free i n : below n free -> first_violation p free w_free = Some i -> i < n.
Proof.
  intros Hf. unfold first_violation. destruct (List.find _ _) as [[j w]|] eqn:E; [|done]. intros [= <-].
  apply List.find_some in E as [E _]. apply in_combine_l in E. unfold below in Hf.
  rewrite List.Forall_forall in Hf. by apply Hf.
Qed.

Lemma box_settled_ok n cov excess hi gamma state free upper w_free : square n cov -> length excess = n ->
  length state = n -> below n free -> below n upper -> length free <= length w_free -> f64_leb f64_zero hi = true ->
  round_ok n (box_settled n cov excess hi gamma state free upper w_free).
Proof.
  intros Hc He Hs Hf Hu Hw Hhi. unfold box_settled.
  destruct (scatter_Some (replicate n f64_zero) free w_free) as [w1 E1]; [by rewrite length_replicate|done|].
  rewrite E1. cbn [mbind option_bind]. apply scatter_length in E1. rewrite length_replicate in E1.
  destruct (fill_Some w1 upper hi) as [w2 E2]; [by rewrite E1|]. rewrite E2. cbn [mbind option_bind].
  apply scatter_length in E2. rewrite E1 in E2.
  destruct (release_Some n cov excess w2 gamma state (seq 0 n)) as (r & -> & Hr); [done..|apply below_seq|].
  cbn [mbind option_bind]. destruct r as [i|]; [apply round_ok_set; auto|].
  destruct (f64_leb (f64_sum w2) f64_zero); [apply equal_weights_ok|].
  apply round_ok_Return. rewrite <- E2, <- (length_normalize w2). by apply clamp_and_normalize_good.
Qed.

Lemma box_move_ok n cov excess hi budget state free upper p q : square n cov -> length excess = n ->
  length state = n -> below n free -> below n upper -> length p = length free -> length q = length free ->
  f64_leb f64_zero hi = true ->
  round_ok n (box_move n cov excess hi budget state free upper p q).
Proof.
  intros Hc He Hs Hf Hu Hp Hq Hhi. unfold box_move.
  destruct (f64_ltb (f64_abs (f64_sum p)) (tiny 15)); [apply equal_weights_ok|]. cbv zeta.
  set (w_free := zip_with _ p q).
  destruct (first_violation _ free w_free) as [i|] eqn:E1;
    [apply round_ok_set; [done|exact (first_violation_in _ _ _ _ _ Hf E1)]|]. clear E1.
  destruct (first_violation _ free w_free) as [i|] eqn:E2;
    [apply round_ok_set; [done|exact (first_violation_in _ _ _ _ _ Hf E2)]|].
  apply box_settled_ok; try done. unfold w_free. rewrite length_zip_with. lia.
Qed.

Lemma cov_times_upper_Some n cov hi free upper : square n cov -> below n free -> below n upper ->
  exists b, cov_times_upper cov hi free upper = Some b /\ length b = length free.
Proof.
  intros Hc Hf Hu. apply mapM_Some_length. apply list.Forall_forall. intros i Hi.
  destruct (mapM_Some_length (mat_get cov i) upper) as (k & -> & _); [|cbn; eauto].
  apply list.Forall_forall. intros j Hj. unfold below in *. rewrite list.Forall_forall in Hf, Hu.
  eapply mat_get_Some; eauto.
Qed.

Lemma box_round_ok n cov excess hi state : square n cov -> length excess = n -> length state = n ->
  f64_leb f64_zero hi = true -> round_ok n (box_round n cov excess hi state).
Proof.
  intros Hc He Hs Hhi. unfold box_round.
  pose proof (in_state_below Free state) as Hf. pose proof (in_state_below Upper state) as Hu. rewrite Hs in Hf, Hu.
  destruct (in_state Free state) as [|f free].
  { destruct (in_state Upper state) as [|u upper]; [apply equal_weights_ok|].
    destruct (fill_ok n (replicate n f64_zero) (u :: upper) hi) as (w & -> & Hw);
      [apply zeros_ok|done|by apply nn_nonneg|]. by apply normalize_ok. }
  set (fr := f :: free) in *. set (upper := in_state Upper state) in *. cbv zeta.
  destruct (f64_leb _ f64_zero) eqn:Eb.
  { destruct (fill_ok n (replicate n f64_zero) upper (f64_div hi (f64_mul (f64_of_nat (length upper)) hi)))
      as (w & -> & Hw); [apply zeros_ok|done|by apply nn_share|]. done. }
  destruct (submatrix_square n cov fr Hc Hf) as (cs & -> & Hcs).
  destruct (gather_Some excess fr) as (es & -> & Hes); [by rewrite He|]. cbn [mbind option_bind].
  destruct (solve_factored (factor cs) cs es) as [p|] eqn:Ep; [|apply equal_weights_ok].
  apply solve_factored_length in Ep; [|by rewrite Hes]. rewrite Hes in Ep.
  destruct (cov_times_upper_Some n cov hi fr upper Hc Hf Hu) as (b & Eb' & Hb).
  destruct upper as [|u upper].
  { apply box_move_ok; try done. apply length_replicate. }
  rewrite Eb'. cbn [mbind option_bind].
  destruct (solve_factored (factor cs) cs b) as [q|] eqn:Eq; [|apply equal_weights_ok].
  apply solve_factored_length in Eq; [|by rewrite Hb]. apply box_move_ok; try done. lia.
Qed.

Lemma box_loop_good k n cov excess hi state : square n cov -> length excess = n -> length state = n ->
  f64_leb f64_zero hi = true -> good n (box_loop k n cov excess hi state).
Proof.
  intros Hc He Hs Hhi. revert state Hs. induction k as [|k IH]; intros state Hs; cbn [box_loop]; [apply good_equal|].
  pose proof (box_round_ok n cov excess hi state Hc He Hs Hhi) as Hr.
  destruct (box_round n cov excess hi state) as [[w|s]|]; [by apply good_Some|by apply IH|done].
Qed.

(** The cap is a number from 0 on. *)
Definition cap_ok (max_position : f64) : Prop :=
  forall n, f64_leb f64_zero (effective_max_of n max_position) = true.

Lemma box_sharpe_good returns cov hi : square (length returns) cov -> cap_ok hi ->
  good (length returns) (box_maximize_sharpe returns cov hi).
Proof.
  intros Hc Hhi. unfold box_maximize_sharpe. pose proof (maximize_sharpe_good returns cov Hc) as Hm.
  destruct (length returns) as [|[|n]] eqn:Hn.
  - by exists [].
  - exists [f64_one]. split; [done|]. split; [done|]. by constructor.
  - destruct (f64_leb f64_one _); [done|]. destruct (same_returns returns); [apply good_equal|].
    apply box_loop_good; [done|unfold excess_of; by rewrite length_fmap|apply length_replicate|apply Hhi].
Qed.

(** ** Risk parity *)

Lemma rp_adjust_ok n vol target w g : weights_ok n w -> length g = n -> weights_ok n (rp_adjust vol target w g).
Proof.
  intros [Hl Hw] Hg. split; [unfold rp_adjust; rewrite length_zip_with; lia|].
  unfold rp_adjust. clear Hl Hg. revert g. induction Hw as [|x w Hx Hw IH]; intros g; [constructor|].
  destruct g as [|y g]; [constructor|]. cbn [zip_with]. constructor; [|apply IH].
  destruct (f64_ltb f64_zero y); [|done]. destruct (f64_ltb f64_zero _); [|done].
  apply nn_mul; [done|]. apply nn_clamp_pos. done.
Qed.

Lemma rp_loop_good k n cov rescale w : square n cov -> weights_ok n w ->
  (forall sum x, f64_ltb f64_zero sum = true -> nn x -> nn (rescale sum x)) -> good n (rp_loop k cov rescale w).
Proof.
  intros Hc Hw Hr. revert w Hw. induction k as [|k IH]; intros w Hw; cbn [rp_loop]; [by apply good_Some|].
  destruct (variance_Some n cov w Hc) as [v ->]; [apply Hw|]. cbn [mbind option_bind].
  destruct (f64_leb v f64_zero); [by apply good_Some|]. rewrite (square_rows n) by (done || apply Hw).
  cbn [mbind option_bind]. cbv zeta.
  set (adj := rp_adjust _ _ _ _).
  assert (Ha : weights_ok n adj). { apply rp_adjust_ok; [done|]. rewrite mat_vec_length. apply Hc. }
  set (scaled := if f64_ltb f64_zero (f64_sum adj) then _ else adj).
  assert (Hsc : weights_ok n scaled).
  { unfold scaled. destruct (f64_ltb f64_zero (f64_sum adj)) eqn:Es; [|done]. destruct Ha as [Hl Ha].
    split; [by rewrite length_fmap|]. apply Forall_fmap. eapply List.Forall_impl; [|exact Ha]. cbn. eauto. }
  destruct (f64_ltb (max_change scaled w) _); [by apply good_Some|by apply IH].
Qed.

Lemma apply_risk_parity_good n w cov : square n cov -> weights_ok n w -> good n (apply_risk_parity w cov).
Proof.
  intros Hc Hw. unfold apply_risk_parity. destruct w as [|x w]; [by exists []|].
  apply rp_loop_good; [done..|]. eauto with f64.
Qed.

Lemma unpin_Some n cw mg pvol target pinned idxs : length cw = n -> length mg = n -> length pinned = n ->
  below n idxs -> exists r, unpin cw mg pvol target pinned idxs = Some r /\ (forall i, r = Some i -> i < n).
Proof.
  intros Hc Hm Hp Hi. induction Hi as [|i idxs Hi _ IH]; [exists None; split; done|]. cbn [unpin].
  destruct (lookup_lt_is_Some_2 pinned i) as [b ->]; [lia|].
  destruct (lookup_lt_is_Some_2 cw i) as [w ->]; [lia|].
  destruct (lookup_lt_is_Some_2 mg i) as [g ->]; [lia|]. cbn [mbind option_bind]. destruct b; [|done].
  destruct (f64_ltb _ _); [|done]. exists (Some i). split; [done|]. by intros ? [= <-].
Qed.

Lemma assemble_Some n base free pins w_free hi : length base = n -> below n free -> below n pins ->
  length free <= length w_free -> exists w, assemble base free pins w_free hi = Some w /\ length w = n.
Proof.
  intros Hb Hf Hp Hw. unfold assemble. destruct (scatter_Some base free w_free) as [w1 E1]; [by rewrite Hb|done|].
  rewrite E1. apply scatter_length in E1. cbn.
  destruct (fill_Some w1 pins hi) as [w2 E2]; [by rewrite E1, Hb|]. exists w2. split; [done|].
  apply scatter_length in E2. lia.
Qed.

Lemma rp_settled_ok n cov hi pinned free pins w_free : square n cov -> length pinned = n -> below n free ->
  below n pins -> length free <= length w_free -> f64_leb f64_zero hi = true ->
  round_ok n (rp_settled n cov hi pinned free pins w_free).
Proof.
  intros Hc Hp Hf Hpin Hw Hhi. unfold rp_settled.
  destruct (assemble_Some n (replicate n f64_zero) free pins w_free hi) as (cw & -> & Hcw);
    [apply length_replicate|done..|]. cbn [mbind option_bind].
  destruct (variance_Some n cov cw Hc Hcw) as [pv ->]. cbn [mbind option_bind].
  assert (Hrel : exists r, (if f64_ltb f64_zero pv then
       mg ← mat_vec cov cw; unpin cw mg (f64_sqrt pv) (f64_div (f64_sqrt pv) (f64_of_nat n)) pinned (seq 0 n)
     else Some None) = Some r /\ (forall i, r = Some i -> i < n)).
  { destruct (f64_ltb f64_zero pv); [|exists None; split; done]. rewrite (square_rows n) by done. cbn [mbind option_bind].
    apply unpin_Some; [done|rewrite mat_vec_length; apply Hc|done|apply below_seq]. }
  destruct Hrel as (r & Er & Hr). cbv zeta in *. rewrite Er. cbn [mbind option_bind].
  destruct r as [i|]; [apply round_ok_set; auto|].
  destruct (assemble_Some n (equal_weights n) free pins w_free hi) as (w & -> & Hlw);
    [apply length_replicate|done..|]. cbn [mbind option_bind].
  apply round_ok_Return. rewrite <- Hlw, <- (length_normalize w). by apply clamp_and_normalize_good.
Qed.

Lemma rp_round_ok n cov hi pinned : square n cov -> length pinned = n -> f64_leb f64_zero hi = true ->
  round_ok n (rp_round n cov hi pinned).
Proof.
  intros Hc Hp Hhi. unfold rp_round. generalize MAX_RISK_PARITY_ITERATIONS as iters. intros iters.
  pose proof (pinned_below false pinned) as Hf. pose proof (pinned_below true pinned) as Hpin. rewrite Hp in Hf, Hpin.
  cbv zeta. destruct (pinned_at pinned false) as [|f free].
  { split; [apply length_replicate|]. apply list.Forall_replicate. by apply nn_share. }
  set (fr := f :: free) in *. destruct (f64_leb _ f64_zero) eqn:Eb.
  { destruct (fill_ok n (replicate n f64_zero) (pinned_at pinned true)
      (f64_div hi (f64_mul (f64_of_nat (n - length fr)) hi))) as (w & -> & Hw);
      [apply zeros_ok|done|by apply nn_share|]. done. }
  set (budget := f64_sub f64_one _) in *. assert (Hb : ps budget) by (by destruct budget as [[]|[]| |[]]).
  destruct (submatrix_square n cov fr Hc Hf) as (cs & -> & Hcs). cbn [mbind option_bind].
  destruct (rp_loop_good iters (length fr) cs (fun sum w => f64_mul w (f64_div budget sum))
    (replicate (length fr) (f64_div budget (f64_of_nat (length fr))))) as (wf & -> & Hwf); [done| | |].
  { split; [apply length_replicate|]. apply list.Forall_replicate. apply ps_nn, ps_div; [done|apply ps_of_nat]. }
  { intros sum x Hs Hx. apply nn_mul; [done|]. apply nn_div; [by apply ps_nn|done]. }
  cbn [mbind option_bind]. destruct Hwf as [Hlf _].
  destruct (fst <$> List.filter _ (zip fr wf)) as [|o over] eqn:Eo.
  - apply rp_settled_ok; try done. lia.
  - destruct (fill_Some pinned (o :: over) true) as [p' E].
    + rewrite Hp, <- Eo. apply Forall_fmap, List.Forall_forall. intros [i w] Hi.
      apply List.filter_In in Hi as [Hi _]. apply in_combine_l in Hi. unfold below in Hf.
      rewrite List.Forall_forall in Hf. by apply Hf.
    + rewrite E. cbn. apply scatter_length in E. lia.
Qed.

Lemma box_rp_loop_good k n cov hi pinned : square n cov -> length pinned = n -> f64_leb f64_zero hi = true ->
  good n (box_rp_loop k n cov hi pinned).
Proof.
  intros Hc Hp Hhi. revert pinned Hp. induction k as [|k IH]; intros pinned Hp; cbn [box_rp_loop]; [apply good_equal|].
  pose proof (rp_round_ok n cov hi pinned Hc Hp Hhi) as Hr.
  destruct (rp_round n cov hi pinned) as [[w|s]|]; [by apply good_Some|by apply IH|done].
Qed.

Lemma box_risk_parity_good n cov hi : square n cov -> cap_ok hi -> good n (box_risk_parity cov hi).
Proof.
  intros Hc Hhi. unfold box_risk_parity. assert (Hl : length cov = n) by apply Hc. rewrite Hl.
  destruct n as [|[|n]].
  - by exists [].
  - exists [f64_one]. split; [done|]. split; [done|]. by constructor.
  - destruct (f64_leb f64_one _); [apply apply_risk_parity_good; [done|apply equal_weights_ok]|].
    apply box_rp_loop_good; [done|apply length_replicate|apply Hhi].
Qed.

(** ** The weights of a subset *)

(** [alpha] and [1 - alpha] are not below zero. *)
Definition alpha_ok (a : f64) : Prop := nn a /\ nn (f64_sub f64_one a).

(** What the cache stands for. *)
Definition subset_weights (params : SubsetOptParams) (U : list nat) : option (list f64) :=
  '(sub_ret, sub_cov) ← extract_sub_portfolio (sp_expected_returns params) (sp_covariance_matrix params) U;
  blend_and_expand sub_ret sub_cov (sp_max_position params) (sp_alphas params) U (length (sp_expected_returns params)).

Definition params_ok (params : SubsetOptParams) : Prop :=
  let n := length (sp_expected_returns params) in
  square n (sp_covariance_matrix params) /\ cap_ok (sp_max_position params) /\
  length (sp_alphas params) = n /\ Forall alpha_ok (sp_alphas params).

(** Outside [U] every weight is zero. *)
Definition supported (w : list f64) (U : list nat) : Prop :=
  forall i x, w !! i = Some x -> i ∉ U -> f64_is_zero x = true.

Lemma blend_good alphas U ws wr : below (length alphas) U -> Forall alpha_ok alphas ->
  weights_ok (length U) ws -> weights_ok (length U) wr -> good (length U) (blend alphas U ws wr).
Proof.
  intros Hb Ha. revert U wr Hb. induction ws as [|x ws IH]; intros U wr Hb [Hls Hws] [Hlr Hwr].
  - destruct U; [|done]. exists []. split; [done|]. split; [done|constructor].
  - destruct U as [|i U]; [done|]. destruct wr as [|y wr]; [done|]. cbn [blend].
    apply list.Forall_cons in Hb as [Hi Hb]. apply list.Forall_cons in Hws as [Hx Hws].
    apply list.Forall_cons in Hwr as [Hy Hwr].
    destruct (lookup_lt_is_Some_2 alphas i Hi) as [a Ea]. rewrite Ea. cbn [mbind option_bind].
    destruct (IH U wr Hb) as (w & -> & Hl & Hw); [split; [by injection Hls|done]|split; [by injection Hlr|done]|].
    cbn [mbind option_bind]. apply good_Some. split; [cbn; by rewrite Hl|]. constructor; [|done].
    rewrite Forall_lookup in Ha. destruct (Ha i a Ea) as [H1 H2]. eauto with f64.
Qed.

Lemma forallb_below n U : below n U -> forallb (fun idx => idx <? n) U = true.
Proof.
  intros HS. apply List.forallb_forall. intros i Hi. apply Nat.ltb_lt. unfold below in HS.
  rewrite List.Forall_forall in HS. by apply HS.
Qed.

Lemma extract_Some returns cov U : square (length returns) cov -> below (length returns) U ->
  exists r c, extract_sub_portfolio returns cov U = Some (r, c) /\ length r = length U /\ square (length U) c.
Proof.
  intros Hc HS. unfold extract_sub_portfolio. destruct (gather_Some returns U HS) as (r & -> & Hr).
  destruct (submatrix_square _ cov U Hc HS) as (c & -> & Hsq). cbn. eauto.
Qed.

Lemma supported_scatter n U vals w : scatter (replicate n f64_zero) U vals = Some w -> supported w U.
Proof.
  intros E i x Hx Hi. rewrite (scatter_outside _ _ _ _ i E Hi) in Hx. apply lookup_replicate in Hx as [-> _]. done.
Qed.

Lemma subset_weights_ok params U : params_ok params -> below (length (sp_expected_returns params)) U ->
  exists w, subset_weights params U = Some w /\ weights_ok (length (sp_expected_returns params)) w /\ supported w U.
Proof.
  intros (Hc & Hcap & Hla & Ha) HS. unfold subset_weights.
  destruct (extract_Some _ _ U Hc HS) as (r & c & -> & Hr & Hsq). cbn [mbind option_bind].
  unfold blend_and_expand. rewrite Hla, forallb_below by done. cbn [negb].
  destruct (box_sharpe_good r c (sp_max_position params)) as (ws & -> & Hws); [by rewrite Hr|done|].
  destruct (box_risk_parity_good (length U) c (sp_max_position params)) as (wr & -> & Hwr); [done..|].
  cbn [mbind option_bind]. rewrite Hr in Hws.
  destruct (blend_good (sp_alphas params) U ws wr) as (b & -> & Hbl); [by rewrite Hla|done..|].
  cbn [mbind option_bind]. apply normalize_ok in Hbl as [Hl Hn].
  destruct (scatter_ok (length (sp_expected_returns params)) (replicate (length (sp_expected_returns params)) f64_zero)
    U (normalize_weights b)) as (w & E & Hw); [apply zeros_ok|done|lia|done|].
  exists w. split; [done|]. split; [done|]. by eapply supported_scatter.
Qed.

(** ** The cache does not change the result *)

Definition cache_ok (params : SubsetOptParams) (cache : Cache) : Prop :=
  map_Forall (fun U w => subset_weights params U = Some w) cache.

(** [o] computes [r] and leaves a cache that is still right. *)
Definition caches {A} (params : SubsetOptParams) (o : option (A * Cache)) (r : option A) : Prop :=
  match r with
  | Some a => exists c, o = Some (a, c) /\ cache_ok params c
  | None => o = None
  end.

Lemma cached_blend_caches params cache U : cache_ok params cache ->
  caches params (cached_blend_and_expand cache params U (length (sp_expected_returns params))) (subset_weights params U).
Proof.
  intros Hc. unfold cached_blend_and_expand. destruct (cache !! U) as [w|] eqn:E.
  - rewrite (Hc U w E). exists cache. done.
  - unfold subset_weights. destruct (extract_sub_portfolio _ _ U) as [[r c]|] eqn:Ee; [|done]. cbn [mbind option_bind].
    destruct (blend_and_expand r c _ _ U _) as [w|] eqn:Eb; [|done]. cbn. eexists. split; [done|].
    apply map_Forall_insert_2; [|done]. unfold subset_weights. by rewrite Ee.
Qed.

(** The tokens of [U] that reach the least size. *)
Definition survivors_of (min_size : f64) (U : list nat) (ws : list f64) : list nat :=
  fst <$> List.filter (fun '(_, w) => f64_leb min_size w) (zip U ws).

(** [filter_and_reoptimize] without a cache. *)
Fixpoint refine (iterations : nat) (params : SubsetOptParams) (min_size : f64) (weights : list f64) (U : list nat)
  : option (list f64 * list nat) :=
  match iterations with
  | O => Some (weights, U)
  | S iterations =>
      ws ← mapM (fun i => weights !! i) U;
      let T := survivors_of min_size U ws in
      if (length T =? length U) || (length T =? 0) then Some (weights, U)
      else weights ← subset_weights params T; refine iterations params min_size weights T
  end.

Lemma filter_loop_caches k params min_size w U cache : cache_ok params cache ->
  caches params (filter_loop k params min_size w U cache) (refine k params min_size w U).
Proof.
  revert w U cache. induction k as [|k IH]; intros w U cache Hc; cbn [filter_loop refine]; [by exists cache|].
  destruct (mapM (fun i => w !! i) U) as [ws|]; [|done]. cbn [mbind option_bind]. fold (survivors_of min_size U ws).
  destruct (_ || _); [by exists cache|].
  pose proof (cached_blend_caches params cache (survivors_of min_size U ws) Hc) as Hb.
  destruct (subset_weights params _) as [w'|]; cbn [caches] in Hb.
  - destruct Hb as (c & -> & Hc'). cbn [mbind option_bind]. by apply IH.
  - by rewrite Hb.
Qed.

(** ** The search over the subsets *)

(** The refined optimum of a subset. *)
Definition candidate (params : SubsetOptParams) (min_size : f64) (U : list nat) : option (list f64) :=
  w ← subset_weights params U; fst <$> refine (length U) params min_size w U.

Definition score (params : SubsetOptParams) (w : list f64) : option (option f64) :=
  score_of (sp_expected_returns params) (sp_covariance_matrix params) (sp_alphas params) w.

(** The first candidate with the greatest score, among the subsets in order. *)
Fixpoint best_of (params : SubsetOptParams) (min_size : f64) (subsets : list (list nat)) (best : f64 * list f64)
  : option (f64 * list f64) :=
  match subsets with
  | [] => Some best
  | U :: subsets =>
      w ← candidate params min_size U;
      sc ← score params w;
      best_of params min_size subsets
        match sc with Some s => if f64_ltb best.1 s then (s, w) else best | None => best end
  end.

Lemma try_subset_caches params min_size U best cache : cache_ok params cache ->
  caches params (try_subset params min_size U best cache)
    (w ← candidate params min_size U; sc ← score params w;
     Some match sc with Some s => if f64_ltb best.1 s then (s, w) else best | None => best end).
Proof.
  intros Hc. unfold try_subset, candidate.
  pose proof (cached_blend_caches params cache U Hc) as Hb.
  destruct (subset_weights params U) as [w|]; cbn [caches] in Hb; [|by rewrite Hb].
  destruct Hb as (c & -> & Hc'). cbn [mbind option_bind]. unfold filter_and_reoptimize.
  pose proof (filter_loop_caches (length U) params min_size w U c Hc') as Hf.
  destruct (refine _ params min_size w U) as [[w' T]|]; cbn [caches] in Hf; [|by rewrite Hf].
  destruct Hf as (c' & -> & Hc2). cbn [mbind option_bind fmap option_fmap option_map fst].
  unfold score. destruct (score_of _ _ _ w') as [[s|]|]; unfold caches; cbn; [by exists c'|by exists c'|done].
Qed.

Lemma try_subsets_best params min_size active combos best cache : cache_ok params cache ->
  Forall (below (length active)) combos ->
  try_subsets params min_size active combos best cache =
  best_of params min_size ((fun combo : list nat => (fun i => active !!! i) <$> combo) <$> combos) best.
Proof.
  intros Hc Hb. revert best cache Hc. induction Hb as [|combo combos Hcombo Hb IH]; intros best cache Hc; [done|].
  cbn [try_subsets fmap list_fmap best_of].
  assert (E : mapM (fun ci => active !! ci) combo = Some ((fun i => active !!! i) <$> combo)).
  { apply mapM_Some_2, Forall2_fmap_r, list.Forall_Forall2_diag. eapply List.Forall_impl; [|exact Hcombo].
    intros i Hi. cbn. by apply list_lookup_lookup_total_lt. }
  rewrite E. cbn [mbind option_bind].
  pose proof (try_subset_caches params min_size ((fun i => active !!! i) <$> combo) best cache Hc) as Ht.
  destruct (candidate params min_size _) as [w|]; [|cbn in Ht; by rewrite Ht].
  cbn [mbind option_bind] in *. destruct (score params w) as [sc|]; [|cbn in Ht; by rewrite Ht].
  destruct Ht as (c & -> & Hc'). cbn [mbind option_bind]. by apply IH.
Qed.

Lemma total_seq {A} `{Inhabited A} (l : list A) : (fun i => l !!! i) <$> seq 0 (length l) = l.
Proof.
  apply list_eq. intros i. rewrite list_lookup_fmap. destruct (decide (i < length l)) as [Hi|Hi].
  - rewrite lookup_seq_lt by done. cbn. symmetry. by apply list_lookup_lookup_total_lt.
  - rewrite lookup_seq_ge by lia. cbn. symmetry. apply lookup_ge_None_2. lia.
Qed.

Lemma choose_below k n : Forall (below n) (choose k (seq 0 n)).
Proof.
  apply list.Forall_forall. intros s Hs. apply elem_of_choose in Hs as [_ Hs]. apply sublist_seq in Hs as [_ Hs].
  eapply List.Forall_impl; [|exact Hs]. cbn. lia.
Qed.

(** [exhaustive_optimize] without cache and iterator. *)
Definition exhaustive_reference (active : list nat) (params : SubsetOptParams) (max_holdings : nat) (min_size : f64)
  : option (list f64) :=
  let n := length (sp_expected_returns params) in
  if length active =? 0 then Some (replicate n f64_zero)
  else if length active <=? max_holdings then candidate params min_size active
  else
    best ← best_of params min_size (choose max_holdings active) (f64_neg_infinity, replicate n f64_zero);
    if forallb (fun w => f64_eqb w f64_zero) best.2
    then fill best.2 (take max_holdings active) (f64_div f64_one (f64_of_nat max_holdings))
    else Some best.2.

Lemma exhaustive_eq active params max_holdings min_size : max_holdings <> 0 ->
  exhaustive_optimize active (sp_expected_returns params) (sp_covariance_matrix params) (sp_max_position params)
    max_holdings min_size (sp_alphas params) = exhaustive_reference active params max_holdings min_size.
Proof.
  intros Hk. unfold exhaustive_optimize, exhaustive_reference. destruct (Nat.eqb_spec (length active) 0); [done|].
  replace (mkSubsetOptParams _ _ _ _) with params by (by destruct params).
  assert (Hempty : cache_ok params ∅) by apply map_Forall_empty.
  destruct (Nat.leb_spec (length active) max_holdings) as [Hle|Hgt].
  - unfold candidate. pose proof (cached_blend_caches params ∅ active Hempty) as Hb.
    destruct (subset_weights params active) as [w|]; cbn [caches] in Hb; [|by rewrite Hb].
    destruct Hb as (c & -> & Hc). cbn [mbind option_bind]. unfold filter_and_reoptimize.
    pose proof (filter_loop_caches (length active) params min_size w active c Hc) as Hf.
    destruct (refine _ params min_size w active) as [[w' T]|]; cbn [caches] in Hf; [|by rewrite Hf].
    by destruct Hf as (c' & -> & _).
  - rewrite combinations_choose by done. cbn [mbind option_bind].
    rewrite try_subsets_best by (done || apply choose_below). rewrite <- choose_fmap, total_seq.
    destruct (best_of _ _ _ _) as [[s w]|]; [|done]. cbn [mbind option_bind snd].
    replace (max_holdings `min` length active) with max_holdings by lia.
    destruct (forallb _ w); [|done].
    assert (E : mapM (fun i => active !! i) (seq 0 max_holdings) = Some (take max_holdings active)); [|by rewrite E].
    apply mapM_Some_2. apply Forall2_same_length_lookup_2; [rewrite length_seq, length_take; lia|].
    intros i a b Ha Hb. apply lookup_seq in Ha as [-> Hi]. by rewrite lookup_take_lt in Hb.
Qed.

(** ** The refined subsets *)

Lemma survivors_sub min_size U ws : survivors_of min_size U ws ⊆ U.
Proof.
  intros i Hi. unfold survivors_of in Hi. apply list_elem_of_fmap in Hi as ([j w] & -> & Hi).
  apply list_elem_of_In, List.filter_In in Hi as [Hi _]. apply in_combine_l in Hi. by apply list_elem_of_In.
Qed.

Lemma survivors_length min_size U ws : length (survivors_of min_size U ws) <= length U.
Proof.
  unfold survivors_of. rewrite length_fmap. etrans; [apply List.filter_length_le|].
  rewrite length_zip_with. lia.
Qed.

Lemma filter_all {A} (p : A -> bool) l : length (List.filter p l) = length l -> Forall (fun x => p x = true) l.
Proof.
  induction l as [|x l IH]; cbn; [constructor|]. destruct (p x) eqn:E; cbn.
  - intros [= Hl]. constructor; auto.
  - intros Hl. pose proof (List.filter_length_le p l). lia.
Qed.

Lemma filter_none {A} (p : A -> bool) l : length (List.filter p l) = 0 -> Forall (fun x => p x = false) l.
Proof. induction l as [|x l IH]; cbn; [constructor|]. destruct (p x) eqn:E; cbn; [done|]. constructor; auto. Qed.

Lemma below_subset n (U T : list nat) : below n U -> T ⊆ U -> below n T.
Proof. unfold below. rewrite !list.Forall_forall. set_solver. Qed.

Lemma supported_mono w (U T : list nat) : supported w T -> T ⊆ U -> supported w U.
Proof. intros Hs HT i x Hx Hi. apply (Hs i x Hx). set_solver. Qed.

(** All of the positions are of the least size, or none is. *)
Definition settled (min_size : f64) (w : list f64) (T : list nat) : Prop :=
  Forall (fun i => exists x, w !! i = Some x /\ f64_leb min_size x = true) T \/
  Forall (fun i => exists x, w !! i = Some x /\ f64_leb min_size x = false) T.

Lemma settled_zip min_size (w : list f64) (U : list nat) ws (b : bool) : mapM (fun i => w !! i) U = Some ws ->
  Forall (fun p => f64_leb min_size p.2 = b) (zip U ws) ->
  Forall (fun i => exists x, w !! i = Some x /\ f64_leb min_size x = b) U.
Proof.
  intros E. apply mapM_Some_1 in E. induction E as [|i x U ws Hx _ IH]; [constructor|]. cbn [zip_with].
  intros Hf. apply list.Forall_cons in Hf as [Hp Hf]. constructor; [by exists x|auto].
Qed.

Lemma refine_ok k params min_size w U : params_ok params -> below (length (sp_expected_returns params)) U ->
  weights_ok (length (sp_expected_returns params)) w -> supported w U -> length U <= k ->
  exists w' T, refine k params min_size w U = Some (w', T) /\ T ⊆ U /\
    weights_ok (length (sp_expected_returns params)) w' /\ supported w' T /\ settled min_size w' T.
Proof.
  intros Hp. revert w U. induction k as [|k IH]; intros w U HU Hw Hs Hk; cbn [refine].
  { exists w, U. destruct U; [|cbn in Hk; lia]. do 4 (split; [done|]). left. constructor. }
  destruct (gather_Some w U) as (ws & E & Hws); [by destruct Hw as [-> _]|]. rewrite E. cbn [mbind option_bind]. cbv zeta.
  set (T := survivors_of min_size U ws). pose proof (survivors_length min_size U ws) as Hlen. fold T in Hlen.
  pose proof (survivors_sub min_size U ws) as Hsub. fold T in Hsub.
  destruct (Nat.eqb_spec (length T) (length U)) as [Heq|Hne].
  { exists w, U. cbn [orb]. do 4 (split; [done|]). left. apply (settled_zip min_size w U ws true E).
    unfold T, survivors_of in Heq. rewrite length_fmap in Heq.
    assert (Hz : length (zip U ws) = length U) by (rewrite length_zip_with; lia). rewrite <- Hz in Heq.
    apply filter_all in Heq. eapply List.Forall_impl; [|exact Heq]. by intros [i x]. }
  destruct (Nat.eqb_spec (length T) 0) as [Hz|Hnz]; cbn [orb].
  { exists w, U. do 4 (split; [done|]). right. apply (settled_zip min_size w U ws false E).
    unfold T, survivors_of in Hz. rewrite length_fmap in Hz.
    apply filter_none in Hz. eapply List.Forall_impl; [|exact Hz]. by intros [i x]. }
  assert (HT : below (length (sp_expected_returns params)) T) by (by eapply below_subset).
  destruct (subset_weights_ok params T Hp HT) as (w1 & -> & Hw1 & Hs1). cbn [mbind option_bind].
  destruct (IH w1 T HT Hw1 Hs1 ltac:(lia)) as (w' & T' & -> & HT' & Hw' & Hs' & Hst).
  exists w', T'. split; [done|]. split; [set_solver|]. done.
Qed.

Lemma candidate_ok params min_size U : params_ok params -> below (length (sp_expected_returns params)) U ->
  exists w, candidate params min_size U = Some w /\ weights_ok (length (sp_expected_returns params)) w /\
    supported w U /\ exists T, T ⊆ U /\ supported w T /\ settled min_size w T.
Proof.
  intros Hp HU. unfold candidate. destruct (subset_weights_ok params U Hp HU) as (w & -> & Hw & Hs).
  cbn [mbind option_bind].
  destruct (refine_ok (length U) params min_size w U Hp HU Hw Hs ltac:(lia)) as (w' & T & -> & HT & Hw' & Hs' & Hst).
  exists w'. split; [done|]. split; [done|]. split; [by eapply supported_mono|]. eauto.
Qed.

(** ** Scores *)

Lemma imap_pair_below n (w : list f64) (p : nat * f64 -> bool) : length w = n ->
  below n (fst <$> List.filter p (imap pair w)).
Proof.
  intros Hw. apply Forall_fmap, List.Forall_forall. intros [i x] Hi. apply List.filter_In in Hi as [Hi _].
  apply list_elem_of_In, list_elem_of_lookup in Hi as [j Hj]. rewrite list_lookup_imap in Hj.
  destruct (w !! j) eqn:E; [|done]. injection Hj as <- <-. apply lookup_lt_Some in E. cbn. lia.
Qed.

Lemma divergence_Some n w c : square n c -> length w = n -> exists x, risk_parity_divergence w c = Some x.
Proof.
  intros Hc Hw. unfold risk_parity_divergence. destruct w as [|x w]; [eauto|].
  destruct (variance_Some n c (x :: w) Hc Hw) as [v ->]. cbn [mbind option_bind].
  destruct (f64_leb v f64_zero); [eauto|]. rewrite (square_rows n) by done. cbn. eauto.
Qed.

Lemma score_Some params w : params_ok params -> length w = length (sp_expected_returns params) ->
  exists sc, score params w = Some sc.
Proof.
  intros (Hc & _ & Hla & _) Hw. unfold score, score_of.
  pose proof (imap_pair_below _ w (fun '(_, x) => f64_ltb f64_zero x) Hw) as Hb.
  set (act := List.filter _ (imap pair w)) in *. cbv zeta.
  destruct act as [|a l] eqn:Ea; [eauto|]. rewrite <- Ea in *.
  destruct (extract_Some _ _ (fst <$> act) Hc Hb) as (ar & ac & -> & _ & Hsq). cbn [mbind option_bind].
  assert (Hl : length (snd <$> act) = length (fst <$> act)) by (by rewrite !length_fmap).
  unfold calculate_portfolio_std. destruct (variance_Some _ ac (snd <$> act) Hsq Hl) as [v ->]. cbn [mbind option_bind].
  destruct (divergence_Some _ (snd <$> act) ac Hsq Hl) as [d ->]. cbn [mbind option_bind].
  destruct (gather_Some (sp_alphas params) (fst <$> act)) as (al & -> & _); [by rewrite Hla|]. cbn. eauto.
Qed.

Lemma best_of_spec params min_size subsets best s w : best_of params min_size subsets best = Some (s, w) ->
  (s, w) = best \/
   (exists U, U ∈ subsets /\ candidate params min_size U = Some w /\ score params w = Some (Some s)).
Proof.
  revert best. induction subsets as [|U subsets IH]; intros best; cbn [best_of]; [intros [= <-]; by left|].
  destruct (candidate params min_size U) as [w0|] eqn:Ec; [|done]. cbn [mbind option_bind].
  destruct (score params w0) as [sc|] eqn:Es; [|done]. cbn [mbind option_bind]. intros Hb.
  destruct (IH _ Hb) as [Hsw|(T & HT & H1 & H2)]; [|right; exists T; split; [by apply list_elem_of_further|done]].
  destruct sc as [x|]; [|by left]. destruct (f64_ltb best.1 x); [|by left].
  injection Hsw as -> ->. right. exists U. split; [apply list_elem_of_here|done].
Qed.

(** Nothing scores more than the result. *)
Lemma best_of_greatest params min_size subsets best s w : best_of params min_size subsets best = Some (s, w) ->
  (best.1 = s \/ f64_ltb best.1 s = true) /\
  forall U w' s', U ∈ subsets -> candidate params min_size U = Some w' -> score params w' = Some (Some s') ->
    f64_ltb s s' = false.
Proof.
  revert best. induction subsets as [|U subsets IH]; intros best; cbn [best_of].
  { intros [= ->]. split; [by left|]. intros ? ? ? Hin. by apply elem_of_nil in Hin. }
  destruct (candidate params min_size U) as [w0|] eqn:Ec; [|done]. cbn [mbind option_bind].
  destruct (score params w0) as [sc|] eqn:Es; [|done]. cbn [mbind option_bind]. intros Hb.
  destruct (IH _ Hb) as [Hle Hall]. split.
  - destruct sc as [x|]; [|done]. destruct (f64_ltb best.1 x) eqn:Ex; [|done]. right.
    destruct Hle as [<-|Hlt]; [done|]. by eapply f64_ltb_trans.
  - intros T w' s' HT Hc Hs. apply elem_of_cons in HT as [->|HT]; [|by eapply Hall].
    rewrite Ec in Hc. injection Hc as <-. rewrite Es in Hs. injection Hs as ->.
    destruct (f64_ltb s s') eqn:E; [|done]. destruct (f64_ltb best.1 s') eqn:Ex; cbn [fst] in Hle.
    + destruct Hle as [->|Hlt]; [by rewrite f64_ltb_irrefl in E|].
      pose proof (f64_ltb_trans _ _ _ E Hlt) as Hirr. by rewrite f64_ltb_irrefl in Hirr.
    + destruct Hle as [Heq|Hlt]; [congruence|]. pose proof (f64_ltb_trans _ _ _ Hlt E). congruence.
Qed.

(** ** The chosen weights *)

Lemma best_of_Some params min_size subsets best : params_ok params ->
  Forall (below (length (sp_expected_returns params))) subsets ->
  exists r, best_of params min_size subsets best = Some r.
Proof.
  intros Hp HU. revert best. induction HU as [|U subsets HU _ IH]; intros best; cbn [best_of]; [eauto|].
  destruct (candidate_ok params min_size U Hp HU) as (w & -> & [Hw _] & _). cbn [mbind option_bind].
  destruct (score_Some params w Hp Hw) as [sc ->]. cbn [mbind option_bind]. apply IH.
Qed.

Lemma choose_subset_below k n (active U : list nat) : below n active -> U ∈ choose k active -> below n U /\ length U = k /\ U ⊆ active.
Proof.
  intros Ha HU. apply elem_of_choose in HU as [Hl HU]. assert (Hsub : U ⊆ active).
  { intros i Hi. by eapply elem_of_sublist. }
  split; [by eapply below_subset|done].
Qed.

(** At most [k] positions, among those of [active], are held. *)
Definition held_within (k : nat) (active : list nat) (w : list f64) : Prop :=
  exists held, length held <= k /\ held ⊆ active /\ supported w held.

Lemma all_zero_supported w : forallb (fun x => f64_eqb x f64_zero) w = true -> supported w [].
Proof.
  intros Hz i x Hx _. rewrite List.forallb_forall in Hz. specialize (Hz x).
  rewrite <- list_elem_of_In in Hz. specialize (Hz (list_elem_of_lookup_2 _ _ _ Hx)). by destruct x as [[]|[]| |[]].
Qed.

Lemma exhaustive_ok active params k min_size : params_ok params -> k <> 0 ->
  below (length (sp_expected_returns params)) active ->
  exists w, exhaustive_reference active params k min_size = Some w /\
    weights_ok (length (sp_expected_returns params)) w /\ held_within k active w.
Proof.
  intros Hp Hk Ha. unfold exhaustive_reference. destruct (Nat.eqb_spec (length active) 0) as [Hz|Hnz].
  { eexists. split; [done|]. split; [apply zeros_ok|]. exists []. cbn. split; [lia|]. split; [set_solver|].
    intros i x Hx _. by apply lookup_replicate in Hx as [-> _]. }
  destruct (Nat.leb_spec (length active) k) as [Hle|Hgt].
  { destruct (candidate_ok params min_size active Hp Ha) as (w & -> & Hw & Hs & _).
    exists w. split; [done|]. split; [done|]. exists active. done. }
  destruct (best_of_Some params min_size (choose k active)
    (f64_neg_infinity, replicate (length (sp_expected_returns params)) f64_zero) Hp) as [[s w] E].
  { apply list.Forall_forall. intros U HU. by eapply choose_subset_below. }
  rewrite E. cbn [mbind option_bind snd].
  assert (Hw : weights_ok (length (sp_expected_returns params)) w /\ held_within k active w).
  { apply best_of_spec in E as [[= -> ->]|(U & HU & Hc & _)].
    - split; [apply zeros_ok|]. exists []. cbn. split; [lia|]. split; [set_solver|].
      intros i x Hx _. by apply lookup_replicate in Hx as [-> _].
    - destruct (choose_subset_below _ _ _ _ Ha HU) as (HUb & HUl & HUs).
      destruct (candidate_ok params min_size U Hp HUb) as (w' & Ew & Hw' & Hs & _).
      rewrite Hc in Ew. injection Ew as <-. split; [done|]. exists U. split; [lia|]. done. }
  destruct (forallb _ w) eqn:Ez; [|by exists w].
  destruct Hw as [Hw _]. assert (Hsub : take k active ⊆ active) by (intros i Hi; eapply elem_of_sublist; [exact Hi|apply sublist_take]).
  destruct (fill_ok _ w (take k active) (f64_div f64_one (f64_of_nat k)) Hw) as (w' & E' & Hw').
  { by eapply below_subset. }
  { apply ps_nn, ps_div; [done|apply ps_of_nat]. }
  exists w'. split; [done|]. split; [done|]. exists (take k active).
  split; [rewrite length_take; lia|]. split; [done|]. intros i x Hx Hi.
  rewrite (scatter_outside _ _ _ _ i E' Hi) in Hx. apply (all_zero_supported w Ez i x Hx). set_solver.
Qed.

Lemma rank_desc_perm l k : rank_desc l = Some k -> k ≡ₚ l.
Proof.
  unfold rank_desc. destruct (existsb _ l); [apply sort_incomparable_perm|]. intros [= <-]. apply sort_by_perm.
Qed.

Lemma normalize_held k active w : held_within k active w -> held_within k active (normalize_weights w).
Proof.
  intros (held & Hl & Hs & Hsup). exists held. split; [done|]. split; [done|].
  unfold normalize_weights. destruct (f64_ltb f64_zero (f64_sum w)) eqn:Es; [|done].
  intros i x Hx Hi. rewrite list_lookup_fmap in Hx. destruct (w !! i) as [y|] eqn:E; [|done].
  injection Hx as <-. apply zero_div; [by apply (Hsup i y)|done].
Qed.

(** Indices that a ranking puts first. *)
Lemma ranked_below n w r keep : length w = n -> rank_desc (imap pair w) = Some r -> below n (fst <$> take keep r).
Proof.
  intros Hw Hr. apply rank_desc_perm in Hr. apply Forall_fmap, list.Forall_forall. intros [i x] Hi.
  assert (Hin : (i, x) ∈ imap pair w) by (rewrite <- Hr; eapply elem_of_sublist; [exact Hi|apply sublist_take]).
  apply list_elem_of_lookup in Hin as [j Hj]. rewrite list_lookup_imap in Hj.
  destruct (w !! j) eqn:E; [|done]. injection Hj as <- <-. apply lookup_lt_Some in E. cbn. lia.
Qed.

(** The rankings of an optimisation: by the weights of either method, and of
    the candidates by their blend. *)
Inductive ranking (returns : list f64) (cov : matrix) (hi : f64) (alphas : list f64) : list (nat * f64) -> Prop :=
  | ranking_sharpe ws : box_maximize_sharpe returns cov hi = Some ws -> ranking returns cov hi alphas (imap pair ws)
  | ranking_parity wr : box_risk_parity cov hi = Some wr -> ranking returns cov hi alphas (imap pair wr)
  | ranking_blend ws wr active scored :
      box_maximize_sharpe returns cov hi = Some ws -> box_risk_parity cov hi = Some wr ->
      mapM (fun i => a ← alphas !! i; ws ← ws !! i; wr ← wr !! i;
        Some (i, f64_add (f64_mul a ws) (f64_mul (f64_sub f64_one a) wr))) active = Some scored ->
      ranking returns cov hi alphas scored.
(** A ranking met a weight that is not a number, and the sort of the standard
    library panicked on it. *)
Definition sort_panicked (l : list (nat * f64)) : Prop :=
  existsb (fun p => f64_is_nan p.2) l = true /\ sort_incomparable l = None.

Lemma rank_desc_cases l : (exists k, rank_desc l = Some k) \/ (rank_desc l = None /\ sort_panicked l).
Proof.
  unfold rank_desc, sort_panicked. destruct (existsb _ l); [|eauto]. destruct (sort_incomparable l); eauto.
Qed.

(** The candidates of the third phase. *)
Lemma phase3_candidates n alphas ws wr active k : length alphas = n -> length ws = n -> length wr = n -> below n active ->
  let ranked :=
    if (MAX_PHASE3_CANDIDATES <? length active) && (k <? length active) then
      scored ← mapM (fun i => a ← alphas !! i; ws ← ws !! i; wr ← wr !! i;
        Some (i, f64_add (f64_mul a ws) (f64_mul (f64_sub f64_one a) wr))) active;
      scored ← rank_desc scored;
      Some (sort_by Nat.leb (fst <$> take MAX_PHASE3_CANDIDATES scored))
    else Some active in
  (exists active', ranked = Some active' /\ below n active') \/
  (ranked = None /\ exists scored, mapM (fun i => a ← alphas !! i; ws ← ws !! i; wr ← wr !! i;
     Some (i, f64_add (f64_mul a ws) (f64_mul (f64_sub f64_one a) wr))) active = Some scored /\ sort_panicked scored).
Proof.
  intros Ha Hs Hr Hb. cbv zeta. destruct (_ && _); [|eauto].
  destruct (mapM_Some_length (fun i => a ← alphas !! i; ws ← ws !! i; wr ← wr !! i;
         Some (i, f64_add (f64_mul a ws) (f64_mul (f64_sub f64_one a) wr))) active) as (sc & E & _).
  { eapply List.Forall_impl; [|exact Hb]. intros i Hi. cbn in Hi |- *.
    destruct (lookup_lt_is_Some_2 alphas i) as [a ->]; [lia|]. destruct (lookup_lt_is_Some_2 ws i) as [x ->]; [lia|].
    destruct (lookup_lt_is_Some_2 wr i) as [y ->]; [lia|]. cbn. eauto. }
  rewrite E. cbn [mbind option_bind].
  destruct (rank_desc_cases sc) as [[r Er]|[Er Hp]]; rewrite Er; cbn [mbind option_bind]; [left|by right; eauto].
  eexists. split; [done|]. unfold below. rewrite sort_by_perm. apply Forall_fmap, list.Forall_forall. intros [i x] Hi.
  apply rank_desc_perm in Er. assert (Hin : (i, x) ∈ sc) by (rewrite <- Er; eapply elem_of_sublist; [exact Hi|apply sublist_take]).
  apply mapM_Some_1 in E. apply list_elem_of_lookup in Hin as [j Hj].
  destruct (Forall2_lookup_r _ _ _ _ _ E Hj) as (i' & Hi' & Ei).
  destruct (alphas !! i'), (ws !! i'), (wr !! i'); try done. injection Ei as -> _. cbn.
  unfold below in Hb. rewrite Forall_lookup in Hb. by eapply Hb.
Qed.

(** An optimisation returns weights, or one of its rankings panicked. *)
Lemma unified_cases returns cov liq hi k min_size alphas : let n := length returns in
  square n cov -> length liq = n -> cap_ok hi -> length alphas = n -> Forall alpha_ok alphas -> k <> 0 ->
  match unified_optimize returns cov liq hi k min_size alphas with
  | Some w => weights_ok n w /\ held_within k (seq 0 n) w
  | None => exists adj l, adjust_returns_for_liquidity returns liq = Some adj /\
      ranking adj cov hi alphas l /\ sort_panicked l
  end.
Proof.
  intros n Hc Hliq Hcap Hla Ha Hk. unfold unified_optimize. subst n. destruct (length returns) as [|[|n]] eqn:Hn.
  - split; [split; [done|constructor]|]. exists []. split; [cbn; lia|]. split; [set_solver|]. by intros [].
  - split; [split; [done|by repeat constructor]|]. exists [0].
    split; [cbn; lia|]. split; [set_solver|]. intros [|i] x Hx Hi; [set_solver|done].
  - unfold adjust_returns_for_liquidity. rewrite Hn, Hliq, Nat.eqb_refl. cbn [mbind option_bind].
    set (adj := zip_with _ returns liq). assert (Hadj : length adj = S (S n)) by (unfold adj; rewrite length_zip_with; lia).
    destruct (box_sharpe_good adj cov hi) as (ws & Ews & Hws & _); [by rewrite Hadj|done|].
    destruct (box_risk_parity_good (S (S n)) cov hi Hc Hcap) as (wr & Ewr & Hwr & _).
    rewrite Ews, Ewr. cbn [mbind option_bind]. rewrite Hadj in Hws.
    destruct (rank_desc_cases (imap pair ws)) as [[rs Ers]|[Ers Hp]]; rewrite Ers; cbn [mbind option_bind].
    2: { exists adj, (imap pair ws). split; [done|]. split; [by apply ranking_sharpe|done]. }
    destruct (rank_desc_cases (imap pair wr)) as [[rr Err]|[Err Hp]]; rewrite Err; cbn [mbind option_bind].
    2: { exists adj, (imap pair wr). split; [done|]. split; [by apply ranking_parity|done]. }
    cbv zeta. set (aset := sort_by Nat.leb _).
    assert (Hact : below (S (S n)) (match aset with [] => seq 0 (S (S n)) | _ => aset end)).
    { assert (Hset : below (S (S n)) aset); [|destruct aset; [apply below_seq|done]].
      unfold aset, below. rewrite sort_by_perm. apply list.Forall_forall. intros i Hi.
      rewrite elem_of_remove_dups, fmap_app, elem_of_app in Hi.
      pose proof (ranked_below _ ws rs (PRUNE_KEEP_PER `min` S (S n)) Hws Ers) as H1.
      pose proof (ranked_below _ wr rr (PRUNE_KEEP_PER `min` S (S n)) Hwr Err) as H2.
      unfold below in *. rewrite list.Forall_forall in H1, H2. naive_solver. }
    destruct (phase3_candidates (S (S n)) alphas ws wr _ k Hla Hws Hwr Hact) as [(act & -> & Hact')|(-> & sc & Hsc & Hp)];
      cbn [mbind option_bind].
    2: { exists adj, sc. split; [done|]. split; [by eapply ranking_blend|done]. }
    pose proof (exhaustive_eq act (mkSubsetOptParams adj cov hi alphas) k min_size Hk) as Ee. cbn in Ee. rewrite Ee.
    destruct (exhaustive_ok act (mkSubsetOptParams adj cov hi alphas) k min_size) as (w & -> & Hw & Hheld).
    { split; [cbn; by rewrite Hadj|]. split; [done|]. cbn. by rewrite Hadj. }
    { done. }
    { cbn. by rewrite Hadj. }
    cbn in Hw. rewrite Hadj in Hw. cbn [mbind option_bind]. split; [by apply normalize_ok|].
    apply normalize_held. destruct Hheld as (held & Hl & Hs & Hsup). exists held. split; [done|]. split; [|done].
    intros i Hi. apply elem_of_seq. specialize (Hs i Hi). unfold below in Hact'. rewrite list.Forall_forall in Hact'.
    specialize (Hact' i Hs). lia.
Qed.
End shapes.
