(* ===== verification/OptimizerReport.v ===== *)
(** * OptimizerReport: limits of risk, and the report of the optimiser

    The factors that the volatility of the market sets stay within their
    documented ranges in [f64] arithmetic; with them, the search of
    [OptimizerFacts] applies to every call of
    [execute_portfolio_optimization], whose report is characterised. *)

From Stdlib Require Import ZArith QArith Qround SpecFloat.
From S2P Require Import Prelude F64 Vectors F64Order Combinations BigDecimal Units Execution Optimizer OptimizerFacts.
Local Open Scope nat_scope.

(** ** Ranges *)

(** The constants of the source as numbers. *)
Lemma lit_09 : f64_literal 9 1 = S754_finite false 8106479329266893 (-53).
Proof. vm_compute. reflexivity. Qed.
Lemma lit_07 : f64_literal 7 1 = S754_finite false 6305039478318694 (-53).
Proof. vm_compute. reflexivity. Qed.
Lemma lit_06 : MAX_POSITION_SIZE = S754_finite false 5404319552844595 (-53).
Proof. vm_compute. reflexivity. Qed.
Lemma lit_05 : PREDICTION_ALPHA_FLOOR = S754_finite false 4503599627370496 (-53).
Proof. vm_compute. reflexivity. Qed.
Lemma lit_03 : f64_literal 3 1 = S754_finite false 5404319552844595 (-54).
Proof. vm_compute. reflexivity. Qed.
Lemma lit_span : f64_sub (f64_literal 9 1) (f64_literal 7 1) = S754_finite false 7205759403792796 (-55).
Proof. vm_compute. reflexivity. Qed.
Lemma lit_low : LOW_VOLATILITY_THRESHOLD = S754_finite false 6029779469093810 (-60).
Proof. vm_compute. reflexivity. Qed.
Lemma lit_width : f64_sub HIGH_VOLATILITY_THRESHOLD LOW_VOLATILITY_THRESHOLD = S754_finite false 6035544076616843 (-59).
Proof. vm_compute. reflexivity. Qed.
Lemma ratio_between v : f64_is_nan v = false -> between 0 (val f64_one) (volatility_ratio v).
Proof.
  intros Hv. unfold volatility_ratio. rewrite lit_width, lit_low.
  destruct (div_const (f64_sub v (S754_finite false 6029779469093810 (-60))) 6035544076616843 (-59)) as [Hc Hn];
    [by apply sub_finite_not_nan|]. by apply clamp_unit.
Qed.

Lemma alpha_between v : f64_is_nan v = false ->
  between (val (f64_literal 7 1)) (val (f64_literal 9 1)) (volatility_blend_alpha v).
Proof.
  intros Hv. pose proof (ratio_between v Hv) as Hr. unfold volatility_blend_alpha.
  rewrite lit_span, f64_mul_comm, lit_09, lit_07.
  apply (sub_between 8106479329266893 (-53) 0 (val (S754_finite false 7205759403792796 (-55))));
    [|vm_compute; reflexivity..|compute_le|compute_le|compute_le].
  apply mul_unit; [done|vm_compute; reflexivity|compute_le|split; compute_le|compute_le].
Qed.

Lemma position_between v : f64_is_nan v = false ->
  between (val (f64_literal 4199999999999999 16)) (val MAX_POSITION_SIZE) (dynamic_max_position v).
Proof.
  intros Hv. pose proof (ratio_between v Hv) as Hr. unfold dynamic_max_position. rewrite lit_03, lit_06, f64_one_eq.
  replace (f64_literal 4199999999999999 16) with (S754_finite false 7566047373982431 (-54)) by (vm_compute; reflexivity).
  assert (Hs : between (val (S754_finite false 6305039478318694 (-53))) (val (S754_finite false 4503599627370496 (-52)))
    (f64_sub (S754_finite false 4503599627370496 (-52)) (f64_mul (S754_finite false 5404319552844595 (-54)) (volatility_ratio v)))).
  { apply (sub_between 4503599627370496 (-52) 0 (val (S754_finite false 5404319552844595 (-54))));
      [|vm_compute; reflexivity..|compute_le|compute_le|compute_le].
    apply mul_unit; [done|vm_compute; reflexivity|compute_le|split; compute_le|compute_le]. }
  assert (Hnz : (val (S754_finite false 6305039478318694 (-53)) =? 0)%Z = false) by (vm_compute; reflexivity).
  revert Hs. generalize (f64_sub (S754_finite false 4503599627370496 (-52))
    (f64_mul (S754_finite false 5404319552844595 (-54)) (volatility_ratio v))). intros y Hs.
  pose proof (mul_between 5404319552844595 (-53) _ _ y 7566047373982431 (-54) 5404319552844595 (-53) Hs) as Hp.
  cbv zeta in Hp. rewrite Hnz in Hp.
  apply Hp; [compute_le|split; compute_le|vm_compute; reflexivity..|compute_le|compute_le|left; compute_le].
Qed.

(** The share of a token with a finite confidence. *)
Lemma token_alpha_between a c : between (val (f64_literal 7 1)) (val (f64_literal 9 1)) a -> f64_is_finite c = true ->
  between (val PREDICTION_ALPHA_FLOOR) (val (f64_literal 9 1)) (token_alpha a (Some c)).
Proof.
  intros Ha Hc. cbn [token_alpha].
  assert (Hd : f64_is_finite (f64_sub a PREDICTION_ALPHA_FLOOR) = true).
  { destruct Ha as (Hca & Hf & Hv). rewrite lit_07, lit_09 in Hv. rewrite lit_05.
    destruct a as [s| | |[] ma ea]; try done.
    pose proof (sub_between ma ea (val (S754_finite false 4503599627370496 (-53)))
      (val (S754_finite false 4503599627370496 (-53))) (S754_finite false 4503599627370496 (-53))
      4503599627370496 (-55) 8106479329266893 (-53)) as Hs. cbv zeta in Hs.
    destruct Hs as (_ & Hfin & _).
    - split; [vm_compute; reflexivity|]. split; [done|]. split; apply Z.le_refl.
    - done.
    - vm_compute; reflexivity.
    - vm_compute; reflexivity.
    - compute_le.
    - assert (val (S754_finite false 4503599627370496 (-55)) <=
        val (S754_finite false 6305039478318694 (-53)) - val (S754_finite false 4503599627370496 (-53)))%Z by compute_le. lia.
    - assert (0 <= val (S754_finite false 4503599627370496 (-53)))%Z by compute_le. lia.
    - by destruct (f64_sub _ _) as [| | |[]]. }
  pose proof (mul_finite_not_nan _ _ Hd Hc) as Hp.
  revert Hp. generalize (f64_mul (f64_sub a PREDICTION_ALPHA_FLOOR) c). intros y Hy. rewrite lit_05, lit_09.
  destruct (add_const_canonical 4503599627370496 (-53) y) as [Hca Hna]; [vm_compute; reflexivity|done|].
  apply clamp_between; [done|done|vm_compute; reflexivity..|compute_le|vm_compute; reflexivity].
Qed.

Lemma half_alpha a : between (val (f64_literal 7 1)) (val (f64_literal 9 1)) a ->
  token_alpha a None = PREDICTION_ALPHA_FLOOR.
Proof.
  intros Ha. cbn [token_alpha]. change (f64_literal 5 1) with PREDICTION_ALPHA_FLOOR. rewrite lit_05, lit_09, lit_07 in *.
  rewrite f64_mul_comm.
  pose proof (mul_between 4503599627370496 (-53) _ _ a 6305039478318694 (-54) 8106479329266893 (-54) Ha) as Hm.
  cbv zeta in Hm.
  assert (Hnz : (val (S754_finite false 6305039478318694 (-53)) =? 0)%Z = false) by (vm_compute; reflexivity).
  rewrite Hnz in Hm. destruct Hm as (Hc & Hf & Hv);
    [compute_le|split; compute_le|vm_compute; reflexivity..|compute_le|compute_le|left; compute_le|].
  set (p := f64_mul _ a) in *. clearbody p. destruct p as [s| | |[] m e]; try done. unfold f64_max. cbn [f64_is_nan].
  destruct (f64_ltb (S754_finite false m e) (S754_finite false 4503599627370496 (-53))) eqn:E; [done|].
  apply not_lt_leb, leb_val in E; [|vm_compute; reflexivity|done]. exfalso. cbn [val cond_Zopp] in Hv.
  assert (val (S754_finite false 8106479329266893 (-54)) < val (S754_finite false 4503599627370496 (-53)))%Z
    by (apply Z.ltb_lt; vm_compute; reflexivity).
  cbn [val cond_Zopp] in *. lia.
Qed.

(** C24: for every volatility that is a number, an infinite one included, and
    in the rounded arithmetic of [f64]: the blend of [volatility_blend_alpha]
    lies in [0.7, 0.9], the cap of [dynamic_max_position] between
    0.4199999999999999 and 0.6, the share of a token is exactly the floor 0.5
    without a confidence and in [0.5, 0.9] for every finite confidence. *)
Theorem risk_limits_bounded (v : f64) (Hv : f64_is_nan v = false) :
  (f64_leb (f64_literal 7 1) (volatility_blend_alpha v) = true /\
   f64_leb (volatility_blend_alpha v) (f64_literal 9 1) = true) /\
  (f64_leb (f64_literal 4199999999999999 16) (dynamic_max_position v) = true /\
   f64_leb (dynamic_max_position v) MAX_POSITION_SIZE = true) /\
  token_alpha (volatility_blend_alpha v) None = PREDICTION_ALPHA_FLOOR /\
  (forall c, f64_is_finite c = true ->
    f64_leb PREDICTION_ALPHA_FLOOR (token_alpha (volatility_blend_alpha v) (Some c)) = true /\
    f64_leb (token_alpha (volatility_blend_alpha v) (Some c)) (f64_literal 9 1) = true).
Proof.
  pose proof (alpha_between v Hv) as Ha.
  split; [|split; [|split]].
  - eapply between_leb; [exact Ha|rewrite ?lit_07, ?lit_09; vm_compute; done..|apply Z.le_refl|apply Z.le_refl].
  - eapply between_leb; [by apply position_between|vm_compute; done..|apply Z.le_refl|apply Z.le_refl].
  - by apply half_alpha.
  - intros c Hc. eapply between_leb; [by apply token_alpha_between|vm_compute; done..|apply Z.le_refl|apply Z.le_refl].
Qed.

Lemma risk_limits_bounded_witness :
  f64_is_nan (f64_literal 1 2) = false /\
  f64_leb (dynamic_max_position (f64_literal 1 2)) MAX_POSITION_SIZE = true.
Proof. split; [reflexivity|]. exact (proj2 (proj1 (proj2 (risk_limits_bounded (f64_literal 1 2) eq_refl)))). Defined.

(** ** The parameters of a call satisfy the conditions of the search *)

Lemma between_alpha_ok a : between (val PREDICTION_ALPHA_FLOOR) (val (f64_literal 9 1)) a -> alpha_ok a.
Proof.
  intros Ha. rewrite lit_05, lit_09 in Ha. split.
  - destruct Ha as (_ & Hf & _). by destruct a as [| | |[]].
  - rewrite f64_one_eq.
    pose proof (sub_between 4503599627370496 (-52) _ _ a 7205759403792792 (-57) 4503599627370496 (-52) Ha) as Hs.
    cbv zeta in Hs. destruct Hs as (_ & Hf & _); [vm_compute; reflexivity..|compute_le|compute_le|compute_le|].
    by destruct (f64_sub _ a) as [| | |[]].
Qed.

Lemma token_alpha_ok a conf : between (val (f64_literal 7 1)) (val (f64_literal 9 1)) a ->
  (forall c, conf = Some c -> f64_is_finite c = true) -> alpha_ok (token_alpha a conf).
Proof.
  intros Ha Hc. destruct conf as [c|].
  - apply between_alpha_ok, token_alpha_between; auto.
  - rewrite half_alpha by done. apply between_alpha_ok.
    split; [vm_compute; reflexivity|]. split; [vm_compute; done|]. split; compute_le.
Qed.

Lemma one_div_nat n : f64_leb f64_zero (f64_div f64_one (f64_of_nat n)) = true.
Proof.
  assert (Hn : f64_is_nan (f64_of_nat n) = false) by apply is_nan_false, normalize_not_nan.
  pose proof (ps_of_nat n) as Hp. destruct (f64_of_nat n) as [[]|[]| |[] m e]; try done.
  assert (H1 : ps (f64_div f64_one (S754_finite false m e))) by (by apply ps_div).
  destruct (div_finite_canonical false 4503599627370496 (-52) false m e) as [_ Hnan].
  change (S754_finite false 4503599627370496 (-52)) with f64_one in Hnan.
  by destruct (f64_div f64_one (S754_finite false m e)) as [[]|[]| |[]].
Qed.

Lemma position_cap_ok v : f64_is_nan v = false -> cap_ok (dynamic_max_position v).
Proof.
  intros Hv n. unfold effective_max_of. destruct (f64_ltb _ f64_one); [apply one_div_nat|].
  destruct (position_between v Hv) as (_ & Hf & _). by destruct (dynamic_max_position v) as [| | |[]].
Qed.

Section covariance.
Context `{NumericsLaws}.

Lemma mat_of_square n f : square n (mat_of n f).
Proof.
  unfold mat_of. split; [by rewrite length_fmap, length_seq|]. apply Forall_fmap, List.Forall_forall. intros i _. cbn.
  by rewrite length_fmap, length_seq.
Qed.

Lemma zeros_square n : square n (zeros n).
Proof. unfold zeros. split; [apply length_replicate|]. apply list.Forall_replicate. apply length_replicate. Qed.

Lemma ledoit_wolf_square daily : square (length daily) (ledoit_wolf_shrink daily).
Proof.
  unfold ledoit_wolf_shrink. destruct daily as [|r [|r' daily]]; [by split|destruct r as [|x r]|].
  - apply (zeros_square 1).
  - split; [done|]. by repeat constructor.
  - cbv zeta. destruct (_ <? 2); [apply zeros_square|].
    destruct (f64_ltb _ _); apply mat_of_square.
Qed.

Lemma psd_square n cov : square n cov -> exists c, ensure_positive_semi_definite cov = Some c /\ square n c.
Proof.
  intros Hc. unfold ensure_positive_semi_definite. assert (Hl : length cov = n) by apply Hc. rewrite Hl.
  destruct (n <=? 1); [by eauto|].
  destruct (mat_fn_square n (mat_get cov)) as (m & -> & Hm); [intros; by eapply mat_get_Some|]. cbn [mbind option_bind].
  destruct (eigen_shape n m Hm) as [Hval Hvec]. destruct (symmetric_eigen m) as [vals vecs]. cbn [fst snd] in *.
  destruct (f64_leb _ _); [by eauto|].
  destruct (mat_fn_square n (fun i j => if i =? j then v ← vals !! i; Some (f64_max v MIN_EIGENVALUE_THRESHOLD)
    else Some f64_zero)) as (cl & -> & Hcl).
  { intros i j Hi _. destruct (i =? j); [|eauto]. destruct (lookup_lt_is_Some_2 vals i) as [v ->]; [lia|]. cbn. eauto. }
  cbn [mbind option_bind].
  destruct (mat_fn_square n (mat_get (na_mul (na_mul vecs cl) (transpose n vecs)))) as (k & -> & Hk); [|by eauto].
  intros i j Hi Hj. apply (mat_get_Some n); [|done..].
  apply na_mul_shape; [by apply na_mul_shape|apply mat_of_square].
Qed.

Lemma covariance_square daily : exists c, calculate_covariance_matrix daily = Some c /\ square (length daily) c.
Proof.
  unfold calculate_covariance_matrix. destruct daily as [|r daily]; [by exists []; split|].
  apply psd_square, ledoit_wolf_square.
Qed.
End covariance.

(** ** The report *)

Section report_theorems.
Context `{NumericsLaws} {D : Type} `{BigDecimal D} `{FromF64 D}.

(** The daily returns of the selected tokens. *)
Definition daily_of (data : PortfolioData D) : list (list f64) :=
  calculate_daily_returns (omap (fun t => pd_historical_prices data !! td_symbol t) (selected_of data)).

(** Tokens are listed once, histories are filed under their own token, prices
    and confidences are finite, holdings have the decimals of their rate, and
    the volatility is a number. *)
Record inputs_ok (wallet : WalletInfo D) (data : PortfolioData D) : Prop := {
  io_symbols : NoDup (td_symbol <$> pd_tokens data);
  io_histories : map_Forall (fun k h => hist_token h = k) (pd_historical_prices data);
  io_prices : forall t p, t ∈ pd_tokens data -> pd_predictions data !! td_symbol t = Some p ->
    is_Some (bigdecimal_to_f64_safe (price_bd (to_price (td_current_rate t)))) /\
    is_Some (bigdecimal_to_f64_safe (price_bd p));
  io_confidences : map_Forall (fun _ c => f64_is_finite c = true) (pd_prediction_confidences data);
  io_decimals : forall t h, t ∈ pd_tokens data -> wl_holdings wallet !! td_symbol t = Some h ->
    amount_decimals h = rate_decimals (td_current_rate t);
  io_volatility : f64_is_nan (calculate_market_volatility (daily_of data)) = false;
}.

Lemma elem_of_selected data t : t ∈ selected_of data <->
  t ∈ pd_tokens data /\ passes_hard_filter t = true /\ is_Some (pd_historical_prices data !! td_symbol t).
Proof.
  unfold selected_of, hard_filter_tokens. rewrite !list_elem_of_In, !List.filter_In, bool_decide_eq_true. tauto.
Qed.

Lemma filter_sublist {A} (p : A -> bool) l : List.filter p l `sublist_of` l.
Proof. induction l as [|x l IH]; cbn; [constructor|]. destruct (p x); by constructor. Qed.

Lemma selected_symbols wallet data : inputs_ok wallet data -> NoDup (td_symbol <$> selected_of data).
Proof.
  intros Hin. eapply sublist_NoDup; [apply (io_symbols _ _ Hin)|].
  apply fmap_sublist. unfold selected_of. etrans; apply filter_sublist.
Qed.

Lemma first_histories_distinct seen (l : list (PriceHistory D)) : NoDup (hist_token <$> l) ->
  Forall (fun p => hist_token p ∉ seen) l -> first_histories seen l = l.
Proof.
  intros Hnd. revert seen. induction l as [|p l IH]; intros seen Hs; [done|]. cbn [first_histories].
  apply list.NoDup_cons in Hnd as [Hp Hnd]. apply list.Forall_cons in Hs as [Hps Hs].
  rewrite decide_False by done. f_equal. apply IH; [done|]. apply list.Forall_forall. intros q Hq.
  rewrite list.Forall_forall in Hs. specialize (Hs q Hq). intros Hu. apply elem_of_union in Hu as [Hu%elem_of_singleton|Hu]; [|done].
  apply Hp. rewrite <- Hu. by apply list_elem_of_fmap_2.
Qed.

Lemma histories_tokens (data : PortfolioData D) (l : list (TokenData D)) : map_Forall (fun k h => hist_token h = k) (pd_historical_prices data) ->
  Forall (fun t => is_Some (pd_historical_prices data !! td_symbol t)) l ->
  hist_token <$> omap (fun t => pd_historical_prices data !! td_symbol t) l = (td_symbol <$> l : list string).
Proof.
  intros Hh Hl. induction Hl as [|t l [h Ht] _ IH]; [done|]. cbn. rewrite Ht. cbn. rewrite (Hh _ _ Ht). by f_equal.
Qed.

Lemma daily_length wallet data : inputs_ok wallet data -> length (daily_of data) = length (selected_of data).
Proof.
  intros Hin. unfold daily_of, calculate_daily_returns. rewrite length_fmap.
  assert (Ht : hist_token <$> omap (fun t => pd_historical_prices data !! td_symbol t) (selected_of data) =
    td_symbol <$> selected_of data).
  { apply histories_tokens; [apply (io_histories _ _ Hin)|]. apply list.Forall_forall. intros t Hs.
    by apply elem_of_selected in Hs as (_ & _ & ?). }
  rewrite first_histories_distinct.
  - by rewrite <- (length_fmap hist_token), Ht, length_fmap.
  - rewrite Ht. by eapply selected_symbols.
  - apply List.Forall_forall. intros. set_solver.
Qed.

Lemma expected_returns_Some wallet data preds : inputs_ok wallet data -> preds ⊆ pd_predictions data ->
  exists r, calculate_expected_returns (selected_of data) preds = Some r /\ length r = length (selected_of data).
Proof.
  intros Hin Hp. unfold calculate_expected_returns. apply mapM_Some_length. apply list.Forall_forall. intros t Ht. apply elem_of_selected in Ht as [Ht _]. cbv beta.
  destruct (preds !! td_symbol t) as [p|] eqn:E; [|eauto]. destruct (_ || _); [eauto|].
  pose proof (lookup_weaken _ _ _ _ E Hp) as Hpd.
  destruct (io_prices _ _ Hin t p Ht Hpd) as [[x Hx] [y Hy]]. unfold expected_return. rewrite Hx, Hy. cbn. eauto.
Qed.

Lemma current_weights_Some wallet data : inputs_ok wallet data ->
  exists w, calculate_current_weights (selected_of data) wallet = Some w /\ length w = length (selected_of data).
Proof.
  intros Hin. unfold calculate_current_weights. apply mapM_Some_length. apply list.Forall_forall. intros t Ht. apply elem_of_selected in Ht as [Ht _]. cbv beta.
  destruct (wl_holdings wallet !! td_symbol t) as [h|] eqn:E; [|eauto]. unfold amount_div_rate.
  rewrite (io_decimals _ _ Hin t h Ht E), N.eqb_refl.
  destruct (rate_is_zero _); destruct (near_value_is_zero _); eauto.
Qed.

(** ** The map of the weights *)

Lemma collect_elem {V} (l : list (string * V)) k v : collect_map l !! k = Some v -> (k, v) ∈ l.
Proof.
  unfold collect_map. enough (Hg : forall acc : gmap string V, foldl (fun m '(k, v) => <[k := v]> m) acc l !! k = Some v ->
    acc !! k = Some v \/ (k, v) ∈ l).
  { intros Hl. destruct (Hg ∅ Hl) as [He|]; [by rewrite lookup_empty in He|done]. }
  induction l as [|[k' v'] l IH]; intros acc; cbn [foldl]; [by left|].
  intros Hl. destruct (IH _ Hl) as [Hi|Hi]; [|right; by apply list_elem_of_further].
  destruct (decide (k' = k)) as [->|Hne].
  - rewrite lookup_insert_eq in Hi. injection Hi as ->. right. apply list_elem_of_here.
  - rewrite lookup_insert_ne in Hi by done. by left.
Qed.

Lemma weight_map_elem (tokens : list (TokenData D)) w s x : weight_map tokens w !! s = Some x ->
  exists i t y, tokens !! i = Some t /\ w !! i = Some y /\ td_symbol t = s /\ f64_ltb f64_zero y = true /\
    x = weight_from_f64 y.
Proof.
  intros Hm. apply collect_elem in Hm. apply list_elem_of_fmap in Hm as ([t y] & [= -> ->] & Hm).
  apply list_elem_of_In, List.filter_In in Hm as [Hm Hy]. apply list_elem_of_In, list_elem_of_lookup in Hm as [i Hi].
  rewrite lookup_zip_with in Hi. destruct (tokens !! i) as [t'|] eqn:Et, (w !! i) as [y'|] eqn:Ey; try done.
  injection Hi as -> ->. eauto 8.
Qed.

Lemma size_list_to_set_le (l : list string) : size (list_to_set l : gset string) <= length l.
Proof.
  induction l as [|x l IH]; [done|]. rewrite list_to_set_cons, size_union_alt, size_singleton. cbn [length].
  enough (size (list_to_set l ∖ {[x]} : gset string) <= size (list_to_set l : gset string)) by lia.
  apply subseteq_size. set_solver.
Qed.

Lemma weight_map_size k (tokens : list (TokenData D)) w active : held_within k active w ->
  size (weight_map tokens w) <= k.
Proof.
  intros (held & Hk & _ & Hsup). etrans; [|exact Hk].
  assert (Hdom : dom (weight_map tokens w) ⊆ (list_to_set ((fun i => default "" (td_symbol <$> tokens !! i)) <$> held) : gset string)).
  { intros s Hs. apply elem_of_dom in Hs as [x Hx]. apply weight_map_elem in Hx as (i & t & y & Ht & Hy & <- & Hpos & _).
    apply elem_of_list_to_set, list_elem_of_fmap. exists i. rewrite Ht. split; [done|].
    destruct (decide (i ∈ held)) as [|Hi]; [done|]. specialize (Hsup i y Hy Hi). by destruct y. }
  rewrite <- size_dom. etrans; [apply subseteq_size, Hdom|]. etrans; [apply size_list_to_set_le|]. by rewrite length_fmap.
Qed.

(** The limits and scores the optimisation runs with. *)
Definition liquidity_of (data : PortfolioData D) : list f64 :=
  (fun t => default f64_zero (td_liquidity_score t)) <$> selected_of data.
Definition cap_of (data : PortfolioData D) : f64 := dynamic_max_position (calculate_market_volatility (daily_of data)).
Definition alphas_of (data : PortfolioData D) : list f64 :=
  (fun t => token_alpha (volatility_blend_alpha (calculate_market_volatility (daily_of data)))
     (pd_prediction_confidences data !! td_symbol t)) <$> selected_of data.

Lemma alphas_of_ok wallet data : inputs_ok wallet data -> Forall alpha_ok (alphas_of data).
Proof.
  intros Hin. apply Forall_fmap, List.Forall_forall. intros t _.
  apply token_alpha_ok; [exact (alpha_between _ (io_volatility _ _ Hin))|].
  intros c Hc. exact (io_confidences _ _ Hin _ _ Hc).
Qed.

(** A ranking of the optimisation for this data. *)
Definition ranked_in (data : PortfolioData D) (l : list (nat * f64)) : Prop :=
  exists er adj cov,
    calculate_expected_returns (selected_of data) (filter (fun '(symbol, _) =>
      Exists (fun t => td_symbol t = symbol) (selected_of data)) (pd_predictions data)) = Some er /\
    calculate_covariance_matrix (daily_of data) = Some cov /\
    adjust_returns_for_liquidity er (liquidity_of data) = Some adj /\
    ranking adj cov (cap_of data) (alphas_of data) l.

(** What every report satisfies. *)
Definition report_ok (data : PortfolioData D) (r : PortfolioExecutionReport D) : Prop :=
  let target := pw_weights (rp_optimal_weights r) in
  size target <= MAX_HOLDINGS /\
  (forall s w, target !! s = Some w -> exists t x, t ∈ pd_tokens data /\ td_symbol t = s /\
     passes_hard_filter t = true /\ is_Some (pd_historical_prices data !! s) /\
     f64_ltb f64_zero x = true /\ w = weight_from_f64 x) /\
  (if rp_rebalance_needed r
   then (target = ∅ /\ rp_actions r = []) \/ (target <> ∅ /\ rp_actions r = [Rebalance target])
   else rp_actions r = [Hold]).

Lemma hold_report_ok data now : report_ok data (hold_report now).
Proof.
  unfold report_ok, hold_report. cbn [rp_optimal_weights pw_weights rp_rebalance_needed rp_actions].
  split; [rewrite map_size_empty; apply Nat.le_0_l|]. split; [intros s w; by rewrite lookup_empty|done].
Qed.

Lemma report_of_weights (data : PortfolioData D) w (metrics : PortfolioMetrics) needed now a b c :
  length w = length (selected_of data) -> held_within MAX_HOLDINGS (seq 0 (length (selected_of data))) w ->
  exists acts, (if (needed : bool) then generate_rebalance_actions (selected_of data) w else Some [Hold]) = Some acts /\
  report_ok data (mkPortfolioExecutionReport acts
    (mkPortfolioWeights (weight_map (selected_of data) w) now a b c) needed metrics now).
Proof.
  intros Hl Hheld. set (target := weight_map (selected_of data) w).
  assert (Hrep : forall acts,
    (if needed then (target = ∅ /\ acts = []) \/ (target <> ∅ /\ acts = [Rebalance target]) else acts = [Hold]) ->
    report_ok data (mkPortfolioExecutionReport acts (mkPortfolioWeights target now a b c) needed metrics now)).
  { intros acts Ha. split; [by eapply weight_map_size|]. split; [|done].
    intros s x Hx. apply weight_map_elem in Hx as (i & t & y & Ht & _ & <- & Hpos & ->).
    apply list_elem_of_lookup_2, elem_of_selected in Ht as (Hin & Hf & Hh). exists t, y. done. }
  destruct needed; [|by eauto]. unfold generate_rebalance_actions. rewrite Hl, Nat.ltb_irrefl. fold target.
  eexists. split; [done|]. apply Hrep. destruct (decide (target = ∅)); [by left|by right].
Qed.
End report_theorems.

(** C4: whatever the matrix libraries answer, a call returns a report, for
    tokens listed once, histories filed under their own token, finite prices and
    confidences, holdings with the decimals of their rate and a volatility that
    is a number.  Its target weights name at most [MAX_HOLDINGS] tokens, each of
    them a token that passes the hard filter and has a price history, with a
    weight that was positive before it was rounded to ten decimals; the actions
    are [Hold] when no rebalance is needed, otherwise the one rebalance to
    exactly these weights, or nothing when there are no target weights.  The
    only other end is a panic of the standard library's sort, on a ranking of
    this optimisation with a weight that is not a number. *)
Theorem optimizer_report {H : Numerics} {HL : NumericsLaws} (D : Type) {HB : BigDecimal D} {HF : FromF64 D}
  (now : Z) (wallet : WalletInfo D) (data : PortfolioData D) (threshold : f64)
  (Hin : inputs_ok wallet data) :
  match execute_portfolio_optimization now wallet data threshold with
  | Ok r => report_ok data r
  | Err _ => False
  | Panic => exists l, ranked_in data l /\ existsb (fun p => f64_is_nan p.2) l = true /\ sort_incomparable l = None
  end.
Proof.
  unfold execute_portfolio_optimization. destruct (hard_filter_tokens (pd_tokens data)) as [|t0 l0] eqn:Ehf.
  { apply hold_report_ok. }
  clear Ehf t0 l0. unfold report_selected, optimize_selected. cbv zeta. fold (daily_of data).
  set (n := length (selected_of data)).
  destruct (expected_returns_Some wallet data (filter (fun '(symbol, _) =>
    Exists (fun t => td_symbol t = symbol) (selected_of data)) (pd_predictions data)) Hin) as (er & Eer & Her);
    [apply map_filter_subseteq|]. rewrite Eer. fold n in Her. cbn [mbind option_bind].
  destruct (covariance_square (daily_of data)) as (cov & Ecov & Hcov). rewrite Ecov.
  rewrite (daily_length wallet data Hin) in Hcov. fold n in Hcov. cbn [mbind option_bind].
  pose proof (unified_cases er cov (liquidity_of data) (cap_of data) MAX_HOLDINGS MIN_POSITION_SIZE (alphas_of data)) as Hu.
  cbv zeta in Hu. rewrite Her in Hu.
  specialize (Hu Hcov (length_fmap _ _) (position_cap_ok _ (io_volatility _ _ Hin)) (length_fmap _ _)
    (alphas_of_ok wallet data Hin) (Nat.neq_succ_0 _)).
  change (unified_optimize er cov _ _ _ _ _) with
    (unified_optimize er cov (liquidity_of data) (cap_of data) MAX_HOLDINGS MIN_POSITION_SIZE (alphas_of data)).
  destruct (unified_optimize _ _ _ _ _ _ _) as [w|]; cbn [mbind option_bind].
  2: { destruct Hu as (adj & l & Hadj & Hr & Hp). exists l. split; [by exists er, adj, cov|done]. }
  destruct Hu as [[Hlw _] Hheld].
  destruct (current_weights_Some wallet data Hin) as (cw & -> & _). cbn [mbind option_bind].
  destruct (variance_Some n cov w Hcov Hlw) as [var Evar]. unfold calculate_portfolio_std. rewrite Evar. cbn [mbind option_bind].
  edestruct (report_of_weights data w) as (acts & Eacts & Hok); [exact Hlw|exact Hheld|].
  rewrite Eacts. cbn [mbind option_bind expect]. exact Hok.
Qed.

(** The weights of [unified_optimize], for any answers of the matrix
    libraries of the right shape: the function returns, with one weight per
    token, none of them below zero, and all but at most [max_holdings] of them
    zero. *)
Theorem optimizer_long_only {H : Numerics} {HL : NumericsLaws} (returns : list f64) (cov : matrix)
  (liquidity : list f64) (max_position : f64) (max_holdings : nat) (min_size : f64) (alphas : list f64)
  (Hsort : forall l, sort_incomparable l <> None)
  (Hcov : square (length returns) cov) (Hliq : length liquidity = length returns)
  (Halpha : length alphas = length returns) (Hcap : f64_leb f64_zero max_position = true)
  (Hk : 0 < max_holdings) (Hunit : Forall alpha_ok alphas) :
  exists w, unified_optimize returns cov liquidity max_position max_holdings min_size alphas = Some w /\
    length w = length returns /\
    (forall i x, w !! i = Some x -> f64_ltb x f64_zero = false) /\
    (exists held, length held <= max_holdings /\
      forall i x, w !! i = Some x -> i ∉ held -> f64_is_zero x = true).
Proof.
  pose proof (unified_cases returns cov liquidity max_position max_holdings min_size alphas Hcov Hliq) as Hu.
  cbv zeta in Hu. assert (Hcap' : cap_ok max_position).
  { intros n. unfold effective_max_of. destruct (f64_ltb _ _); [apply one_div_nat|done]. }
  specialize (Hu Hcap' Halpha Hunit ltac:(lia)). destruct (unified_optimize _ _ _ _ _ _ _) as [w|].
  2: { destruct Hu as (adj & l & _ & _ & _ & Hp). by destruct (Hsort l). }
  destruct Hu as [[Hl Hw] Hh]. exists w. split; [done|]. split; [done|]. split.
  - intros i x Hx. apply nn_iff. rewrite Forall_lookup in Hw. by eapply Hw.
  - destruct Hh as (held & Hk' & _ & Hsup). by exists held.
Qed.

(** C5: when more candidates are left than may be held, [exhaustive_optimize]
    is the search it stands for, without its cache and its iterator: it
    returns, and its weights are those of a subset of [max_holdings] candidates
    (re-optimised until all positions reach the least size, or none does) such
    that no other subset scores more; only when no subset has a score above
    minus infinity, or the best weights are all zero, it spreads equal weights
    over the first candidates. *)
Theorem search_is_exhaustive {H : Numerics} {HL : NumericsLaws} (params : SubsetOptParams) (active : list nat)
  (max_holdings : nat) (min_size : f64) (Hp : params_ok params)
  (Hactive : below (length (sp_expected_returns params)) active)
  (Hk : 0 < max_holdings) (Hmore : max_holdings < length active) :
  exists s w r,
    exhaustive_optimize active (sp_expected_returns params) (sp_covariance_matrix params) (sp_max_position params)
      max_holdings min_size (sp_alphas params) = Some r /\
    best_of params min_size (choose max_holdings active)
      (f64_neg_infinity, replicate (length (sp_expected_returns params)) f64_zero) = Some (s, w) /\
    ((s, w) = (f64_neg_infinity, replicate (length (sp_expected_returns params)) f64_zero) \/
     exists U, U ∈ choose max_holdings active /\ candidate params min_size U = Some w /\
       score params w = Some (Some s) /\ exists T, T ⊆ U /\ supported w T /\ settled min_size w T) /\
    (forall U w' s', U ∈ choose max_holdings active -> candidate params min_size U = Some w' ->
       score params w' = Some (Some s') -> f64_ltb s s' = false) /\
    (if forallb (fun x => f64_eqb x f64_zero) w
     then fill w (take max_holdings active) (f64_div f64_one (f64_of_nat max_holdings)) = Some r
     else r = w).
Proof.
  destruct (exhaustive_ok active params max_holdings min_size Hp ltac:(lia) Hactive) as (r & Er & _).
  pose proof (exhaustive_eq active params max_holdings min_size ltac:(lia)) as Eeq. rewrite Er in Eeq.
  unfold exhaustive_reference in Er. destruct (Nat.eqb_spec (length active) 0); [lia|].
  destruct (Nat.leb_spec (length active) max_holdings); [lia|].
  destruct (best_of params min_size (choose max_holdings active) _) as [[s w]|] eqn:Eb; [|done].
  cbn [mbind option_bind snd] in Er. exists s, w, r. split; [done|]. split; [done|]. split; [|split].
  - destruct (best_of_spec _ _ _ _ _ _ Eb) as [Hsw|(U & HU & Hc & Hs)]; [by left|right].
    exists U. split; [done|]. split; [done|]. split; [done|].
    destruct (choose_subset_below _ _ _ _ Hactive HU) as (HUb & _ & _).
    destruct (candidate_ok params min_size U Hp HUb) as (w' & Ew & _ & _ & HT). rewrite Hc in Ew. by injection Ew as <-.
  - apply (best_of_greatest _ _ _ _ _ _ Eb).
  - destruct (forallb _ w); [done|by injection Er].
Qed.

(** ** An instance

    Matrices treated as if they were diagonal: solutions divide by the
    diagonal, products are the usual ones. *)

#[global] Instance diagonal_numerics : Numerics := {|
  Cholesky := list (list spec_float);
  LU := unit;
  cholesky m := if forallb (fun i => f64_ltb f64_zero (entry m i i)) (seq 0 (length m)) then Some m else None;
  chol_solve m b := imap (fun i x => f64_div x (entry m i i)) b;
  lu _ := tt;
  lu_solve _ _ := None;
  symmetric_eigen m := ((fun i => entry m i i) <$> seq 0 (length m),
    mat_of (length m) (fun i j => if i =? j then f64_one else f64_zero));
  na_mul a b := mat_of (length a) (fun i j =>
    f64_sum ((fun k => f64_mul (entry a i k) (entry b k j)) <$> seq 0 (length a)));
  nd_dot v w := f64_sum (zip_with f64_mul v w);
  nd_mat_vec m v := (fun r => f64_sum (zip_with f64_mul r v)) <$> m;
  sort_incomparable l := Some l;
|}.

#[global] Instance diagonal_laws : NumericsLaws.
Proof.
  split; cbn.
  - intros m c b _. destruct (forallb _ _); [|done]. intros [= <-]. apply length_imap.
  - done.
  - intros n m [Hl _]. split; [by rewrite length_fmap, length_seq|]. rewrite Hl. apply mat_of_square.
  - intros n a b [Hl _] _. rewrite Hl. apply mat_of_square.
  - intros m v. apply length_fmap.
  - by intros l k [= <-].
Qed.

#[global] Instance rational_from_f64 : FromF64 Q := {|
  bd_from_f64 x := match x with
    | S754_zero _ => Some (inject_Z 0)
    | S754_finite s m e => Some (Qmult (inject_Z (if s then Z.neg m else Z.pos m)) (Qpower (inject_Z 2) e))
    | _ => None
    end;
  bd_round_half_up q scale :=
    Qred (Qdiv (inject_Z (Qfloor (Qplus (Qmult q (inject_Z (10 ^ Z.of_N scale))) (Qmake 1 2)))) (inject_Z (10 ^ Z.of_N scale)));
|}.

(** Three assets, of which two may be held. *)
Definition three_returns : list f64 := [f64_literal 5 2; f64_literal 2 2; f64_literal 1 2].
Definition three_cov : matrix :=
  [[f64_literal 4 2; f64_zero; f64_zero]; [f64_zero; f64_literal 2 2; f64_zero]; [f64_zero; f64_zero; f64_literal 9 2]].
Definition three_alphas : list f64 := replicate 3 PREDICTION_ALPHA_FLOOR.
Definition three_params : SubsetOptParams :=
  mkSubsetOptParams three_returns three_cov MAX_POSITION_SIZE three_alphas.

Lemma three_alphas_ok : Forall alpha_ok three_alphas.
Proof. by repeat constructor. Qed.
Lemma three_square : square 3 three_cov.
Proof. split; [done|]. by repeat constructor. Qed.

(** The first two are held, half each of the risk. *)
Example three_assets_weights :
  match unified_optimize three_returns three_cov [f64_one; f64_one; f64_one] MAX_POSITION_SIZE 2 MIN_POSITION_SIZE three_alphas with
  | Some [a; b; c] => f64_ltb f64_zero a && f64_ltb f64_zero b && f64_is_zero c
  | _ => false
  end = true.
Proof. vm_compute. reflexivity. Qed.

Lemma optimizer_long_only_witness :
  exists w, unified_optimize three_returns three_cov [f64_one; f64_one; f64_one] MAX_POSITION_SIZE 2
      MIN_POSITION_SIZE three_alphas = Some w /\ length w = 3 /\
    (forall i x, w !! i = Some x -> f64_ltb x f64_zero = false) /\
    (exists held, length held <= 2 /\ forall i x, w !! i = Some x -> i ∉ held -> f64_is_zero x = true).
Proof.
  refine (optimizer_long_only three_returns three_cov [f64_one; f64_one; f64_one] MAX_POSITION_SIZE 2
    MIN_POSITION_SIZE three_alphas _ three_square eq_refl eq_refl eq_refl _ three_alphas_ok).
  - intros l E. discriminate E.
  - repeat constructor.
Defined.

Lemma three_params_ok : params_ok three_params.
Proof.
  split; [exact three_square|]. split; [|split; [done|exact three_alphas_ok]].
  intros n. unfold effective_max_of. destruct (f64_ltb _ _); [apply one_div_nat|done].
Qed.

Lemma search_is_exhaustive_witness :
  exists s w, best_of three_params MIN_POSITION_SIZE (choose 2 [0; 1; 2])
    (f64_neg_infinity, replicate 3 f64_zero) = Some (s, w).
Proof.
  destruct (search_is_exhaustive three_params [0; 1; 2] 2 MIN_POSITION_SIZE three_params_ok
    ltac:(repeat constructor) ltac:(lia) ltac:(cbn; lia)) as (s & w & r & _ & E & _).
  exists s, w. exact E.
Defined.

(** Two tokens with a history of three days. *)
Definition day_price (day : Z) (p : Q) : PricePoint Q := mkPricePoint day (mkTokenPrice p) None.
Definition usdt_history : PriceHistory Q :=
  mkPriceHistory "usdt" "wrap.near" [day_price 1 (2 # 10); day_price 2 (21 # 100); day_price 3 (22 # 100)].
Definition eth_history : PriceHistory Q :=
  mkPriceHistory "eth" "wrap.near" [day_price 1 (1000 # 1); day_price 2 (1010 # 1); day_price 3 (1005 # 1)].
Definition demo_tokens : list (TokenData Q) :=
  [mkTokenData "usdt" (mkExchangeRate (5000000 # 1) 6) f64_zero (Some f64_one) None;
   mkTokenData "eth" (mkExchangeRate (1000000000000000 # 1) 18) f64_zero (Some f64_one) (Some (mkNearValue (20000 # 1)))].
Definition demo_data : PortfolioData Q :=
  mkPortfolioData demo_tokens {["eth" := mkTokenPrice (1100 # 1)]}
    (<["usdt" := usdt_history]> {["eth" := eth_history]}) {["eth" := f64_literal 8 1]}.
Definition demo_wallet : WalletInfo Q :=
  mkWalletInfo {["usdt" := mkTokenAmount (50000000 # 1) 6]} (mkNearValue (100 # 1)) (mkNearValue (90 # 1)).

Lemma demo_inputs_ok : inputs_ok demo_wallet demo_data.
Proof.
  split.
  - by repeat (constructor; [set_solver|]); constructor.
  - apply map_Forall_insert_2; [done|]. by apply map_Forall_singleton.
  - intros t p Ht Hp. cbn in Ht. apply elem_of_cons in Ht as [->|Ht]; [done|].
    apply list_elem_of_singleton in Ht as ->. cbn in Hp. injection Hp as <-.
    split; vm_compute; eauto.
  - by apply map_Forall_singleton.
  - intros t h Ht Hh. cbn in Ht. apply elem_of_cons in Ht as [->|Ht].
    + cbn in Hh. by injection Hh as <-.
    + apply list_elem_of_singleton in Ht as ->. done.
  - vm_compute. reflexivity.
Qed.

Lemma optimizer_report_witness :
  exists r, execute_portfolio_optimization 0 demo_wallet demo_data (f64_literal 1 1) = Ok r /\ report_ok demo_data r.
Proof.
  pose proof (optimizer_report Q 0 demo_wallet demo_data (f64_literal 1 1) demo_inputs_ok) as Hr.
  destruct (execute_portfolio_optimization 0 demo_wallet demo_data (f64_literal 1 1)) as [r|e|].
  - exists r. exact (conj eq_refl Hr).
  - destruct Hr.
  - destruct Hr as (l & _ & _ & E). discriminate E.
Defined.
