(* ===== verification/Market.v ===== *)
(** * Market: volatility, liquidity and size of a token's market

    [crates/trade/src/market_data.rs] beyond the metadata of [TradeSwap]: the
    reading of [decimals], the volatility of a price history with its square
    root by Newton's method, the liquidity score of a token and the estimate of
    its market capitalisation.  Prices are the decimals of the bigdecimal
    crate, scores are [f64].  The text conversions of that crate and the
    natural logarithm of the platform are parameters. *)

From Stdlib Require Import QArith Qabs Lqa SpecFloat.
From S2P Require Import Prelude NearClient StoragePlanner Storage F64 Vectors F64Order BigDecimal Units Rounding.
From S2P Require Import Config Execution Optimizer.
Local Open Scope N_scope.

(** ** [decimals] of the metadata *)

(** [serde_json::Value], as far as it is told apart: a number keeps the form
    it was written in. *)
Inductive JsonNumber : Type := PosInt (u : N) | NegInt (i : Z) | Float (f : f64).
Inductive JsonValue : Type := VNumber (n : JsonNumber) | VString (s : string) | VOther.

Definition as_u64 (n : JsonNumber) : option N := match n with PosInt u => Some u | _ => None end.
Definition as_f64 (n : JsonNumber) : option f64 :=
  match n with PosInt u => Some (f64_of_N u) | NegInt i => Some (f64_of_Z i) | Float f => Some f end.
Definition as_str (v : JsonValue) : option string := match v with VString s => Some s | _ => None end.

(** [f.fract() == 0.0], the difference to the truncated number. *)
Definition fract_is_zero (x : f64) : bool :=
  match x with
  | S754_zero _ => true
  | S754_finite _ m e => ((0 <=? e) || (Z.pos m mod 2 ^ (- e) =? 0))%Z
  | _ => false
  end.

Definition deserialize_decimals (value : JsonValue) : outcome anyhow N :=
  match value with
  | VNumber n =>
      match as_u64 n with
      | Some u => if u <=? 255 then Ok u else Err (Anyhow "decimals out of range" [u])
      | None =>
          match as_f64 n with
          | Some f =>
              if fract_is_zero f && (f64_leb f64_zero f && f64_leb f (f64_of_Z 255))
              then Ok (N.min (f64_to_u128 f) 255)
              else Err (Anyhow "decimals out of range or fractional" [])
          | None => Err (Anyhow "invalid number for decimals" [])
          end
      end
  | _ => Err (Anyhow "expected number for decimals" [])
  end.

(** ** Volatility *)
Section volatility.
Context {D : Type} `{BigDecimal D}.

(** [1 / 10000000000]. *)
Definition sqrt_precision : D := bd_div (bd_of_Z 1) (bd_of_N 10000000000).
Definition bd_two : D := bd_of_Z 2.

Fixpoint sqrt_loop (iterations : nat) (value x : D) : outcome anyhow D :=
  match iterations with
  | O => Ok x
  | S iterations =>
      let? q := bd_quot value x in
      let? next_x := bd_quot (bd_add x q) bd_two in
      let diff := if bd_ltb x next_x then bd_sub next_x x else bd_sub x next_x in
      if bd_ltb diff sqrt_precision then Ok next_x else sqrt_loop iterations value next_x
  end.

Definition sqrt_bigdecimal (value : D) : outcome anyhow D :=
  if bd_is_zero value then Ok (bd_of_Z 0)
  else if bd_ltb value bd_zero then Err (Anyhow "Cannot calculate square root of negative number" [])
  else let? x := bd_quot value bd_two in sqrt_loop 50 value x.

(** The relative changes of the price; a price of zero has none. *)
Definition price_returns (sorted_prices : list (PricePoint D)) : list D :=
  omap (fun '(prev, curr) =>
    if price_is_zero (pp_price prev) then None
    else Some (price_ratio (price_sub (pp_price curr) (pp_price prev)) (pp_price prev)))
    (zip sorted_prices (tail sorted_prices)).

Definition mean_return (returns : list D) : outcome anyhow D :=
  bd_quot (bd_sum returns) (bd_of_N (N.of_nat (length returns))).
Definition sample_variance (returns : list D) (mean : D) : outcome anyhow D :=
  bd_quot (bd_sum ((fun r => let diff := bd_sub r mean in bd_mul diff diff) <$> returns))
    (bd_of_N (N.of_nat (length returns - 1))).

Definition by_timestamp (prices : list (PricePoint D)) : list (PricePoint D) :=
  sort_by (fun a b => (pp_timestamp a <=? pp_timestamp b)%Z) prices.

Definition calculate_volatility_from_history (history : PriceHistory D) : outcome anyhow D :=
  if (length (hist_prices history) <? 2)%nat
  then Err (Anyhow "Insufficient price data for volatility calculation" [])
  else
    let returns := price_returns (by_timestamp (hist_prices history)) in
    match returns with
    | [] => Err (Anyhow "No valid price returns for volatility calculation" [])
    | [_] => Ok (bd_of_Z 0)
    | _ =>
        let? mean := mean_return returns in
        let? variance := sample_variance returns mean in
        if bd_is_zero variance then Ok (bd_of_Z 0)
        else if bd_ltb variance bd_zero then Err (Anyhow "Invalid negative variance" [])
        else sqrt_bigdecimal variance
    end.
End volatility.

(** ** Liquidity and market capitalisation *)

(** What the scores read of the configuration. *)
Record MarketConfig := mkMarketConfig {
  mc_volume_weight : f64;
  mc_pool_weight : f64;
  mc_error_default_score : f64;
  mc_min_pool_liquidity : N;
}.

(** [to_string().parse::<f64>()] and [from_str] of decimals. *)
Class DecimalText (D : Type) := {
  bd_text_to_f64 : D -> option f64;
  bd_from_str : string -> option D;
}.
(** [f64::ln], whose last digits the language leaves open. *)
Class Logarithm := f64_ln : f64 -> f64.

Section scores.
Context {P D : Type} `{BigDecimal D} `{!DecimalText D} `{Logarithm} `{!FromSlice P JsonValue}.
Context (is_mainnet : bool) (cfg : MarketConfig).

Definition volumes_of (history : PriceHistory D) : list D := omap pp_volume (hist_prices history).

(** [count] and [base_volume] are positive. *)
Definition calculate_liquidity_score (history : PriceHistory D) : f64 :=
  match volumes_of history with
  | [] => f64_literal 5 1
  | volumes =>
      let avg_volume := bd_div (bd_sum volumes) (bd_of_N (N.of_nat (length volumes))) in
      let normalized := bd_div avg_volume (bd_of_N (10 ^ 24)) in
      let score := f64_clamp (default (f64_literal 5 1) (bd_text_to_f64 normalized)) f64_zero f64_one in
      if f64_ltb f64_zero score then
        f64_clamp (f64_div (f64_add (f64_ln score) (f64_of_Z 10)) (f64_of_Z 20)) f64_zero f64_one
      else f64_literal 1 1
  end.

Definition get_token_pool_liquidity (ref_exchange_account : AccountId) (token_id : TokenAccount) : prog P N :=
  let! result := view_contract token_id "ft_balance_of" (JObj [("account_id", JStr ref_exchange_account)]) in
  let! balance_json := lift (ok_or (Anyhow "Failed to parse balance result" []) (from_slice result)) in
  match as_str balance_json with
  | Some balance_str => lift (ok_or (Anyhow "Failed to parse balance" []) (parse_unsigned U128_MAX balance_str))
  | None => Ret (Err (Anyhow "Expected string balance" []))
  end.

Definition high_liquidity_threshold : N := mc_min_pool_liquidity cfg * 10 ^ 24.
Definition pool_score_of (liquidity_amount : N) : f64 :=
  let liquidity_ratio := f64_div (f64_of_N liquidity_amount) (f64_of_N high_liquidity_threshold) in
  f64_clamp (f64_div liquidity_ratio (f64_add f64_one liquidity_ratio)) f64_zero f64_one.

Definition calculate_pool_liquidity_score (token_id : TokenAccount) : prog P f64 :=
  let! liquidity := attempt (get_token_pool_liquidity (CONTRACT_ADDRESS is_mainnet) token_id) in
  match liquidity with
  | inl liquidity_amount => Ret (Ok (pool_score_of liquidity_amount))
  | inr _ => Ret (Ok (mc_error_default_score cfg))
  end.

Definition combined_score (volume_score pool_score : f64) : f64 :=
  f64_clamp (f64_add (f64_mul volume_score (mc_volume_weight cfg)) (f64_mul pool_score (mc_pool_weight cfg)))
    f64_zero f64_one.

Definition calculate_enhanced_liquidity_score (token_id : TokenAccount) (history : PriceHistory D) : prog P f64 :=
  let volume_score := calculate_liquidity_score history in
  let! pool_score := calculate_pool_liquidity_score token_id in
  Ret (Ok (combined_score volume_score pool_score)).

Definition get_token_total_supply (token_id : TokenAccount) (decimals : N) : prog P (TokenAmount D) :=
  let! result := view_contract token_id "ft_total_supply" (JObj []) in
  let! json_value := lift (ok_or (Anyhow "Failed to parse result as JSON" []) (from_slice result)) in
  match as_str json_value with
  | Some total_supply_str =>
      let! smallest_units := lift (ok_or (Anyhow "Failed to parse total supply" []) (bd_from_str total_supply_str)) in
      Ret (Ok (from_smallest_units smallest_units decimals))
  | None => Ret (Err (Anyhow "Expected string value for total supply" []))
  end.

(** The supply that is assumed when it cannot be read is a literal. *)
Definition estimate_market_cap_async (token_id : TokenAccount) (price : TokenPrice D) (decimals : N)
  : prog P (NearValue D) :=
  let! supply := attempt (get_token_total_supply token_id decimals) in
  let total_supply := match supply with
                      | inl a => a
                      | inr _ => from_smallest_units (bd_of_N (10 ^ 24)) decimals
                      end in
  if price_is_zero price then Ret (Ok (from_near (bd_of_Z 10000)))
  else Ret (Ok (amount_mul_price total_supply price)).
End scores.

(** * The square root

    One step of Newton's method on a positive [v] goes from [x] to about
    [newton x v], and the distance to it is at least halved in the next one. *)
Section newton.
Local Open Scope Q_scope.

Definition eps : Q := 1 # 10 ^ 99.

Lemma newton_square x v N : 2 * x * N == x * x + v -> N * N == v + (x - N) * (x - N).
Proof. intros E. nra. Qed.

Lemma square_le a b : 0 <= b -> a * a <= b * b -> a <= b.
Proof. intros Hb Hab. destruct (Qlt_le_dec b a) as [Hl|]; [|done]. nra. Qed.

Lemma square_nonneg a : 0 <= a * a.
Proof. nra. Qed.

Lemma square_mono a b : 0 <= a -> a <= b -> a * a <= b * b.
Proof. intros Ha Hab. nra. Qed.

Lemma newton_near x v N n : 0 < v -> 0 < N -> 2 * x * N == x * x + v ->
  N * (1 - 3 * eps) <= n -> n <= N * (1 + 3 * eps) ->
  Qabs (n * n - v) <= (x - N) * (x - N) + 7 * eps * (N * N).
Proof.
  intros Hv HN E Hl Hu. pose proof (newton_square x v N E) as Hs.
  assert (He : 0 < eps /\ eps <= 1 # 100) by (split; vm_compute; congruence).
  destruct He as [He0 He1]. assert (Hee : eps * eps <= eps * (1 # 100)) by nra.
  generalize dependent eps. intros e Hl Hu He0 He1 Hee.
  assert (HN1 : 0 <= N * (1 - 3 * e)) by nra. assert (Hn : 0 <= n) by lra.
  pose proof (square_mono _ _ HN1 Hl) as Hlo. pose proof (square_mono _ _ Hn Hu) as Hhi.
  set (s := N * N) in *. assert (Hs0 : 0 < s) by (unfold s; nra).
  setoid_replace (N * (1 - 3 * e) * (N * (1 - 3 * e))) with (s - 6 * (s * e) + 9 * (s * (e * e))) in Hlo by (unfold s; ring).
  setoid_replace (N * (1 + 3 * e) * (N * (1 + 3 * e))) with (s + 6 * (s * e) + 9 * (s * (e * e))) in Hhi by (unfold s; ring).
  assert (Hse : s * (e * e) <= s * (e * (1 # 100))) by nra. assert (Hse0 : 0 <= s * e) by nra.
  assert (Hsee : 0 <= s * (e * e)) by nra.
  setoid_replace (7 * e * s) with (7 * (s * e)) by ring.
  pose proof (square_nonneg (x - N)) as Hd0. apply Qabs_Qle_condition. split.
  - lra.
  - lra.
Qed.

Lemma newton_contracts x v N n M : 0 < v -> v <= 10000 -> 0 < N -> 2 * x * N == x * x + v -> 0 < n ->
  N * (1 - 3 * eps) <= n -> n <= N * (1 + 3 * eps) -> 2 * n * M == n * n + v ->
  Qabs (n - M) <= (51 # 100) * Qabs (x - N) + (1 # 10 ^ 90).
Proof.
  intros Hv Hv4 HN E Hn Hl Hu EM. pose proof (newton_square x v N E) as Hs.
  pose proof (newton_near x v N n Hv HN E Hl Hu) as Hc. clear Hu E.
  assert (He : 0 < eps /\ eps <= 1 # 10 ^ 99) by (split; vm_compute; congruence). destruct He as [He0 He1].
  set (a := Qabs (x - N)). assert (Ha : 0 <= a) by apply Qabs_nonneg.
  assert (Haa : (x - N) * (x - N) == a * a).
  { unfold a. rewrite <- Qabs_Qmult. symmetry. apply Qabs_pos, square_nonneg. }
  rewrite Haa in *. clearbody a. clear Haa x.
  assert (HaN : a <= N) by (apply square_le; nra).
  assert (HNa : N <= a + v + 1) by (apply square_le; nra).
  set (b := Qabs (n - M)). assert (Hb : 0 <= b) by apply Qabs_nonneg.
  assert (Hbn : b * (2 * n) == Qabs (n * n - v)).
  { unfold b. rewrite <- (Qabs_pos (2 * n)) at 1 by lra. rewrite <- Qabs_Qmult. apply Qabs_wd. nra. }
  rewrite <- Hbn in Hc. clearbody b. clear Hbn EM M.
  assert (Hk : N * (b * (2 * (1 - 3 * eps))) <= N * (a + 7 * eps * N)).
  { assert (H1 : b * (2 * (N * (1 - 3 * eps))) <= b * (2 * n)) by nra.
    assert (H2 : a * a <= a * N) by nra. nra. }
  apply Qmult_le_l in Hk; [|done].
  assert (H3 : eps * N <= eps * (a + 10001)) by nra.
  assert (H4 : b * (1 - 3 * eps) <= (1 # 2) * a + (7 # 2) * (eps * (a + 10001))) by nra.
  assert (He2 : eps <= 1 # 1000) by (vm_compute; congruence).
  assert (He3 : 40000 * eps <= 1 # 10 ^ 90) by (vm_compute; congruence).
  clear - H4 He0 He2 He3 Ha Hb. generalize dependent (1 # 10 ^ 90). generalize dependent eps. intros e He0 H4 He2 t Ht.
  assert (H5 : b * (997 # 1000) <= b * (1 - 3 * e)) by nra.
  assert (H6 : e * (a + 10001) <= (1 # 1000) * a + 10001 * e) by nra. lra.
Qed.

Definition newton (x v : Q) : Q := (x + v / x) / 2.
Definition gap (x v : Q) : Q := Qabs (x - newton x v).

Lemma newton_eq x v : 0 < x -> 2 * x * newton x v == x * x + v.
Proof. intros Hx. unfold newton. field. lra. Qed.

Lemma newton_pos x v : 0 < x -> 0 < v -> 0 < newton x v.
Proof.
  intros Hx Hv. assert (Hq : 0 < v / x) by (apply Qlt_shift_div_l; lra).
  unfold newton. apply Qlt_shift_div_l; lra.
Qed.

(** What is allowed as a distance when [k] more rounds follow. *)
Fixpoint allowance (k : nat) : Q := match k with O => 6 # 10 ^ 11 | S k => (49 # 25) * allowance k end.

Lemma allowance_min k : (6 # 10 ^ 11) <= allowance k.
Proof.
  assert (H0 : 0 <= 6 # 10 ^ 11) by (vm_compute; congruence).
  induction k as [|k IH]; cbn [allowance]; [apply Qle_refl|].
  revert H0 IH. generalize (6 # 10 ^ 11) (allowance k). intros a b Ha Hb. lra.
Qed.

Lemma newton_size x v : 0 < x -> 0 < v -> newton x v <= gap x v + v + 1.
Proof.
  intros Hx Hv. pose proof (newton_square x v _ (newton_eq x v Hx)) as Hs.
  pose proof (newton_pos x v Hx Hv) as Hp.
  assert (Haa : (x - newton x v) * (x - newton x v) == gap x v * gap x v).
  { unfold gap. rewrite <- Qabs_Qmult. symmetry. apply Qabs_pos, square_nonneg. }
  assert (Ha : 0 <= gap x v) by apply Qabs_nonneg.
  rewrite Haa in Hs. apply square_le; [lra|].
  revert Hs Ha. generalize (newton x v) (gap x v). intros. nra.
Qed.
(** A round is near its Newton step. *)
Lemma round_error N n : 0 < N -> N <= 23001 -> N * (1 - 3 * eps) <= n -> n <= N * (1 + 3 * eps) ->
  Qabs (n - N) <= 1 # 10 ^ 90.
Proof.
  intros H0 H1 Hl Hu. assert (He : 0 < eps /\ 23001 * (3 * eps) <= 1 # 10 ^ 90) by (split; vm_compute; congruence).
  destruct He as [He0 He1]. revert Hl Hu He0 He1. generalize eps (1 # 10 ^ 90). intros e t Hl Hu He0 He1.
  apply Qabs_Qle_condition. split; nra.
Qed.

(** A round that the loop returns: its square is the argument to within 2e-20. *)
Lemma round_accuracy x v n : 0 < x -> 0 < v -> v <= 10000 -> gap x v <= 13000 ->
  newton x v * (1 - 3 * eps) <= n -> n <= newton x v * (1 + 3 * eps) ->
  Qabs (n - x) < 1 # 10 ^ 10 -> Qabs (n * n - v) <= 2 # 10 ^ 20.
Proof.
  intros Hx Hv Hv4 Hg Hl Hu Hd. pose proof (newton_pos x v Hx Hv) as HN.
  pose proof (newton_size x v Hx Hv) as Hsz.
  pose proof (newton_near x v _ n Hv HN (newton_eq x v Hx) Hl Hu) as Hc.
  pose proof (round_error _ n HN ltac:(lra) Hl Hu) as Hr.
  assert (Hgap : gap x v <= (1 # 10 ^ 10) + (1 # 10 ^ 90)).
  { unfold gap. apply Qabs_Qle_condition in Hr. apply Qabs_Qlt_condition in Hd.
    apply Qabs_Qle_condition. revert Hr Hd. generalize (1 # 10 ^ 10) (1 # 10 ^ 90). intros; split; lra. }
  assert (Haa : (x - newton x v) * (x - newton x v) == gap x v * gap x v).
  { unfold gap. rewrite <- Qabs_Qmult. symmetry. apply Qabs_pos, square_nonneg. }
  rewrite Haa in Hc. eapply Qle_trans; [exact Hc|].
  assert (H2 : gap x v * gap x v <= ((1 # 10 ^ 10) + (1 # 10 ^ 90)) * ((1 # 10 ^ 10) + (1 # 10 ^ 90)))
    by (apply square_mono; [apply Qabs_nonneg|done]).
  assert (H3 : newton x v * newton x v <= 23001 * 23001) by (apply square_mono; lra).
  assert (H4 : 7 * eps * (newton x v * newton x v) <= 7 * eps * (23001 * 23001)).
  { assert (0 <= 7 * eps) by (vm_compute; congruence). revert H3. generalize (newton x v * newton x v). intros; nra. }
  eapply Qle_trans; [apply Qplus_le_compat; [exact H2|exact H4]|]. vm_compute. congruence.
Qed.

End newton.

Section root.
Context {D : Type} `{BigDecimalLaws D}.
Local Open Scope Q_scope.

Lemma val_two : bd_val bd_two == 2.
Proof. unfold bd_two. rewrite val_of_Z. reflexivity. Qed.

Lemma val_precision : bd_val sqrt_precision == 1 # 10 ^ 10.
Proof.
  unfold sqrt_precision. rewrite (val_div_exact _ _ 1 (-10)).
  - rewrite val_of_Z, val_of_N. reflexivity.
  - rewrite val_of_N. by vm_compute.
  - by vm_compute.
  - rewrite val_of_Z, val_of_N. reflexivity.
Qed.

Lemma root_step (x v : D) : 0 < bd_val x -> 0 < bd_val v ->
  exists q next, bd_quot (E:=anyhow) v x = Ok q /\ bd_quot (E:=anyhow) (bd_add x q) bd_two = Ok next /\
    0 < bd_val next /\ newton (bd_val x) (bd_val v) * (1 - 3 * eps) <= bd_val next /\
    bd_val next <= newton (bd_val x) (bd_val v) * (1 + 3 * eps).
Proof.
  intros Hx Hv. exists (bd_div v x), (bd_div (bd_add x (bd_div v x)) bd_two).
  unfold bd_quot. rewrite (proj2 (bd_is_zero_false x)) by lra.
  rewrite (proj2 (bd_is_zero_false bd_two)) by (rewrite val_two; lra).
  split; [done|]. split; [done|].
  pose proof (near_bd_div v x Hv Hx) as Hq.
  assert (Hs : near 1 (bd_val x + bd_val v / bd_val x) (bd_val (bd_add x (bd_div v x)))).
  { destruct Hq as (Hq0 & Hq1 & Hq2 & Hq3). repeat split.
    - lra.
    - rewrite val_add. lra.
    - rewrite val_add. destruct (grains_bounds 1) as [G0 G1]. nra.
    - rewrite val_add. destruct (grains_bounds 1) as [G0 G1]. nra. }
  pose proof (near_quotient 1 0 _ 2 _ _ Hs ltac:(split; [lra|split; rewrite val_two; cbn; lra])) as (Hn0 & Hn1 & Hn2 & Hn3).
  change ((bd_val x + bd_val v / bd_val x) / 2) with (newton (bd_val x) (bd_val v)) in *.
  set (N := newton _ _) in *. set (n := bd_val (bd_div (bd_add x (bd_div v x)) bd_two)) in *. clearbody N n.
  split; [done|].
  assert (Hg : 1 - 3 * eps <= grains 2 /\ 1 <= grains 2 * (1 + 3 * eps)) by (split; vm_compute; congruence).
  destruct Hg as [Hg1 Hg2]. cbn [Nat.add] in *. split; [nra|].
  apply Qle_trans with (n * (grains 2 * (1 + 3 * eps))); [nra|].
  assert (0 < 1 + 3 * eps) by (vm_compute; congruence). nra.
Qed.
(** The distance of two rounds, as the loop computes it. *)
Lemma diff_val (x n : D) :
  bd_val (if bd_ltb x n then bd_sub n x else bd_sub x n) == Qabs (bd_val n - bd_val x).
Proof.
  destruct (bd_ltb x n) eqn:E.
  - apply bd_ltb_val in E. rewrite val_sub, Qabs_pos; lra.
  - apply bd_ltb_false in E. rewrite val_sub, Qabs_neg; lra.
Qed.

Lemma root_loop k (x v : D) : 0 < bd_val x -> 0 < bd_val v -> bd_val v <= 10000 ->
  gap (bd_val x) (bd_val v) <= 13000 -> gap (bd_val x) (bd_val v) <= allowance k ->
  exists s, sqrt_loop (S k) v x = Ok s /\ 0 < bd_val s /\ Qabs (bd_val s * bd_val s - bd_val v) <= 2 # 10 ^ 20.
Proof.
  revert x. induction k as [|k IH]; intros x Hx Hv Hv4 Hg Ha;
    destruct (root_step x v Hx Hv) as (q & n & Eq & En & Hn & Hl & Hu);
    pose proof (newton_pos _ _ Hx Hv) as HN; pose proof (newton_size _ _ Hx Hv) as Hsz;
    pose proof (round_error _ _ HN ltac:(lra) Hl Hu) as Hr;
    cbn [sqrt_loop]; rewrite Eq; cbn [obind]; rewrite En; cbn [obind];
    (destruct (bd_ltb _ sqrt_precision) eqn:Ed;
      [exists n; split; [done|]; split; [done|];
       apply bd_ltb_val in Ed; rewrite diff_val, val_precision in Ed; by apply (round_accuracy (bd_val x))|]).
  - exfalso. apply bd_ltb_false in Ed. rewrite diff_val, val_precision in Ed. unfold gap in Ha.
    assert (Hc : (6 # 10 ^ 11) + (1 # 10 ^ 90) < 1 # 10 ^ 10) by (vm_compute; congruence).
    apply Qabs_Qle_condition in Hr, Ha. apply (Qle_not_lt _ _ Ed). eapply Qle_lt_trans; [|exact Hc].
    apply Qabs_Qle_condition. cbn [allowance] in Ha. revert Hr Ha. generalize (6 # 10 ^ 11) (1 # 10 ^ 90). intros; split; lra.
  - clear Ed.
    pose proof (newton_contracts _ _ _ _ _ Hv Hv4 HN (newton_eq _ _ Hx) Hn Hl Hu (newton_eq _ _ Hn)) as Hc.
    fold (gap (bd_val n) (bd_val v)) in Hc. fold (gap (bd_val x) (bd_val v)) in Hc.
    pose proof (allowance_min k) as Hmin. cbn [allowance] in Ha.
    assert (Ht : (1 # 10 ^ 90) <= (1 # 10000) * (6 # 10 ^ 11)) by (vm_compute; congruence).
    assert (Hs : 0 <= 6 # 10 ^ 11 /\ (6 # 10 ^ 11) <= 1) by (split; vm_compute; congruence).
    revert Hc Ht Hmin Hs. generalize (1 # 10 ^ 90) (6 # 10 ^ 11). intros t u Hc Ht Hmin Hs.
    apply IH; [done|done|done| |].
    + lra.
    + lra.
Qed.

Lemma root_start (v : D) : 0 < bd_val v -> bd_val v <= 10000 ->
  0 < bd_val (bd_div v bd_two) /\ gap (bd_val (bd_div v bd_two)) (bd_val v) <= 2600.
Proof.
  intros Hv Hv4. destruct (near_bd_div v bd_two Hv ltac:(rewrite val_two; lra)) as (H1 & H2 & H3 & H4).
  rewrite val_two in *. set (x := bd_val (bd_div v bd_two)) in *. clearbody x. split; [done|].
  assert (Hg : (99 # 100) <= grains 1) by (vm_compute; congruence).
  assert (Hlo : (bd_val v / 2) * (99 # 100) <= x) by nra. assert (Hhi : x * (99 # 100) <= bd_val v / 2) by nra.
  clear H3 H4 Hg H1. setoid_replace (bd_val v / 2) with (bd_val v * (1 # 2)) in Hlo by field.
  setoid_replace (bd_val v / 2) with (bd_val v * (1 # 2)) in Hhi by field.
  pose proof (newton_eq x (bd_val v) H2) as E. pose proof (newton_pos x (bd_val v) H2 Hv) as HN.
  unfold gap. apply Qabs_Qle_condition. revert E HN. generalize (newton x (bd_val v)). intros N E HN.
  split; [|nra]. assert (Hx : x * (2 * N) <= x * (x + 3)) by nra. apply Qmult_le_l in Hx; [|done]. lra.
Qed.

(** Variances up to 10000 have a root; the loop finds it within its rounds. *)
Lemma sqrt_converges (v : D) : 0 < bd_val v -> bd_val v <= 10000 ->
  exists s, sqrt_bigdecimal v = Ok s /\ 0 < bd_val s /\ Qabs (bd_val s * bd_val s - bd_val v) <= 2 # 10 ^ 20.
Proof.
  intros Hv Hv4. destruct (root_start v Hv Hv4) as [Hx Hg]. unfold sqrt_bigdecimal.
  rewrite (proj2 (bd_is_zero_false v)) by lra. rewrite (proj2 (bd_ltb_false v bd_zero)) by (rewrite val_zero; lra).
  unfold bd_quot at 1. rewrite (proj2 (bd_is_zero_false bd_two)) by (rewrite val_two; lra). cbn [obind].
  apply root_loop; [done|done|done|lra|]. eapply Qle_trans; [exact Hg|]. vm_compute. congruence.
Qed.

(** Whatever the argument, a positive one has a positive result. *)
Lemma sqrt_loop_pos k (x v : D) : 0 < bd_val x -> 0 < bd_val v -> exists s, sqrt_loop k v x = Ok s /\ 0 < bd_val s.
Proof.
  revert x. induction k as [|k IH]; intros x Hx Hv; [by exists x|]. cbn [sqrt_loop].
  destruct (root_step x v Hx Hv) as (q & n & Eq & En & Hn & _). rewrite Eq. cbn [obind]. rewrite En. cbn [obind].
  destruct (bd_ltb _ sqrt_precision); [by exists n|by apply IH].
Qed.

Lemma sqrt_pos (v : D) : 0 < bd_val v -> exists s, sqrt_bigdecimal v = Ok s /\ 0 < bd_val s.
Proof.
  intros Hv. unfold sqrt_bigdecimal.
  rewrite (proj2 (bd_is_zero_false v)) by lra. rewrite (proj2 (bd_ltb_false v bd_zero)) by (rewrite val_zero; lra).
  unfold bd_quot at 1. rewrite (proj2 (bd_is_zero_false bd_two)) by (rewrite val_two; lra). cbn [obind].
  apply sqrt_loop_pos; [|done]. destruct (near_bd_div v bd_two Hv ltac:(rewrite val_two; lra)) as (_ & Hp & _). done.
Qed.

(** A quotient by a positive count, as the crate rounds it. *)
Definition quotient (a b q : Q) : Prop := Qabs (q - a / b) <= Qabs (a / b) * / inject_Z (10 ^ 99).

#[global] Instance quotient_proper : Proper (Qeq ==> Qeq ==> Qeq ==> iff) quotient.
Proof. intros a a' Ha b b' Hb q q' Hq. unfold quotient. by rewrite Ha, Hb, Hq. Qed.

Lemma quot_count (a : D) (n : nat) : (0 < n)%nat ->
  exists q, bd_quot (E:=anyhow) a (bd_of_N (N.of_nat n)) = Ok q /\ quotient (bd_val a) (inject_Z (Z.of_nat n)) (bd_val q).
Proof.
  intros Hn. unfold bd_quot. rewrite bd_is_zero_of_N.
  destruct (N.eqb_spec (N.of_nat n) 0) as [|_]; [lia|]. eexists. split; [done|].
  assert (Hv : bd_val (bd_of_N (N.of_nat n)) == inject_Z (Z.of_nat n)) by (by rewrite val_of_N, nat_N_Z).
  unfold quotient. rewrite <- Hv. apply val_div_error. rewrite Hv. apply inject_Z_nonzero. lia.
Qed.

Lemma sumQ_squares (l : list D) (m : D) :
  bd_val (bd_sum ((fun r => let diff := bd_sub r m in bd_mul diff diff) <$> l)) ==
  sumQ (map (fun r => (bd_val r - bd_val m) * (bd_val r - bd_val m)) l).
Proof.
  rewrite val_sum. induction l as [|r l IH]; [reflexivity|]. cbn [list_fmap fmap map] in *. cbn [map] in *.
  rewrite !sumQ_cons. cbn [list_fmap fmap] in IH. rewrite IH, val_mul, val_sub. reflexivity.
Qed.

Lemma sumQ_squares_nonneg {A} (f : A -> Q) (l : list A) : 0 <= sumQ (map (fun r => f r * f r) l).
Proof.
  induction l as [|r l IH]; cbn [map]; [rewrite sumQ_nil; lra|]. rewrite sumQ_cons.
  pose proof (square_nonneg (f r)). lra.
Qed.

Lemma quotient_nonneg a b q : 0 <= a -> 0 < b -> quotient a b q -> 0 <= q.
Proof.
  intros Ha Hb Hq. unfold quotient in Hq. assert (H1 : 0 <= a / b) by (apply Qle_shift_div_l; lra).
  rewrite (Qabs_pos (a / b)) in Hq by done. apply Qabs_Qle_condition in Hq as [Hq _].
  assert (H2 : / inject_Z (10 ^ 99) <= 1) by (vm_compute; congruence).
  revert Hq H1 H2. generalize (a / b) (/ inject_Z (10 ^ 99)). intros u e; intros. nra.
Qed.
End root.

Section deviation.
Context (D : Type) `{BigDecimalLaws D}.
Local Open Scope Q_scope.

(** C20: the volatility of a price history, for any prices and any order of the
    points: it is an error exactly when no point has a price to start from, zero
    for a single change, and otherwise a number that is not negative (the check
    for a negative variance never fires, no division is by zero) whose square is
    the sample variance of the relative changes within 2e-20, for variances up
    to 10000, which the fifty rounds of Newton's method are enough for.  Mean
    and variance carry the rounding of one division each. *)
Theorem volatility_is_deviation (h : PriceHistory D) :
  let returns := price_returns (by_timestamp (hist_prices h)) in
  let n := Z.of_nat (length returns) in
  match returns with
  | [] => exists e, calculate_volatility_from_history h = Err e
  | [_] => exists s, calculate_volatility_from_history h = Ok s /\ bd_val s == 0
  | _ => exists mean variance s, calculate_volatility_from_history h = Ok s /\
      quotient (sumQ (map bd_val returns)) (inject_Z n) (bd_val mean) /\
      quotient (sumQ (map (fun r => (bd_val r - bd_val mean) * (bd_val r - bd_val mean)) returns))
        (inject_Z (n - 1)) (bd_val variance) /\
      0 <= bd_val variance /\ 0 <= bd_val s /\
      (10000 < bd_val variance \/ Qabs (bd_val s * bd_val s - bd_val variance) <= 2 # 10 ^ 20)
  end.
Proof.
  cbv zeta. unfold calculate_volatility_from_history.
  destruct (length (hist_prices h) <? 2)%nat eqn:El.
  { apply Nat.ltb_lt in El. assert (Hp : (length (by_timestamp (hist_prices h)) < 2)%nat)
      by (unfold by_timestamp; by rewrite sort_by_perm).
    destruct (by_timestamp (hist_prices h)) as [|a [|b l]]; [cbn; eauto|cbn; eauto|cbn in Hp; lia]. }
  destruct (price_returns _) as [|r [|r' l]]; [eauto|eexists; split; [done|]; rewrite val_of_Z; reflexivity|].
  set (rs := r :: r' :: l) in *. assert (Hl : (2 <= length rs)%nat) by (cbn; lia). clearbody rs.
  destruct (quot_count (bd_sum rs) (length rs) ltac:(lia)) as (m & Em & Hm). rewrite val_sum in Hm.
  destruct (quot_count (bd_sum ((fun r => let diff := bd_sub r m in bd_mul diff diff) <$> rs)) (length rs - 1) ltac:(lia))
    as (var & Ev & Hv).
  replace (Z.of_nat (length rs - 1)) with (Z.of_nat (length rs) - 1)%Z in Hv by lia.
  rewrite sumQ_squares in Hv. 
  change (mean_return rs = Ok m) in Em. change (sample_variance rs m = Ok var) in Ev.
  rewrite Em. cbn [obind]. rewrite Ev. cbn [obind].
  assert (Hpos : 0 <= bd_val var).
  { eapply quotient_nonneg; [|  |exact Hv]; [exact (sumQ_squares_nonneg (fun r => bd_val r - bd_val m) rs)|]. apply inject_Z_pos. lia. }
  exists m, var. destruct (bd_is_zero var) eqn:Ez.
  { apply bd_is_zero_val in Ez. exists (bd_of_Z 0). do 4 (split; [done|]).
    rewrite val_of_Z. split; [done|]. right. rewrite Ez. vm_compute. congruence. }
  apply bd_is_zero_false in Ez. rewrite (proj2 (bd_ltb_false var bd_zero)) by (rewrite val_zero; lra).
  assert (Hpos' : 0 < bd_val var) by (apply Qle_lt_or_eq in Hpos as [|E]; [done|by symmetry in E]).
  destruct (Qlt_le_dec 10000 (bd_val var)) as [Hbig|Hsmall].
  - destruct (sqrt_pos var Hpos') as (s & Es & Hs). exists s. repeat (split; [done || lra|]). by left.
  - destruct (sqrt_converges var Hpos' Hsmall) as (s & Es & Hs & Ha). exists s. repeat (split; [done || lra|]). by right.
Qed.
End deviation.
