(* ===== verification/Predict.v ===== *)
(** * Predict: price predictions

    [common/src/algorithm/prediction.rs] (the prediction at a horizon),
    [common/src/api/chronos.rs] (the wrapper of the predictor) and
    [trade/src/predict.rs] (histories, retries, several tokens).  The predictor
    itself is a library outside the repository: it is a request that may fail,
    and [Forecasts] reads its answer.  Log output is left out; what runs
    concurrently is one request after the other. *)

From Stdlib Require Import QArith SpecFloat.
From S2P Require Import Prelude NearClient StoragePlanner F64 Vectors BigDecimal Units Records TokenCache Optimizer.
Local Open Scope Z_scope.

(** ** Times *)

(** [NaiveDateTime::MAX], the last instant of the year 262142. *)
Definition NAIVE_MAX : NaiveDateTime := 8210266876799 * 10 ^ 9 + 999999999.
(** A date plus or minus a duration panics outside the calendar. *)
Definition shift_date {E} (t : NaiveDateTime) (delta : Z) : outcome E NaiveDateTime :=
  if (NAIVE_MIN <=? t + delta) && (t + delta <=? NAIVE_MAX) then Ok (t + delta) else Panic.
Definition HOUR_NANOS : Z := 3600 * 10 ^ 9.
(** [TimeDelta::hours] and [TimeDelta::days] panic beyond [i64::MAX] milliseconds. *)
Definition time_delta_hours {E} (h : Z) : outcome E Z :=
  if Z.abs (h * 3600) <=? MAX_DELTA_SECONDS then Ok (h * HOUR_NANOS) else Panic.
Definition time_delta_days {E} (d : Z) : outcome E Z :=
  if Z.abs (d * 86400) <=? MAX_DELTA_SECONDS then Ok (d * NANOS_PER_DAY) else Panic.

(** [Iterator::min_by_key]: the first of the least. *)
Fixpoint min_by_key {A} (key : A -> Z) (l : list A) : option A :=
  match l with
  | [] => None
  | x :: l =>
      match min_by_key key l with
      | Some y => if key x <=? key y then Some x else Some y
      | None => Some x
      end
  end.

(** A map keyed by times, as a [BTreeMap] gives it out. *)
Definition times_iter {V} (m : gmap Z V) : list (Z * V) :=
  sort_by (fun a b => a.1 <=? b.1) (map_to_list m).
Definition collect_times {V} (l : list (Z * V)) : gmap Z V :=
  foldl (fun m '(k, v) => <[k := v]> m) ∅ l.

(** ** Data *)
Definition PREDICTION_HORIZON_HOURS : N := 24.

Section types.
Context (D : Type).

Record PredictedPrice := mkPredictedPrice {
  pr_timestamp : NaiveDateTime;
  pr_price : TokenPrice D;
  pr_confidence : option D;
}.
Record TokenPredictionResult := mkTokenPredictionResult {
  tp_token : TokenAccount;
  tp_quote_token : TokenAccount;
  tp_data_cutoff_time : NaiveDateTime;
  tp_predictions : list PredictedPrice;
}.
Record PredictionData := mkPredictionData {
  pdt_token : TokenAccount;
  pdt_current_price : TokenPrice D;
  pdt_predicted_price_24h : TokenPrice D;
  pdt_timestamp : NaiveDateTime;
  pdt_confidence : option D;
}.
(** The answer of the predictor. *)
Record ForecastResult := mkForecastResult {
  fr_forecast_values : list (NaiveDateTime * D);
  fr_lower_bound : option (list (NaiveDateTime * D));
  fr_upper_bound : option (list (NaiveDateTime * D));
  fr_model_name : string;
  fr_strategy_name : string;
  fr_processing_time_secs : f64;
  fr_model_count : N;
}.
Record ChronosPredictionResponse := mkChronosPredictionResponse {
  cr_forecast : gmap Z D;
  cr_lower_bound : option (gmap Z D);
  cr_upper_bound : option (gmap Z D);
  cr_model_name : string;
  cr_strategy_name : string;
  cr_processing_time_secs : f64;
  cr_model_count : N;
}.
Record TopTokenInfo := mkTopTokenInfo { tt_token : TokenAccount; tt_volatility : D }.
End types.
Arguments mkPredictedPrice {D}. Arguments pr_timestamp {D}. Arguments pr_price {D}. Arguments pr_confidence {D}.
Arguments mkTokenPredictionResult {D}. Arguments tp_token {D}. Arguments tp_quote_token {D}.
Arguments tp_data_cutoff_time {D}. Arguments tp_predictions {D}.
Arguments mkPredictionData {D}.
Arguments mkForecastResult {D}. Arguments fr_forecast_values {D}. Arguments fr_lower_bound {D}.
Arguments fr_upper_bound {D}. Arguments fr_model_name {D}. Arguments fr_strategy_name {D}.
Arguments fr_processing_time_secs {D}. Arguments fr_model_count {D}.
Arguments mkChronosPredictionResponse {D}. Arguments cr_forecast {D}. Arguments cr_lower_bound {D}.
Arguments cr_upper_bound {D}.
Arguments mkTopTokenInfo {D}. Arguments tt_token {D}. Arguments tt_volatility {D}.

(** Reading the answer of the predictor. *)
Class Forecasts (P D : Type) := forecast_of : P -> ForecastResult D.

(** The retries of the prediction service; [Predictor::new] of the library may
    fail. *)
Record PredictionService := mkPredictionService { ps_max_retries : N; ps_retry_delay_seconds : N }.
Class NewPredictor := predictor_new : N -> outcome anyhow unit.
Definition PredictionService_new `{NewPredictor} (max_retries retry_delay_seconds model_threads : N)
  : outcome anyhow PredictionService :=
  let max_model_threads := N.max model_threads 1 in
  let? _ := predictor_new max_model_threads in
  Ok (mkPredictionService max_retries retry_delay_seconds).

Section model.
Context {P D : Type} `{BigDecimal D} `{!FromF64 D} `{!Rows P D} `{!Forecasts P D}.
Context (valid_account : string -> bool) (sv : PredictionService).

(** ** The prediction at a horizon *)
Definition prediction_at_horizon (r : TokenPredictionResult D) (horizon_hours : N)
  : outcome anyhow (option (PredictedPrice D)) :=
  if (horizon_hours =? 0)%N then Ok None
  else
    let? delta := time_delta_hours (as_signed 64 horizon_hours) in
    let? target := shift_date (tp_data_cutoff_time r) delta in
    let tolerance := HOUR_NANOS in
    Ok (min_by_key (fun p => Z.abs (pr_timestamp p - target))
          (bfilter (fun p => Z.abs (pr_timestamp p - target) <=? tolerance) (tp_predictions r))).

Definition from_token_prediction (prediction : TokenPredictionResult D) (current_price : TokenPrice D)
  : outcome anyhow (option (PredictionData D)) :=
  let? predicted := prediction_at_horizon prediction PREDICTION_HORIZON_HOURS in
  Ok ((fun p => mkPredictionData (tp_token prediction) current_price (pr_price p)
                  (tp_data_cutoff_time prediction) (pr_confidence p)) <$> predicted).

(** ** The wrapper of the predictor *)
Definition convert_result (result : ForecastResult D) : ChronosPredictionResponse D :=
  mkChronosPredictionResponse (collect_times (fr_forecast_values result))
    (collect_times <$> fr_lower_bound result) (collect_times <$> fr_upper_bound result)
    (fr_model_name result) (fr_strategy_name result) (fr_processing_time_secs result) (fr_model_count result).

(** Whole milliseconds; two dates are never too far apart for them. *)
Definition chronos_predict_price (data : gmap Z D) (forecast_until : NaiveDateTime)
  : prog P (ChronosPredictionResponse D) :=
  match list.last (times_iter data) with
  | None => Ret (Err (Anyhow "Empty data" []))
  | Some (last_ts, _) =>
      let horizon := Z.quot (forecast_until - last_ts) (10 ^ 6) * 10 ^ 6 in
      let! raw := Op (RPredict ((fun '(t, v) => (t, bd_numeric v)) <$> times_iter data) horizon)
                    (fun x => Ret (of_answer x)) in
      Ret (Ok (convert_result (forecast_of raw)))
  end.

(** ** Confidence from an interval *)
Definition MIN_CV : f64 := f64_literal 3 2.
Definition MAX_CV : f64 := f64_literal 15 2.

Definition confidence_of_cv (cv : f64) : f64 :=
  f64_sub f64_one (f64_clamp (f64_div (f64_sub cv MIN_CV) (f64_sub MAX_CV MIN_CV)) f64_zero f64_one).

(** [None] inside is a value that does not convert to [f64], or an interval
    that gives no confidence; a confidence that is not finite panics. *)
Definition calculate_confidence_from_interval (forecast : D) (lower upper : option D) (time_ahead : Z)
  : outcome anyhow (option D) :=
  match lower, upper with
  | Some lower, Some upper =>
      match bd_to_f64 forecast with
      | None => Ok None
      | Some forecast_f64 =>
          if f64_leb forecast_f64 f64_zero then Ok None
          else
            match bd_to_f64 lower, bd_to_f64 upper with
            | Some lower_f64, Some upper_f64 =>
                if f64_ltb upper_f64 lower_f64 then Ok None
                else
                  let interval_width := f64_sub upper_f64 lower_f64 in
                  let relative_width := f64_div interval_width forecast_f64 in
                  let hours := f64_div (f64_of_Z (Z.quot time_ahead MINUTE_NANOS)) (f64_of_Z 60) in
                  if f64_leb hours f64_zero then Ok None
                  else
                    let time_factor := f64_sqrt (f64_max hours f64_one) in
                    let cv := f64_div relative_width (f64_mul (f64_literal 256 2) time_factor) in
                    let? c := expect (bd_from_f64 (confidence_of_cv cv)) in
                    Ok (Some c)
            | _, _ => Ok None
            end
      end
  | _, _ => Ok None
  end.

Definition convert_prediction_result (response : ChronosPredictionResponse D) (last_data_timestamp : NaiveDateTime)
  : outcome anyhow (list (PredictedPrice D)) :=
  try_map (fun '(forecast_ts, price_value) =>
    let time_ahead := forecast_ts - last_data_timestamp in
    let lower := lb ← cr_lower_bound response; (lb : gmap Z D) !! forecast_ts in
    let upper := ub ← cr_upper_bound response; (ub : gmap Z D) !! forecast_ts in
    let? confidence := calculate_confidence_from_interval price_value lower upper time_ahead in
    Ok (mkPredictedPrice forecast_ts (from_near_per_token price_value) confidence))
    (times_iter (cr_forecast response)).

(** ** The service *)
Definition get_tokens_by_volatility (start_date end_date : NaiveDateTime) (quote_token : TokenAccount)
  : prog P (list (TopTokenInfo D)) :=
  let! volatility_tokens := get_by_volatility_in_time_range valid_account start_date end_date quote_token in
  Ret (Ok ((fun v => mkTopTokenInfo (tv_base D v) (tv_coefficient_of_variation D v)) <$> volatility_tokens)).

Definition history_of (token quote_token : TokenAccount) (rates : list (TokenRate D)) : outcome anyhow (PriceHistory D) :=
  let? spots := to_spot_rates rates in
  Ok (mkPriceHistory token quote_token ((fun '(ts, spot) => mkPricePoint ts (to_price spot) None) <$> spots)).

Definition get_price_history (token quote_token : TokenAccount) (start_date end_date : NaiveDateTime)
  : prog P (PriceHistory D) :=
  let! rates := get_rates_in_time_range valid_account start_date end_date token quote_token in
  lift (history_of token quote_token rates).

Definition predict_price (history : PriceHistory D) (prediction_horizon : N) : prog P (TokenPredictionResult D) :=
  let data := collect_times ((fun p => (pp_timestamp p, price_bd (pp_price p))) <$> hist_prices history) in
  match list.last (times_iter data) with
  | None => Ret (Err (Anyhow "No price history available for prediction" []))
  | Some (last_data_timestamp, _) =>
      let! delta := lift (time_delta_hours (as_signed 64 prediction_horizon)) in
      let! forecast_until := lift (shift_date last_data_timestamp delta) in
      let! response := chronos_predict_price data forecast_until in
      let! predictions := lift (convert_prediction_result response last_data_timestamp) in
      Ret (Ok (mkTokenPredictionResult (hist_token history) (hist_quote_token history)
                 last_data_timestamp predictions))
  end.

(** The attempts after the first one; [last_error] is the error so far. *)
Fixpoint retry_predict (history : PriceHistory D) (prediction_horizon : N) (retries : nat) (last_error : anyhow)
  : prog P (TokenPredictionResult D) :=
  match retries with
  | O => Ret (Err last_error)
  | S retries =>
      let! _ := Op (RSleep (Z.of_N (ps_retry_delay_seconds sv) * 10 ^ 9)) (fun _ => Ret (Ok tt)) in
      let! r := attempt (predict_price history prediction_horizon) in
      match r with
      | inl prediction => Ret (Ok prediction)
      | inr e => retry_predict history prediction_horizon retries e
      end
  end.
Definition predict_price_with_retry (history : PriceHistory D) (prediction_horizon : N)
  : prog P (TokenPredictionResult D) :=
  let! r := attempt (predict_price history prediction_horizon) in
  match r with
  | inl prediction => Ret (Ok prediction)
  | inr e => retry_predict history prediction_horizon (N.to_nat (ps_max_retries sv)) e
  end.

(** The tokens that have rates, one after the other. *)
Fixpoint predict_each (histories : gmap TokenAccount (list (TokenRate D))) (quote_token : TokenAccount)
  (prediction_horizon : N) (tokens : list TokenAccount)
  : prog P (list (TokenAccount * option (TokenPredictionResult D))) :=
  match tokens with
  | [] => Ret (Ok [])
  | token :: tokens =>
      match histories !! token with
      | None => predict_each histories quote_token prediction_horizon tokens
      | Some rates =>
          let! history := lift (history_of token quote_token rates) in
          let! r := attempt (predict_price_with_retry history prediction_horizon) in
          let! rest := predict_each histories quote_token prediction_horizon tokens in
          Ret (Ok ((token, match r with inl p => Some p | inr _ => None end) :: rest))
      end
  end.

(** For a positive [trade_prediction_concurrency]. *)
Definition predict_multiple_tokens (tokens : list TokenAccount) (quote_token : TokenAccount) (history_days : Z)
  (prediction_horizon : N) (end_date : NaiveDateTime)
  : prog P (gmap TokenAccount (TokenPredictionResult D)) :=
  let! delta := lift (time_delta_days history_days) in
  let! start_date := lift (shift_date end_date (- delta)) in
  let! histories_map := get_rates_for_multiple_tokens valid_account tokens quote_token start_date end_date in
  let! results := predict_each histories_map quote_token prediction_horizon tokens in
  let all_predictions := collect_map (omap (fun '(token, pred) => pair token <$> pred) results) in
  if decide (all_predictions = ∅)
  then Ret (Err (Anyhow "Failed to predict any tokens" [len tokens]))
  else Ret (Ok all_predictions).
End model.

(** * Where predictions come from *)

Lemma min_by_key_spec {A} (key : A -> Z) (l : list A) x : min_by_key key l = Some x ->
  x ∈ l /\ forall y, y ∈ l -> (key x <= key y)%Z.
Proof.
  revert x. induction l as [|a l IH]; [done|]. intros x. cbn [min_by_key].
  destruct (min_by_key key l) as [y|] eqn:E.
  - destruct (IH y eq_refl) as [Hy Hmin]. destruct (Z.leb_spec (key a) (key y)) as [Hle|Hlt]; intros [= <-].
    + split; [by left|]. intros z [->|Hz]%elem_of_cons; [done|]. specialize (Hmin z Hz). lia.
    + split; [by right|]. intros z [->|Hz]%elem_of_cons; [lia|]. by apply Hmin.
  - intros [= <-]. destruct l as [|b l]; [|cbn in E; destruct (min_by_key key l); [by destruct (_ <=? _)%Z|done]].
    split; [by left|]. by intros z [->|Hz%elem_of_nil]%elem_of_cons.
Qed.

Lemma collect_lookup {K V} `{Countable K} (l : list (K * V)) (m : gmap K V) k v :
  foldl (fun m '(k, v) => <[k := v]> m) m l !! k = Some v -> m !! k = Some v \/ (k, v) ∈ l.
Proof.
  revert m. induction l as [|[k' v'] l IH]; intros m; cbn [foldl]; [by left|].
  intros [Hm|Hl]%IH; [|right; by right]. destruct (decide (k' = k)) as [<-|Hne].
  - rewrite lookup_insert in Hm. destruct (decide (k' = k')) as [_|]; [|done]. injection Hm as <-. right. by left.
  - rewrite lookup_insert_ne in Hm by done. by left.
Qed.

Lemma times_iter_elem {V} (m : gmap Z V) k v : (k, v) ∈ times_iter m <-> m !! k = Some v.
Proof. unfold times_iter. rewrite sort_by_perm. apply elem_of_map_to_list. Qed.

Lemma collect_times_elem {V} (l : list (Z * V)) k v : (k, v) ∈ times_iter (collect_times l) -> (k, v) ∈ l.
Proof.
  rewrite times_iter_elem. intros [Hl|Hl]%collect_lookup; [|done]. by rewrite lookup_empty in Hl.
Qed.

Lemma try_map_elem {E A B} (f : A -> outcome E B) l k y : try_map f l = Ok k -> y ∈ k -> exists x, x ∈ l /\ f x = Ok y.
Proof.
  revert k. induction l as [|x l IH]; intros k; cbn [try_map]; [intros [= <-] Hy; by apply elem_of_nil in Hy|].
  intros Hk. apply obind_Ok_inv in Hk as (z & Ez & Hk). apply obind_Ok_inv in Hk as (zs & Ezs & [= <-]).
  intros [->|Hy]%elem_of_cons; [exists x; split; [by left|done]|].
  destruct (IH zs Ezs Hy) as (x' & Hx & E'). exists x'. split; [by right|done].
Qed.

Section sources.
Context {P D : Type} `{BigDecimal D} `{!FromF64 D} `{!Rows P D} `{!Forecasts P D}.
Context (valid_account : string -> bool) (sv : PredictionService).

(** The data sent to the predictor for a price history. *)
Definition history_data (history : PriceHistory D) : list (NaiveDateTime * numeric) :=
  (fun '(t, v) => (t, bd_numeric v)) <$>
    times_iter (collect_times ((fun p => (pp_timestamp p, price_bd (pp_price p))) <$> hist_prices history)).

(** A result was read from an answer of the predictor in the trace: what was
    sent is the history of its token, its cutoff is the last time of it, its
    points are points of the forecast. *)
Definition forecast_in (t : list (event P)) (history : PriceHistory D) (r : TokenPredictionResult D) : Prop :=
  tp_token r = hist_token history /\
  exists horizon raw, ev (RPredict (history_data history) horizon) (inl raw) ∈ t /\
    list.last (history_data history).*1 = Some (tp_data_cutoff_time r) /\
    forall p, p ∈ tp_predictions r -> exists v,
      (pr_timestamp p, v) ∈ fr_forecast_values (forecast_of raw) /\ pr_price p = from_near_per_token v.

Lemma forecast_in_mono t t' history r : t ⊆ t' -> forecast_in t history r -> forecast_in t' history r.
Proof. intros Ht (Hk & hz & raw & Hin & Hr). split; [done|]. exists hz, raw. split; [by apply Ht|done]. Qed.

Definition predictions_in (t : list (event P)) : nat :=
  length (List.filter (fun e => match projT1 e with RPredict _ _ => true | _ => false end) t).
Lemma predictions_in_app t t' : predictions_in (t ++ t') = (predictions_in t + predictions_in t')%nat.
Proof. unfold predictions_in. by rewrite filter_app, length_app. Qed.

Lemma predict_price_spec history horizon :
  wp (predict_price (P:=P) history horizon) (fun t o =>
    (predictions_in t <= 1)%nat /\ forall r, o = Ok r -> forecast_in t history r).
Proof.
  unfold predict_price. set (data := collect_times _). destruct (list.last (times_iter data)) as [[last_ts lv]|] eqn:El.
  2: { apply wp_ret. split; [cbn; lia|done]. }
  apply wp_bind, wp_ret. destruct (time_delta_hours _) as [delta|e|]; [|by split; [cbn; lia|]..].
  apply wp_bind, wp_ret. destruct (shift_date _ _) as [until|e|]; [|by split; [cbn; lia|]..].
  apply wp_bind. unfold chronos_predict_price. rewrite El. apply wp_bind, wp_call.
  intros [raw|e]; cbn [of_answer]; [|by split; [cbn; lia|]].
  apply wp_ret. apply wp_bind, wp_ret.
  destruct (convert_prediction_result _ _) as [predictions|e|] eqn:Ec; [|by split; [cbn; lia|]..].
  apply wp_ret. split; [cbn; lia|]. intros r [= <-]. split; [done|].
  eexists _, raw. split; [by left|]. unfold history_data. fold data. split.
  - rewrite <- list_fmap_compose.
    rewrite (list_fmap_ext (fst ∘ (fun '(t, v) => (t, bd_numeric v))) fst) by (by intros ? [? ?]).
    by rewrite fmap_last, El.
  - intros p Hp. cbn [tp_predictions] in Hp. unfold convert_prediction_result in Ec.
    destruct (try_map_elem _ _ _ _ Ec Hp) as ([ts v] & Hin & Ep). apply obind_Ok_inv in Ep as (c & _ & [= <-]).
    exists v. split; [by apply collect_times_elem|done].
Qed.

Lemma retry_predict_spec history horizon retries e :
  wp (retry_predict (P:=P) sv history horizon retries e) (fun t o =>
    (predictions_in t <= retries)%nat /\ forall r, o = Ok r -> forecast_in t history r).
Proof.
  revert e. induction retries as [|retries IH]; intros e; cbn [retry_predict]; [apply wp_ret; split; [cbn; lia|done]|].
  apply wp_bind, wp_call. intros []. cbn beta iota. apply wp_bind, wp_attempt.
  eapply wp_mono; [apply predict_price_spec|]. intros t o [Hn Hr].
  destruct o as [r|e'|]; cbn beta iota.
  - apply wp_ret. rewrite app_nil_r. split; [rewrite predictions_in_app; cbn; lia|]. intros r' [= <-].
    eapply forecast_in_mono; [|by apply Hr]. set_solver.
  - eapply wp_mono; [apply IH|]. intros t' o' [Hn' Hr']. split; [rewrite !predictions_in_app; cbn; lia|].
    intros r Ho. eapply forecast_in_mono; [|by apply Hr']. set_solver.
  - split; [rewrite predictions_in_app; cbn; lia|done].
Qed.

(** At most one attempt more than there are retries. *)
Lemma predict_with_retry_spec history horizon :
  wp (predict_price_with_retry (P:=P) sv history horizon) (fun t o =>
    (predictions_in t <= 1 + N.to_nat (ps_max_retries sv))%nat /\
    forall r, o = Ok r -> forecast_in t history r).
Proof.
  unfold predict_price_with_retry. apply wp_bind, wp_attempt. eapply wp_mono; [apply predict_price_spec|].
  intros t o [Hn Hr]. destruct o as [r|e|]; cbn beta iota.
  - apply wp_ret. rewrite app_nil_r. split; [lia|]. intros r' [= <-]. by apply Hr.
  - eapply wp_mono; [apply retry_predict_spec|]. intros t' o' [Hn' Hr']. split; [rewrite predictions_in_app; lia|].
    intros r Ho. eapply forecast_in_mono; [|by apply Hr']. set_solver.
  - split; [lia|done].
Qed.

(** Only a division by zero keeps the rates of a token from being corrected. *)
Lemma history_of_no_error token quote (rates : list (TokenRate D)) e : history_of token quote rates <> Err e.
Proof.
  enough (Hs : forall all (l : list (TokenRate D * option nat)) (e : anyhow), spot_rates_from all l <> Err e).
  { unfold history_of, to_spot_rates. specialize (Hs rates (zip rates (precompute_fallback_indices rates))).
    destruct (spot_rates_from _ _) as [spots|e'|]; [done|by destruct (Hs e')|done]. }
  assert (Hc : forall pools (acc : D * D) (e : anyhow), correct_pools acc pools <> Err e).
  { induction pools as [|pool pools IH]; intros acc e'; cbn [correct_pools]; [done|]. unfold correct_pool, bd_quot.
    destruct (bd_is_zero _); cbn [obind]; [apply IH|]. destruct (bd_is_zero (bd_add _ _)); cbn [obind]; [done|apply IH]. }
  intros all l. induction l as [|[r fb] l IH]; intros e'; cbn [spot_rates_from]; [done|].
  assert (Hr : forall path (e : anyhow), to_spot_rate_with_fallback r path <> Err e).
  { intros path e1. unfold to_spot_rate_with_fallback.
    destruct (match tr_swap_path r with Some p => Some p | None => path end) as [[[|p0 ps]]|]; [done| |done].
    specialize (Hc (p0 :: ps) (bd_of_Z 1, bd_mul (bd_of_Z (tr_rate_calc_near r)) (bd_of_N (10 ^ 24)))).
    destruct (correct_pools _ _) as [a|e2|]; [done|by destruct (Hc e2)|done]. }
  destruct (to_spot_rate_with_fallback _ _) as [spot|e1|] eqn:E1; cbn [obind]; [|by destruct (Hr _ _ E1)|done].
  destruct (spot_rates_from _ l) as [rest|e1|]; [done|by destruct (IH e1)|done].
Qed.

(** The predictions of several tokens: for each that was asked for, what
    happened, and what it came to. *)
Definition forecast_log : Type := list (TokenAccount * list (event P) * outcome anyhow (TokenPredictionResult D)).
Definition asked (histories : gmap TokenAccount (list (TokenRate D))) (quote : TokenAccount) (horizon : N)
  (x : TokenAccount * list (event P) * outcome anyhow (TokenPredictionResult D)) : Prop :=
  exists rates history, histories !! x.1.1 = Some rates /\ history_of x.1.1 quote rates = Ok history /\
    run (predict_price_with_retry (P:=P) sv history horizon) x.1.2 x.2.
Definition success (o : outcome anyhow (TokenPredictionResult D)) : option (TokenPredictionResult D) :=
  match o with Ok r => Some r | _ => None end.
Definition has_rates (histories : gmap TokenAccount (list (TokenRate D))) (token : TokenAccount) : bool :=
  bool_decide (is_Some (histories !! token)).

Lemma predict_each_log histories quote horizon tokens :
  wp (predict_each (P:=P) sv histories quote horizon tokens) (fun t o =>
    match o with
    | Ok l => exists log : forecast_log, t = concat ((fun x => x.1.2) <$> log) /\
        (fun x => x.1.1) <$> log = List.filter (has_rates histories) tokens /\
        Forall (asked histories quote horizon) log /\ l = (fun x => (x.1.1, success x.2)) <$> log
    | Err _ => False
    | Panic => True
    end).
Proof.
  induction tokens as [|tk tokens IH]; cbn [predict_each List.filter].
  { apply wp_ret. exists []. repeat split. by apply Forall_nil. }
  unfold has_rates at 1. destruct (histories !! tk) as [rates|] eqn:Er.
  2: { rewrite bool_decide_eq_false_2 by (by intros [? ?]). exact IH. }
  rewrite bool_decide_eq_true_2 by done.
  apply wp_bind, wp_ret. destruct (history_of tk quote rates) as [history|e|] eqn:Eh;
    [|by destruct (history_of_no_error _ _ _ _ Eh)|done].
  apply wp_bind, wp_attempt. eapply wp_mono; [apply wp_run|]. intros t o Ho.
  assert (Hrest : forall x : TokenPredictionResult D + anyhow, match x with inl p => Some p | inr _ => None end = success o ->
    wp (let! rest := predict_each (P:=P) sv histories quote horizon tokens in
        Ret (Ok ((tk, match x with inl p => Some p | inr _ => None end) :: rest))) (fun t' o' =>
      match o' with
      | Ok l => exists log : forecast_log, t ++ t' = concat ((fun x => x.1.2) <$> log) /\
          (fun x => x.1.1) <$> log = tk :: List.filter (has_rates histories) tokens /\
          Forall (asked histories quote horizon) log /\ l = (fun x => (x.1.1, success x.2)) <$> log
      | Err _ => False
      | Panic => True
      end)).
  { intros x Hx. apply wp_bind. eapply wp_mono; [exact IH|]. intros t' [rest|e|] Hl; [|done..]. apply wp_ret.
    destruct Hl as (log & -> & Htk & Hf & ->). exists ((tk, t, o) :: log). rewrite app_nil_r, Hx. cbn. rewrite Htk.
    repeat split. apply list.Forall_cons. split; [by exists rates, history|done]. }
  destruct o as [r|e|]; cbn beta iota; [apply (Hrest (inl r)); done|apply (Hrest (inr e)); done|done].
Qed.

(** What a chunk of tokens went through: their rates could not be read, or
    every token that has rates was asked for, in this order. *)
Definition chunk_log (tokens : list TokenAccount) (quote : TokenAccount) (days : Z) (horizon : N) (end_date : NaiveDateTime)
  (t : list (event P)) (log : forecast_log) : Prop :=
  let rates := get_rates_for_multiple_tokens (P:=P) valid_account tokens quote (end_date - days * NANOS_PER_DAY) end_date in
  (log = [] /\ exists e, run rates t (Err e)) \/
  exists t0 histories, run rates t0 (Ok histories) /\ t = t0 ++ concat ((fun x => x.1.2) <$> log) /\
    (fun x => x.1.1) <$> log = List.filter (has_rates histories) tokens /\ Forall (asked histories quote horizon) log.
Definition forecasts_of (log : forecast_log) : list (TokenAccount * TokenPredictionResult D) :=
  omap (fun x => pair x.1.1 <$> success x.2) log.

Lemma predict_multiple_log tokens quote days horizon end_date :
  wp (predict_multiple_tokens (P:=P) valid_account sv tokens quote days horizon end_date) (fun t o => o <> Panic ->
    exists log, chunk_log tokens quote days horizon end_date t log /\
      collect_map (forecasts_of log) = match o with Ok m => m | _ => ∅ end).
Proof.
  unfold predict_multiple_tokens. apply wp_bind, wp_ret. unfold time_delta_days. destruct (_ <=? _); [|done].
  apply wp_bind, wp_ret. unfold shift_date. destruct (_ && _); [|done]. rewrite Z.add_opp_r. apply wp_bind.
  eapply wp_mono; [apply wp_run|]. intros t0 [hm|e|] Hr; [| |done].
  2: { intros _. exists []. split; [left; by eauto|done]. }
  apply wp_bind. eapply wp_mono; [apply predict_each_log|]. intros t [results|e|] Hl; [|done..].
  destruct Hl as (log & -> & Htk & Hf & ->).
  assert (Hmap : omap (fun '(token, pred) => pair token <$> pred) ((fun x => (x.1.1, success x.2)) <$> log) = forecasts_of log).
  { unfold forecasts_of. clear. induction log as [|x log IH]; [done|]. cbn. rewrite <- IH. done. }
  rewrite Hmap. destruct (decide _) as [E|]; apply wp_ret; intros _; exists log; rewrite app_nil_r;
    (split; [right; by exists t0, hm|done]).
Qed.

(** The prediction at the horizon is the nearest point within an hour of it. *)
Lemma prediction_at_horizon_spec (r : TokenPredictionResult D) p :
  prediction_at_horizon r PREDICTION_HORIZON_HOURS = Ok (Some p) ->
  p ∈ tp_predictions r /\ Z.abs (pr_timestamp p - (tp_data_cutoff_time r + 24 * HOUR_NANOS)) <= HOUR_NANOS /\
  forall q, q ∈ tp_predictions r ->
    Z.abs (pr_timestamp p - (tp_data_cutoff_time r + 24 * HOUR_NANOS)) <=
    Z.abs (pr_timestamp q - (tp_data_cutoff_time r + 24 * HOUR_NANOS)).
Proof.
  unfold prediction_at_horizon. change (PREDICTION_HORIZON_HOURS =? 0)%N with false. cbn [obind].
  intros Hp. apply obind_Ok_inv in Hp as (delta & Ed & Hp). apply obind_Ok_inv in Hp as (target & Et & [= Hp]).
  assert (Hd : delta = 24 * HOUR_NANOS).
  { change (as_signed 64 PREDICTION_HORIZON_HOURS) with 24 in Ed. unfold time_delta_hours in Ed.
    change (Z.abs (24 * 3600) <=? MAX_DELTA_SECONDS) with true in Ed. by injection Ed as <-. }
  assert (Ht : target = tp_data_cutoff_time r + 24 * HOUR_NANOS).
  { unfold shift_date in Et. destruct (_ && _); [|done]. injection Et as <-. by rewrite Hd. }
  apply min_by_key_spec in Hp as [Hin Hmin]. rewrite <- Ht. unfold bfilter in *.
  apply list_elem_of_In, filter_In in Hin as [Hin Hle]. apply Z.leb_le in Hle. split; [by apply list_elem_of_In|].
  split; [done|]. intros q Hq. destruct (Z.leb_spec (Z.abs (pr_timestamp q - target)) HOUR_NANOS) as [Hq1|Hq1]; [|lia].
  apply Hmin. apply list_elem_of_In, filter_In. split; [by apply list_elem_of_In|by apply Z.leb_le].
Qed.
End sources.
