(* ===== verification/Accuracy.v ===== *)
(** * Accuracy: how good the predictions were

    [persistence/src/prediction_record.rs] and [trade/src/prediction_accuracy.rs]:
    recording predictions, comparing them with what came, deleting old ones,
    and the confidence in the predictions of a token that the portfolio is
    weighted with.  Log output is left out. *)

From Stdlib Require Import QArith SpecFloat.
From S2P Require Import Prelude NearClient StoragePlanner F64 Vectors F64Order BigDecimal Units Rounding Records.
From S2P Require Import TradeSwap TokenCache Optimizer Predict.
Local Open Scope N_scope.

Section rows.
Context (D : Type).
Record DbPredictionRecord := mkDbPredictionRecord {
  pdr_id : Z;
  pdr_token : string;
  pdr_quote_token : string;
  pdr_predicted_price : D;
  pdr_data_cutoff_time : NaiveDateTime;
  pdr_target_time : NaiveDateTime;
  pdr_actual_price : option D;
  pdr_mape : option f64;
  pdr_absolute_error : option D;
  pdr_evaluated_at : option NaiveDateTime;
  pdr_created_at : NaiveDateTime;
}.
Record NewPredictionRecord := mkNewPredictionRecord {
  npr_token : string;
  npr_quote_token : string;
  npr_predicted_price : D;
  npr_data_cutoff_time : NaiveDateTime;
  npr_target_time : NaiveDateTime;
}.
End rows.
Arguments mkDbPredictionRecord {D}.
Arguments pdr_id {D}. Arguments pdr_token {D}. Arguments pdr_quote_token {D}. Arguments pdr_predicted_price {D}.
Arguments pdr_data_cutoff_time {D}. Arguments pdr_target_time {D}. Arguments pdr_actual_price {D}.
Arguments pdr_mape {D}. Arguments pdr_absolute_error {D}. Arguments pdr_evaluated_at {D}.
Arguments pdr_created_at {D}.
Arguments mkNewPredictionRecord {D}.
Arguments npr_token {D}. Arguments npr_quote_token {D}. Arguments npr_predicted_price {D}.
Arguments npr_data_cutoff_time {D}. Arguments npr_target_time {D}.

(** The decoders of the rows, and of the numbers of deleted rows. *)
Class PredictionRows (P D : Type) := {
  rows_predictions :: FromSlice P (list (DbPredictionRecord D));
  rows_deleted :: FromSlice P (N * N);
}.

(** What the accuracy reads of the configuration. *)
Record AccuracyConfig := mkAccuracyConfig {
  ac_retention_days : N;
  ac_unevaluated_retention_days : N;
  ac_tolerance_minutes : Z;
  ac_window : Z;
  ac_min_samples : N;
  ac_mape_excellent : f64;
  ac_mape_poor : f64;
}.

(** ** Confidence *)

(** [None] is a failed debug assertion.  [abs(range) < 1e-9]. *)
Definition mape_to_confidence (mape excellent poor : f64) : option f64 :=
  if negb (f64_leb excellent poor) then None
  else if f64_is_finite mape && f64_ltb mape f64_zero then None
  else if negb (f64_is_finite mape) then Some f64_zero
  else
    let range := f64_sub poor excellent in
    if f64_ltb (f64_abs range) (f64_literal 1 9)
    then Some (if f64_leb mape excellent then f64_one else f64_zero)
    else Some (f64_clamp (f64_div (f64_sub poor mape) range) f64_zero f64_one).

Definition direction_confidence (hr : f64) : f64 :=
  f64_clamp (f64_mul (f64_sub hr (f64_literal 5 1)) (f64_of_Z 2)) f64_zero f64_one.

Definition calculate_composite_confidence (rolling_mape : f64) (hit_rate : option f64)
  (mape_excellent mape_poor : f64) : option f64 :=
  mape_confidence ← mape_to_confidence rolling_mape mape_excellent mape_poor;
  Some (match hit_rate with
        | Some hr =>
            f64_add (f64_mul (f64_literal 6 1) mape_confidence)
              (f64_mul (f64_literal 4 1) (direction_confidence hr))
        | None => mape_confidence
        end).

Section model.
Context {P D : Type} `{BigDecimal D} `{!Rows P D} `{!PredictionRows P D}.
Context (valid_account : string -> bool) (cfg : AccuracyConfig).

Definition is_direction_correct (prev_actual predicted actual : D) : bool :=
  let predicted_change := bd_sub predicted prev_actual in
  let actual_change := bd_sub actual prev_actual in
  Bool.eqb (bd_leb bd_zero predicted_change) (bd_leb bd_zero actual_change).

(** 36 hours. *)
Definition DIRECTION_MAX_GAP : Z := (Z.of_N PREDICTION_HORIZON_HOURS * 3) / 2 * HOUR_NANOS.

(** One pair of neighbours: the counts of correct and of all directions. *)
Definition direction_pair (newer older : DbPredictionRecord D) (acc : N * N) : N * N :=
  if (DIRECTION_MAX_GAP <? pdr_target_time newer - pdr_target_time older)%Z then acc
  else
    match pdr_actual_price newer, pdr_actual_price older with
    | Some actual, Some prev_actual =>
        (if is_direction_correct prev_actual (pdr_predicted_price newer) actual then acc.1 + 1 else acc.1,
         acc.2 + 1)
    | _, _ => acc
    end.
(** The records are sorted, newest first, which the code asserts. *)
Fixpoint direction_pairs (records : list (DbPredictionRecord D)) (acc : N * N) : N * N :=
  match records with
  | newer :: ((older :: _) as rest) => direction_pairs rest (direction_pair newer older acc)
  | _ => acc
  end.
Definition calculate_direction_accuracy_for_records (records : list (DbPredictionRecord D)) : N * N :=
  direction_pairs records (0, 0).

(** ** prediction_record.rs *)
Definition new_record_columns (r : NewPredictionRecord D)
  : string * string * numeric * NaiveDateTime * NaiveDateTime :=
  (npr_token r, npr_quote_token r, bd_numeric (npr_predicted_price r), npr_data_cutoff_time r, npr_target_time r).
Definition batch_insert_predictions (records : list (NewPredictionRecord D)) : prog P unit :=
  match records with
  | [] => Ret (Ok tt)
  | _ => let! _ := query (QInsertPredictions (new_record_columns <$> records)) in Ret (Ok tt)
  end.
Definition get_pending_evaluations_as_of (as_of : NaiveDateTime) : prog P (list (DbPredictionRecord D)) :=
  fetch (QPendingPredictions as_of).
Definition get_recent_evaluated_for_tokens (limit : Z) (tokens : list TokenAccount)
  : prog P (list (DbPredictionRecord D)) :=
  match tokens with [] => Ret (Ok []) | _ => fetch (QEvaluatedPredictions limit tokens) end.
Definition get_latest_fresh_predictions (tokens : list TokenAccount) (as_of : NaiveDateTime)
  : prog P (list (DbPredictionRecord D)) :=
  match tokens with [] => Ret (Ok []) | _ => fetch (QFreshPredictions tokens as_of) end.
Definition update_evaluation (id : Z) (actual_price : D) (mape : f64) (absolute_error : D) : prog P unit :=
  let! now := utc_now in
  let! _ := query (QUpdateEvaluation id (bd_numeric actual_price) mape (bd_numeric absolute_error) now) in
  Ret (Ok tt).

Definition PREDICTION_MIN_RETENTION_DAYS : N := 7.
Definition delete_old_records (retention_days unevaluated_retention_days : N) : prog P (N * N) :=
  if (retention_days =? 0) && (unevaluated_retention_days =? 0) then Ret (Ok (0, 0))
  else
    let effective_retention := N.max retention_days PREDICTION_MIN_RETENTION_DAYS in
    let effective_unevaluated := N.max unevaluated_retention_days PREDICTION_MIN_RETENTION_DAYS in
    let! now := utc_now in
    let! evaluated_cutoff := lift (cutoff_date now effective_retention) in
    let! unevaluated_cutoff := lift (cutoff_date now effective_unevaluated) in
    fetch (QDeletePredictions evaluated_cutoff unevaluated_cutoff).

(** ** Recording and evaluating *)
Definition build_prediction_records (predictions : gmap TokenAccount (TokenPrice D * NaiveDateTime))
  (quote_token : TokenAccount) : outcome anyhow (list (NewPredictionRecord D)) :=
  try_map (fun '(token, (price, data_cutoff_time)) =>
    let? delta := time_delta_hours (Z.of_N PREDICTION_HORIZON_HOURS) in
    let? target_time := shift_date data_cutoff_time delta in
    Ok (mkNewPredictionRecord token quote_token (price_bd price) data_cutoff_time target_time))
    (btree_iter predictions).
Definition record_predictions (predictions : gmap TokenAccount (TokenPrice D * NaiveDateTime))
  (quote_token : TokenAccount) : prog P unit :=
  let! records := lift (build_prediction_records predictions quote_token) in
  batch_insert_predictions records.

Definition cleanup_old_predictions : prog P (N * N) :=
  delete_old_records (ac_retention_days cfg) (ac_unevaluated_retention_days cfg).

(** The rate nearest to a time, in whole seconds. *)
Definition seconds_from (target_time ts : NaiveDateTime) : Z := Z.abs (Z.quot (ts - target_time) (10 ^ 9)).
Definition get_actual_price_at (token quote_token : TokenAccount) (target_time : NaiveDateTime)
  (tolerance_minutes : Z) : prog P (option (TokenPrice D)) :=
  let! delta := lift (time_delta_minutes tolerance_minutes) in
  let! first := lift (shift_date target_time (- delta)%Z) in
  let! last := lift (shift_date target_time delta) in
  let! rates := get_rates_in_time_range valid_account first last token quote_token in
  let! spot_rates := lift (to_spot_rates rates) in
  match min_by_key (fun p => seconds_from target_time p.1) spot_rates with
  | None => Ret (Ok None)
  | Some (_, closest_rate) => Ret (Ok (Some (to_price closest_rate)))
  end.

(** The errors of a prediction; [None] when they are not to be recorded. *)
Definition prediction_error (predicted actual : D) : option (f64 * D) :=
  if bd_is_zero actual then None
  else
    let absolute_error := bd_abs (bd_sub predicted actual) in
    let mape_bd := bd_mul (bd_div absolute_error actual) (bd_of_Z 100) in
    mape ← bd_to_f64 mape_bd; Some (mape, absolute_error).

(** One pending record; the result tells whether it was evaluated. *)
Definition evaluate_record (record : DbPredictionRecord D) : prog P bool :=
  if negb (valid_account (pdr_token record)) then Ret (Ok false)
  else if negb (valid_account (pdr_quote_token record)) then Ret (Ok false)
  else
    let! actual := attempt (get_actual_price_at (pdr_token record) (pdr_quote_token record)
                              (pdr_target_time record) (ac_tolerance_minutes cfg)) in
    match actual with
    | inl (Some actual_price) =>
        match prediction_error (pdr_predicted_price record) (price_bd actual_price) with
        | None => Ret (Ok false)
        | Some (mape, absolute_error) =>
            let! r := attempt (update_evaluation (pdr_id record) (price_bd actual_price) mape absolute_error) in
            Ret (Ok match r with inl _ => true | inr _ => false end)
        end
    | _ => Ret (Ok false)
    end.
(** The [u32] counter cannot overflow before the rows run out of ids. *)
Fixpoint evaluate_records (records : list (DbPredictionRecord D)) (evaluated_count : N) : prog P N :=
  match records with
  | [] => Ret (Ok evaluated_count)
  | record :: records =>
      let! evaluated := evaluate_record record in
      evaluate_records records (if evaluated : bool then evaluated_count + 1 else evaluated_count)
  end.
Definition evaluate_predictions_as_of (as_of : NaiveDateTime) : prog P N :=
  let! pending := get_pending_evaluations_as_of as_of in
  evaluate_records pending 0.
Definition evaluate_pending_predictions : prog P N :=
  let! now := utc_now in
  let! count := evaluate_predictions_as_of now in
  let! _ := attempt cleanup_old_predictions in
  Ret (Ok count).

(** ** The confidence of every token *)
Definition MAX_PREDICTION_QUERY_LIMIT : Z := 10000.
Definition saturating_mul_i64 (a b : Z) : Z := Z.max I64_MIN (Z.min I64_MAX (a * b)).

Definition push_record (m : gmap string (list (DbPredictionRecord D))) (r : DbPredictionRecord D)
  : gmap string (list (DbPredictionRecord D)) :=
  <[pdr_token r := default [] (m !! pdr_token r) ++ [r]]> m.
Definition newest_first (records : list (DbPredictionRecord D)) : list (DbPredictionRecord D) :=
  sort_by (fun a b => (pdr_target_time b <=? pdr_target_time a)%Z) records.
Definition group_records (window : Z) (all_records : list (DbPredictionRecord D))
  : gmap string (list (DbPredictionRecord D)) :=
  (fun entries => truncate (as_unsigned 64 window) (newest_first entries)) <$> foldl push_record ∅ all_records.

Definition finite_mapes (records : list (DbPredictionRecord D)) : list f64 :=
  List.filter f64_is_finite (omap pdr_mape records).

(** The confidence in one token; [Ok None] when there are too few samples. *)
Definition token_confidence (records : option (list (DbPredictionRecord D))) : outcome anyhow (option f64) :=
  let mape_values := finite_mapes (default [] records) in
  if len mape_values <? ac_min_samples cfg then Ok None
  else
    let avg_mape := f64_div (f64_sum mape_values) (f64_of_N (len mape_values)) in
    let hit_rate :=
      rs ← records;
      let '(correct, total) := calculate_direction_accuracy_for_records rs in
      if ac_min_samples cfg <=? total then Some (f64_div (f64_of_N correct) (f64_of_N total)) else None in
    let? c := expect (calculate_composite_confidence avg_mape hit_rate (ac_mape_excellent cfg) (ac_mape_poor cfg)) in
    Ok (Some c).

Fixpoint confidences_from (by_token : gmap string (list (DbPredictionRecord D))) (tokens : list TokenAccount)
  (result : gmap TokenAccount f64) : outcome anyhow (gmap TokenAccount f64) :=
  match tokens with
  | [] => Ok result
  | token :: tokens =>
      let? c := token_confidence (by_token !! token) in
      confidences_from by_token tokens (match c with Some c => <[token := c]> result | None => result end)
  end.

Definition calculate_per_token_confidence (tokens : list TokenAccount) : prog P (gmap TokenAccount f64) :=
  let window := Z.max (ac_window cfg) 1 in
  let token_count := if (Z.of_N (len tokens) <=? I64_MAX)%Z then Z.of_N (len tokens) else MAX_PREDICTION_QUERY_LIMIT in
  let limit := Z.min (saturating_mul_i64 window token_count) MAX_PREDICTION_QUERY_LIMIT in
  let! all_records := get_recent_evaluated_for_tokens limit tokens in
  lift (confidences_from (group_records window all_records) tokens ∅).
End model.

(** * Confidence is a number from 0 to 1 *)

Lemma of_N_positive (n : N) : 0 < n -> f64_ltb f64_zero (f64_of_N n) = true /\ f64_is_nan (f64_of_N n) = false.
Proof.
  intros Hn. destruct n as [|p]; [lia|]. unfold f64_of_N, f64_of_Z. cbn [Z.of_N].
  pose proof (normalize_not_nan (Z.pos p) 0) as Hnan. split; [|by apply is_nan_false].
  destruct (normalize_round p 0) as (mz & ez & E & Hm & Hez & Hv & Hr). rewrite E in *.
  rewrite fexp64_eq in Hez. unfold EMIN in Hez.
  pose proof (round_lower mz ez 4503599627370496 (-52) Hm ltac:(lia) Hr eq_refl) as Hl.
  assert (Hsc : (scaled (Z.pos 4503599627370496) (-52) <= scaled mz ez)%Z).
  { rewrite Hv, <- scaled_shift by lia. replace (ez + (0 - ez))%Z with 0%Z by lia. unfold scaled.
    change (Z.pos 4503599627370496 * 2 ^ (-52 + 3000))%Z with (1 * 2 ^ (0 + 3000))%Z.
    apply Z.mul_le_mono_nonneg_r; [|lia]. apply Z.lt_le_incl, pow2_pos. lia. }
  specialize (Hl Hsc). by destruct (binary_round_aux _ _ _ _ _ _) as [[]|[]| |[]].
Qed.

Lemma of_N_finite (n : N) : n <= 2 ^ 64 -> f64_is_finite (f64_of_N n) = true.
Proof.
  intros Hn. destruct n as [|p]; [done|]. unfold f64_of_N, f64_of_Z. cbn [Z.of_N].
  destruct (normalize_round p 0) as (mz & ez & E & Hm & Hez & Hv & Hr). rewrite E in *.
  rewrite fexp64_eq in Hez. unfold EMIN in Hez.
  destruct (round_upper mz ez 4503599627370496 12 Hm ltac:(lia) Hr eq_refl ltac:(lia)) as (_ & Hz & Hu).
  { rewrite Hv, <- scaled_shift by lia. replace (ez + (0 - ez))%Z with 0%Z by lia. unfold scaled.
    change (Z.pos 4503599627370496 * 2 ^ (12 + 3000))%Z with (2 ^ 64 * 2 ^ (0 + 3000))%Z.
    apply Z.mul_le_mono_nonneg_r; [|lia]. apply Z.lt_le_incl, pow2_pos. lia. }
  by destruct (binary_round_aux _ _ _ _ _ _) as [[]|[]| |[]].
Qed.

Lemma div_canonical x y : canonical (f64_div x y).
Proof.
  destruct x as [[]|[]| |s mx ex], y as [[]|[]| |sy my ey]; try done.
  apply (div_finite_canonical s mx ex sy my ey).
Qed.

(** A factor of full precision. *)
Lemma mul_number x mc ec : f64_is_nan x = false -> (2 ^ 52 <= Z.pos mc)%Z ->
  let R := f64_mul x (S754_finite false mc ec) in canonical R /\ f64_is_nan R = false.
Proof.
  intros Hx Hm. destruct x as [[]|[]| |s mx ex]; try done. cbv zeta. unfold f64_mul, SFmul.
  rewrite Pos.mul_comm, Z.add_comm. rewrite xorb_false_r. split.
  - apply round_canonical, mul_roundable, Hm.
  - apply is_nan_false, round_not_nan. lia.
Qed.

(** The thresholds of the configuration are numbers, a positive number of
    samples is asked for. *)
Definition thresholds_ok (cfg : AccuracyConfig) : Prop :=
  canonical (ac_mape_excellent cfg) /\ canonical (ac_mape_poor cfg) /\
  f64_is_finite (ac_mape_excellent cfg) = true /\ f64_is_finite (ac_mape_poor cfg) = true /\
  f64_leb (ac_mape_excellent cfg) (ac_mape_poor cfg) = true /\
  f64_is_finite (f64_sub (ac_mape_poor cfg) (ac_mape_excellent cfg)) = true /\ 1 <= ac_min_samples cfg.

Abbreviation unit_interval := (between 0 (val f64_one)).

Lemma unit_zero : unit_interval f64_zero.
Proof. split; [done|]. split; [done|]. split; [done|apply val_one]. Qed.
Lemma unit_one : unit_interval f64_one.
Proof. split; [done|]. split; [done|]. split; [apply val_one|done]. Qed.

Lemma mape_confidence_unit cfg mape : thresholds_ok cfg -> canonical mape -> nn mape ->
  exists c, mape_to_confidence mape (ac_mape_excellent cfg) (ac_mape_poor cfg) = Some c /\ unit_interval c.
Proof.
  intros (Hce & Hcp & Hfe & Hfp & Hle & Hfr & _) Hc Hnn. unfold mape_to_confidence. rewrite Hle. cbn [negb].
  apply nn_iff in Hnn. rewrite Hnn, andb_false_r.
  destruct (f64_is_finite mape) eqn:Ef; cbn [negb]; [|eexists; split; [done|apply unit_zero]].
  destruct (f64_ltb _ (f64_literal 1 9)) eqn:Er.
  { eexists. split; [done|]. destruct (f64_leb mape _); [apply unit_one|apply unit_zero]. }
  eexists. split; [done|].
  destruct (sub_canonical _ _ Hcp Hc Hfp Ef) as [_ Hn].
  destruct (div_number _ _ Hn Hfr) as [Hcan Hnan]; [|by apply clamp_unit].
  destruct (f64_sub (ac_mape_poor cfg) (ac_mape_excellent cfg)) as [s| | |]; done.
Qed.

Lemma direction_unit hr : f64_is_nan hr = false -> unit_interval (direction_confidence hr).
Proof.
  intros Hn. unfold direction_confidence.
  replace (f64_literal 5 1) with (S754_finite false 4503599627370496 (-53)) by (vm_compute; reflexivity).
  pose proof (sub_finite_not_nan hr 4503599627370496 (-53) Hn) as Hs.
  replace (f64_of_Z 2) with (S754_finite false 4503599627370496 (-51)) by (vm_compute; reflexivity).
  destruct (mul_number _ 4503599627370496 (-51) Hs) as [Hc Hnan]; [compute_le|]. by apply clamp_unit.
Qed.

Lemma blend_unit a b : unit_interval a -> unit_interval b ->
  unit_interval (f64_add (f64_mul (f64_literal 6 1) a) (f64_mul (f64_literal 4 1) b)).
Proof.
  intros Ha Hb.
  replace (f64_literal 6 1) with (S754_finite false 5404319552844595 (-53)) by (vm_compute; reflexivity).
  replace (f64_literal 4 1) with (S754_finite false 7205759403792794 (-54)) by (vm_compute; reflexivity).
  rewrite f64_one_eq. eapply add_between.
  - apply mul_unit; [exact Ha|vm_compute; reflexivity|compute_le|split; compute_le|compute_le].
  - apply mul_unit; [exact Hb|vm_compute; reflexivity|compute_le|split; compute_le|compute_le].
  - vm_compute. reflexivity.
  - compute_le.
  - compute_le.
Qed.

Lemma composite_unit cfg mape hit_rate : thresholds_ok cfg -> canonical mape -> nn mape ->
  (forall hr, hit_rate = Some hr -> f64_is_nan hr = false) ->
  exists c, calculate_composite_confidence mape hit_rate (ac_mape_excellent cfg) (ac_mape_poor cfg) = Some c /\
    unit_interval c.
Proof.
  intros Hcfg Hc Hn Hh. destruct (mape_confidence_unit cfg mape Hcfg Hc Hn) as (c & E & Hu).
  unfold calculate_composite_confidence. rewrite E. cbn [mbind option_bind]. eexists. split; [done|].
  destruct hit_rate as [hr|]; [|done]. apply blend_unit; [done|]. apply direction_unit. by apply Hh.
Qed.

Section confidences.
Context {P D : Type} `{BigDecimal D} `{!Rows P D} `{!PredictionRows P D}.
Context (cfg : AccuracyConfig).
Abbreviation record := (DbPredictionRecord D).

(** ** Records by token *)

Lemma push_records_lookup (l : list record) (m : gmap string (list record)) token :
  foldl push_record m l !! token =
  match List.filter (fun r => String.eqb (pdr_token r) token) l with
  | [] => m !! token
  | k => Some (default [] (m !! token) ++ k)
  end.
Proof.
  revert m. induction l as [|r l IH]; intros m; [done|]. cbn [foldl List.filter]. rewrite IH. unfold push_record.
  destruct (String.eqb_spec (pdr_token r) token) as [<-|Hne].
  - rewrite lookup_insert. destruct (decide (pdr_token r = pdr_token r)) as [_|]; [|done].
    destruct (List.filter _ l) as [|a k]; [done|]. cbn [from_option id]. by rewrite <- app_assoc.
  - by rewrite lookup_insert_ne.
Qed.

Lemma group_records_spec window (all : list record) token rs : group_records window all !! token = Some rs ->
  rs ⊆ all /\ Forall (fun r => pdr_token r = token) rs /\ len rs <= as_unsigned 64 window.
Proof.
  unfold group_records. rewrite lookup_fmap, push_records_lookup, lookup_empty. cbn [default].
  destruct (List.filter _ all) as [|a k] eqn:E; [done|]. rewrite <- E. clear E. cbn [fmap option_fmap option_map].
  intros [= <-]. unfold truncate, newest_first.
  set (k' := sort_by _ _). assert (Hk : forall r, r ∈ k' -> r ∈ all /\ pdr_token r = token).
  { intros r Hr. unfold k' in Hr. rewrite sort_by_perm in Hr. apply list_elem_of_In, filter_In in Hr as [Hr E].
    split; [by apply list_elem_of_In|by apply String.eqb_eq]. }
  assert (Ht : forall r, r ∈ take (N.to_nat (as_unsigned 64 window)) k' -> r ∈ k').
  { intros r Hr. rewrite <- (take_drop (N.to_nat (as_unsigned 64 window)) k'). apply elem_of_app. by left. }
  destruct (N.ltb_spec (as_unsigned 64 window) (len k')) as [Hl|Hl].
  - split; [intros r Hr; by apply Hk, Ht|]. split; [apply list.Forall_forall; intros r Hr; by apply Hk, Ht|].
    unfold len. rewrite length_take. lia.
  - split; [intros r Hr; by apply Hk|]. split; [apply list.Forall_forall; intros r Hr; by apply Hk|done].
Qed.

Lemma direction_pairs_total (rs : list record) acc :
  acc.2 <= (direction_pairs rs acc).2 /\ (direction_pairs rs acc).2 <= acc.2 + len rs.
Proof.
  revert acc. induction rs as [|newer rs IH]; intros acc; [cbn; lia|]. destruct rs as [|older rest].
  { cbn. rewrite len_cons. lia. }
  rewrite len_cons. change (direction_pairs (newer :: older :: rest) acc)
    with (direction_pairs (older :: rest) (direction_pair newer older acc)).
  specialize (IH (direction_pair newer older acc)). unfold direction_pair in *. revert IH.
  destruct (_ <? _)%Z; [lia|]. destruct (pdr_actual_price newer), (pdr_actual_price older); cbn [snd]; lia.
Qed.

(** The errors that the rows carry are numbers that are not negative, as the
    evaluation wrote them. *)
Definition errors_ok (rs : list record) : Prop :=
  Forall (fun r => forall m, pdr_mape r = Some m -> canonical m /\ nn m) rs.

Lemma finite_mapes_ok rs : errors_ok rs -> Forall nn (finite_mapes rs).
Proof.
  intros Hok. apply list.Forall_forall. intros m Hm. unfold finite_mapes in Hm.
  apply list_elem_of_In, filter_In in Hm as [Hm _]. apply list_elem_of_In, list_elem_of_omap in Hm as (r & Hr & E).
  unfold errors_ok in Hok. rewrite list.Forall_forall in Hok. by apply (Hok r Hr m).
Qed.

Lemma token_confidence_unit (records : option (list record)) : thresholds_ok cfg ->
  (forall rs, records = Some rs -> errors_ok rs /\ len rs <= 2 ^ 64) ->
  match token_confidence cfg records with
  | Ok (Some c) => unit_interval c /\ ac_min_samples cfg <= len (finite_mapes (default [] records))
  | Ok None => True
  | _ => False
  end.
Proof.
  intros Hcfg Hrs. unfold token_confidence. set (mv := finite_mapes _).
  destruct (N.ltb_spec (len mv) (ac_min_samples cfg)) as [|Hl]; [done|].
  pose proof Hcfg as (_ & _ & _ & _ & _ & _ & Hmin).
  assert (Hnn : Forall nn mv).
  { apply finite_mapes_ok. destruct records as [rs|]; [by apply Hrs|]. by apply Forall_nil. }
  destruct (of_N_positive (len mv)) as [Hp Hn]; [lia|].
  destruct (composite_unit cfg (f64_div (f64_sum mv) (f64_of_N (len mv)))
    (rs ← records; let '(correct, total) := calculate_direction_accuracy_for_records rs in
      if ac_min_samples cfg <=? total then Some (f64_div (f64_of_N correct) (f64_of_N total)) else None)) as (c & E & Hu).
  - done.
  - apply div_canonical.
  - apply nn_div; [by apply nn_sum|done].
  - intros hr. destruct records as [rs|]; [|done]. cbn [mbind option_bind].
    unfold calculate_direction_accuracy_for_records. pose proof (direction_pairs_total rs (0, 0)) as Ht.
    destruct (direction_pairs rs (0, 0)) as [correct total]. cbn [snd] in Ht. destruct (Hrs rs eq_refl) as [_ Hlen].
    destruct (N.leb_spec (ac_min_samples cfg) total) as [Hle|]; [|done]. intros [= <-].
    destruct (of_N_positive total) as [Hpt Hnt]; [lia|].
    apply div_number; [apply is_nan_false, normalize_not_nan|apply of_N_finite; lia|].
    by destruct (f64_of_N total) as [[]| | |].
  - rewrite E. cbn [expect obind]. done.
Qed.

Lemma confidences_spec by_token tokens (result : gmap TokenAccount f64) : thresholds_ok cfg ->
  (forall token rs, by_token !! token = Some rs -> errors_ok rs /\ len rs <= 2 ^ 64) ->
  match confidences_from (D:=D) cfg by_token tokens result with
  | Ok m => forall token c, m !! token = Some c -> result !! token = Some c \/
      (token ∈ tokens /\ unit_interval c /\ ac_min_samples cfg <= len (finite_mapes (default [] (by_token !! token))))
  | _ => False
  end.
Proof.
  intros Hcfg Hb. revert result. induction tokens as [|tk tokens IH]; intros result; cbn [confidences_from]; [by left|].
  pose proof (token_confidence_unit (by_token !! tk) Hcfg (Hb tk)) as Ht.
  destruct (token_confidence cfg (by_token !! tk)) as [[c|]|e|]; [| |done..]; cbn [obind].
  - specialize (IH (<[tk:=c]> result)). destruct (confidences_from _ _ _ _) as [m|e|]; [|done..].
    intros token c' Hm. destruct (IH token c' Hm) as [Hi|(Hi & Hu)]; [|right; split; [by right|done]].
    destruct (decide (tk = token)) as [<-|Hne].
    + rewrite lookup_insert in Hi. destruct (decide (tk = tk)) as [_|]; [|done]. injection Hi as <-.
      right. split; [by left|done].
    + rewrite lookup_insert_ne in Hi by done. by left.
  - specialize (IH result). destruct (confidences_from _ _ _ _) as [m|e|]; [|done..].
    intros token c' Hm. destruct (IH token c' Hm) as [Hi|(Hi & Hu)]; [by left|right; split; [by right|done]].
Qed.
End confidences.

(** * Evaluations *)
Section evaluation.
Context {P D : Type} `{BigDecimal D} `{!Rows P D} `{!PredictionRows P D}.
Context (valid_account : string -> bool) (cfg : AccuracyConfig).
Abbreviation record := (DbPredictionRecord D).

(** The evaluations a run writes: the row, the price that came, the errors,
    and whether the database accepted them. *)
Definition evaluation_row : Type := Z * numeric * f64 * numeric * bool.
Definition update_of (e : event P) : option evaluation_row :=
  match projT1 e as r return Resp P r -> option evaluation_row with
  | RDb (QUpdateEvaluation id actual mape err _) =>
      fun x => Some (id, actual, mape, err, match x with inl _ => true | inr _ => false end)
  | _ => fun _ => None
  end (projT2 e).
Definition updates (t : list (event P)) : list evaluation_row := omap update_of t.
Definition accepted (us : list evaluation_row) : N := len (List.filter snd us).

Lemma updates_app t t' : updates (t ++ t') = updates t ++ updates t'.
Proof. apply omap_app. Qed.
Lemma accepted_app us us' : accepted (us ++ us') = accepted us + accepted us'.
Proof. unfold accepted. by rewrite filter_app, len_app. Qed.

(** The price that came at the target time of a record: the rate read from the
    rates within the tolerance that is nearest to it. *)
Definition rates_query (r : record) : Req :=
  let delta := (ac_tolerance_minutes cfg * MINUTE_NANOS)%Z in
  RDb (QRatesBetween (pdr_token r) (pdr_quote_token r) (pdr_target_time r - delta) (pdr_target_time r + delta)).
Definition priced (r : record) (t : list (event P)) (price : TokenPrice D) : Prop :=
  exists raw rows rates spots ts rate,
    ev (rates_query r) (inl raw) ∈ t /\
    from_slice raw = Some rows /\ try_map (rate_from_db valid_account) rows = Ok rates /\
    to_spot_rates (E:=anyhow) rates = Ok spots /\ (ts, rate) ∈ spots /\
    (forall p, p ∈ spots -> (seconds_from (pdr_target_time r) ts <= seconds_from (pdr_target_time r) p.1)%Z) /\
    price = to_price rate.

Definition evaluated (t : list (event P)) (r : record) (u : evaluation_row) : Prop :=
  exists price mape err ok, priced r t price /\
    prediction_error (pdr_predicted_price r) (price_bd price) = Some (mape, err) /\
    u = (pdr_id r, bd_numeric (price_bd price), mape, bd_numeric err, ok).

(** What an answer to the query for the rates amounts to. *)
Definition rates_answer (x : P + anyhow) : outcome anyhow (list (NaiveDateTime * ExchangeRate D)) :=
  let? raw := of_answer x in
  let? rows := decode raw in
  let? rates := try_map (rate_from_db valid_account) rows in
  to_spot_rates rates.

(** A record is passed over for a reason: an account that is none, rates that
    cannot be read or are none, a price the errors cannot be taken of. *)
Definition passed_over (t : list (event P)) (r : record) : Prop :=
  valid_account (pdr_token r) = false \/ valid_account (pdr_quote_token r) = false \/
  (exists x, ev (rates_query r) x ∈ t /\ (rates_answer x = Ok [] \/ exists e, rates_answer x = Err e)) \/
  (exists price, priced r t price /\ prediction_error (pdr_predicted_price r) (price_bd price) = None).

(** The window of a record is within the calendar. *)
Definition window_fits (r : record) : bool :=
  let delta := (ac_tolerance_minutes cfg * MINUTE_NANOS)%Z in
  (Z.abs (ac_tolerance_minutes cfg * 60) <=? MAX_DELTA_SECONDS)%Z &&
  (NAIVE_MIN <=? pdr_target_time r - delta)%Z && (pdr_target_time r - delta <=? NAIVE_MAX)%Z &&
  (NAIVE_MIN <=? pdr_target_time r + delta)%Z && (pdr_target_time r + delta <=? NAIVE_MAX)%Z.
(** The two panics: a window outside the calendar, and a division by zero in
    the correction of a rate that was read. *)
Definition stuck_on (t : list (event P)) (r : record) : Prop :=
  window_fits r = false \/ exists x, ev (rates_query r) x ∈ t /\ rates_answer x = Panic.

Lemma priced_mono r t t' price : t ⊆ t' -> priced r t price -> priced r t' price.
Proof.
  intros Ht (raw & rows & rates & spots & ts & rate & Hin & Hr). exists raw, rows, rates, spots, ts, rate.
  split; [by apply Ht|done].
Qed.
Lemma evaluated_mono t t' r u : t ⊆ t' -> evaluated t r u -> evaluated t' r u.
Proof.
  intros Ht (price & mape & err & ok & Hp & Hr). exists price, mape, err, ok. split; [by eapply priced_mono|done].
Qed.

Lemma wp_lift_any {A} (o : outcome anyhow A) (Q : list (event P) -> outcome anyhow A -> Prop) :
  Q [] o -> wp (lift o) Q.
Proof. apply wp_ret. Qed.

Lemma passed_over_mono t t' r : t ⊆ t' -> passed_over t r -> passed_over t' r.
Proof.
  intros Ht [Hv|[Hv|[(x & Hx & Ho)|(price & Hp & He)]]]; [by left|by right; left|right; right..].
  - left. exists x. split; [by apply Ht|done].
  - right. exists price. split; [by eapply priced_mono|done].
Qed.
Lemma stuck_on_mono t t' r : t ⊆ t' -> stuck_on t r -> stuck_on t' r.
Proof. intros Ht [Hw|(x & Hx & Ho)]; [by left|right]. exists x. split; [by apply Ht|done]. Qed.

Lemma min_by_key_none {A} (key : A -> Z) l : min_by_key key l = None -> l = [].
Proof. destruct l as [|a l]; [done|]. cbn. destruct (min_by_key key l); [|done]. by destruct (_ <=? _)%Z. Qed.

(** The actual price, and no update. *)
Lemma actual_price_spec (r : record) :
  wp (get_actual_price_at valid_account (pdr_token r) (pdr_quote_token r) (pdr_target_time r) (ac_tolerance_minutes cfg))
    (fun t o => updates t = [] /\
      match o with
      | Ok (Some price) => priced r t price
      | Panic => stuck_on t r
      | _ => exists x, ev (rates_query r) x ∈ t /\ (rates_answer x = Ok [] \/ exists e, rates_answer x = Err e)
      end).
Proof.
  unfold get_actual_price_at. apply wp_bind, wp_lift_any. unfold time_delta_minutes.
  destruct (_ <=? _)%Z eqn:E1; [|split; [done|]; left; unfold window_fits; by rewrite E1].
  apply wp_bind, wp_lift_any. unfold shift_date. destruct (_ && _) eqn:E2.
  2: { split; [done|]. left. unfold window_fits. rewrite <- Z.add_opp_r, E1, andb_true_l, E2. done. }
  apply wp_bind, wp_lift_any.
  match goal with |- context [if ?b then Ok _ else Panic] => destruct b eqn:E3 end.
  2: { split; [done|]. left. unfold window_fits. rewrite <- andb_assoc, E3. apply andb_false_r. }
  assert (Eq : QRatesBetween (pdr_token r) (pdr_quote_token r)
      (pdr_target_time r + - (ac_tolerance_minutes cfg * MINUTE_NANOS))
      (pdr_target_time r + ac_tolerance_minutes cfg * MINUTE_NANOS) =
      QRatesBetween (pdr_token r) (pdr_quote_token r) (pdr_target_time r - ac_tolerance_minutes cfg * MINUTE_NANOS)
        (pdr_target_time r + ac_tolerance_minutes cfg * MINUTE_NANOS)) by (by rewrite Z.add_opp_r).
  unfold get_rates_in_time_range, fetch, query. rewrite Eq.
  apply wp_bind, wp_bind, wp_bind, wp_call. intros x. change (RDb _) with (rates_query r).
  assert (Hin : forall k, ev (rates_query r) x ∈ ev (rates_query r) x :: k) by (intros k; left).
  assert (Hfail : forall e k, rates_answer x = Err e -> exists x', ev (rates_query r) x' ∈ ev (rates_query r) x :: k /\
    (rates_answer x' = Ok [] \/ exists e, rates_answer x' = Err e)) by (intros e k He; exists x; eauto).
  destruct x as [raw|e]; cbn [of_answer]; [|split; [done|]; by apply (Hfail e)].
  assert (Ea : rates_answer (inl raw) = match from_slice raw with
    | Some rows => let? rates := try_map (rate_from_db valid_account) rows in to_spot_rates rates
    | None => Err (External "serde_json")
    end).
  { unfold rates_answer, decode. cbn [of_answer obind].
    destruct (from_slice (A := list (DbTokenRate P D)) raw).
    all: done. }
  apply wp_lift_any. unfold decode.
  destruct (from_slice (A := list (DbTokenRate P D)) raw) as [rows|] eqn:Er; cbn [ok_or]; [|split; [done|]; by eapply Hfail].
  apply wp_lift_any. destruct (try_map _ rows) as [rates|e|] eqn:Em; cbn [obind] in Ea;
    [|split; [done|]; by eapply Hfail|split; [done|]; right; exists (inl raw); split; [apply Hin|done]].
  apply wp_bind, wp_lift_any. destruct (to_spot_rates rates) as [spots|e|] eqn:Es;
    [|split; [done|]; by eapply Hfail|split; [done|]; right; exists (inl raw); split; [apply Hin|done]].
  destruct (min_by_key _ spots) as [[ts rate]|] eqn:Eb; apply wp_ret; (split; [done|]).
  - apply min_by_key_spec in Eb as [Hs Hmin]. exists raw, rows, rates, spots, ts, rate. split; [apply Hin|done].
  - exists (inl raw). split; [apply Hin|]. left. rewrite Ea. by rewrite (min_by_key_none _ _ Eb).
Qed.

Lemma evaluate_record_spec (r : record) :
  wp (evaluate_record valid_account cfg r) (fun t o =>
    match o with
    | Ok b => (updates t = [] /\ b = false /\ passed_over t r) \/ exists u, updates t = [u] /\ evaluated t r u /\ b = u.2
    | Err _ => False
    | Panic => updates t = [] /\ stuck_on t r
    end).
Proof.
  unfold evaluate_record. destruct (valid_account (pdr_token r)) eqn:E1; cbn [negb].
  2: { apply wp_ret. left. split; [done|]. split; [done|by left]. }
  destruct (valid_account (pdr_quote_token r)) eqn:E2; cbn [negb].
  2: { apply wp_ret. left. split; [done|]. split; [done|by right; left]. }
  apply wp_bind, wp_attempt. eapply wp_mono; [apply actual_price_spec|].
  intros t [[price|]|e|] [Hu Hp]; cbn beta iota; [| |apply wp_ret; left..|by split].
  2: { apply wp_ret. left. rewrite updates_app, Hu. split; [done|]. split; [done|]. right; right; left.
       destruct Hp as (x & Hx & Ho). exists x. split; [set_solver|done]. }
  2: { rewrite updates_app, Hu. split; [done|]. split; [done|]. right; right; left.
       destruct Hp as (x & Hx & Ho). exists x. split; [set_solver|done]. }
  destruct (prediction_error _ _) as [[mape err]|] eqn:Ee.
  2: { apply wp_ret. left. rewrite updates_app, Hu. split; [done|]. split; [done|]. right; right; right. exists price.
       split; [|done]. eapply priced_mono; [|exact Hp]. set_solver. }
  apply wp_bind, wp_attempt. unfold update_evaluation, utc_now. apply wp_bind, wp_call. intros now. cbn beta iota.
  apply wp_bind. unfold query. apply wp_call. intros x.
  assert (Hup : forall k, updates (t ++ [ev RUtcNow now] ++ [ev (RDb (QUpdateEvaluation (pdr_id r) (bd_numeric (price_bd price))
    mape (bd_numeric err) now)) x] ++ k) = (pdr_id r, bd_numeric (price_bd price), mape, bd_numeric err,
      match x with inl _ => true | inr _ => false end) :: updates k).
  { intros k. rewrite !updates_app, Hu. done. }
  destruct x as [raw|e]; cbn [of_answer]; apply wp_ret.
  - apply wp_ret. right. eexists. cbn [app]. split; [apply (Hup [])|]. split; [|done].
    exists price, mape, err, true. split; [|done]. eapply priced_mono; [|exact Hp]. set_solver.
  - right. eexists. cbn [app]. split; [apply (Hup [])|]. split; [|done].
    exists price, mape, err, false. split; [|done]. eapply priced_mono; [|exact Hp]. set_solver.
Qed.

(** The records with what was written of them, and how the loop ends. *)
Definition evaluations (t : list (event P)) (rows : list record) (dn : list (record * evaluation_row)) : Prop :=
  updates t = dn.*2 /\ dn.*1 `sublist_of` rows /\ Forall (fun p => evaluated t p.1 p.2) dn.
Definition evaluations_end (t : list (event P)) (rows : list record) (dn : list (record * evaluation_row)) (count : N)
  (o : outcome anyhow N) : Prop :=
  match o with
  | Ok n => n = count + accepted (updates t) /\ Forall (fun r => r ∈ dn.*1 \/ passed_over t r) rows
  | Err _ => False
  | Panic => exists r, r ∈ rows /\ stuck_on t r
  end.

Lemma evaluations_mono t t' rows dn : t ⊆ t' -> updates t' = updates t -> evaluations t rows dn -> evaluations t' rows dn.
Proof.
  intros Ht Hu (H1 & H2 & H3). split; [by rewrite Hu|]. split; [done|].
  eapply List.Forall_impl; [|exact H3]. intros p. by apply evaluated_mono.
Qed.

Lemma evaluate_records_spec (rows : list record) count :
  wp (evaluate_records valid_account cfg rows count) (fun t o =>
    exists dn, evaluations t rows dn /\ evaluations_end t rows dn count o).
Proof.
  revert count. induction rows as [|r rows IH]; intros count; cbn [evaluate_records].
  { apply wp_ret. exists []. split; [split; [done|]; split; [done|by apply Forall_nil]|].
    split; [change (accepted (updates [])) with 0; lia|by apply Forall_nil]. }
  apply wp_bind. eapply wp_mono; [apply evaluate_record_spec|]. intros t [b|e|] Ho; [|done|].
  2: { destruct Ho as [Hu Hs]. exists []. split; [|exists r; split; [left|done]].
       split; [done|]. split; [apply sublist_nil_l|by apply Forall_nil]. }
  eapply wp_mono; [apply IH|]. intros t' o' (dn & (Hd & Hs & Hf) & He).
  assert (Hl : t ⊆ t ++ t') by set_solver. assert (Hr : t' ⊆ t ++ t') by set_solver.
  assert (Hf' : Forall (fun p => evaluated (t ++ t') p.1 p.2) dn)
    by (eapply List.Forall_impl; [|exact Hf]; intros p; by apply evaluated_mono).
  destruct Ho as [(Hu & -> & Hp)|(u & Hu & Hev & ->)].
  - exists dn. split; [split; [by rewrite updates_app, Hu|]; split; [by constructor|done]|].
    destruct o' as [n|e|]; [|done|]; cbn in He |- *.
    + rewrite updates_app, Hu. destruct He as [-> He]. split; [done|]. apply list.Forall_cons. split; [right; by apply (passed_over_mono t)|].
      eapply List.Forall_impl; [|exact He]. intros q [Hq|Hq]; [by left|right; by apply (passed_over_mono t')].
    + destruct He as (q & Hq & Hst). exists q. split; [by right|by apply (stuck_on_mono t')].
  - exists ((r, u) :: dn). cbn [fmap list_fmap fst snd].
    split; [split; [by rewrite updates_app, Hu, Hd|]; split; [by constructor|]; apply list.Forall_cons; split; [by apply (evaluated_mono t)|done]|].
    destruct o' as [n|e|]; [|done|]; cbn [evaluations_end] in He |- *.
    + rewrite updates_app, Hu, accepted_app. destruct He as [-> He]. split.
      * assert (Ha : accepted [u] = if u.2 then 1 else 0) by (unfold accepted; cbn [List.filter]; by destruct u.2).
        rewrite Ha. destruct u.2; lia.
      * apply list.Forall_cons. split; [left; left|]. eapply List.Forall_impl; [|exact He].
        intros q [Hq|Hq]; [left; by right|right; by apply (passed_over_mono t')].
    + destruct He as (q & Hq & Hst). exists q. split; [by right|by apply (stuck_on_mono t')].
Qed.
End evaluation.

Section theorems.
Context (P D : Type) `{BigDecimal D} `{!Rows P D} `{!PredictionRows P D}.
Context (valid_account : string -> bool) (cfg : AccuracyConfig).

(** C18: an evaluation of the pending predictions, whatever the database
    answers.  It returns an error only when the pending rows cannot be read: the
    query failed, or its answer could not be decoded.  Otherwise every
    evaluation it writes belongs to a pending row, rows are taken in order and
    none twice, the price is the rate nearest to the target time among those
    read within the tolerance, and the errors are those of this price.  When it
    returns, the count is the number of evaluations the database accepted, and
    a pending row that was not evaluated has an account that is none, no rate
    that can be read in its window, or a price the errors cannot be taken of.
    It panics only on a row whose window leaves the calendar, or where the
    correction of a rate that was read divides by zero. *)
Theorem evaluation_faithful (as_of : NaiveDateTime) (t : list (event P)) (o : outcome anyhow N)
  (Hrun : run (evaluate_predictions_as_of (D:=D) valid_account cfg as_of) t o) :
  (exists x e, t = [ev (RDb (QPendingPredictions as_of)) x] /\ o = Err e /\
    (x = inr e \/ exists raw, x = inl raw /\ from_slice (A := list (DbPredictionRecord D)) raw = None)) \/
  exists raw (rows : list (DbPredictionRecord D)) t' (dn : list (DbPredictionRecord D * evaluation_row)),
    t = ev (RDb (QPendingPredictions as_of)) (inl raw) :: t' /\ from_slice raw = Some rows /\
    updates t = dn.*2 /\ dn.*1 `sublist_of` rows /\
    Forall (fun p => evaluated valid_account cfg t p.1 p.2) dn /\
    match o with
    | Ok n => n = accepted (updates t) /\ Forall (fun r => r ∈ dn.*1 \/ passed_over valid_account cfg t r) rows
    | Err _ => False
    | Panic => exists r, r ∈ rows /\ stuck_on valid_account cfg t r
    end.
Proof.
  pattern t, o. revert t o Hrun.
  unfold evaluate_predictions_as_of, get_pending_evaluations_as_of, fetch, query.
  apply wp_bind, wp_bind, wp_call. intros [raw|e]; cbn [of_answer]; [|left; eauto 6].
  apply wp_lift_any. unfold decode. destruct (from_slice raw) as [rows|] eqn:Er; cbn [ok_or]; [|left; eauto 8].
  eapply wp_mono; [apply evaluate_records_spec|]. intros t o (dn & Hd & He). right.
  exists raw, rows, t, dn. split; [done|]. split; [done|].
  assert (Ht : t ⊆ [ev (RDb (QPendingPredictions as_of)) (inl raw)] ++ t) by set_solver.
  destruct (evaluations_mono valid_account cfg t ([ev (RDb (QPendingPredictions as_of)) (inl raw)] ++ t) rows dn Ht eq_refl Hd)
    as (H1 & H2 & H3). split; [done|]. split; [done|]. split; [done|].
  destruct o as [n|e|]; [|done|].
  - destruct He as [-> He]. split; [done|]. eapply List.Forall_impl; [|exact He].
    intros q [Hq|Hq]; [by left|right; by apply (passed_over_mono _ _ t)].
  - destruct He as (q & Hq & Hst). exists q. split; [done|by apply (stuck_on_mono _ _ t)].
Qed.

(** C19: the confidence that weights a token, for a configuration that asks for
    at least one sample and whose thresholds are finite numbers, excellent at
    most poor and of a finite difference, and for any answer of the database
    whose errors are numbers that are not negative: no calculation panics, only
    tokens that were asked for get a confidence, it is from 0 to 1 in the
    rounded arithmetic of [f64], and it rests on at least the configured number
    of errors among at most a window of rows of that token. *)
Theorem confidence_bounded (tokens : list TokenAccount) (t : list (event P)) (o : outcome anyhow (gmap TokenAccount f64))
  (Hcfg : thresholds_ok cfg)
  (Hrows : forall (raw : P) (rs : list (DbPredictionRecord D)), from_slice raw = Some rs -> errors_ok rs)
  (Hrun : run (calculate_per_token_confidence (D:=D) cfg tokens) t o) :
  match o with
  | Ok m => forall token c, m !! token = Some c ->
      token ∈ tokens /\ f64_leb f64_zero c = true /\ f64_leb c f64_one = true /\
      exists raw limit (all rs : list (DbPredictionRecord D)),
        t = [ev (RDb (QEvaluatedPredictions limit tokens)) (inl raw)] /\ from_slice raw = Some all /\
        rs ⊆ all /\ Forall (fun r => pdr_token r = token) rs /\
        len rs <= as_unsigned 64 (Z.max (ac_window cfg) 1) /\ ac_min_samples cfg <= len (finite_mapes rs)
  | Err _ => True
  | Panic => False
  end.
Proof.
  revert t o Hrun. unfold calculate_per_token_confidence, get_recent_evaluated_for_tokens.
  set (window := Z.max (ac_window cfg) 1). set (limit := Z.min _ _).
  destruct tokens as [|tk0 tokens'] eqn:Etk.
  { intros t o Hrun. apply run_inv in Hrun as [-> ->]. intros token c Hm. cbn in Hm. by rewrite lookup_empty in Hm. }
  rewrite <- Etk. intros t o Hrun. pattern t, o. revert t o Hrun. apply wp_bind. unfold fetch, query.
  apply wp_bind, wp_call. intros [raw|e]; cbn [of_answer]; [|done]. apply wp_lift_any. unfold decode.
  destruct (from_slice raw) as [all|] eqn:Er; cbn [ok_or]; [|done]. apply wp_lift_any.
  assert (Hb : forall token rs, group_records window all !! token = Some rs -> errors_ok rs /\ len rs <= 2 ^ 64).
  { intros token rs Hg. destruct (group_records_spec _ _ _ _ Hg) as (Hsub & _ & Hl). split.
    - specialize (Hrows raw all Er). unfold errors_ok in *. rewrite list.Forall_forall in *. intros r Hr. by apply Hrows, Hsub.
    - etrans; [exact Hl|]. unfold as_unsigned. pose proof (Z.mod_pos_bound window (2 ^ Z.of_N 64) ltac:(lia)). lia. }
  pose proof (confidences_spec cfg (group_records window all) tokens ∅ Hcfg Hb) as Hc.
  destruct (confidences_from cfg (group_records window all) tokens ∅) as [m|e|]; [|done..].
  intros token c Hm. destruct (Hc token c Hm) as [Hi|(Hin & Hu & Hn)]; [by rewrite lookup_empty in Hi|].
  split; [done|]. destruct (between_leb _ _ c f64_zero f64_one Hu) as [H1 H2]; [done..|].
  split; [done|]. split; [done|]. destruct (group_records window all !! token) as [rs|] eqn:Eg.
  2: { change (ac_min_samples cfg <= 0) in Hn. destruct Hcfg as (_ & _ & _ & _ & _ & _ & Hmin). lia. }
  destruct (group_records_spec _ _ _ _ Eg) as (Hsub & Htok & Hl). by exists raw, limit, all, rs.
Qed.
End theorems.

(** ** A store of predictions *)

Definition error_okb (m : option f64) : bool :=
  match m with
  | Some (S754_finite s d e) => negb s && Z.eqb (fexp f64_prec f64_emax (Z.pos (digits2_pos d) + e)) e
  | Some (S754_infinity s) => negb s
  | _ => true
  end.
Definition stored_prediction (c : Z * string * string * Q * (Z * Z) * (option Q * option spec_float))
  : DbPredictionRecord Q :=
  let '(id, token, quote, price, (cutoff, target), (actual, mape)) := c in
  mkDbPredictionRecord id token quote price cutoff target actual mape None None cutoff.
#[global] Instance cell_predictions : PredictionRows cell Q := {|
  rows_predictions c :=
    match c with
    | CPredictions rows => if forallb (fun r => error_okb r.2.2) rows then Some (stored_prediction <$> rows) else None
    | _ => None
    end;
  rows_deleted c := match c with CNumbers a b => Some (a, b) | _ => None end;
|}.

Lemma error_okb_ok m x : error_okb m = true -> m = Some x -> canonical x /\ nn x.
Proof.
  intros Hm ->. destruct x as [|[]| |[] d e]; try done. cbn [error_okb negb andb] in Hm.
  apply Z.eqb_eq in Hm. by split.
Qed.

Lemma cell_errors_ok (raw : cell) (rs : list (DbPredictionRecord Q)) : from_slice raw = Some rs -> errors_ok rs.
Proof.
  destruct raw; try done. unfold from_slice. cbn [rows_predictions cell_predictions].
  destruct (forallb _ rows) eqn:E; [|done]. intros [= <-]. apply list.Forall_forall. intros r Hr m Hm.
  apply list_elem_of_fmap in Hr as (c & -> & Hc). rewrite forallb_forall in E.
  specialize (E c (proj1 (list_elem_of_In _ _) Hc)).
  destruct c as [[[[[id tk] q] p] [cu ta]] [ac me]]. exact (error_okb_ok me m E Hm).
Qed.

Definition hour (n : Z) : Z := n * HOUR_NANOS.
Definition note_rows : list (Z * string * string * Q * (Z * Z) * (option Q * option spec_float)) :=
  [(2%Z, "usdt", "wrap.near", 12 # 10, (hour 24, hour 48), (Some (11 # 10), Some (f64_of_Z 9)));
   (1%Z, "usdt", "wrap.near", 10 # 10, (hour 0, hour 24), (Some (10 # 10), Some (f64_of_Z 2)))].
Definition note_answer (r : Req) (s : unit) : Resp cell r * unit :=
  match r with
  | RDb (QEvaluatedPredictions _ _) => (inl (CPredictions note_rows), s)
  | RDb (QPendingPredictions _) => (inl (CPredictions note_rows), s)
  | RDb (QRatesBetween b q first _) =>
      (inl (CRates [mkDbTokenRate b q (inject_Z 2000000) (first + MINUTE_NANOS)%Z 6 1 None;
                    mkDbTokenRate b q (inject_Z 3000000) first 6 1 None]), s)
  | RDb (QUpdateEvaluation id _ _ _ _) => (if Z.eqb id 1 then inr (External "no connection") else inl CNothing, s)
  | r => desk_answer r s
  end.
Definition note_config (min_samples : N) : AccuracyConfig :=
  mkAccuracyConfig 30 20 15 30 min_samples (f64_of_Z 3) (f64_of_Z 15).
Definition note_evaluation := interp note_answer
  (evaluate_predictions_as_of (D:=Q) (fun _ => true) (note_config 1) (hour 50)) tt.
Definition note_confidence (min_samples : N) := interp note_answer
  (calculate_per_token_confidence (D:=Q) (note_config min_samples) ["usdt"; "eth"]) tt.

(** Two records are evaluated with the nearer of two rates; one update fails. *)
Example note_evaluation_run :
  note_evaluation.1.1 = Ok 1 /\ (fun u => (u.1.1.1.1, u.2)) <$> updates note_evaluation.1.2 = [(2%Z, true); (1%Z, false)].
Proof. by vm_compute. Qed.

(** The rate of a hit is not a number when no pair of records is asked for, and
    the guard for the mean error does not catch it: so is the confidence. *)
Definition lone_answer (r : Req) (s : unit) : Resp cell r * unit :=
  match r with
  | RDb (QEvaluatedPredictions _ _) => (inl (CPredictions (take 1 note_rows)), s)
  | r => desk_answer r s
  end.
Example no_samples_no_number :
  (interp lone_answer (calculate_per_token_confidence (D:=Q) (note_config 0) ["usdt"]) tt).1.1
  = Ok {[ "usdt" := S754_nan ]}.
Proof. vm_compute. reflexivity. Qed.

Lemma evaluation_faithful_witness :
  exists raw (rows : list (DbPredictionRecord Q)) t' (dn : list (DbPredictionRecord Q * evaluation_row)),
    note_evaluation.1.2 = ev (RDb (QPendingPredictions (hour 50))) (inl raw) :: t' /\ from_slice raw = Some rows /\
    updates note_evaluation.1.2 = dn.*2 /\ dn.*1 `sublist_of` rows /\
    Forall (fun p => evaluated (fun _ => true) (note_config 1) note_evaluation.1.2 p.1 p.2) dn /\
    Forall (fun r => r ∈ dn.*1 \/ passed_over (fun _ => true) (note_config 1) note_evaluation.1.2 r) rows.
Proof.
  assert (E : note_evaluation.1.1 = Ok 1) by (vm_compute; reflexivity).
  destruct (evaluation_faithful cell Q (fun _ => true) (note_config 1) (hour 50) note_evaluation.1.2 note_evaluation.1.1
    (interp_run note_answer _ tt)) as [(x & e & _ & Hx & _)|(raw & rows & t' & dn & H1 & H2 & H3 & H4 & H5 & H6)].
  - pose proof (eq_trans (eq_sym Hx) E) as Hn. discriminate Hn.
  - rewrite E in H6. exists raw, rows, t', dn. exact (conj H1 (conj H2 (conj H3 (conj H4 (conj H5 (proj2 H6)))))).
Defined.

Lemma note_thresholds : thresholds_ok (note_config 1).
Proof. split; [|split; [|repeat (split; [vm_compute; reflexivity|])]]; vm_compute; congruence. Qed.

Lemma confidence_bounded_witness :
  exists m, (note_confidence 1).1.1 = Ok m /\ m !! ("usdt" : string) <> None /\
    forall token c, m !! token = Some c -> token ∈ ["usdt"; "eth"] /\ f64_leb f64_zero c = true /\ f64_leb c f64_one = true.
Proof.
  assert (E : is_Some (match (note_confidence 1).1.1 with Ok m => m !! ("usdt" : string) | _ => None end))
    by (vm_compute; eauto).
  pose proof (confidence_bounded cell Q (note_config 1) ["usdt"; "eth"] (note_confidence 1).1.2 (note_confidence 1).1.1
    note_thresholds cell_errors_ok (interp_run note_answer _ tt)) as H.
  destruct (note_confidence 1).1.1 as [m|e|]; [|by destruct E..]. exists m. split; [done|]. split.
  - destruct E as [c ->]. done.
  - intros token c Hc. destruct (H token c Hc) as (H1 & H2 & H3 & _). done.
Defined.
