(* ===== verification/Strategy.v ===== *)
(** * Strategy: one run of the automatic trader

    [trade/src/strategy.rs]: the choice of tokens by volatility and liquidity,
    the data the optimiser works on, and [start], which composes the evaluation
    periods, the funding, the storage of the exchange, the optimiser and the
    execution of its actions.  Requests of concurrent tasks are made one after
    the other; the order in which such tasks finish, and so the order of the
    tokens, is any permutation ([CompletionOrder]).  Log output is left out. *)

From Stdlib Require Import QArith SpecFloat.
From S2P Require Import Prelude NearClient StoragePlanner Storage F64 Vectors BigDecimal Units Dex Swap Balances.
From S2P Require Import Slippage Harvest Records Matching TradeSwap Execution Periods Graph TokenCache Optimizer.
From S2P Require Import Config Market Predict Accuracy.
Local Open Scope N_scope.

(** The order in which the tasks of [buffer_unordered] complete. *)
Class CompletionOrder := completed : forall {A : Type}, list A -> list A.
Class CompletionOrderLaws `{CompletionOrder} : Prop :=
  completed_perm : forall {A : Type} (l : list A), completed l ≡ₚ l.

Record StrategyConfig := mkStrategyConfig {
  sc_trade : TradeConfig;
  sc_market : MarketConfig;
  sc_accuracy : AccuracyConfig;
  sc_initial_investment : N;
  sc_top_tokens : N;
  sc_price_history_days : N;
  sc_concurrency : N;
  sc_chunk_size : N;
  sc_max_retries : N;
  sc_retry_delay_seconds : N;
  sc_model_threads : N;
  sc_min_token_confidence : f64;
  sc_rebalance_threshold : f64;
}.

Section selection.
Context {G D : Type} `{BigDecimal D} `{Petgraph G} `{HashOrder}.

(** ** The liquidity of pools *)
Definition side_value {E} (wnear token : TokenAccount) (rates : gmap TokenAccount (ExchangeRate D)) (amount_raw : N)
  : outcome E (option (NearValue D)) :=
  if String.eqb token wnear then Ok (Some (yocto_value_to_near (from_yocto (bd_of_N amount_raw))))
  else
    match rates !! token with
    | Some rate =>
        if is_effectively_zero rate then Ok (Some near_value_zero)
        else
          let? v := amount_div_rate (from_smallest_units (bd_of_N amount_raw) (rate_decimals rate)) rate in
          Ok (Some v)
    | None => Ok None
    end.

Definition near_value_ltb (a b : NearValue D) : bool := bd_ltb (near_value_bd a) (near_value_bd b).
Fixpoint min_side_from {E} (wnear : TokenAccount) (rates : gmap TokenAccount (ExchangeRate D))
  (tokens : list TokenAccount) (amounts : list N) (min_side : option (NearValue D)) : outcome E (option (NearValue D)) :=
  match tokens with
  | [] => Ok min_side
  | token :: tokens =>
      let? side := side_value wnear token rates (default 0 (head amounts)) in
      min_side_from wnear rates tokens (tail amounts)
        (match side, min_side with
         | None, _ => min_side
         | Some v, Some current_min => Some (if near_value_ltb v current_min then v else current_min)
         | Some v, None => Some v
         end)
  end.

(** Tokens and amounts of different length fail a debug assertion. *)
Definition estimate_pool_liquidity_in_near {E} (pool : PoolInfo) (wnear : TokenAccount)
  (rates : gmap TokenAccount (ExchangeRate D)) : outcome E (option (NearValue D)) :=
  let tokens := token_account_ids (bare pool) in
  let amounts := amounts (bare pool) in
  if len tokens =? len amounts then min_side_from wnear rates tokens amounts None else Panic.

Fixpoint liquid_pools {E} (pools : list PoolInfo) (wnear : TokenAccount) (min_liquidity : NearValue D)
  (rates : gmap TokenAccount (ExchangeRate D)) : outcome E (list PoolInfo) :=
  match pools with
  | [] => Ok []
  | pool :: pools =>
      let? liquidity := estimate_pool_liquidity_in_near pool wnear rates in
      let? rest := liquid_pools pools wnear min_liquidity rates in
      Ok (match liquidity with
          | Some l => if negb (near_value_ltb l min_liquidity) then pool :: rest else rest
          | None => rest
          end)
  end.
Definition filter_pools_by_liquidity {E} (pools : PoolInfoList) (wnear : TokenAccount) (min_liquidity : NearValue D)
  (rates : gmap TokenAccount (ExchangeRate D)) : outcome E PoolInfoList :=
  let? filtered := liquid_pools (pools_list pools) wnear min_liquidity rates in
  Ok (PoolInfoList_new filtered).

Definition apply_liquidity_filter_and_select (tokens : list AccountId) (pools : PoolInfoList)
  (latest_rates : gmap TokenAccount (ExchangeRate D)) (wnear : TokenAccount) (min_liquidity : NearValue D)
  (limit : option N) : outcome anyhow (list AccountId) :=
  let? filtered_pools := filter_pools_by_liquidity pools wnear min_liquidity latest_rates in
  let? tg := TokenGraph_new (G:=G) D filtered_pools in
  match (update_graph tg wnear ∅).1 with
  | Panic => Panic
  | Err _ => Err (Anyhow "Failed to build token graph" [])
  | Ok goals =>
      let kept := bfilter (fun token => contains goals token) tokens in
      let filtered_tokens := match limit with Some n => take (N.to_nat n) kept | None => kept end in
      match filtered_tokens with
      | [] => Err (Anyhow "No tokens with sufficient liquidity after filtering" [len tokens])
      | _ => Ok filtered_tokens
      end
  end.
End selection.

Section model.
Context {P G D : Type} `{BigDecimal D} `{!FromF64 D} `{!DecimalText D} `{!Rows P D} `{!PredictionRows P D}.
Context `{!Forecasts P D} `{Petgraph G} `{HashOrder} `{PathFinder} `{Numerics} `{Logarithm} `{NewPredictor}.
Context `{CompletionOrder}.
Context `{!FromSlice P (option StorageBalance)} `{!FromSlice P (gmap TokenAccount N)}.
Context `{!FromSlice P StorageBalanceBounds} `{!FromSlice P TokenMetadata} `{!FromSlice P JsonValue}.
Context `{!FromSlice P N}.
Context (valid_account : string -> bool) (show_tx : TxId -> string).
Context (sort_sells : list (SellOperation D) -> list (SellOperation D)).
Context (sort_buys : list (BuyOperation D) -> list (BuyOperation D)).
Context (is_mainnet : bool) (w : Wallet) (cfg : StrategyConfig).

Abbreviation wnear := (WNEAR_TOKEN is_mainnet).
Abbreviation tcfg := (sc_trade cfg).

(** ** Choice of tokens *)
Definition select_volatility_tokens_inner (end_date : NaiveDateTime) (limit : option N) : prog P (list AccountId) :=
  let! delta := lift (time_delta_days (Z.of_N (sc_price_history_days cfg))) in
  let! start_date := lift (shift_date end_date (- delta)%Z) in
  let! top_tokens := get_tokens_by_volatility (D:=D) valid_account start_date end_date wnear in
  match tt_token <$> top_tokens with
  | [] => Ret (Err (Anyhow "No volatility tokens returned from prediction service" []))
  | tokens =>
      let! pools := read_from_db (D:=D) None in
      let min_liquidity := from_near (bd_of_N (mc_min_pool_liquidity (sc_market cfg))) in
      let! latest_rates := get_all_latest_rates valid_account wnear in
      lift (apply_liquidity_filter_and_select (G:=G) tokens pools latest_rates wnear min_liquidity limit)
  end.
Definition select_top_volatility_tokens (end_date : NaiveDateTime) : prog P (list AccountId) :=
  select_volatility_tokens_inner end_date (Some (sc_top_tokens cfg)).
Definition select_prediction_target_tokens (end_date : NaiveDateTime) : prog P (list AccountId) :=
  select_volatility_tokens_inner end_date None.

(** ** Funds *)
Definition prepare_funds : prog P (YoctoAmount D) :=
  let target_investment := near_amount_to_yocto (mkNearAmount (bd_of_N (sc_initial_investment cfg))) in
  let! required_balance := lift (yocto_amount_to_u128 target_investment) in
  let! balance := start is_mainnet w (tc_balances tcfg) Statistics_default wnear (Some required_balance) in
  let balance_amount := yocto_amount_from_u128 balance in
  let available_funds :=
    if bd_ltb (yocto_amount_bd balance_amount) (yocto_amount_bd target_investment) then balance_amount
    else target_investment in
  if yocto_amount_is_zero available_funds
  then Ret (Err (Anyhow "Insufficient wrap.near balance for trading" [balance]))
  else Ret (Ok available_funds).

(** ** The data of a token *)
Record Candidate := mkCandidate {
  ca_token : TokenAccount;
  ca_history : PriceHistory D;
  ca_current_price : TokenPrice D;
  ca_predicted_price : TokenPrice D;
  ca_volatility : f64;
}.
Record Measured := mkMeasured {
  me_candidate : Candidate;
  me_liquidity_score : f64;
  me_market_cap : NearValue D;
  me_decimals : N;
}.

(** Rows whose token does not parse are skipped. *)
Definition fresh_predictions (rows : list (DbPredictionRecord D)) : gmap TokenAccount (TokenPrice D) :=
  foldl (fun m r => if valid_account (pdr_token r)
                    then <[pdr_token r := from_near_per_token (pdr_predicted_price r)]> m else m) ∅ rows.

(** History, current price and volatility of one token, if it has all. *)
Definition token_history (predictions : gmap TokenAccount (TokenPrice D)) (start_date end_date : NaiveDateTime)
  (token : TokenAccount) : prog P (option Candidate) :=
  match predictions !! token with
  | None => Ret (Ok None)
  | Some predicted_price =>
      let! history := attempt (get_price_history valid_account token wnear start_date end_date) in
      match history with
      | inr _ => Ret (Ok None)
      | inl history =>
          match list.last (hist_prices history) with
          | None => Ret (Ok None)
          | Some point =>
              match calculate_volatility_from_history history with
              | Panic => Ret Panic
              | Err _ => Ret (Ok None)
              | Ok volatility =>
                  Ret (Ok ((mkCandidate token history (pp_price point) predicted_price) <$> bd_to_f64 volatility))
              end
          end
      end
  end.
Fixpoint token_histories (predictions : gmap TokenAccount (TokenPrice D)) (start_date end_date : NaiveDateTime)
  (tokens : list TokenAccount) : prog P (list (option Candidate)) :=
  match tokens with
  | [] => Ret (Ok [])
  | token :: tokens =>
      let! c := token_history predictions start_date end_date token in
      let! rest := token_histories predictions start_date end_date tokens in
      Ret (Ok (c :: rest))
  end.

(** Liquidity, decimals and market capitalisation. *)
Definition measure (c : Candidate) : prog P (option Measured) :=
  let! liquidity_score := calculate_enhanced_liquidity_score is_mainnet (sc_market cfg) (ca_token c) (ca_history c) in
  let! decimals := attempt (get_token_decimals_cached (ca_token c)) in
  match decimals with
  | inr _ => Ret (Ok None)
  | inl decimals =>
      let! market_cap := estimate_market_cap_async (ca_token c) (ca_current_price c) decimals in
      Ret (Ok (Some (mkMeasured c liquidity_score market_cap decimals)))
  end.
Fixpoint measure_all (cs : list Candidate) : prog P (list Measured) :=
  match cs with
  | [] => Ret (Ok [])
  | c :: cs =>
      let! m := measure c in
      let! rest := measure_all cs in
      Ret (Ok (match m with Some m => m :: rest | None => rest end))
  end.

(** The chunks of [chunks(concurrency)], in order; a chunk size of zero panics. *)
Definition measure_in_chunks (cs : list Candidate) : prog P (list Measured) :=
  if sc_concurrency cfg =? 0 then Ret Panic else measure_all (concat (chunks (N.to_nat (sc_concurrency cfg)) cs)).

Definition token_data_of (m : Measured) : TokenData D :=
  mkTokenData (hist_token (ca_history (me_candidate m)))
    (from_price (ca_current_price (me_candidate m)) (me_decimals m))
    (ca_volatility (me_candidate m)) (Some (me_liquidity_score m)) (Some (me_market_cap m)).

(** A return that does not convert to [f64] fails a debug assertion. *)
Fixpoint expected_returns_of (ms : list Measured) (acc : gmap TokenAccount f64) : outcome anyhow (gmap TokenAccount f64) :=
  match ms with
  | [] => Ok acc
  | m :: ms =>
      let c := me_candidate m in
      let? r := expect (expected_return (ca_current_price c) (ca_predicted_price c)) in
      expected_returns_of ms (<[ca_token c := r]> acc)
  end.

(** Tokens of low confidence are left out; without a confidence they stay. *)
Definition confident (confidences : gmap TokenAccount f64) (t : TokenData D) : bool :=
  match confidences !! td_symbol t with
  | Some c => f64_leb (sc_min_token_confidence cfg) c
  | None => true
  end.

Definition portfolio_data_of (ms : list Measured) (confidences : gmap TokenAccount f64) : PortfolioData D :=
  let tokens := bfilter (confident confidences) (token_data_of <$> ms) in
  let remaining (k : TokenAccount) := k ∈ td_symbol <$> tokens in
  mkPortfolioData tokens
    (filter (fun e => remaining e.1)
       (collect_map ((fun m => (hist_token (ca_history (me_candidate m)), ca_predicted_price (me_candidate m))) <$> ms)))
    (filter (fun e => remaining e.1)
       (collect_map ((fun m => (hist_token (ca_history (me_candidate m)), ca_history (me_candidate m))) <$> ms)))
    (filter (fun e => remaining e.1) confidences).

(** ** The wallet *)
Definition wallet_of_balances (balances : gmap TokenAccount (TokenAmount D)) (total_value : NearValue D)
  : outcome anyhow (WalletInfo D) :=
  let? cash := match balances !! wnear with
               | Some amount => amount_div_rate amount wnear_rate
               | None => Ok near_value_zero
               end in
  Ok (mkWalletInfo (filter (fun e => e.1 <> wnear /\ token_amount_is_zero e.2 = false) balances) total_value cash).

Definition wallet_info (tokens : list TokenAccount) (available_funds : YoctoAmount D) (is_new_period : bool)
  (period_id : string) : prog P (WalletInfo D) :=
  if is_new_period then
    let total_value := yocto_value_to_near (yocto_amount_to_value available_funds) in
    Ret (Ok (mkWalletInfo ∅ total_value total_value))
  else
    let! recorded := get_holdings_from_db period_id in
    let! current_balances :=
      match recorded with
      | Some holdings => Ret (Ok holdings)
      | None => get_current_portfolio_balances is_mainnet w (ensure_wnear_included is_mainnet tokens)
      end in
    let! total := calculate_total_portfolio_value valid_account is_mainnet current_balances in
    lift (wallet_of_balances current_balances total).

(** ** The strategy

    With a limit of zero, [buffer_unordered] never starts a task and the run
    does not go on; it has no result, like a panic. *)
Definition execute_portfolio_strategy (tokens : list TokenAccount) (available_funds : YoctoAmount D)
  (is_new_period : bool) (period_id : string) (end_date : NaiveDateTime)
  : prog P (list (TradingAction D) * gmap TokenAccount f64) :=
  let! rows := get_latest_fresh_predictions (D:=D) tokens end_date in
  let batch_predictions := fresh_predictions rows in
  if decide (batch_predictions = ∅) then Ret (Err (Anyhow "No fresh predictions available" []))
  else
    let! delta := lift (time_delta_days (Z.of_N (sc_price_history_days cfg))) in
    let! start_date := lift (shift_date end_date (- delta)%Z) in
    let! _ := if sc_concurrency cfg =? 0 then Ret Panic else Ret (Ok tt) in
    let! results := token_histories batch_predictions start_date end_date tokens in
    let! measured := measure_in_chunks (omap (fun c => c) (completed results)) in
    let! expected_returns := lift (expected_returns_of measured ∅) in
    match measured with
    | [] => Ret (Err (Anyhow "Failed to process any tokens for portfolio strategy" []))
    | _ =>
        let! confidences :=
          attempt (calculate_per_token_confidence (D:=D) (sc_accuracy cfg) (td_symbol ∘ token_data_of <$> measured)) in
        match confidences with
        | inr _ => Ret (Ok ([Hold], ∅))
        | inl confidences =>
            let data := portfolio_data_of measured confidences in
            match pd_tokens data with
            | [] => Ret (Ok ([Hold], ∅))
            | _ =>
                let! wallet := wallet_info tokens available_funds is_new_period period_id in
                let! now := utc_now in
                let! report := lift (execute_portfolio_optimization now wallet data (sc_rebalance_threshold cfg)) in
                Ret (Ok (rp_actions report, expected_returns))
            end
        end
    end.

(** The funds of a run: [None] when there is nothing to do. *)
Definition run_funds (r : EvaluationPeriodResult D) : prog P (option (YoctoAmount D)) :=
  if pr_is_new_period r then
    match pr_liquidated_balance r with
    | Some balance => Ret (Ok (if yocto_amount_is_zero balance then None else Some balance))
    | None =>
        let! funds := prepare_funds in
        Ret (Ok (if yocto_amount_is_zero funds then None else Some funds))
    end
  else Ret (Ok (Some yocto_amount_zero)).

(** The tokens of a run; a new period stores its choice, and goes on when that
    fails. *)
Definition run_tokens (r : EvaluationPeriodResult D) (current_time : NaiveDateTime) : prog P (list TokenAccount) :=
  if pr_is_new_period r then
    let! tokens := select_top_volatility_tokens current_time in
    let! _ := match tokens with
              | [] => Ret (Ok tt)
              | _ => let! _ := attempt (update_selected_tokens (D:=D) (pr_period_id r) tokens) in Ret (Ok tt)
              end in
    Ret (Ok tokens)
  else Ret (Ok (pr_existing_tokens r)).

(** From the storage of the exchange to the record of the holdings. *)
Definition trade_tokens (r : EvaluationPeriodResult D) (available_funds : YoctoAmount D)
  (selected_tokens : list TokenAccount) (current_time : NaiveDateTime) : prog P unit :=
  let token_accounts := bfilter valid_account selected_tokens in
  let! _ := ensure_ref_storage_setup is_mainnet w token_accounts (keep_with_portfolio is_mainnet token_accounts)
              (max_top_up_from_config (tc_max_top_up tcfg)) in
  let! _ :=
    if pr_is_new_period r then
      let! amount := lift (yocto_amount_to_u128 available_funds) in
      deposit_wrap_near_to_ref is_mainnet w (tc_balances tcfg) amount
    else Ret (Ok tt) in
  let! strategy := execute_portfolio_strategy selected_tokens available_funds (pr_is_new_period r)
                     (pr_period_id r) current_time in
  let! _ := execute_trading_actions valid_account show_tx sort_sells sort_buys is_mainnet w tcfg
              strategy.1 (pr_period_id r) strategy.2 in
  let! _ := attempt (record_portfolio_holdings (D:=D) is_mainnet w (pr_period_id r) token_accounts current_time) in
  Ret (Ok tt).

Definition strategy_start (current_time : NaiveDateTime) : prog P unit :=
  let! r := manage_evaluation_period valid_account show_tx is_mainnet w tcfg current_time yocto_amount_zero in
  if String.eqb (pr_period_id r) EmptyString then Ret (Ok tt)
  else if negb (tc_trade_enabled tcfg) then
    if pr_is_new_period r then Ret (Ok tt)
    else let! _ := liquidate_all_positions show_tx is_mainnet w tcfg in Ret (Ok tt)
  else
    let! funds := run_funds r in
    match funds with
    | None => Ret (Ok tt)
    | Some available_funds =>
        let! _ := lift (PredictionService_new (sc_max_retries cfg) (sc_retry_delay_seconds cfg) (sc_model_threads cfg)) in
        let! selected_tokens := run_tokens r current_time in
        match selected_tokens with
        | [] => Ret (Ok tt)
        | _ => trade_tokens r available_funds selected_tokens current_time
        end
    end.
End model.
