(* ===== verification/StrategyFacts.v ===== *)
(** * StrategyFacts: what the strategy chooses

    The tokens chosen for trading have a path over pools of enough liquidity;
    the actions of the strategy are for chosen tokens with a fresh prediction
    that their record does not disqualify. *)

From Stdlib Require Import QArith SpecFloat.
From S2P Require Import Prelude NearClient StoragePlanner Storage F64 Vectors BigDecimal Units Dex Swap Balances.
From S2P Require Import Slippage Harvest Records Matching TradeSwap Execution Periods Graph GraphPaths TokenCache Optimizer.
From S2P Require Import OptimizerReport Config Market Predict Accuracy Strategy.
Local Open Scope N_scope.

(** ** Liquidity *)
Section liquidity.
Context {D : Type} `{BigDecimalLaws D}.
Context (wnear : TokenAccount) (rates : gmap TokenAccount (ExchangeRate D)).

(** What every side of a pool with a known price is worth at least. *)
Definition deep_pool (min_liquidity : NearValue D) (p : PoolInfo) : Prop :=
  (exists i token amount v, token_account_ids (bare p) !! i = Some token /\ amounts (bare p) !! i = Some amount /\
     side_value (E:=anyhow) wnear token rates amount = Ok (Some v)) /\
  forall i token amount v, token_account_ids (bare p) !! i = Some token -> amounts (bare p) !! i = Some amount ->
    side_value (E:=anyhow) wnear token rates amount = Ok (Some v) ->
    (bd_val (near_value_bd min_liquidity) <= bd_val (near_value_bd v))%Q.

Lemma near_value_ltb_false (a b : NearValue D) :
  near_value_ltb a b = false <-> (bd_val (near_value_bd b) <= bd_val (near_value_bd a))%Q.
Proof. apply bd_ltb_false. Qed.

(** The result is the least of the sides and of the start value. *)
Lemma min_side_from_spec tokens : forall amounts m r, length tokens = length amounts ->
  min_side_from (E:=anyhow) wnear rates tokens amounts m = Ok (Some r) ->
  (m = Some r \/ exists i token amount, tokens !! i = Some token /\ amounts !! i = Some amount /\
     side_value (E:=anyhow) wnear token rates amount = Ok (Some r)) /\
  (forall v, m = Some v -> (bd_val (near_value_bd r) <= bd_val (near_value_bd v))%Q) /\
  (forall i token amount v, tokens !! i = Some token -> amounts !! i = Some amount ->
     side_value (E:=anyhow) wnear token rates amount = Ok (Some v) ->
     (bd_val (near_value_bd r) <= bd_val (near_value_bd v))%Q).
Proof.
  induction tokens as [|token tokens IH]; intros amounts m r Hlen Hr; cbn [min_side_from] in Hr.
  { injection Hr as ->. split; [by left|]. split; [intros v [= ->]; apply Qle_refl|done]. }
  destruct amounts as [|amount amounts]; [done|]. injection Hlen as Hlen.
  cbn [head tail default from_option] in Hr. change (Datatypes.id amount) with amount in Hr.
  apply obind_Ok_inv in Hr as (side & Hs & Hr). destruct (IH _ _ _ Hlen Hr) as (Hwho & Hm & Hall). split; [|split].
  - destruct Hwho as [Hwho|(i & tk & am & Ht & Ha & Hv)]; [|right; by exists (S i), tk, am].
    destruct side as [v|]; [|by left]. destruct m as [cur|].
    + destruct (near_value_ltb v cur); [|by left]. right. exists 0%nat, token, amount. by injection Hwho as ->.
    + right. exists 0%nat, token, amount. by injection Hwho as ->.
  - intros cur ->. destruct side as [v|]; [|by apply Hm].
    destruct (near_value_ltb v cur) eqn:El; [|by apply Hm].
    eapply Qle_trans; [by apply Hm|]. apply bd_ltb_val in El. by apply Qlt_le_weak.
  - intros [|i] tk am v; cbn; [|by apply Hall]. intros [= <-] [= <-] Hv. rewrite Hs in Hv. injection Hv as ->.
    destruct m as [cur|]; [|by apply Hm]. destruct (near_value_ltb v cur) eqn:El; [by apply Hm|].
    eapply Qle_trans; [by apply Hm|]. by apply near_value_ltb_false.
Qed.

Lemma liquid_pools_spec min_liquidity pools filtered :
  liquid_pools (E:=anyhow) pools wnear min_liquidity rates = Ok filtered ->
  filtered `sublist_of` pools /\ Forall (deep_pool min_liquidity) filtered.
Proof.
  revert filtered. induction pools as [|p pools IH]; intros filtered; cbn [liquid_pools].
  { intros [= <-]. split; [done|by apply Forall_nil]. }
  intros Hf. apply obind_Ok_inv in Hf as (l & El & Hf). apply obind_Ok_inv in Hf as (rest & Er & [= <-]).
  destruct (IH rest Er) as [Hs Hd]. destruct l as [l|]; [|split; [by constructor|done]].
  destruct (near_value_ltb l min_liquidity) eqn:Ec; cbn [negb]; [split; [by constructor|done]|].
  split; [by constructor|]. apply list.Forall_cons. split; [|done]. unfold estimate_pool_liquidity_in_near in El.
  destruct (N.eqb_spec (len (token_account_ids (bare p))) (len (amounts (bare p)))) as [Hlen|]; [|done].
  apply Nat2N.inj in Hlen. destruct (min_side_from_spec _ _ _ _ Hlen El) as (Hwho & _ & Hall). split.
  - destruct Hwho as [|(i & tk & am & Hw)]; [done|]. by exists i, tk, am, l.
  - intros i tk am v Ht Ha Hv. eapply Qle_trans; [by apply near_value_ltb_false|by eapply Hall].
Qed.
End liquidity.

(** ** Selection *)
Section selection.
Context (G D : Type) `{BigDecimalLaws D} `{PetgraphLaws G} `{HashOrderLaws}.

(** A goal of a fresh graph is reached over its pools. *)
Lemma goal_reached pools (tg : TokenGraph G) start goals goal : TokenGraph_new D pools = Ok tg -> unique_ids pools ->
  (update_graph tg start ∅).1 = Ok goals -> goal ∈ goals ->
  exists path, path <> [] /\ walk start path goal /\ Forall (over_simple_pool pools) path.
Proof.
  intros Htg Hu Hg Hin. destruct (update_graph tg start ∅) as [o c'] eqn:Eg. cbn [fst] in Hg. subst o.
  pose proof Htg as Htg'. unfold TokenGraph_new in Htg. apply obind_Ok_inv in Htg as (cp & Hcp & [= <-]).
  destruct (cached_path_new D pools) as [cp'|e|] eqn:Hnew; [|done..]. injection Hcp as ->.
  apply (cached_path_new_ok D pools) in Hnew.
  destruct (update_graph_ok (mkTokenGraph pools _) Hnew start ∅ goals c' (map_Forall_empty _) Eg) as [Hc' Hgoals].
  destruct (Hgoals goal Hin) as (_ & m & Hm & Hs).
  destruct (cached_path_given (mkTokenGraph pools _) Hnew c' start goal m Hu Hc' Hm Hs) as [path Hp].
  destruct (get_path_walk D pools _ c' start goal path Htg' Hp) as [Hne Hw]. exists path. split; [done|by apply Hw].
Qed.

(** C17: over pools with distinct ids, the tokens that the liquidity filter
    selects are a nonempty part of the candidates, in their order and at most as
    many as asked for; each can be reached from wrapped NEAR over simple pools of
    which every side of known price, of at least one, is worth the least
    liquidity. *)
Theorem selection_tradable (tokens : list AccountId) (pools : PoolInfoList) (rates : gmap TokenAccount (ExchangeRate D))
  (wnear : TokenAccount) (min_liquidity : NearValue D) (limit : option N) (l : list AccountId)
  (Hids : NoDup (id <$> pools_list pools))
  (Hsel : apply_liquidity_filter_and_select (G:=G) tokens pools rates wnear min_liquidity limit = Ok l) :
  l <> [] /\ l `sublist_of` tokens /\ (forall n, limit = Some n -> len l <= n) /\
  forall token, token ∈ l -> exists path, path <> [] /\ walk wnear path token /\
    Forall (fun hop => pool hop ∈ pools_list pools /\ is_simple (pool hop) = true /\
      deep_pool wnear rates min_liquidity (pool hop)) path.
Proof.
  unfold apply_liquidity_filter_and_select in Hsel. apply obind_Ok_inv in Hsel as (fp & Hfp & Hsel).
  apply obind_Ok_inv in Hsel as (tg & Htg & Hsel). unfold filter_pools_by_liquidity in Hfp.
  apply obind_Ok_inv in Hfp as (filtered & Hf & [= <-]).
  destruct (liquid_pools_spec wnear rates _ _ _ Hf) as [Hsub Hdeep].
  destruct (update_graph tg wnear ∅).1 as [goals|e|] eqn:Hg; [|done..].
  set (kept := bfilter _ tokens) in Hsel. set (out := match limit with Some n => _ | None => _ end) in Hsel.
  assert (Hout : out `sublist_of` kept) by (unfold out; destruct limit; [apply sublist_take|done]).
  assert (El : l = out /\ out <> []) by (destruct out; [done|by injection Hsel as <-]). destruct El as [-> Hne].
  split; [done|]. split; [etrans; [exact Hout|apply sublist_bfilter]|]. split.
  { intros n ->. unfold out, len. rewrite length_take. lia. }
  intros token Hin. apply (sublist_subseteq _ _ Hout) in Hin.
  apply elem_of_bfilter in Hin as [_ Hin%contains_true].
  destruct (goal_reached (PoolInfoList_new filtered) tg wnear goals token Htg) as (path & Hp & Hw & Hall); [|done..|].
  { apply PoolInfoList_new_distinct. eapply sublist_NoDup; [exact Hids|by apply fmap_sublist]. }
  exists path. split; [done|]. split; [done|]. eapply List.Forall_impl; [|exact Hall]. intros hop [Hpool Hs].
  cbn [pools_list PoolInfoList_new] in Hpool. rewrite (sort_by_perm _ filtered) in Hpool.
  split; [by eapply sublist_subseteq|]. split; [done|]. rewrite list.Forall_forall in Hdeep. by apply Hdeep.
Qed.
End selection.

(** ** The actions of the optimiser *)
Section actions.
Context {D : Type} `{BigDecimal D} `{!FromF64 D} `{Numerics}.

(** Whatever the numbers, a rebalance is to positive weights of tokens of the
    data that pass the filter. *)
Definition target_of (data : PortfolioData D) (target : gmap TokenAccount D) : Prop :=
  forall s w, target !! s = Some w -> exists td x, td ∈ pd_tokens data /\ td_symbol td = s /\
    passes_hard_filter td = true /\ f64_ltb f64_zero x = true /\ w = weight_from_f64 x.

Lemma report_actions now wallet (data : PortfolioData D) threshold report :
  execute_portfolio_optimization now wallet data threshold = Ok report ->
  rp_actions report = [Hold] \/ rp_actions report = [] \/
  exists target, rp_actions report = [Rebalance target] /\ target <> ∅ /\ target_of data target.
Proof.
  unfold execute_portfolio_optimization. destruct (hard_filter_tokens _) as [|t0 l0]; [intros [= <-]; by left|].
  destruct (report_selected now wallet data threshold) as [r|] eqn:Er; [|done]. intros [= <-].
  unfold report_selected in Er. destruct (optimize_selected data) as [[[[er dr] cov] w]|]; [|done]. cbn in Er.
  destruct (calculate_current_weights _ _) as [cw|]; [|done]. cbn in Er.
  destruct (needs_rebalancing _ _ _); cbn in Er.
  - unfold generate_rebalance_actions in Er. destruct (_ <? _)%nat; [done|]. cbn in Er.
    destruct (calculate_portfolio_std _ _); [|done]. injection Er as <-. cbn [rp_actions]. right.
    destruct (decide _) as [|Hne]; [by left|]. right. eexists. split; [done|]. split; [done|].
    intros sym x Hx. apply weight_map_elem in Hx as (i & td & y & Ht & _ & Hs & Hpos & ->).
    apply list_elem_of_lookup_2, elem_of_selected in Ht as (Hin & Hf & _). by exists td, y.
  - destruct (calculate_portfolio_std _ _); [|done]. injection Er as <-. by left.
Qed.
End actions.

(** ** The strategy *)
Section strategy.
Context (P D : Type) `{BigDecimal D} `{!FromF64 D} `{!DecimalText D} `{!Rows P D} `{!PredictionRows P D}.
Context `{Numerics} `{Logarithm} `{CompletionOrderLaws}.
Context `{!FromSlice P (option StorageBalance)} `{!FromSlice P (gmap TokenAccount N)}.
Context `{!FromSlice P StorageBalanceBounds} `{!FromSlice P TokenMetadata} `{!FromSlice P JsonValue}.
Context `{!FromSlice P N}.
Context (valid_account : string -> bool) (is_mainnet : bool) (w : Wallet) (cfg : StrategyConfig).

(** A prediction of the token that the database gave out as fresh. *)
Definition fresh_in (t : list (event P)) (tokens : list TokenAccount) (as_of : NaiveDateTime) (token : TokenAccount) : Prop :=
  exists raw rows r, ev (RDb (QFreshPredictions tokens as_of)) (inl raw) ∈ t /\ from_slice raw = Some rows /\
    r ∈ (rows : list (DbPredictionRecord D)) /\ pdr_token r = token.

Lemma fresh_predictions_elem (rows : list (DbPredictionRecord D)) token p :
  fresh_predictions valid_account rows !! token = Some p -> exists r, r ∈ rows /\ pdr_token r = token.
Proof.
  unfold fresh_predictions. enough (Hg : forall acc : gmap TokenAccount (TokenPrice D),
    foldl (fun m r => if valid_account (pdr_token r)
      then <[pdr_token r := from_near_per_token (pdr_predicted_price r)]> m else m) acc rows !! token = Some p ->
    acc !! token = Some p \/ exists r, r ∈ rows /\ pdr_token r = token).
  { intros Hl. destruct (Hg ∅ Hl) as [He|]; [by rewrite lookup_empty in He|done]. }
  induction rows as [|r rows IH]; intros acc Hl; cbn [foldl] in Hl; [by left|].
  destruct (IH _ Hl) as [He|(r' & Hin & Hr)]; [|right; exists r'; split; [by right|done]].
  destruct (valid_account _); [|by left]. apply lookup_insert_Some in He as [[<- _]|[_ He]]; [|by left].
  right. exists r. split; [by left|done].
Qed.

(** A candidate is one of the tokens, predicted, with its own history. *)
Definition candidate_ok (predictions : gmap TokenAccount (TokenPrice D)) (tokens : list TokenAccount) (c : Candidate (D:=D)) : Prop :=
  ca_token c ∈ tokens /\ is_Some (predictions !! ca_token c) /\ hist_token (ca_history c) = ca_token c.

Lemma token_history_spec predictions first last token :
  wp (token_history (P:=P) valid_account is_mainnet predictions first last token) (fun t o =>
    forall c, o = Ok (Some c) -> candidate_ok predictions [token] c).
Proof.
  unfold token_history. destruct (predictions !! token) as [pp|] eqn:Ep; [|by apply wp_ret].
  apply wp_bind, wp_attempt. eapply (wp_mono _ (fun _ o => forall h, o = Ok h -> hist_token h = token)).
  { unfold get_price_history. apply wp_bind. eapply wp_mono; [apply wp_run|]. intros t o _.
    destruct o as [rates|e|]; [|done..]. apply wp_ret. intros h Hh. unfold history_of in Hh.
    by apply obind_Ok_inv in Hh as (spots & _ & [= <-]). }
  intros t o Ho. destruct o as [h|e|]; cbn beta iota; [|by apply wp_ret|done]. specialize (Ho h eq_refl).
  destruct (list.last (hist_prices h)) as [point|]; [|by apply wp_ret].
  destruct (calculate_volatility_from_history h) as [v|e|]; [|by apply wp_ret..]. apply wp_ret.
  intros c [= Hc]. apply fmap_Some in Hc as (x & _ & ->). split; [by left|]. cbn. by rewrite Ep.
Qed.

Lemma token_histories_spec predictions first last tokens :
  wp (token_histories (P:=P) valid_account is_mainnet predictions first last tokens) (fun t o =>
    forall cs, o = Ok cs -> forall c, Some c ∈ cs -> candidate_ok predictions tokens c).
Proof.
  induction tokens as [|token tokens IH]; cbn [token_histories].
  { apply wp_ret. intros cs [= <-] c Hc. by apply elem_of_nil in Hc. }
  apply wp_bind. eapply wp_mono; [apply token_history_spec|]. intros t o Ho. destruct o as [oc|e|]; [|done..].
  apply wp_bind. eapply wp_mono; [apply IH|]. intros t' o' Ho'. destruct o' as [rest|e|]; [|done..].
  apply wp_ret. intros cs [= <-] c Hc. apply elem_of_cons in Hc as [<-|Hc].
  - destruct (Ho c eq_refl) as (Hin & Hp). split; [set_solver|done].
  - destruct (Ho' rest eq_refl c Hc) as (Hin & Hp). split; [by right|done].
Qed.

(** What was measured of a candidate, in a part of the run. *)
Definition measured_in (t : list (event P)) (m : Measured (D:=D)) : Prop :=
  exists t', t' ⊆ t /\ run (measure (P:=P) is_mainnet cfg (me_candidate m)) t' (Ok (Some m)).

Lemma measured_in_mono t t' m : t ⊆ t' -> measured_in t m -> measured_in t' m.
Proof. intros Ht (t0 & Hs & Hr). exists t0. split; [by etrans|done]. Qed.

Lemma measure_candidate c :
  wp (measure (P:=P) (D:=D) is_mainnet cfg c) (fun t o => forall m, o = Ok (Some m) -> me_candidate m = c).
Proof.
  unfold measure. apply wp_bind. eapply wp_mono; [apply wp_run|]. intros t o _. destruct o as [score|e|]; [|done..].
  apply wp_bind. eapply wp_mono; [apply wp_run|]. intros t' o' _. destruct o' as [[d|e]|e|]; [|by apply wp_ret|done..].
  apply wp_bind. eapply wp_mono; [apply wp_run|]. intros t2 o2 _. destruct o2 as [cap|e|]; [|done..].
  apply wp_ret. by intros m [= <-].
Qed.

Lemma measure_all_spec cs :
  wp (measure_all (P:=P) (D:=D) is_mainnet cfg cs) (fun t o => forall ms, o = Ok ms ->
    Forall (fun m => me_candidate m ∈ cs /\ measured_in t m) ms).
Proof.
  induction cs as [|c cs IH]; cbn [measure_all]; [apply wp_ret; intros ms [= <-]; by apply Forall_nil|].
  apply wp_bind. eapply wp_mono; [apply wp_conj; [apply wp_run|apply measure_candidate]|].
  intros t o [Hr Ho]. destruct o as [om|e|]; [|done..]. apply wp_bind. eapply wp_mono; [apply IH|].
  intros t' o' Ho'. destruct o' as [rest|e|]; [|done..]. apply wp_ret. intros ms [= <-].
  assert (Hrest : Forall (fun m => me_candidate m ∈ c :: cs /\ measured_in (t ++ t' ++ []) m) rest).
  { eapply List.Forall_impl; [|exact (Ho' rest eq_refl)]. intros m [Hin Hm]. split; [by right|].
    eapply measured_in_mono; [|exact Hm]. set_solver. }
  destruct om as [m|]; [|done]. apply list.Forall_cons. split; [|done]. rewrite (Ho m eq_refl). split; [by left|].
  exists t. split; [set_solver|]. by rewrite (Ho m eq_refl).
Qed.

Lemma expected_returns_elem (ms : list (Measured (D:=D))) : forall acc er, expected_returns_of ms acc = Ok er ->
  (forall k, is_Some (acc !! k) -> is_Some (er !! k)) /\ forall m, m ∈ ms -> is_Some (er !! ca_token (me_candidate m)).
Proof.
  induction ms as [|m ms IH]; intros acc er; cbn [expected_returns_of].
  { intros [= <-]. split; [done|]. intros m Hm. by apply elem_of_nil in Hm. }
  intros He. apply obind_Ok_inv in He as (r & _ & He). destruct (IH _ _ He) as [Hacc Hms]. split.
  - intros k Hk. apply Hacc. destruct (decide (ca_token (me_candidate m) = k)) as [<-|];
      [rewrite lookup_insert_eq|rewrite lookup_insert_ne]; done.
  - intros m' Hm. apply elem_of_cons in Hm as [->|Hm]; [|by apply Hms]. apply Hacc. by rewrite lookup_insert_eq.
Qed.

Lemma fresh_in_mono t t' tokens as_of token : t ⊆ t' -> fresh_in t tokens as_of token -> fresh_in t' tokens as_of token.
Proof. intros Ht (raw & rows & r & Hin & Hr). exists raw, rows, r. split; [by apply Ht|done]. Qed.

Lemma fresh_spec tokens as_of :
  wp (get_latest_fresh_predictions (P:=P) (D:=D) tokens as_of) (fun t o => forall rows token r, o = Ok rows ->
    r ∈ rows -> pdr_token r = token -> fresh_in t tokens as_of token).
Proof.
  unfold get_latest_fresh_predictions. destruct tokens as [|tk tokens].
  { apply wp_ret. intros rows token r [= <-] Hr. by apply elem_of_nil in Hr. }
  apply wp_bind. unfold query. apply wp_call. intros x. destruct x as [raw|e]; cbn [of_answer]; [|done].
  apply wp_ret. unfold decode. destruct (from_slice raw) as [rows'|] eqn:Er; cbn [ok_or]; [|done].
  intros rows token r [= <-] Hr Ht. exists raw, rows', r. split; [by left|done].
Qed.

Lemma measure_chunks_spec cs :
  wp (measure_in_chunks (P:=P) (D:=D) is_mainnet cfg cs) (fun t o => forall ms, o = Ok ms ->
    Forall (fun m => me_candidate m ∈ cs /\ measured_in t m) ms).
Proof.
  unfold measure_in_chunks. destruct (N.eqb_spec (sc_concurrency cfg) 0); [by apply wp_ret|].
  rewrite chunks_concat by lia. apply measure_all_spec.
Qed.

(** A confidence that was computed of the token does not disqualify it. *)
Definition not_distrusted (t : list (event P)) (token : TokenAccount) : Prop :=
  exists symbols confidences t', t' ⊆ t /\ token ∈ symbols /\
    run (calculate_per_token_confidence (P:=P) (D:=D) (sc_accuracy cfg) symbols) t' (Ok confidences) /\
    forall c, confidences !! token = Some c -> f64_leb (sc_min_token_confidence cfg) c = true.

(** What a target of the strategy rests on. *)
Record target_ok (t : list (event P)) (tokens : list TokenAccount) (as_of : NaiveDateTime)
  (expected_returns : gmap TokenAccount f64) (token : TokenAccount) (weight : D) : Prop := mkTargetOk {
  to_selected : token ∈ tokens;
  to_fresh : fresh_in t tokens as_of token;
  to_expected : is_Some (expected_returns !! token);
  to_trusted : not_distrusted t token;
  to_measured : exists m, ca_token (me_candidate m) = token /\ measured_in t m /\
    passes_hard_filter (token_data_of m) = true;
  to_positive : exists x, f64_ltb f64_zero x = true /\ weight = weight_from_f64 x;
}.

(** C6: whatever the database, the node and the matrix libraries answer, and
    in whatever order the concurrent tasks finish: when a run of the portfolio
    strategy succeeds, its actions are to hold, nothing, or one rebalance; every
    token of the rebalance is one of the given tokens, has a prediction that the
    database gave out as fresh and an expected return, was measured in the run
    with a liquidity and a market capitalisation that pass the hard filter, has
    no confidence below the configured minimum, and a positive weight. *)
Theorem strategy_targets_chosen (tokens : list TokenAccount) (funds : YoctoAmount D) (is_new : bool) (period_id : string)
  (as_of : NaiveDateTime) (t : list (event P)) (actions : list (TradingAction D)) (er : gmap TokenAccount f64)
  (Hrun : run (execute_portfolio_strategy (P:=P) valid_account is_mainnet w cfg tokens funds is_new period_id as_of)
            t (Ok (actions, er))) :
  actions = [Hold] \/ actions = [] \/
  exists target, actions = [Rebalance target] /\ target <> ∅ /\
    forall token weight, target !! token = Some weight -> target_ok t tokens as_of er token weight.
Proof.
  enough (Hwp : wp (execute_portfolio_strategy (P:=P) valid_account is_mainnet w cfg tokens funds is_new period_id as_of)
    (fun t o => forall actions er, o = Ok (actions, er) -> actions = [Hold] \/ actions = [] \/
      exists target, actions = [Rebalance target] /\ target <> ∅ /\
        forall token weight, target !! token = Some weight -> target_ok t tokens as_of er token weight)) by by eapply Hwp.
  clear Hrun t actions er. unfold execute_portfolio_strategy.
  apply wp_bind. eapply wp_mono; [apply fresh_spec|]. intros t0 o0 Hfresh. destruct o0 as [rows|e|]; [|done..].
  destruct (decide _); [by apply wp_ret|]. apply wp_bind, wp_ret. destruct (time_delta_days _) as [delta|e|]; [|done..].
  apply wp_bind, wp_ret. destruct (shift_date _ _) as [first|e|]; [|done..].
  destruct (sc_concurrency cfg =? 0); apply wp_bind, wp_ret; [done|].
  apply wp_bind. eapply wp_mono; [apply token_histories_spec|]. intros t1 o1 Hcands. destruct o1 as [results|e|]; [|done..].
  apply wp_bind. eapply wp_mono; [apply measure_chunks_spec|]. intros t2 o2 Hms. destruct o2 as [measured|e|]; [|done..].
  apply wp_bind, wp_ret. destruct (expected_returns_of measured ∅) as [er|e|] eqn:Eer; [|done..].
  destruct measured as [|m0 ms0] eqn:Em; [by apply wp_ret|]. rewrite <- Em in *. clear Em m0 ms0.
  apply wp_bind, wp_attempt. eapply wp_mono; [apply wp_run|]. intros t3 o3 Hconf.
  destruct o3 as [confidences|e|]; cbn beta iota; [|apply wp_ret; intros ? ? [= <- <-]; by left|done].
  destruct (pd_tokens _) as [|td0 tds0] eqn:Et; [apply wp_ret; intros ? ? [= <- <-]; by left|]. clear Et td0 tds0.
  apply wp_bind. eapply wp_mono; [apply wp_run|]. intros t4 o4 _. destruct o4 as [wallet|e|]; [|done..].
  apply wp_bind, wp_call. intros now. apply wp_bind, wp_ret.
  destruct (execute_portfolio_optimization _ _ _ _) as [report|e|] eqn:Eo; [|done..]. apply wp_ret. intros ? ? [= <- <-].
  destruct (report_actions _ _ _ _ _ Eo) as [Ha|[Ha|(target & Ha & Hne & Ht)]]; [by left|by right; left|right; right].
  exists target. split; [done|]. split; [done|]. intros token weight Hw. destruct (Ht token weight Hw) as (td & x & Hin & Hs & Hf & Hx).
  apply elem_of_bfilter in Hin as [Hin Hc]. apply list_elem_of_fmap in Hin as (m & -> & Hin).
  pose proof (Hms measured eq_refl) as Hall. rewrite list.Forall_forall in Hall. destruct (Hall m Hin) as [Hcs Hm].
  apply list_elem_of_omap in Hcs as (oc & Hcs & ->). rewrite (completed_perm results) in Hcs.
  destruct (Hcands results eq_refl _ Hcs) as (Htk & [p Hp] & Hh). cbn [token_data_of td_symbol] in Hs. rewrite Hh in Hs.
  apply fresh_predictions_elem in Hp as (r & Hr & Hrt). rewrite Hs in *. split.
  - done.
  - eapply fresh_in_mono; [|by eapply Hfresh]. set_solver.
  - rewrite <- Hs. by eapply (proj2 (expected_returns_elem _ _ _ Eer)).
  - exists (td_symbol ∘ token_data_of <$> measured), confidences, t3. split; [set_solver|]. split; [|split; [done|]].
    + apply list_elem_of_fmap. exists m. split; [|done]. cbn. by rewrite Hh.
    + intros c Hcc. unfold confident in Hc. cbn [token_data_of td_symbol] in Hc. by rewrite Hh, Hcc in Hc.
  - exists m. split; [done|]. split; [|done]. eapply measured_in_mono; [|exact Hm]. set_solver.
  - by exists x.
Qed.
End strategy.

(** ** A market of one token *)
#[global] Instance in_order : CompletionOrder := fun A l => l.
#[global] Instance in_order_laws : CompletionOrderLaws.
Proof. intros A l. done. Qed.
#[global] Instance rational_text : DecimalText Q := {|
  bd_text_to_f64 q := bd_to_f64 q;
  bd_from_str s := (fun n => inject_Z (Z.of_N n)) <$> parse_unsigned U128_MAX s;
|}.
#[global] Instance no_logarithm : Logarithm := fun x => x.
#[global] Instance cell_json : FromSlice cell JsonValue := fun c =>
  match c with CText s => Some (VString s) | CAmount n => Some (VString (pretty.pretty n)) | _ => None end.

Definition deep_row : DbPoolInfo cell :=
  mkDbPoolInfo 0 "SIMPLE_POOL" (CIds ["usdt"; "wrap.near"]%string) (CAmounts [10 ^ 12; 10 ^ 27]) 30 (CAmount 1) 0 5.
Definition usdt_rate (raw at_time : Z) : DbTokenRate cell Q :=
  mkDbTokenRate "usdt" "wrap.near" (inject_Z raw) at_time 6 1 None.
Definition shop_db (q : Query) : cell :=
  match q with
  | QVolatility _ _ _ => CVolatility [("usdt", 1 # 2); ("dust", 1 # 3)]
  | QLatestPool _ => CPool (Some deep_row)
  | QPoolsBetween _ _ => CPools [deep_row]
  | QAllLatestRates _ => CRates [usdt_rate 1000 0]
  | QRatesBetween _ _ first last => CRates [usdt_rate 1000 first; usdt_rate 1000 (first + HOUR_NANOS); usdt_rate 1000 (last - HOUR_NANOS)]
  | QRatesOfTokens _ _ first last => CRates [usdt_rate 1000 first; usdt_rate 1000 (last - HOUR_NANOS)]
  | QFreshPredictions _ as_of =>
      CPredictions [(3%Z, "usdt", "wrap.near", inject_Z 1200, (as_of, (as_of + hour 24)%Z), (None, None))]
  | QEvaluatedPredictions _ _ => CPredictions note_rows
  | _ => CNothing
  end.
Definition shop_view (method : string) : cell :=
  if String.eqb method "get_pools" then CPools [deep_row]
  else if String.eqb method "get_number_of_pools" then CAmount 1
  else if String.eqb method "ft_metadata" then CAmount 6
  else CText "1000000000000000000000000000".
Definition shop_answer (r : Req) (s : unit) : Resp cell r * unit :=
  match r with
  | RDb q => (inl (shop_db q), s)
  | RView _ method _ => (inl (shop_view method), s)
  | RPredict data horizon =>
      (inl (CForecast (match list.last data with
                       | Some (ts, v) => [((ts + horizon - HOUR_NANOS)%Z, v); ((ts + horizon)%Z, 2 * v)%Q]
                       | None => []
                       end)), s)
  | r => desk_answer r s
  end.
Definition shop_config : StrategyConfig :=
  mkStrategyConfig desk_config (mkMarketConfig f64_one f64_one f64_one 100) (note_config 1) 100 10 30 8 10 2 5 1 f64_zero f64_zero.
Definition shop_strategy := interp shop_answer
  (execute_portfolio_strategy (P:=cell) (D:=Q) (fun _ => true) true desk_wallet shop_config ["usdt"; "dust"]
     (mkYoctoAmount (inject_Z (10 ^ 26))) true "eval_1" (hour 1000)) tt.
Definition shop_result : list (TradingAction Q) * gmap TokenAccount f64 :=
  match shop_strategy.1.1 with Ok r => r | _ => ([], ∅) end.

(** The token with a fresh prediction becomes the target, the other does not. *)
Example shop_rebalances : (fun a => match a with Rebalance m => Some ((map_to_list m).*1) | _ => None end) <$> shop_result.1 =
  [Some ["usdt"]].
Proof. vm_compute. reflexivity. Qed.

Lemma strategy_targets_chosen_witness : exists target, shop_result.1 = [Rebalance target] /\
  forall token weight, target !! token = Some weight ->
    target_ok cell Q true shop_config shop_strategy.1.2 ["usdt"; "dust"] (hour 1000) shop_result.2 token weight.
Proof.
  assert (Hok : shop_strategy.1.1 = Ok (shop_result.1, shop_result.2)) by (vm_compute; reflexivity).
  destruct (strategy_targets_chosen cell Q (fun _ => true) true desk_wallet shop_config ["usdt"; "dust"]
    (mkYoctoAmount (inject_Z (10 ^ 26))) true "eval_1" (hour 1000) shop_strategy.1.2 shop_result.1 shop_result.2)
    as [Ha|[Ha|(target & Ha & _ & Ht)]].
  - rewrite <- Hok. apply interp_run.
  - exfalso. vm_compute in Ha. discriminate Ha.
  - exfalso. vm_compute in Ha. discriminate Ha.
  - exists target. split; [exact Ha|exact Ht].
Defined.

Definition shop_pools : PoolInfoList :=
  PoolInfoList_new [simple_pool 0 "usdt" "wrap.near" (10 ^ 12) (10 ^ 27); simple_pool 1 "dust" "wrap.near" (10 ^ 12) 5].
Definition shop_rates_now : gmap TokenAccount (ExchangeRate Q) := {[ "usdt" := mkExchangeRate (inject_Z 1000) 6 ]}.

Lemma selection_tradable_witness : exists path, path <> [] /\ walk "wrap.near" path "usdt" /\
  Forall (fun hop => pool hop ∈ pools_list shop_pools /\ is_simple (pool hop) = true /\
    deep_pool "wrap.near" shop_rates_now (mkNearValue (inject_Z 100)) (pool hop)) path.
Proof.
  apply (selection_tradable ListGraph Q ["dust"; "usdt"] shop_pools shop_rates_now "wrap.near" (mkNearValue (inject_Z 100))
    (Some 5) ["usdt"]); [|vm_compute; reflexivity|apply list_elem_of_here].
  apply (bool_decide_unpack _). vm_compute. exact I.
Defined.
