(* ===== verification/Trader.v ===== *)
(** * Trader: the scheduled tasks

    [trade/src/lib.rs]: the recording of rates, the prediction cycle and the
    trading cycle, with the scheduler that runs them, and the batch inserts of
    [persistence/src/pool_info.rs] and [token_rate.rs].  The cron library (its
    parser and the times it gives out) and the serialisation of columns are
    interfaces; the caches of decimals are passed along; log output is left out. *)

From Stdlib Require Import QArith SpecFloat.
From S2P Require Import Prelude NearClient StoragePlanner Storage F64 Vectors BigDecimal Units Dex Swap Balances.
From S2P Require Import Slippage Harvest Records Matching TradeSwap Execution Periods Graph Pools TokenCache Optimizer.
From S2P Require Import Config Market Predict Accuracy Strategy GraphPaths OptimizerReport StrategyFacts.
Local Open Scope N_scope.

Record RatesConfig := mkRatesConfig {
  rc_min_pool_liquidity : N;
  rc_pool_retention_days : N;
  rc_rates_retention_days : N;
  rc_backoff_base_minutes : N;
  rc_max_backoff_minutes : N;
}.

(** ** Batch inserts *)
Section inserts.
Context {P D : Type} `{BigDecimal D} `{!Rows P D} `{!ToColumns P D}.

Definition pool_columns (p : PoolInfo) : Z * string * list TokenAccount * list N * Z * N * Z * NaiveDateTime :=
  (as_signed 32 (id p), pool_kind (bare p), token_account_ids (bare p), amounts (bare p),
   as_signed 32 (total_fee (bare p)), shares_total_supply (bare p), as_signed 64 (amp (bare p)), timestamp p).
Definition batch_insert_pools (retention_days : N) (pool_infos : list PoolInfo) : prog P unit :=
  match pool_infos with
  | [] => Ret (Ok tt)
  | _ =>
      let! _ := lift (try_map (pool_to_new_db (P:=P) (D:=D)) pool_infos) in
      let! _ := query (QInsertPools (pool_columns <$> pool_infos)) in
      spawn (cleanup_pool_info retention_days)
  end.
Definition write_to_db (retention_days : N) (pools : PoolInfoList) : prog P unit :=
  batch_insert_pools retention_days (pools_list pools).

(** A path that does not serialise is left out of its row. *)
Definition path_columns (p : SwapPath D) : option (list (N * N * N * numeric * numeric)) :=
  (fun _ => (fun s => (sp_pool_id D s, sp_token_in_idx D s, sp_token_out_idx D s,
                       bd_numeric (smallest_bd (sp_amount_in s)), bd_numeric (smallest_bd (sp_amount_out s))))
            <$> sp_pools p) <$> (path_value (P:=P) p).
Definition rate_columns (r : TokenRate D) : string * string * numeric * NaiveDateTime * Z * Z *
    option (list (N * N * N * numeric * numeric)) :=
  (tr_base r, tr_quote r, bd_numeric (raw_rate (tr_exchange_rate r)), tr_timestamp r,
   Z.of_N (rate_decimals (tr_exchange_rate r)), tr_rate_calc_near r, tr_swap_path r ≫= path_columns).
Definition batch_insert_rates (retention_days : N) (token_rates : list (TokenRate D)) : prog P unit :=
  match token_rates with
  | [] => Ret (Ok tt)
  | _ =>
      let! _ := query (QInsertRates (rate_columns <$> token_rates)) in
      spawn (cleanup_token_rates retention_days)
  end.
End inserts.

(** ** Recording rates *)
Section rates.
Context {P G D : Type} `{BigDecimal D} `{!Rows P D} `{!ToColumns P D} `{Petgraph G} `{HashOrder} `{CompletionOrder}.
Context `{!FromSlice P TokenMetadata} `{!FromSlice P N} `{!FromSlice P (list PoolInfoBared)}.
Context (is_mainnet : bool) (cfg : RatesConfig).

Definition get_quote_token : TokenAccount := WNEAR_TOKEN is_mainnet.

(** A tenth of the least liquidity of a pool, at least one NEAR. *)
Definition get_initial_value : NearAmount D :=
  let rate_calc_amount := N.max (rc_min_pool_liquidity cfg / 10) 1 in
  mkNearAmount (bd_of_N rate_calc_amount).

(** Hops whose amounts are missing are left out. *)
Definition swap_path_of (path : TokenPath) : SwapPath D :=
  mkSwapPath (omap (fun pair =>
    match pair_amount_in pair, pair_amount_out pair with
    | Ok amount_in, Ok amount_out =>
        Some (mkSwapPoolInfo (id (pool pair)) (in_index (token_in pair)) (out_index (token_out pair))
                (smallest_from_u128 amount_in) (smallest_from_u128 amount_out))
    | _, _ => None
    end) path).

(** [TokenRate::new_with_path] reads the clock. *)
Fixpoint rates_of (initial_value : NearAmount D) (decimals : gmap TokenAccount N)
  (values : list (TokenAccount * N * TokenPath)) : prog P (list (TokenRate D)) :=
  match values with
  | [] => Ret (Ok [])
  | (base, value, path) :: values =>
      match decimals !! base with
      | None => rates_of initial_value decimals values
      | Some d =>
          let amount := from_smallest_units (bd_of_N value) d in
          let exchange_rate := amount_div_near amount initial_value in
          let! now := utc_now in
          let! rest := rates_of initial_value decimals values in
          Ret (Ok (mkTokenRate base get_quote_token exchange_rate now (near_amount_to_i64 initial_value)
                     (Some (swap_path_of path)) :: rest))
      end
  end.

(** The requests of [ensure_decimals_cached], in the order they finish. *)
Fixpoint fetch_decimals (missing : list TokenAccount) : prog P (list (TokenAccount * option N)) :=
  match missing with
  | [] => Ret (Ok [])
  | token_id :: missing =>
      let! d := attempt (get_token_decimals token_id) in
      let! rest := fetch_decimals missing in
      Ret (Ok ((token_id, match d with inl d => Some d | inr _ => None end) :: rest))
  end.
Definition ensure_decimals (st : Caches) (token_ids : list TokenAccount) : prog P (gmap TokenAccount N * Caches) :=
  let (result, missing) := split_cached (decimals st) ∅ token_ids in
  match missing with
  | [] => Ret (Ok (result, st))
  | _ =>
      let! now := utc_now in
      let! missing := lift (retain_due (failures st) now (rc_backoff_base_minutes cfg) (rc_max_backoff_minutes cfg) missing) in
      match missing with
      | [] => Ret (Ok (result, st))
      | _ =>
          let! finished := fetch_decimals missing in
          let fetched := completed finished in
          let! st := lift (record_all now st fetched) in
          Ret (Ok (foldl add_fetched result fetched, st))
      end
  end.

(** Up to the values of the graph; the caches are not touched. *)
Definition value_graph : prog P (list (TokenAccount * N * TokenPath)) :=
  let quote_token := get_quote_token in
  let initial_value := get_initial_value in
  let! pools := read_pools_from_node is_mainnet in
  let! _ := write_to_db (D:=D) (rc_pool_retention_days cfg) pools in
  let! tg := lift (TokenGraph_new (G:=G) D pools) in
  let '(goals, c) := update_graph tg quote_token ∅ in
  let! goals := lift goals in
  let! initial_yocto := lift (yocto_amount_to_u128 (near_amount_to_yocto initial_value)) in
  lift (list_values_with_path D tg c initial_yocto quote_token goals).

(** The caches afterwards, with the result. *)
Definition record_rates (st : Caches) : prog P (Caches * (unit + anyhow)) :=
  let! values := attempt value_graph in
  match values with
  | inr e => Ret (Ok (st, inr e))
  | inl values =>
      let token_ids := (hash_iter (gset_to_gmap tt (list_to_set ((fun v => v.1.1) <$> values) : gset TokenAccount))).*1 in
      let! cached := ensure_decimals (cleanup_stale_failures st token_ids) token_ids in
      let '(token_decimals, st) := cached in
      let! recorded := attempt
        (let! rates := rates_of get_initial_value token_decimals values in
         batch_insert_rates (rc_rates_retention_days cfg) rates) in
      Ret (Ok (st, recorded))
  end.
End rates.

(** ** The prediction cycle and the trading cycle *)
Section cycles.
Context {P G D : Type} `{BigDecimal D} `{!FromF64 D} `{!DecimalText D} `{!Rows P D} `{!PredictionRows P D}.
Context `{!Forecasts P D} `{Petgraph G} `{HashOrder} `{PathFinder} `{Numerics} `{Logarithm} `{NewPredictor}.
Context `{CompletionOrder}.
Context `{!FromSlice P (option StorageBalance)} `{!FromSlice P (gmap TokenAccount N)}.
Context `{!FromSlice P StorageBalanceBounds} `{!FromSlice P TokenMetadata} `{!FromSlice P JsonValue}.
Context `{!FromSlice P N}.
Context (valid_account : string -> bool) (show_tx : TxId -> string).
Context (sort_sells : list (SellOperation D) -> list (SellOperation D)).
Context (sort_buys : list (BuyOperation D) -> list (BuyOperation D)).
Context (is_mainnet : bool) (w : Wallet) (cfg : StrategyConfig).

Abbreviation wnear := (WNEAR_TOKEN is_mainnet).
Abbreviation entries := (gmap TokenAccount (TokenPrice D * NaiveDateTime)).

(** The predictions of one chunk at the horizon; the others are only counted. *)
Fixpoint add_entries (predictions : list (TokenAccount * TokenPredictionResult D)) (acc : entries)
  : outcome anyhow entries :=
  match predictions with
  | [] => Ok acc
  | (token, result) :: predictions =>
      let? p := prediction_at_horizon result PREDICTION_HORIZON_HOURS in
      add_entries predictions
        (match p with Some p => <[token := (pr_price p, tp_data_cutoff_time result)]> acc | None => acc end)
  end.

(** A chunk that fails is skipped. *)
Fixpoint predict_chunks (sv : PredictionService) (as_of : NaiveDateTime) (chunks : list (list TokenAccount))
  (acc : entries) : prog P entries :=
  match chunks with
  | [] => Ret (Ok acc)
  | chunk :: chunks =>
      let! predictions := attempt (predict_multiple_tokens (D:=D) valid_account sv chunk wnear
        (Z.of_N (sc_price_history_days cfg)) PREDICTION_HORIZON_HOURS as_of) in
      match predictions with
      | inr _ => predict_chunks sv as_of chunks acc
      | inl predictions =>
          let! acc := lift (add_entries (hash_iter predictions) acc) in
          predict_chunks sv as_of chunks acc
      end
  end.

Definition run_prediction_cycle (as_of : NaiveDateTime) : prog P N :=
  let! sv := lift (PredictionService_new (sc_max_retries cfg) (sc_retry_delay_seconds cfg) (sc_model_threads cfg)) in
  let! target_tokens := select_prediction_target_tokens (G:=G) (D:=D) valid_account is_mainnet cfg as_of in
  let chunk_size := N.max (sc_chunk_size cfg) 1 in
  let! prediction_entries := predict_chunks sv as_of (chunks (N.to_nat chunk_size) target_tokens) ∅ in
  if (map_len prediction_entries =? 0) && negb (is_nil target_tokens)
  then Ret (Err (Anyhow "all prediction chunks failed" [len target_tokens]))
  else
    let! _ := record_predictions prediction_entries wnear in
    Ret (Ok (map_len prediction_entries)).

Definition run_predictions : prog P unit :=
  let! _ := attempt (evaluate_pending_predictions (D:=D) valid_account (sc_accuracy cfg)) in
  let! now := utc_now in
  let! _ := run_prediction_cycle now in
  Ret (Ok tt).

(** The task of [run_trade]: without predictions the cycle is skipped. *)
Definition trade_task : prog P unit :=
  let! predicted := attempt run_predictions in
  match predicted with
  | inr _ => Ret (Ok tt)
  | inl _ =>
      let! now := utc_now in
      strategy_start (G:=G) (D:=D) valid_account show_tx sort_sells sort_buys is_mainnet w cfg now
  end.
End cycles.

(** ** The scheduler *)

(** The cron library: its parser, and the times of a schedule in order. *)
Class Cron (S : Type) := { parse_schedule : string -> option S; upcoming : S -> NaiveDateTime -> list NaiveDateTime }.

Definition parse_cron_schedule {S} `{Cron S} (cron_expr dflt : string) : outcome anyhow S :=
  match parse_schedule cron_expr with
  | Some s => Ok s
  | None => expect (parse_schedule dflt)
  end.

Section scheduler.
Context {P : Type} (task : prog P unit).

Definition NANOS : Z := 10 ^ 9.
(** The waiting loop, for at most [fuel] looks at the clock; [false] when the
    time has not come by then.  The first clock of a turn was already read. *)
Fixpoint wait_until (fuel : nat) (next : NaiveDateTime) : prog P bool :=
  match fuel with
  | O => Ret (Ok false)
  | S fuel =>
      let! now := utc_now in
      if (next <=? now)%Z then Ret (Ok true)
      else
        let remaining := (next - now)%Z in
        let! max_sleep := Op (RSetting "CRON_MAX_SLEEP_SECONDS") (fun x => Ret (Ok x)) in
        let sleep_duration := Z.min remaining (Z.of_N max_sleep * NANOS) in
        let! _ := Op (RSetting "CRON_LOG_THRESHOLD_SECONDS") (fun x => Ret (Ok x)) in
        let! _ := Op (RSleep sleep_duration) (fun _ => Ret (Ok tt)) in
        wait_until fuel next
  end.

(** One time of the schedule: a time that has passed is skipped, the
    configuration is loaded again, and an error of the task is only logged. *)
Definition cron_turn (fuel : nat) (next : NaiveDateTime) : prog P bool :=
  let! now := utc_now in
  if (next <=? now)%Z then Ret (Ok true)
  else
    let! arrived := wait_until fuel next in
    if arrived : bool then
      let! _ := Op RReloadConfig (fun _ => Ret (Ok tt)) in
      let! _ := attempt task in
      Ret (Ok true)
    else Ret (Ok false).

Fixpoint cronjob (fuel : nat) (schedule : list NaiveDateTime) : prog P bool :=
  match schedule with
  | [] => Ret (Ok true)
  | next :: schedule =>
      let! finished := cron_turn fuel next in
      if finished : bool then cronjob fuel schedule else Ret (Ok false)
  end.
End scheduler.

(** * The caches and the rates that are recorded *)
Section rates_facts.
Context {P G D : Type} `{BigDecimal D} `{!Rows P D} `{!ToColumns P D} `{Petgraph G} `{HashOrder} `{CompletionOrderLaws}.
Context `{!FromSlice P TokenMetadata} `{!FromSlice P N} `{!FromSlice P (list PoolInfoBared)}.
Context (is_mainnet : bool) (cfg : RatesConfig).
Abbreviation base := (rc_backoff_base_minutes cfg).
Abbreviation limit := (rc_max_backoff_minutes cfg).

Lemma fetch_decimals_spec missing :
  wp (fetch_decimals (P:=P) missing) (fun t o => forall fetched, o = Ok fetched -> fetched.*1 = missing).
Proof.
  induction missing as [|token missing IH]; cbn [fetch_decimals]; [by apply wp_ret; intros ? [= <-]|].
  apply wp_bind. eapply wp_mono; [apply wp_run|]. intros t o _. destruct o as [d|e|]; [|done..].
  apply wp_bind. eapply wp_mono; [apply IH|]. intros t' o' Ho'. destruct o' as [rest|e|]; [|done..].
  apply wp_ret. intros fetched [= <-]. cbn. f_equal. by apply Ho'.
Qed.

(** The requests made one by one amount to one call of [ensure_decimals_cached]. *)
Lemma ensure_decimals_refines st ids :
  wp (ensure_decimals (P:=P) cfg st ids) (fun t o => forall result st', o = Ok (result, st') ->
    exists fetch now batch, (forall l, map fst (fetch l) ≡ₚ l) /\
      ensure_decimals_cached fetch st now base limit ids = Ok (result, batch, st')).
Proof.
  set (idle := fun l : list TokenAccount => (fun token => (token, @None N)) <$> l).
  assert (Hidle : forall l, map fst (idle l) ≡ₚ l).
  { intros l. unfold idle. by rewrite <- list_fmap_compose, list_fmap_id. }
  unfold ensure_decimals, ensure_decimals_cached. destruct (split_cached _ _ _) as [result missing].
  destruct missing as [|m0 missing]; [by apply wp_ret; intros ? ? [= <- <-]; exists idle, 0%Z, []|].
  apply wp_bind, wp_call. intros now. apply wp_bind, wp_ret.
  destruct (retain_due _ _ _ _ _) as [due|e|] eqn:Ed; [|done..]. destruct due as [|d0 due].
  { apply wp_ret. intros ? ? [= <- <-]. exists idle, now, []. by rewrite Ed. }
  apply wp_bind. eapply wp_mono; [apply fetch_decimals_spec|]. intros t o Ho. destruct o as [finished|e|]; [|done..].
  specialize (Ho finished eq_refl). apply wp_bind, wp_ret.
  destruct (record_all now st (completed finished)) as [st1|e|] eqn:Er; [|done..]. apply wp_ret. intros ? ? [= <- <-].
  exists (fun l => if decide (l = d0 :: due) then completed finished else idle l), now, (completed finished). split.
  - intros l. destruct (decide (l = d0 :: due)) as [->|]; [|apply Hidle]. by rewrite completed_perm, <- Ho.
  - rewrite Ed. cbn [obind]. destruct (decide _) as [_|]; [|done]. by rewrite Er.
Qed.

Lemma split_cached_exact cache result ids token : token ∈ ids ->
  result !! token = None \/ result !! token = cache !! token ->
  (split_cached cache result ids).1 !! token = cache !! token.
Proof.
  revert result. induction ids as [|x ids IH]; intros result Hin Hres; [by apply not_elem_of_nil in Hin|].
  assert (Hout : forall r : gmap TokenAccount N, token ∉ ids -> (split_cached cache r ids).1 !! token = r !! token).
  { clear. induction ids as [|y ids IH]; intros r Hn; cbn [split_cached]; [done|].
    apply not_elem_of_cons in Hn as [Hy Hn]. destruct (cache !! y).
    - rewrite IH by done. by rewrite lookup_insert_ne by done.
    - specialize (IH r Hn). by destruct (split_cached cache r ids). }
  cbn [split_cached]. destruct (cache !! x) as [d|] eqn:Ex.
  - destruct (decide (token = x)) as [->|Hne].
    + destruct (decide (x ∈ ids)) as [Hi|Hi].
      * apply IH; [done|]. right. by rewrite lookup_insert_eq.
      * rewrite Hout by done. by rewrite lookup_insert_eq.
    + apply elem_of_cons in Hin as [?|Hin]; [done|]. apply IH; [done|]. by rewrite lookup_insert_ne by done.
  - assert (Hrec : (split_cached cache result ids).1 !! token = cache !! token).
    { destruct (decide (token ∈ ids)) as [Hi|Hi]; [by apply IH|]. rewrite Hout by done.
      apply elem_of_cons in Hin as [->|]; [|done]. destruct Hres as [-> | ->]; by rewrite ?Ex. }
    by destruct (split_cached cache result ids).
Qed.

Lemma add_fetched_same (a b : gmap TokenAccount N) fetched token : a !! token = b !! token ->
  foldl add_fetched a fetched !! token = foldl add_fetched b fetched !! token.
Proof.
  revert a b. induction fetched as [|[x [d|]] fetched IH]; intros a b Hab; cbn; [done| |by apply IH].
  apply IH. cbn. destruct (decide (x = token)) as [->|]; [by rewrite !lookup_insert_eq|by rewrite !lookup_insert_ne].
Qed.

(** The answer of a call is what the cache then holds of the tokens. *)
Lemma ensure_result_exact fetch st now b m ids result batch st' token :
  ensure_decimals_cached fetch st now b m ids = Ok (result, batch, st') -> token ∈ ids ->
  result !! token = decimals st' !! token.
Proof.
  intros He Hin. unfold ensure_decimals_cached in He.
  assert (Hs : (split_cached (decimals st) ∅ ids).1 !! token = decimals st !! token)
    by (apply split_cached_exact; [done|left; apply lookup_empty]).
  destruct (split_cached (decimals st) ∅ ids) as [res0 missing]. cbn [fst] in Hs.
  destruct missing as [|m0 missing]; [by injection He as <- <- <-|].
  apply obind_Ok_inv in He as (due & _ & He). destruct due as [|d0 due]; [by injection He as <- <- <-|].
  apply obind_Ok_inv in He as (st1 & Er & [= <- <- <-]). rewrite (add_fetched_same _ _ _ _ Hs).
  apply option_eq. intros d. by apply record_all_decimals with now.
Qed.

(** Only the last step inserts rates. *)
Definition inserts_nothing (r : Req) : Prop := match r with RDb (QInsertRates _) => False | _ => True end.
Definition no_rates (t : list (event P)) : Prop := Forall (fun e => inserts_nothing (projT1 e)) t.
#[local] Instance no_rates_composable : Composable no_rates.
Proof. split; [by apply Forall_nil|]. intros t t' Ht Ht'. by apply Forall_app. Qed.
Ltac no_rates := repeat keeps_step ltac:(by apply keeps_call; intros ?; apply list.Forall_singleton).

Lemma join_pages_rates starts : keeps (join_pages (P:=P) is_mainnet starts) no_rates.
Proof. induction starts as [|i starts IH]; cbn [join_pages]; unfold get_pools, view_contract; no_rates. apply IH. Qed.
Lemma number_page_rates index i page : keeps (number_page (P:=P) index i page) no_rates.
Proof. revert i. induction page as [|b page IH]; intros i; cbn [number_page]; unfold utc_now; no_rates. apply IH. Qed.
Lemma number_pages_rates pages : keeps (number_pages (P:=P) pages) no_rates.
Proof.
  induction pages as [|[i page] pages IH]; cbn [number_pages]; no_rates; [apply number_page_rates|apply IH].
Qed.
Lemma spawn_keeps {A} (I : list (event P) -> Prop) (p : prog P A) : keeps p I -> keeps (spawn p) I.
Proof.
  revert I. induction p as [o|r k IH]; intros I Hp; cbn [spawn].
  - apply wp_ret. apply (Hp [] o). constructor.
  - apply wp_op. intros x. eapply wp_mono; [apply (IH x (fun t => I (ev r x :: t)))|done].
    intros t o Hr. apply (Hp (ev r x :: t) o). by constructor.
Qed.
Lemma cleanup_rates table min_days days : keeps (spawn (cleanup_table (P:=P) table min_days days)) no_rates.
Proof. apply spawn_keeps. unfold cleanup_table, utc_now, query. no_rates. Qed.
Lemma value_graph_rates : keeps (value_graph (P:=P) (G:=G) (D:=D) is_mainnet cfg) no_rates.
Proof.
  unfold value_graph, read_pools_from_node, get_number_of_pools, view_contract, write_to_db, batch_insert_pools, query.
  no_rates; first [apply join_pages_rates|apply number_pages_rates|apply cleanup_rates].
Qed.
Lemma ensure_decimals_rates st ids : keeps (ensure_decimals (P:=P) cfg st ids) no_rates.
Proof.
  assert (Hf : forall l, keeps (fetch_decimals (P:=P) l) no_rates).
  { induction l as [|x l IH]; cbn [fetch_decimals]; unfold get_token_decimals, get_token_metadata, view_contract; no_rates.
    apply IH. }
  unfold ensure_decimals, utc_now. destruct (split_cached _ _ _) as [result missing]. no_rates. apply Hf.
Qed.

(** A rate of the graph for a token of known decimals. *)
Definition rate_in (decimals : gmap TokenAccount N) (values : list (TokenAccount * N * TokenPath)) (r : TokenRate D) : Prop :=
  exists value path d, (tr_base r, value, path) ∈ values /\ decimals !! tr_base r = Some d /\
    tr_quote r = get_quote_token is_mainnet /\
    tr_exchange_rate r = amount_div_near (from_smallest_units (bd_of_N value) d) (get_initial_value cfg) /\
    tr_rate_calc_near r = near_amount_to_i64 (D:=D) (get_initial_value cfg) /\ tr_swap_path r = Some (swap_path_of path).

Lemma rates_of_spec (decimals : gmap TokenAccount N) values :
  wp (rates_of (P:=P) (D:=D) is_mainnet (get_initial_value cfg) decimals values) (fun t o => no_rates t /\
    forall rates, o = Ok rates -> Forall (rate_in decimals values) rates /\
      tr_base <$> rates = bfilter (fun token => bool_decide (is_Some (decimals !! token))) ((fun v => v.1.1) <$> values)).
Proof.
  induction values as [|[[token value] path] values IH]; cbn [rates_of].
  { apply wp_ret. split; [by apply Forall_nil|]. intros rates [= <-]. split; [by apply Forall_nil|done]. }
  assert (Hmono : forall r, rate_in decimals values r -> rate_in decimals ((token, value, path) :: values) r).
  { intros r (v & p & d & Hin & Hr). exists v, p, d. split; [by right|done]. }
  destruct (decimals !! token) as [d|] eqn:Ed.
  - apply wp_bind, wp_call. intros now. apply wp_bind. eapply wp_mono; [exact IH|]. intros t o [Hn Ho].
    destruct o as [rest|e|]; [apply wp_ret; rewrite app_nil_r|..]; (split; [by apply Forall_cons|]); try done.
    intros rates [= <-]. destruct (Ho rest eq_refl) as [Hf Hb]. split.
    + apply list.Forall_cons. split; [exists value, path, d; split; [by left|done]|].
      eapply List.Forall_impl; [exact Hmono|exact Hf].
    + cbn. rewrite Ed. rewrite bool_decide_eq_true_2 by done. cbn. by rewrite Hb.
  - eapply wp_mono; [exact IH|]. intros t o [Hn Ho]. split; [done|]. intros rates ->.
    destruct (Ho rates eq_refl) as [Hf Hb]. split; [eapply List.Forall_impl; [exact Hmono|exact Hf]|].
    cbn. rewrite Ed. by rewrite bool_decide_eq_false_2 by (by intros []).
Qed.
End rates_facts.

Section rates_theorem.
Context (P G D : Type) `{BigDecimal D} `{!Rows P D} `{!ToColumns P D} `{Petgraph G} `{HashOrderLaws} `{CompletionOrderLaws}.
Context `{!FromSlice P TokenMetadata} `{!FromSlice P N} `{!FromSlice P (list PoolInfoBared)}.
Context (is_mainnet : bool) (cfg : RatesConfig).

Lemma hash_set_elem (l : list TokenAccount) token :
  token ∈ (hash_iter (gset_to_gmap tt (list_to_set l : gset TokenAccount))).*1 <-> token ∈ l.
Proof.
  rewrite (hash_iter_perm (gset_to_gmap tt (list_to_set l : gset TokenAccount))), list_elem_of_fmap. split.
  - intros ([k []] & -> & Hk). apply elem_of_map_to_list, lookup_gset_to_gmap_Some in Hk as [Hk _].
    by apply elem_of_list_to_set in Hk.
  - intros Hl. exists (token, tt). split; [done|]. apply elem_of_map_to_list, lookup_gset_to_gmap_Some.
    split; [by apply elem_of_list_to_set|done].
Qed.

(** The one insert of a batch. *)
Lemma batch_insert_spec days (rates : list (TokenRate D)) :
  wp (batch_insert_rates (P:=P) days rates) (fun t o => forall rows x,
    ev (RDb (QInsertRates rows)) x ∈ t -> rows = rate_columns (P:=P) <$> rates).
Proof.
  unfold batch_insert_rates. destruct rates as [|r rates]; [by apply wp_ret; intros ? ? ?%elem_of_nil|].
  apply wp_bind. unfold query. apply wp_call. intros x.
  destruct x as [raw|e]; cbn [of_answer].
  - eapply wp_mono; [apply cleanup_rates|]. intros t o Ht rows y Hin. apply elem_of_cons in Hin as [Hin|Hin].
    + by injection Hin as ->.
    + unfold no_rates in Ht. rewrite list.Forall_forall in Ht. by specialize (Ht _ Hin).
  - intros rows y Hin. apply list_elem_of_singleton in Hin. by injection Hin as ->.
Qed.

(** The caches a run leaves, and the rates it inserts. *)
Definition cache_after (log : list Event) (st' : Caches) : Prop :=
  exists log', cache_run (rc_backoff_base_minutes cfg) (rc_max_backoff_minutes cfg) (log ++ log') st'.
Definition inserted_from_graph (t : list (event P)) (st' : Caches) : Prop :=
  forall rows x, ev (RDb (QInsertRates rows)) x ∈ t ->
    exists values t0 rates, run (value_graph (P:=P) (G:=G) (D:=D) is_mainnet cfg) t0 (Ok values) /\
      rows = rate_columns (P:=P) <$> rates /\
      tr_base <$> rates = bfilter (fun token => bool_decide (is_Some (decimals st' !! token))) ((fun v => v.1.1) <$> values) /\
      Forall (rate_in is_mainnet cfg (decimals st') values) rates.

Lemma no_rates_insert (t : list (event P)) rows x : no_rates t -> ev (RDb (QInsertRates rows)) x ∈ t -> False.
Proof. unfold no_rates. rewrite list.Forall_forall. intros Ht Hin. by specialize (Ht _ Hin). Qed.

(** The rates depend on the decimals of their own tokens only. *)
Lemma rates_same (m m' : gmap TokenAccount N) (values : list (TokenAccount * N * TokenPath)) (rates : list (TokenRate D)) :
  (forall token, token ∈ (fun v => v.1.1) <$> values -> m !! token = m' !! token) ->
  Forall (rate_in is_mainnet cfg m values) rates ->
  tr_base <$> rates = bfilter (fun token => bool_decide (is_Some (m !! token))) ((fun v => v.1.1) <$> values) ->
  tr_base <$> rates = bfilter (fun token => bool_decide (is_Some (m' !! token))) ((fun v => v.1.1) <$> values) /\
  Forall (rate_in is_mainnet cfg m' values) rates.
Proof.
  intros Hsame Hf ->. split.
  - apply List.filter_ext_in. intros token Hin. by rewrite Hsame by by apply list_elem_of_In.
  - eapply List.Forall_impl; [|exact Hf]. intros r (v & p & d & Hin & Hd & Hr). exists v, p, d.
    split; [done|]. split; [|done]. rewrite <- Hsame; [done|]. apply list_elem_of_fmap. by exists (tr_base r, v, p).
Qed.

(** One run of record_rates: the caches stay in a run of the decimals
    cache (so the back-off holds across runs); rates are inserted only for the
    values that a run of the token graph gave, one for each of them whose token
    has its decimals in the cache afterwards, in their order; each is the value
    in units of these decimals by the initial value, against wrapped NEAR, with
    the path it was found on. *)
Theorem recorded_rates_known (log : list Event) (st st' : Caches) (t : list (event P)) (r : unit + anyhow)
  (Hst : cache_run (rc_backoff_base_minutes cfg) (rc_max_backoff_minutes cfg) log st)
  (Hrun : run (record_rates (P:=P) (G:=G) (D:=D) is_mainnet cfg st) t (Ok (st', r))) :
  cache_after log st' /\ inserted_from_graph t st'.
Proof.
  enough (Hwp : wp (record_rates (P:=P) (G:=G) (D:=D) is_mainnet cfg st) (fun t o => forall st' r,
    o = Ok (st', r) -> cache_after log st' /\ inserted_from_graph t st')) by by eapply Hwp.
  clear t r st' Hrun. apply wp_bind, wp_attempt.
  eapply wp_mono; [apply wp_conj; [apply wp_run|apply value_graph_rates]|]. intros t0 o0 [Hv Hn0].
  destruct o0 as [values|e|]; cbn beta iota; [| |done].
  2: { apply wp_ret. intros ? ? [= <- <-]. rewrite app_nil_r. split; [exists []; by rewrite app_nil_r|].
       intros rows x Hin. by destruct (no_rates_insert _ _ _ Hn0 Hin). }
  apply wp_bind. eapply wp_mono; [apply wp_conj; [apply ensure_decimals_refines|apply ensure_decimals_rates]|].
  intros t1 o1 [He Hn1]. destruct o1 as [[decs st1]|e|]; [|done..]. destruct (He _ _ eq_refl) as (fetch & now & batch & Hf & Hc).
  apply wp_bind, wp_attempt, wp_bind. eapply wp_mono; [apply rates_of_spec|]. intros t2 o2 [Hn2 Hr].
  assert (Hafter : cache_after log st1).
  { eexists [_; Requested now batch]. change (log ++ [?a; ?b]) with (log ++ [a] ++ [b]). rewrite app_assoc.
    eapply cr_ensure; [apply cr_clean; exact Hst|exact Hf|exact Hc]. }
  destruct o2 as [rates|e|]; cbn beta iota; [| |done].
  - destruct (Hr rates eq_refl) as [Hin Hb]. destruct (rates_same decs (decimals st1) values rates) as [Hb' Hin']; [|done..|].
    { intros token Htk. eapply ensure_result_exact; [exact Hc|]. by apply hash_set_elem. }
    eapply wp_mono; [apply batch_insert_spec|]. intros t3 o3 Hi.
    assert (Hins : forall t4, no_rates t4 -> inserted_from_graph (t0 ++ t1 ++ (t2 ++ t3) ++ t4) st1).
    { intros t4 Hn4 rows x Hx. exists values, t0, rates. split; [done|]. split; [|done].
      rewrite !elem_of_app in Hx. destruct Hx as [Hx|[Hx|[[Hx|Hx]|Hx]]]; [..|by eapply Hi|];
        [by destruct (no_rates_insert _ _ _ Hn0 Hx)|by destruct (no_rates_insert _ _ _ Hn1 Hx)
        |by destruct (no_rates_insert _ _ _ Hn2 Hx)|by destruct (no_rates_insert _ _ _ Hn4 Hx)]. }
    destruct o3 as [[]|e|]; cbn beta iota; [apply wp_ret..|done]; intros ? ? [= <- <-]; (split; [done|]);
      apply Hins; by apply Forall_nil.
  - apply wp_ret. intros ? ? [= <- <-]. split; [done|]. intros rows x Hx. rewrite app_nil_r, !elem_of_app in Hx.
    destruct Hx as [Hx|[Hx|Hx]];
      [by destruct (no_rates_insert _ _ _ Hn0 Hx)|by destruct (no_rates_insert _ _ _ Hn1 Hx)|by destruct (no_rates_insert _ _ _ Hn2 Hx)].
Qed.
End rates_theorem.

(** * What a prediction cycle records *)
Section records.
Context {P G D : Type} `{BigDecimal D} `{!FromF64 D} `{!Rows P D} `{!PredictionRows P D}.
Context `{!Forecasts P D} `{Petgraph G} `{HashOrderLaws} `{NewPredictor}.
Context (valid_account : string -> bool) (is_mainnet : bool) (cfg : StrategyConfig).
Abbreviation wnear := (WNEAR_TOKEN is_mainnet).
Abbreviation entries := (gmap TokenAccount (TokenPrice D * NaiveDateTime)).

(** Nothing is recorded by selecting and predicting. *)
Definition records_nothing (r : Req) : Prop := match r with RDb (QInsertPredictions _) => False | _ => True end.
Definition unrecorded (t : list (event P)) : Prop := Forall (fun e => records_nothing (projT1 e)) t.
#[local] Instance unrecorded_composable : Composable unrecorded.
Proof. split; [by apply Forall_nil|]. intros t t' Ht Ht'. by apply Forall_app. Qed.

Ltac unrec := repeat keeps_step ltac:(by apply keeps_call; intros ?; apply list.Forall_singleton).

Lemma select_unrecorded end_date limit :
  keeps (select_volatility_tokens_inner (P:=P) (G:=G) (D:=D) valid_account is_mainnet cfg end_date limit) unrecorded.
Proof.
  unfold select_volatility_tokens_inner, get_tokens_by_volatility, get_by_volatility_in_time_range, read_from_db,
    pool_get_latest, get_all_unique_between, get_all_latest_rates, fetch, query, utc_now. unrec.
Qed.

Lemma predict_price_unrecorded (history : PriceHistory D) horizon :
  keeps (predict_price (P:=P) history horizon) unrecorded.
Proof. unfold predict_price, chronos_predict_price. unrec. Qed.

Lemma retry_unrecorded sv (history : PriceHistory D) horizon retries e :
  keeps (retry_predict (P:=P) sv history horizon retries e) unrecorded.
Proof.
  revert e. induction retries as [|retries IH]; intros e; cbn [retry_predict]; [unrec|].
  apply keeps_bind; [apply _|unrec|]. intros _. apply keeps_bind; [apply _| |].
  - apply keeps_attempt, predict_price_unrecorded.
  - intros [r|e']; [unrec|apply IH].
Qed.

Lemma predict_each_unrecorded sv histories quote horizon tokens :
  keeps (predict_each (P:=P) (D:=D) sv histories quote horizon tokens) unrecorded.
Proof.
  induction tokens as [|tk tokens IH]; cbn [predict_each]; [unrec|]. destruct (histories !! tk); [|exact IH].
  apply keeps_bind; [apply _|unrec|]. intros history. apply keeps_bind; [apply _| |].
  - apply keeps_attempt. unfold predict_price_with_retry. apply keeps_bind; [apply _| |].
    + apply keeps_attempt, predict_price_unrecorded.
    + intros [r|e]; [unrec|apply retry_unrecorded].
  - intros r. apply keeps_bind; [apply _|exact IH|]. intros rest. unrec.
Qed.

Lemma predict_multiple_unrecorded sv tokens quote days horizon end_date :
  keeps (predict_multiple_tokens (P:=P) (D:=D) valid_account sv tokens quote days horizon end_date) unrecorded.
Proof.
  unfold predict_multiple_tokens. apply keeps_bind; [apply _|unrec|]. intros delta.
  apply keeps_bind; [apply _|unrec|]. intros sd. apply keeps_bind; [apply _| |].
  - unfold get_rates_for_multiple_tokens, fetch, query. unrec.
  - intros hm. apply keeps_bind; [apply _|apply predict_each_unrecorded|]. intros results. unrec.
Qed.

(** An entry of the cycle: a prediction at the horizon of a forecast that was
    made. *)
Definition entry_of (log : forecast_log (P:=P) (D:=D)) (token : TokenAccount) (e : TokenPrice D * NaiveDateTime) : Prop :=
  exists r p, (token, r) ∈ forecasts_of log /\
    prediction_at_horizon r PREDICTION_HORIZON_HOURS = Ok (Some p) /\ e = (pr_price p, tp_data_cutoff_time r).

Lemma forecasts_of_app (log log' : forecast_log (P:=P) (D:=D)) : forecasts_of (log ++ log') = forecasts_of log ++ forecasts_of log'.
Proof. apply omap_app. Qed.
Lemma entry_of_app log log' token e : entry_of (log ++ log') token e <-> entry_of log token e \/ entry_of log' token e.
Proof. unfold entry_of. setoid_rewrite forecasts_of_app. setoid_rewrite elem_of_app. naive_solver. Qed.

Abbreviation chunk_went := (fun sv as_of chunk l => chunk_log (P:=P) (D:=D) valid_account sv chunk wnear
  (Z.of_N (sc_price_history_days cfg)) PREDICTION_HORIZON_HOURS as_of l.1 l.2).

Lemma forecasts_keys (log : forecast_log (P:=P) (D:=D)) : (forecasts_of log).*1 `sublist_of` ((fun x => x.1.1) <$> log).
Proof.
  unfold forecasts_of. induction log as [|[[tk t] o] log IH]; [done|]. cbn. destruct (success o); cbn; by constructor.
Qed.
Lemma chunk_log_keys sv as_of chunk l : chunk_went sv as_of chunk l -> (forecasts_of l.2).*1 `sublist_of` chunk.
Proof.
  intros [[-> _]|(t0 & hm & _ & _ & Hk & _)]; [apply sublist_nil_l|].
  etrans; [apply forecasts_keys|]. rewrite Hk. clear. induction chunk as [|x chunk IH]; [done|].
  cbn [List.filter]. destruct (has_rates hm x); by constructor.
Qed.

Lemma collect_complete {V} (l : list (string * V)) (m : gmap string V) k v : NoDup l.*1 -> (k, v) ∈ l ->
  foldl (fun m '(k, v) => <[k := v]> m) m l !! k = Some v.
Proof.
  revert m. induction l as [|[k' v'] l IH]; intros m Hnd; [by intros ?%elem_of_nil|].
  cbn [fmap list_fmap fst] in Hnd. apply list.NoDup_cons in Hnd as [Hk Hnd]. cbn [foldl].
  intros [[= <- <-]|Hin]%elem_of_cons; [|by apply IH]. clear IH Hnd.
  assert (Hm : forall m : gmap string V, m !! k = Some v -> foldl (fun m '(k, v) => <[k := v]> m) m l !! k = Some v).
  { induction l as [|[k2 v2] l IH]; intros m' Hm; [done|]. cbn [foldl]. cbn [fmap list_fmap fst] in Hk.
    apply not_elem_of_cons in Hk as [Hne Hk]. apply IH; [done|]. by rewrite lookup_insert_ne. }
  apply Hm. rewrite lookup_insert. by destruct (decide (k = k)).
Qed.

Lemma add_entries_spec predictions (acc acc' : entries) token e : add_entries predictions acc = Ok acc' ->
  acc' !! token = Some e -> acc !! token = Some e \/ exists r p, (token, r) ∈ predictions /\
    prediction_at_horizon r PREDICTION_HORIZON_HOURS = Ok (Some p) /\ e = (pr_price p, tp_data_cutoff_time r).
Proof.
  revert acc. induction predictions as [|[tk r] predictions IH]; intros acc; cbn [add_entries]; [intros [= <-]; by left|].
  intros Ha He. apply obind_Ok_inv in Ha as (o & Eo & Ha).
  destruct (IH _ Ha He) as [Hl|(r' & p & Hin & Hp)]; [|right; exists r', p; split; [by right|done]].
  destruct o as [p|]; [|by left]. destruct (decide (tk = token)) as [<-|Hne].
  - rewrite lookup_insert in Hl. destruct (decide (tk = tk)) as [_|]; [|done]. injection Hl as <-.
    right. exists r, p. split; [by left|done].
  - rewrite lookup_insert_ne in Hl by done. by left.
Qed.

Lemma add_entries_other predictions (acc acc' : entries) token : add_entries predictions acc = Ok acc' ->
  token ∉ predictions.*1 -> acc' !! token = acc !! token.
Proof.
  revert acc. induction predictions as [|[tk r] predictions IH]; intros acc; cbn [add_entries]; [by intros [= <-]|].
  intros Ha [Hne Hk]%not_elem_of_cons. apply obind_Ok_inv in Ha as (o & Eo & Ha). rewrite (IH _ Ha Hk).
  destruct o as [p|]; [|done]. by rewrite lookup_insert_ne.
Qed.

Lemma add_entries_complete predictions (acc acc' : entries) token r p : NoDup predictions.*1 ->
  add_entries predictions acc = Ok acc' -> (token, r) ∈ predictions ->
  prediction_at_horizon r PREDICTION_HORIZON_HOURS = Ok (Some p) ->
  acc' !! token = Some (pr_price p, tp_data_cutoff_time r).
Proof.
  revert acc. induction predictions as [|[tk r'] predictions IH]; intros acc Hnd Ha; [by intros ?%elem_of_nil|].
  cbn [fmap list_fmap fst] in Hnd. apply list.NoDup_cons in Hnd as [Hk Hnd]. cbn [add_entries] in Ha.
  apply obind_Ok_inv in Ha as (o & Eo & Ha). intros [[= <- <-]|Hin]%elem_of_cons Hp; [|by eapply IH].
  rewrite Hp in Eo. injection Eo as <-. rewrite (add_entries_other _ _ _ _ Ha Hk), lookup_insert.
  by destruct (decide (token = token)).
Qed.

Lemma prediction_at_horizon_no_error (r : TokenPredictionResult D) e :
  prediction_at_horizon r PREDICTION_HORIZON_HOURS <> Err e.
Proof.
  unfold prediction_at_horizon. change (PREDICTION_HORIZON_HOURS =? 0)%N with false. cbn [obind].
  unfold time_delta_hours, shift_date. destruct (_ <=? _)%Z; cbn [obind]; [|done]. by destruct (_ && _).
Qed.
Lemma add_entries_no_error predictions (acc : entries) e : add_entries predictions acc <> Err e.
Proof.
  revert acc. induction predictions as [|[tk r] predictions IH]; intros acc; cbn [add_entries]; [done|].
  destruct (prediction_at_horizon r _) as [o|e'|] eqn:E; cbn [obind]; [apply IH| |done].
  by destruct (prediction_at_horizon_no_error _ _ E).
Qed.

(** What the entries of a chunk are, given those of the rest. *)
Definition entries_from (cs : list (list TokenAccount)) (acc acc' : entries) (log : forecast_log (P:=P) (D:=D)) : Prop :=
  (forall token e, acc' !! token = Some e -> acc !! token = Some e \/ entry_of log token e) /\
  (NoDup (concat cs) -> forall token e, entry_of log token e -> acc' !! token = Some e) /\
  (forall token, token ∉ concat cs -> acc' !! token = acc !! token).

Lemma chunk_entries sv as_of chunk l m (acc acc' : entries) : chunk_went sv as_of chunk l ->
  collect_map (forecasts_of l.2) = m -> add_entries (hash_iter m) acc = Ok acc' -> entries_from [chunk] acc acc' l.2.
Proof.
  intros Hc <- Ha. pose proof (chunk_log_keys _ _ _ _ Hc) as Hks.
  assert (Hin : forall token r, (token, r) ∈ hash_iter (collect_map (forecasts_of l.2)) -> (token, r) ∈ forecasts_of l.2).
  { intros token r Hi. rewrite hash_iter_perm in Hi. apply elem_of_map_to_list, collect_lookup in Hi as [Hi|Hi]; [|done].
    by rewrite lookup_empty in Hi. }
  split; [|split].
  - intros token e He. destruct (add_entries_spec _ _ _ _ _ Ha He) as [|(r & p & Hi & Hp)]; [by left|right].
    exists r, p. split; [by apply Hin|done].
  - cbn [concat]. rewrite app_nil_r. intros Hnd token e (r & p & Hi & Hp & ->).
    eapply add_entries_complete; [|exact Ha| |exact Hp].
    + rewrite hash_iter_perm. apply NoDup_fst_map_to_list.
    + rewrite hash_iter_perm. apply elem_of_map_to_list. apply collect_complete; [|done]. by eapply sublist_NoDup.
  - cbn [concat]. rewrite app_nil_r. intros token Hn. apply (add_entries_other _ _ _ _ Ha). intros Hi. apply Hn.
    apply list_elem_of_fmap in Hi as ([tk r] & -> & Hi). eapply elem_of_sublist; [|exact Hks].
    apply list_elem_of_fmap. exists (tk, r). split; [done|by apply Hin].
Qed.

Lemma entries_from_cons chunk cs acc acc1 acc2 log log' :
  (forall token e, entry_of log token e -> token ∈ chunk) ->
  entries_from [chunk] acc acc1 log -> entries_from cs acc1 acc2 log' -> entries_from (chunk :: cs) acc acc2 (log ++ log').
Proof.
  intros Hk (Ha1 & Ha2 & Ha3) (Hb1 & Hb2 & Hb3). cbn [concat] in *. rewrite app_nil_r in Ha2, Ha3. split; [|split].
  - intros token e He. rewrite entry_of_app. destruct (Hb1 token e He) as [He'|]; [|naive_solver].
    destruct (Ha1 token e He'); naive_solver.
  - intros (Hnd & Hdis & Hnd')%list.NoDup_app token e [He|He]%entry_of_app; [|by apply Hb2].
    rewrite Hb3 by (apply Hdis; by eapply Hk). by apply Ha2.
  - intros token [Hn Hn']%not_elem_of_app. rewrite Hb3 by done. by apply Ha3.
Qed.

Lemma predict_chunks_log sv as_of cs (acc : entries) :
  wp (predict_chunks (P:=P) valid_account is_mainnet cfg sv as_of cs acc) (fun t o => unrecorded t /\
    match o with
    | Ok acc' => exists logs : list (list (event P) * forecast_log (P:=P) (D:=D)), t = concat logs.*1 /\
        Forall2 (fun chunk l => chunk_went sv as_of chunk l) cs logs /\ entries_from cs acc acc' (concat logs.*2)
    | Err _ => False
    | Panic => True
    end).
Proof.
  revert acc. induction cs as [|chunk cs IH]; intros acc; cbn [predict_chunks].
  { apply wp_ret. split; [by apply Forall_nil|]. exists []. split; [done|]. split; [constructor|].
    split; [by left|]. split; [|done]. intros _ token e (r & p & Hi & _). by apply elem_of_nil in Hi. }
  apply wp_bind, wp_attempt. eapply wp_mono; [apply wp_conj; [apply predict_multiple_unrecorded|apply predict_multiple_log]|].
  intros t o [Hu Hm]. destruct o as [m|e|]; cbn beta iota; [| |by split].
  - destruct (Hm ltac:(done)) as (log & Hc & Hmap). apply wp_bind, wp_ret.
    destruct (add_entries _ _) as [acc1|e|] eqn:Ea; [|by destruct (add_entries_no_error _ _ _ Ea)|by rewrite app_nil_r].
    pose proof (chunk_entries sv as_of chunk (t, log) m acc acc1 Hc Hmap Ea) as He1.
    eapply wp_mono; [apply IH|]. intros t' o' [Hu' Ho']. cbn [app]. split; [by apply Forall_app|].
    destruct o' as [acc'|e|]; [|done..]. destruct Ho' as (logs & -> & Hf & He). exists ((t, log) :: logs).
    split; [done|]. split; [by constructor|]. eapply entries_from_cons; [|exact He1|exact He].
    intros token e (r & p & Hi & _). eapply elem_of_sublist; [|exact (chunk_log_keys sv as_of chunk (t, log) Hc)].
    apply list_elem_of_fmap. by exists (token, r).
  - destruct (Hm ltac:(done)) as (log & Hc & Hmap). eapply wp_mono; [apply IH|]. intros t' o' [Hu' Ho'].
    split; [by apply Forall_app|]. destruct o' as [acc'|e'|]; [|done..]. destruct Ho' as (logs & -> & Hf & He).
    exists ((t, log) :: logs). split; [done|]. split; [by constructor|].
    pose proof (chunk_entries sv as_of chunk (t, log) ∅ acc acc Hc Hmap) as He1.
    eapply entries_from_cons; [| |exact He].
    + intros token e1 (r & p & Hi & _). eapply elem_of_sublist; [|exact (chunk_log_keys sv as_of chunk (t, log) Hc)].
      apply list_elem_of_fmap. by exists (token, r).
    + apply He1. assert (Hnil : hash_iter (∅ : gmap TokenAccount (TokenPredictionResult D)) = []).
      { apply Permutation_nil_r. rewrite hash_iter_perm. by rewrite map_to_list_empty. }
      by rewrite Hnil.
Qed.
End records.

(** The rates of a token that were read, as a price history. *)
Definition history_read {P D : Type} `{BigDecimal D} `{!Rows P D} (valid_account : string -> bool) (t : list (event P))
  (token quote : TokenAccount) (history : PriceHistory D) : Prop :=
  exists bases first last raw rows all rates,
    ev (RDb (QRatesOfTokens bases quote first last)) (inl raw) ∈ t /\ from_slice raw = Some rows /\
    try_map (rate_from_db valid_account) rows = Ok all /\ foldl push_rate ∅ all !! token = Some rates /\
    history_of token quote rates = Ok history.

(** What a recorded row rests on: the history of its token, as it was read and
    sent to the predictor, and a point of the forecast for it. *)
Definition row_of_forecast {P D : Type} `{BigDecimal D} `{!Rows P D} `{!Forecasts P D} (valid_account : string -> bool)
  (t : list (event P)) (tokens : list TokenAccount) (quote : TokenAccount)
  (row : string * string * numeric * NaiveDateTime * NaiveDateTime) : Prop :=
  exists token (history : PriceHistory D) horizon raw cutoff ts (v : D),
    row = (token, quote, bd_numeric v, cutoff, (cutoff + 24 * HOUR_NANOS)%Z) /\ token ∈ tokens /\
    history_read valid_account t token quote history /\
    ev (RPredict (history_data history) horizon) (inl raw) ∈ t /\ list.last (history_data history).*1 = Some cutoff /\
    (ts, v) ∈ fr_forecast_values (forecast_of raw) /\ (Z.abs (ts - (cutoff + 24 * HOUR_NANOS)) <= HOUR_NANOS)%Z.

(** The row that is due for a forecast with a point at the horizon. *)
Definition row_due {P D : Type} `{BigDecimal D} (quote : TokenAccount) (log : forecast_log (P:=P) (D:=D))
  (row : string * string * numeric * NaiveDateTime * NaiveDateTime) : Prop :=
  exists token r p, (token, r) ∈ forecasts_of log /\
    prediction_at_horizon r PREDICTION_HORIZON_HOURS = Ok (Some p) /\
    row = (token, quote, bd_numeric (price_bd (pr_price p)), tp_data_cutoff_time r,
           (tp_data_cutoff_time r + 24 * HOUR_NANOS)%Z).

Section cycle_theorem.
Context (P G D : Type) `{BigDecimal D} `{!FromF64 D} `{!Rows P D} `{!PredictionRows P D}.
Context `{!Forecasts P D} `{Petgraph G} `{HashOrderLaws} `{NewPredictor}.
Context (valid_account : string -> bool) (is_mainnet : bool) (cfg : StrategyConfig).
Abbreviation wnear := (WNEAR_TOKEN is_mainnet).

Lemma build_records_spec (m : gmap TokenAccount (TokenPrice D * NaiveDateTime)) quote records :
  build_prediction_records m quote = Ok records ->
  npr_token <$> records = (btree_iter m).*1 /\
  Forall (fun r => exists price, m !! npr_token r = Some (price, npr_data_cutoff_time r) /\
    npr_quote_token r = quote /\ npr_predicted_price r = price_bd price /\
    npr_target_time r = (npr_data_cutoff_time r + 24 * HOUR_NANOS)%Z) records.
Proof.
  unfold build_prediction_records. assert (Hm : forall k v, (k, v) ∈ btree_iter m -> m !! k = Some v)
    by (intros k v; apply btree_iter_elem).
  revert records Hm. induction (btree_iter m) as [|[token [price cutoff]] l IH]; intros records Hm; cbn [try_map].
  { intros [= <-]. split; [done|by apply Forall_nil]. }
  intros Hr. apply obind_Ok_inv in Hr as (r & Er & Hr). apply obind_Ok_inv in Hr as (rs & Ers & [= <-]).
  destruct (IH rs) as [Hks Hfs]; [intros k v Hkv; apply Hm; by right|done|].
  change (time_delta_hours (E:=anyhow) (Z.of_N PREDICTION_HORIZON_HOURS)) with (Ok (E:=anyhow) (24 * HOUR_NANOS)%Z) in Er.
  cbn [obind] in Er. apply obind_Ok_inv in Er as (target & Et & [= <-]).
  unfold shift_date in Et. destruct (_ && _); [|done]. injection Et as <-.
  split; [cbn; by rewrite Hks|]. apply list.Forall_cons. split; [|done].
  exists price. cbn. split; [apply Hm; by left|done].
Qed.

Lemma chunked_subset {A} (n : N) (l : list A) : concat (chunks (N.to_nat (N.max n 1)) l) = l.
Proof. apply chunks_concat. lia. Qed.

(** What was asked for a token was asked with the rates read for it. *)
Lemma rates_read tokens quote first last t (hm : gmap TokenAccount (list (TokenRate D))) :
  run (get_rates_for_multiple_tokens (P:=P) valid_account tokens quote first last) t (Ok hm) ->
  forall token rates, hm !! token = Some rates -> exists raw rows all,
    ev (RDb (QRatesOfTokens tokens quote first last)) (inl raw) ∈ t /\ from_slice raw = Some rows /\
    try_map (rate_from_db valid_account) rows = Ok all /\ foldl push_rate ∅ all !! token = Some rates.
Proof.
  enough (Hwp : wp (get_rates_for_multiple_tokens (P:=P) valid_account tokens quote first last) (fun t o =>
    forall hm : gmap TokenAccount (list (TokenRate D)), o = Ok hm -> forall token rates, hm !! token = Some rates ->
    exists raw rows all, ev (RDb (QRatesOfTokens tokens quote first last)) (inl raw) ∈ t /\ from_slice raw = Some rows /\
    try_map (rate_from_db valid_account) rows = Ok all /\ foldl push_rate ∅ all !! token = Some rates)).
  { intros Hr. by apply (Hwp t (Ok hm) Hr). }
  clear t hm. unfold get_rates_for_multiple_tokens. destruct tokens as [|tk tks].
  { apply wp_ret. intros hm [= <-] token rates Hl. by rewrite lookup_empty in Hl. }
  unfold fetch, query. apply wp_bind, wp_bind, wp_call. intros [raw|e]; cbn [of_answer]; [|done]. apply wp_ret.
  unfold decode. destruct (from_slice raw) as [rows|] eqn:Er; cbn [ok_or]; [|done]. apply wp_bind, wp_ret.
  destruct (try_map _ rows) as [all|e|] eqn:Em; [|done..]. apply wp_ret. intros hm [= <-] token rates Hl.
  exists raw, rows, all. split; [set_solver|done].
Qed.

Lemma due_rests_on sv as_of cs (logs : list (list (event P) * forecast_log (P:=P) (D:=D))) row :
  Forall2 (fun chunk l => chunk_log (P:=P) (D:=D) valid_account sv chunk wnear
    (Z.of_N (sc_price_history_days cfg)) PREDICTION_HORIZON_HOURS as_of l.1 l.2) cs logs ->
  row_due wnear (concat logs.*2) row ->
  row_of_forecast (D:=D) valid_account (concat logs.*1) (concat cs) wnear row.
Proof.
  intros Hf. induction Hf as [|chunk [t log] cs logs Hc Hf IH]; intros (token & r & p & Hin & Hp & ->).
  { by apply elem_of_nil in Hin. }
  cbn [fmap list_fmap concat fst snd] in *. rewrite forecasts_of_app, elem_of_app in Hin. destruct Hin as [Hin|Hin].
  - pose proof (chunk_log_keys valid_account is_mainnet cfg sv as_of chunk (t, log) Hc) as Hks.
    assert (Htk : token ∈ chunk) by (eapply elem_of_sublist; [|exact Hks]; apply list_elem_of_fmap; by exists (token, r)).
    destruct Hc as [[-> _]|(t0 & hm & Hr & -> & _ & Hall)]; [by apply elem_of_nil in Hin|].
    unfold forecasts_of in Hin. apply list_elem_of_omap in Hin as ([[tk tt] o] & Hx & Eo). cbn [fst snd] in Eo.
    destruct o as [r'|e|]; [|done..]. injection Eo as -> ->. rewrite list.Forall_forall in Hall.
    destruct (Hall _ Hx) as (rates & history & Hl & Hh & Hrun). cbn [fst snd] in *.
    destruct (predict_with_retry_spec sv history PREDICTION_HORIZON_HOURS tt (Ok r) Hrun) as [_ Hfc].
    destruct (Hfc r eq_refl) as (_ & hz & raw & Hev & Hlast & Hpts).
    destruct (prediction_at_horizon_spec r p Hp) as (Hpin & Hnear & _). destruct (Hpts p Hpin) as (v & Hv & Epr).
    destruct (rates_read _ _ _ _ _ _ Hr token rates Hl) as (raw' & rows & all & Hq & Hrest).
    assert (Hsub : tt ⊆ concat ((fun x => x.1.2) <$> log)).
    { intros x Hxt. apply list_elem_of_In, in_concat. exists tt.
      split; apply list_elem_of_In; [|done]. apply list_elem_of_fmap. by exists (token, tt, Ok r). }
    exists token, history, hz, raw, (tp_data_cutoff_time r), (pr_timestamp p), v.
    split; [by rewrite Epr|]. split; [set_solver|]. split; [|split; [set_solver|done]].
    exists chunk, (as_of - Z.of_N (sc_price_history_days cfg) * NANOS_PER_DAY)%Z, as_of, raw', rows, all, rates.
    split; [set_solver|]. by destruct Hrest as (? & ? & ?).
  - destruct IH as (tk & history & hz & raw & cutoff & ts & v & Er & Htk & Hh & Hev & Hrest); [by exists token, r, p|].
    exists tk, history, hz, raw, cutoff, ts, v. split; [done|]. split; [set_solver|]. split; [|split; [set_solver|done]].
    destruct Hh as (bases & first & last & raw' & rows & all & rates & Hq & Hrest').
    exists bases, first, last, raw', rows, all, rates. split; [set_solver|done].
Qed.

(** What the rows of the insert are. *)
Lemma recorded_rows (log : forecast_log (P:=P) (D:=D)) quote (m : gmap TokenAccount (TokenPrice D * NaiveDateTime)) records :
  (forall token e, m !! token = Some e -> entry_of log token e) -> build_prediction_records m quote = Ok records ->
  let rows := new_record_columns <$> records in
  NoDup ((fun row => row.1.1.1.1) <$> rows) /\ Forall (row_due quote log) rows /\ len rows = map_len m /\
  ((forall token e, entry_of log token e -> m !! token = Some e) -> forall row, row_due quote log row -> row ∈ rows).
Proof.
  intros Hm Hb rows. destruct (build_records_spec _ _ _ Hb) as [Hk Hf]. split; [|split; [|split]].
  - unfold rows. rewrite <- list_fmap_compose. rewrite (list_fmap_ext ((fun row => row.1.1.1.1) ∘ new_record_columns) npr_token) by done.
    rewrite Hk. apply btree_iter_NoDup_keys.
  - apply list.Forall_forall. intros row Hrow. apply list_elem_of_fmap in Hrow as (rec & -> & Hrec).
    rewrite list.Forall_forall in Hf. destruct (Hf rec Hrec) as (price & Hl & Hq & Hp & Ht).
    destruct (Hm _ _ Hl) as (r & p & Hin & Hh & [= -> Hcut]). exists (npr_token rec), r, p. split; [done|]. split; [done|].
    unfold new_record_columns. by rewrite Hq, Hp, Ht, Hcut.
  - unfold rows. rewrite <- btree_iter_len. unfold len. f_equal. rewrite length_fmap, <- (length_fmap npr_token), Hk. apply length_fmap.
  - intros Hall row (token & r & p & Hin & Hh & ->).
    assert (Hl : m !! token = Some (pr_price p, tp_data_cutoff_time r)) by (apply Hall; by exists r, p).
    assert (Htk : token ∈ npr_token <$> records).
    { rewrite Hk. apply list_elem_of_fmap. exists (token, (pr_price p, tp_data_cutoff_time r)). split; [done|]. by apply btree_iter_elem. }
    apply list_elem_of_fmap in Htk as (rec & -> & Hrec). rewrite list.Forall_forall in Hf.
    destruct (Hf rec Hrec) as (price & Hl' & Hq & Hp & Ht). rewrite Hl in Hl'. injection Hl' as <- Hcut.
    apply list_elem_of_fmap. exists rec. split; [|done]. unfold new_record_columns. by rewrite Hq, Hp, Ht, Hcut.
Qed.

(** Rows can be built for every prediction at the horizon. *)
Lemma build_records_ok (log : forecast_log (P:=P) (D:=D)) quote (m : gmap TokenAccount (TokenPrice D * NaiveDateTime)) :
  (forall token e, m !! token = Some e -> entry_of log token e) ->
  exists records, build_prediction_records m quote = Ok records.
Proof.
  intros Hm. unfold build_prediction_records.
  assert (Hl : forall x, x ∈ btree_iter m -> entry_of log x.1 x.2) by (intros [k v] Hx; by apply Hm, btree_iter_elem).
  clear Hm. induction (btree_iter m) as [|[token [price cutoff]] l IH]; [by exists []|]. cbn [try_map].
  destruct IH as [rs ->]; [intros x Hx; apply Hl; by right|].
  destruct (Hl (token, (price, cutoff)) ltac:(by left)) as (r & p & _ & Hp & [= -> ->]).
  unfold prediction_at_horizon in Hp. change (PREDICTION_HORIZON_HOURS =? 0)%N with false in Hp. cbn [obind] in Hp.
  apply obind_Ok_inv in Hp as (delta & Ed & Hp). apply obind_Ok_inv in Hp as (target & Et & _).
  change (time_delta_hours (E:=anyhow) (Z.of_N PREDICTION_HORIZON_HOURS)) with
    (time_delta_hours (E:=anyhow) (as_signed 64 PREDICTION_HORIZON_HOURS)).
  rewrite Ed. cbn [obind]. rewrite Et. cbn [obind]. by eexists.
Qed.

(** Recording is one insert, of nothing when there is no entry. *)
Lemma record_predictions_spec (log : forecast_log (P:=P) (D:=D)) quote (m : gmap TokenAccount (TokenPrice D * NaiveDateTime)) :
  (forall token e, m !! token = Some e -> entry_of log token e) ->
  wp (record_predictions (P:=P) m quote) (fun t' o =>
    exists rows, NoDup ((fun row => row.1.1.1.1) <$> rows) /\ Forall (row_due quote log) rows /\ len rows = map_len m /\
      ((forall token e, entry_of log token e -> m !! token = Some e) -> forall row, row_due quote log row -> row ∈ rows) /\
      match rows with
      | [] => t' = [] /\ o = Ok tt
      | _ => exists x, t' = [ev (RDb (QInsertPredictions rows)) x] /\ o = match x with inl _ => Ok tt | inr e => Err e end
      end).
Proof.
  intros Hm. unfold record_predictions. apply wp_bind, wp_ret. destruct (build_records_ok log quote m Hm) as [records Eb].
  rewrite Eb. pose proof (recorded_rows log quote m records Hm Eb) as (Hnd & Hrf & Hln & Hall). unfold batch_insert_predictions.
  destruct records as [|r0 rs].
  { apply wp_ret. exists []. done. }
  apply wp_bind. unfold query. apply wp_call. intros x. destruct x as [raw|e]; cbn [of_answer].
  - apply wp_ret. exists (new_record_columns <$> r0 :: rs). do 4 (split; [done|]). by exists (inl raw).
  - exists (new_record_columns <$> r0 :: rs). do 4 (split; [done|]). by exists (inr e).
Qed.

(** C7: a prediction cycle, whatever the database and the predictor answer.  It
    may fail before any prediction, because the predictor or the selection of
    the tokens failed, or panic; it records nothing then.  Otherwise the chunks
    of the selected tokens are gone through in order, in each of them every
    token that has rates is asked for (or the rates could not be read), and what
    is recorded are the forecasts with a point at the horizon: every row is such
    a forecast of a selected token, made by the predictor for the history that
    was read for this very token and ends at the row's cutoff, its price is a
    point of the forecast at most an hour from the target time, which is 24 hours
    after the cutoff, and no token has two rows; and when no token was selected
    twice, every forecast with a point at the horizon has its row.  They are
    written by one insert, and the count returned is their number; without any
    row the cycle writes nothing and fails, unless no token was selected. *)
Theorem cycle_records_forecasts (as_of : NaiveDateTime) (t : list (event P)) (o : outcome anyhow N)
  (Hrun : run (run_prediction_cycle (P:=P) (G:=G) (D:=D) valid_account is_mainnet cfg as_of) t o) :
  (unrecorded t /\ (o = Panic \/ exists e, o = Err e /\
    ((t = [] /\ PredictionService_new (sc_max_retries cfg) (sc_retry_delay_seconds cfg) (sc_model_threads cfg) = Err e) \/
     run (select_prediction_target_tokens (P:=P) (G:=G) (D:=D) valid_account is_mainnet cfg as_of) t (Err e)))) \/
  exists sv tokens t0 (logs : list (list (event P) * forecast_log (P:=P) (D:=D))) t2
      (rows : list (string * string * numeric * NaiveDateTime * NaiveDateTime)),
    PredictionService_new (sc_max_retries cfg) (sc_retry_delay_seconds cfg) (sc_model_threads cfg) = Ok sv /\
    run (select_prediction_target_tokens (P:=P) (G:=G) (D:=D) valid_account is_mainnet cfg as_of) t0 (Ok tokens) /\
    t = t0 ++ concat logs.*1 ++ t2 /\ unrecorded (t0 ++ concat logs.*1) /\
    Forall2 (fun chunk l => chunk_log (P:=P) (D:=D) valid_account sv chunk wnear
      (Z.of_N (sc_price_history_days cfg)) PREDICTION_HORIZON_HOURS as_of l.1 l.2)
      (chunks (N.to_nat (N.max (sc_chunk_size cfg) 1)) tokens) logs /\
    NoDup ((fun row => row.1.1.1.1) <$> rows) /\
    Forall (fun row => row_due wnear (concat logs.*2) row /\
      row_of_forecast (D:=D) valid_account (concat logs.*1) tokens wnear row) rows /\
    (NoDup tokens -> forall row, row_due wnear (concat logs.*2) row -> row ∈ rows) /\
    match rows with
    | [] => t2 = [] /\ match tokens with [] => o = Ok 0 | _ => exists e, o = Err e end
    | _ => exists x, t2 = [ev (RDb (QInsertPredictions rows)) x] /\
        o = match x with inl _ => Ok (len rows) | inr e => Err e end
    end.
Proof.
  pattern t, o. revert t o Hrun. unfold run_prediction_cycle. apply wp_bind, wp_ret.
  destruct (PredictionService_new _ _ _) as [sv|e|] eqn:Esv; [| |left; split; [by apply Forall_nil|by left]].
  2: { left. split; [by apply Forall_nil|]. right. exists e. split; [done|by left]. }
  apply wp_bind. eapply wp_mono; [apply wp_conj; [apply wp_run|apply select_unrecorded]|].
  intros t0 o0 [Hsel Hu0]. destruct o0 as [tokens|e|]; [| |left; split; [done|by left]].
  2: { left. split; [done|]. right. exists e. split; [done|by right]. }
  apply wp_bind. eapply wp_mono; [apply predict_chunks_log|]. intros t1 o1 [Hu1 Ho1].
  assert (Hu : unrecorded (t0 ++ t1)) by (by apply Forall_app). cbn [app].
  destruct o1 as [m|e|]; [|done|left; split; [done|by left]].
  destruct Ho1 as (logs & -> & Hlogs & Hsnd & Hcmp & _). rewrite chunked_subset in Hcmp.
  assert (Hm : forall token e, m !! token = Some e -> entry_of (concat logs.*2) token e).
  { intros token e He. destruct (Hsnd token e He) as [Hl|]; [by rewrite lookup_empty in Hl|done]. }
  assert (Hdue : forall row, row_due wnear (concat logs.*2) row ->
    row_due wnear (concat logs.*2) row /\ row_of_forecast (D:=D) valid_account (concat logs.*1) tokens wnear row).
  { intros row Hrow. split; [done|]. rewrite <- (chunked_subset (sc_chunk_size cfg) tokens). by eapply due_rests_on. }
  destruct (N.eqb_spec (map_len m) 0) as [Hz|Hz]; cbn [andb]; [destruct tokens as [|tk tks]; cbn [is_nil negb]|].
  2: { apply wp_ret. right. exists sv, (tk :: tks), t0, logs, [], []. do 5 (split; [done|]). split; [by constructor|].
       split; [by apply Forall_nil|]. split; [|by eauto]. intros Hnd row (token & r & p & Hin & Hp & ->).
       assert (Hl : m !! token = Some (pr_price p, tp_data_cutoff_time r)) by (apply Hcmp; [done|]; by exists r, p).
       unfold map_len in Hz. assert (Hs : size m = 0%nat) by lia. apply map_size_empty_iff in Hs.
       by rewrite Hs, lookup_empty in Hl. }
  all: apply wp_bind; eapply wp_mono; [by apply (record_predictions_spec (concat logs.*2))|];
    intros t2 o2 (rows & Hnd & Hrf & Hln & Hall & Ho2).
  - destruct rows as [|row rows]; [|unfold len in Hln; cbn [length] in Hln; lia]. destruct Ho2 as [-> ->]. apply wp_ret. right.
    exists sv, [], t0, logs, [], []. rewrite !app_nil_r. do 5 (split; [done|]). split; [by constructor|].
    split; [by apply Forall_nil|]. split; [|by rewrite Hz]. intros Hnd' row Hrow. apply Hall; [|done]. by apply Hcmp.
  - destruct rows as [|row rows]; [by destruct Hz|]. destruct Ho2 as (x & -> & ->).
    assert (Hf : Forall (fun row => row_due wnear (concat logs.*2) row /\
      row_of_forecast (D:=D) valid_account (concat logs.*1) tokens wnear row) (row :: rows))
      by (eapply List.Forall_impl; [|exact Hrf]; done).
    destruct x as [raw|e]; [apply wp_ret|]; right; exists sv, tokens, t0, logs; eexists; exists (row :: rows).
    + do 2 (split; [done|]). split; [by rewrite app_nil_r|]. do 3 (split; [done|]). split; [done|].
      split; [intros Hnd' r Hr; apply Hall; [by apply Hcmp|done]|]. exists (inl raw). by rewrite Hln.
    + do 6 (split; [done|]). split; [done|].
      split; [intros Hnd' r Hr; apply Hall; [by apply Hcmp|done]|]. by exists (inr e).
Qed.
End cycle_theorem.

(** * The scheduler keeps its times *)
Section on_time.
Context {P : Type} (task : prog P unit).

(** What waiting for [next] consists of: looks at the clock before it, reads of
    the settings, and sleeps. *)
Definition waiting_event (next : NaiveDateTime) (e : event P) : Prop :=
  match projT1 e as r return Resp P r -> Prop with
  | RUtcNow => fun now => (now < next)%Z
  | RSetting _ | RSleep _ => fun _ => True
  | _ => fun _ => False
  end (projT2 e).
Definition waiting (next : NaiveDateTime) (t : list (event P)) : Prop := Forall (waiting_event next) t.

(** One time of the schedule: skipped because it has passed, waited for, or
    waited for and then used for one run of the task. *)
Inductive turn (next : NaiveDateTime) : list (event P) -> Prop :=
| turn_skipped now : (next <= now)%Z -> turn next [ev RUtcNow now]
| turn_waiting now t : (now < next)%Z -> waiting next t -> turn next (ev RUtcNow now :: t)
| turn_run now t now' u t' o : (now < next)%Z -> waiting next t -> (next <= now')%Z -> run task t' o ->
    turn next (ev RUtcNow now :: t ++ ev RUtcNow now' :: ev RReloadConfig u :: t').

Lemma wait_until_spec fuel next :
  wp (wait_until (P:=P) fuel next) (fun t o =>
    (o = Ok false /\ waiting next t) \/
    exists t' now, o = Ok true /\ t = t' ++ [ev RUtcNow now] /\ waiting next t' /\ (next <= now)%Z).
Proof.
  induction fuel as [|fuel IH]; cbn [wait_until].
  { apply wp_ret. left. split; [done|]. by apply Forall_nil. }
  unfold utc_now. apply wp_bind, wp_call. intros now. cbn beta iota.
  destruct (Z.leb_spec next now) as [Hle|Hlt].
  { apply wp_ret. right. exists [], now. repeat split; [by apply Forall_nil|done]. }
  apply wp_bind, wp_call. intros max_sleep. cbn beta iota. apply wp_bind, wp_call. intros thr. cbn beta iota.
  apply wp_bind, wp_call. intros []. cbn beta iota. eapply wp_mono; [exact IH|].
  intros t o Ho. cbn [app].
  assert (Hw : forall k, waiting next k -> waiting next (ev RUtcNow now :: ev (RSetting "CRON_MAX_SLEEP_SECONDS") max_sleep ::
    ev (RSetting "CRON_LOG_THRESHOLD_SECONDS") thr :: ev (RSleep (Z.min (next - now) (Z.of_N max_sleep * NANOS))) tt :: k)).
  { intros k Hk. by repeat (apply list.Forall_cons; split). }
  destruct Ho as [[-> Hk]|(t' & now' & -> & -> & Hk & Hn)].
  - left. split; [done|]. by apply Hw.
  - right. eexists (_ :: _ :: _ :: _ :: t'), now'. split; [done|]. split; [done|]. split; [by apply Hw|done].
Qed.

Lemma cron_turn_spec fuel next : wp (cron_turn task fuel next) (fun t _ => turn next t).
Proof.
  unfold cron_turn, utc_now. apply wp_bind, wp_call. intros now. cbn beta iota.
  destruct (Z.leb_spec next now) as [Hle|Hlt]; [apply wp_ret; by constructor|].
  apply wp_bind. eapply wp_mono; [apply wait_until_spec|].
  intros t o [[-> Hw]|(t' & now' & -> & -> & Hw & Hn)].
  - apply wp_ret. cbn [app]. rewrite app_nil_r. by constructor.
  - apply wp_bind, wp_call. intros u. cbn beta iota. apply wp_bind, wp_attempt. eapply wp_mono; [apply wp_run|].
    intros tk o Hk. assert (Ht : turn next (ev RUtcNow now :: t' ++ ev RUtcNow now' :: ev RReloadConfig u :: tk))
      by (by eapply turn_run).
    destruct o as [[]|e|]; cbn beta iota; [apply wp_ret|apply wp_ret|]; by rewrite ?app_nil_r, <- ?app_assoc.
Qed.
End on_time.

Section cron_theorem.
Context (P : Type).

(** The scheduler, whatever the clock shows and however the task ends: a
    run is a sequence of turns for the first times of the schedule, each skipped
    because its time had passed, waited for, or used for exactly one run of the
    task, which begins after the clock has shown that time and the configuration
    has been loaded again; a job that finishes has had a turn for every time. *)
Theorem cron_on_time (task : prog P unit) (fuel : nat) (schedule : list NaiveDateTime) (t : list (event P))
  (o : outcome anyhow bool) (Hrun : run (cronjob task fuel schedule) t o) :
  exists turns : list (NaiveDateTime * list (event P)),
    t = concat turns.*2 /\ turns.*1 `prefix_of` schedule /\ Forall (fun p => turn task p.1 p.2) turns /\
    (o = Ok true -> turns.*1 = schedule).
Proof.
  revert t o Hrun. change (wp (cronjob task fuel schedule) (fun t o =>
    exists turns : list (NaiveDateTime * list (event P)),
      t = concat turns.*2 /\ turns.*1 `prefix_of` schedule /\ Forall (fun p => turn task p.1 p.2) turns /\
      (o = Ok true -> turns.*1 = schedule))).
  induction schedule as [|next schedule IH]; cbn [cronjob].
  { apply wp_ret. exists []. split; [done|]. split; [done|]. split; [by apply Forall_nil|done]. }
  apply wp_bind. eapply wp_mono; [apply cron_turn_spec|]. intros t o Ht.
  assert (Hone : exists turns : list (NaiveDateTime * list (event P)), t = concat turns.*2 /\
    turns.*1 `prefix_of` (next :: schedule) /\ Forall (fun p => turn task p.1 p.2) turns).
  { exists [(next, t)]. cbn. rewrite app_nil_r. split; [done|]. split; [apply prefix_cons, prefix_nil|].
    by apply list.Forall_cons. }
  destruct Hone as (one & E1 & E2 & E3).
  destruct o as [[]|e|]; [|apply wp_ret; exists one; by rewrite app_nil_r|by exists one..].
  eapply wp_mono; [exact IH|]. intros t' o (turns & -> & Hp & Hf & Ho). exists ((next, t) :: turns).
  split; [done|]. split; [by apply prefix_cons|]. split; [by apply list.Forall_cons|].
  intros Hok. cbn. by rewrite (Ho Hok).
Qed.
End cron_theorem.

(** ** Waiting ends *)
Section wait_ends.
Context {P S : Type} (answer : forall r, S -> Resp P r * S) (clock : S -> Z).

(** The time of the environment: the clock shows it, it never goes back, a
    sleep lasts at least as long as asked, the longest sleep is a second or
    more. *)
Record clock_laws : Prop := {
  clock_shown s : (clock s <= (answer RUtcNow s).1 <= clock (answer RUtcNow s).2)%Z;
  clock_setting k s : (clock s <= clock (answer (RSetting k) s).2)%Z;
  clock_sleep d s : (clock s + d <= clock (answer (RSleep d) s).2)%Z;
  sleep_setting s : 1 <= (answer (RSetting "CRON_MAX_SLEEP_SECONDS") s).1;
}.

Lemma outcome_call {A B} r (f : Resp P r -> A) (k : A -> prog P B) s :
  (interp answer (bind (Op r (fun x => Ret (Ok (f x)))) k) s).1.1 =
  (interp answer (k (f (answer r s).1)) (answer r s).2).1.1.
Proof.
  rewrite interp_bind. cbn [interp]. destruct (answer r s) as [x s']. cbn [fst snd].
  by destruct (interp answer (k (f x)) s') as [[o t] s''].
Qed.
End wait_ends.

Section cron_termination.
Context (P S : Type).

(** Against a clock that never goes back and sleeps that last as long as
    asked, of at least a second where more is left, the waiting loop ends: as
    many looks at the clock as there are seconds left, and two, are enough. *)
Theorem wait_ends (answer : forall r, S -> Resp P r * S) (clock : S -> Z) (Hclock : clock_laws answer clock)
  (next : NaiveDateTime) (s : S) (fuel : nat)
  (Hfuel : (next - clock s <= Z.of_nat fuel * NANOS)%Z) :
  (interp answer (wait_until (P:=P) (Datatypes.S fuel) next) s).1.1 = Ok true.
Proof.
  revert s Hfuel. induction fuel as [|fuel IH]; intros s Hfuel;
    cbn [wait_until]; unfold utc_now; rewrite outcome_call;
    pose proof (clock_shown _ _ Hclock s) as Hs; set (now := (answer RUtcNow s).1) in *; set (s1 := (answer RUtcNow s).2) in *;
    clearbody now s1; (destruct (Z.leb_spec next now) as [Hle|Hlt]; [done|]).
  { unfold NANOS in *. lia. }
  rewrite outcome_call. pose proof (clock_setting _ _ Hclock "CRON_MAX_SLEEP_SECONDS" s1) as H1.
  pose proof (sleep_setting _ _ Hclock s1) as Hmx.
  set (mx := (answer (RSetting _) s1).1) in *. set (s2 := (answer (RSetting _) s1).2) in *. clearbody mx s2.
  rewrite outcome_call. pose proof (clock_setting _ _ Hclock "CRON_LOG_THRESHOLD_SECONDS" s2) as H2.
  set (s3 := (answer (RSetting _) s2).2) in *. clearbody s3.
  rewrite outcome_call. set (d := Z.min _ _). pose proof (clock_sleep _ _ Hclock d s3) as H3.
  assert (Hd : (next - now <= d \/ NANOS <= d)%Z) by (unfold d, NANOS in *; lia).
  apply IH. unfold NANOS in *. lia.
Qed.
End cron_termination.

(** ** A clock that runs while the job sleeps *)
Definition timer_answer (r : Req) (now : Z) : Resp unit r * Z :=
  match r with
  | RUtcNow => (now, now)
  | RSleep d => (tt, (now + d)%Z)
  | RSetting _ => (60, now)
  | r => ((agreeable r tt).1, now)
  end.
Definition timer_job : prog unit unit := Op (RView "contract" "work" JNull) (fun _ => Ret (Err (Anyhow "failed" []))).
Definition timer_run := interp timer_answer (cronjob timer_job 5 [90 * NANOS; 60 * NANOS; 200 * NANOS]%Z) 0%Z.

(** Two runs, the time between them had passed; errors do not stop the job. *)
Example timer_runs :
  timer_run.1.1 = Ok true /\ timer_run.2 = (200 * NANOS)%Z /\
  length (List.filter (fun e => match projT1 e with RView _ _ _ => true | _ => false end) timer_run.1.2) = 2%nat.
Proof. by vm_compute. Qed.

Lemma cron_on_time_witness : exists turns : list (NaiveDateTime * list (event unit)),
  timer_run.1.2 = concat turns.*2 /\ turns.*1 = [90 * NANOS; 60 * NANOS; 200 * NANOS]%Z /\
  Forall (fun p => turn timer_job p.1 p.2) turns.
Proof.
  destruct (cron_on_time unit timer_job 5 [90 * NANOS; 60 * NANOS; 200 * NANOS]%Z timer_run.1.2 timer_run.1.1)
    as (turns & E & _ & Hf & Ho); [apply interp_run|].
  exists turns. split; [exact E|]. split; [apply Ho; vm_compute; reflexivity|exact Hf].
Defined.

Lemma timer_laws : clock_laws timer_answer (fun s => s).
Proof. split; intros; cbn; lia. Qed.

Lemma wait_ends_witness :
  (interp timer_answer (wait_until (P:=unit) 91 (90 * NANOS)%Z) 0%Z).1.1 = Ok true.
Proof. apply (wait_ends unit Z timer_answer (fun s => s) timer_laws (90 * NANOS)%Z 0%Z 90). vm_compute. congruence. Defined.

(** ** A store, a node and a predictor *)
#[global] Instance cell_number : FromSlice cell N := fun c => match c with CAmount n => Some n | _ => None end.
#[global] Instance cell_bared : FromSlice cell (list PoolInfoBared) := fun c =>
  match c with
  | CPools rows => mapM (fun r =>
      match db_token_account_ids r, db_amounts r with
      | CIds ids, CAmounts amounts => Some (mkPoolInfoBared (db_pool_kind r) ids amounts 30 1 0)
      | _, _ => None
      end) rows
  | _ => None
  end.
#[global] Instance cell_forecasts : Forecasts cell Q := fun c =>
  mkForecastResult (match c with CForecast values => values | _ => [] end) None None "" "" f64_zero 1.
#[global] Instance ready_predictor : NewPredictor := fun _ => Ok tt.

Definition shop_cycle := interp shop_answer
  (run_prediction_cycle (P:=cell) (G:=ListGraph) (D:=Q) (fun _ => true) true shop_config (hour 1000)) tt.
Definition shop_rates_config : RatesConfig := mkRatesConfig 100 30 30 15 1440.
Definition shop_rates := interp shop_answer
  (record_rates (P:=cell) (G:=ListGraph) (D:=Q) true shop_rates_config (mkCaches ∅ ∅)) tt.

(** One forecast is recorded, of the two points the one at the horizon; one rate
    is recorded, and its decimals are cached. *)
Example shop_runs :
  shop_cycle.1.1 = Ok 1 /\
  omap (fun e => match projT1 e with RDb (QInsertPredictions rows) => Some rows | _ => None end) shop_cycle.1.2 =
    [[("usdt", "wrap.near", inject_Z 2000, hour 999, hour 1023)]] /\
  (exists st, shop_rates.1.1 = Ok (st, inl tt) /\ decimals st !! "usdt" = Some 6) /\
  omap (fun e => match projT1 e with RDb (QInsertRates rows) => Some (length rows) | _ => None end) shop_rates.1.2 = [1%nat].
Proof. split; [by vm_compute|]. split; [by vm_compute|]. split; [eexists; by vm_compute|by vm_compute]. Qed.

Lemma cycle_records_forecasts_witness : exists tokens t0 t1 rows raw,
  shop_cycle.1.2 = t0 ++ t1 ++ [ev (RDb (QInsertPredictions rows)) (inl raw)] /\ len rows = 1 /\
  Forall (row_of_forecast (D:=Q) (fun _ => true) t1 tokens "wrap.near") rows.
Proof.
  assert (Hok : shop_cycle.1.1 = Ok 1) by (vm_compute; reflexivity).
  destruct (cycle_records_forecasts cell ListGraph Q (fun _ => true) true shop_config (hour 1000) shop_cycle.1.2 shop_cycle.1.1)
    as [[Hu Hz]|(sv & tokens & t0 & logs & t2 & rows & _ & _ & Ht & _ & _ & _ & Hf & _ & Ho)]; [apply interp_run| |].
  - destruct Hz as [Hz|(e & Hz & _)]; pose proof (eq_trans (eq_sym Hz) Hok) as E; discriminate E.
  - rewrite Hok in Ho. destruct rows as [|row rows].
    { destruct Ho as [_ Ho]. destruct tokens as [|tk tks]; [discriminate Ho|]. destruct Ho as [e Ho]. discriminate Ho. }
    destruct Ho as (x & Ht2 & Ho). rewrite Ht2 in Ht. destruct x as [raw|e]; [|discriminate Ho].
    exists tokens, t0, (concat logs.*1), (row :: rows), raw. split; [exact Ht|]. split; [exact (f_equal (fun o => match o with Ok n => n | _ => 0 end) (eq_sym Ho))|].
    refine (List.Forall_impl _ _ Hf). intros r Hr. exact (proj2 Hr).
Defined.

Definition shop_after : Caches := match shop_rates.1.1 with Ok (st, _) => st | _ => mkCaches ∅ ∅ end.
Lemma recorded_rates_known_witness :
  shop_rates.1.1 = Ok (shop_after, inl tt) /\ cache_after shop_rates_config [] shop_after /\
  inserted_from_graph cell ListGraph Q true shop_rates_config shop_rates.1.2 shop_after.
Proof.
  assert (Hok : shop_rates.1.1 = Ok (shop_after, inl tt)) by (vm_compute; reflexivity).
  split; [exact Hok|].
  apply (recorded_rates_known cell ListGraph Q true shop_rates_config [] (mkCaches ∅ ∅) shop_after shop_rates.1.2 (inl tt));
    [apply cr_start|]. rewrite <- Hok. apply interp_run.
Defined.
