(* ===== verification/SimClient.v ===== *)
(** * SimClient: the simulated NEAR client of a backtest

    [crates/simulate/src/mock_client.rs] and [mock_wallet.rs]: the client that
    answers the trader instead of a node.  Its state is the simulated portfolio,
    the tokens registered on the simulated exchange and the day of the
    simulation; [sim_step] is its answer to one request, itself a program,
    because a simulated swap reads pools and rates from the database and the
    cache of decimals.  [simulate] runs a program against the client: what the
    client does not answer (the database, the clock, the locks of the process)
    stays a request of the simulated program.  A transaction is identified by
    its output, all that [MockSentTx] keeps.  Log output is left out, and the
    lock of the portfolio is always free when [ft_metadata] tries it, since no
    code holds it across a request to the client. *)

From Stdlib Require Import QArith SpecFloat.
From stdpp Require Import pretty.
From S2P Require Import Prelude F64 Config NearClient StoragePlanner Storage BigDecimal Dex Swap Units Portfolio Records TradeSwap.
Local Open Scope N_scope.

(** ** Arguments as JSON values *)

(** [Value::get]: of two fields with the same key the last counts. *)
Fixpoint field (k : string) (fields : list (string * json)) : option json :=
  match fields with
  | [] => None
  | (k', v) :: fields =>
      match field k fields with
      | Some v => Some v
      | None => if String.eqb k k' then Some v else None
      end
  end.
Definition json_get (k : string) (v : json) : option json :=
  match v with JObj fields => field k fields | _ => None end.
Definition json_array (v : json) : option (list json) :=
  match v with JArr l => Some l | _ => None end.
Definition json_str (v : json) : option string :=
  match v with JStr s => Some s | JU128 n => Some (pretty n) | _ => None end.
Definition json_u32 (v : json) : option N :=
  match v with JU32 n => if n <=? U32_MAX then Some n else None | _ => None end.
Definition json_u128 (v : json) : option N := json_str v ≫= parse_unsigned U128_MAX.

Section parse.
Context (valid_account : string -> bool).

Definition parse_account (s : string) : option AccountId := if valid_account s then Some s else None.
Definition json_account (v : json) : option AccountId := json_str v ≫= parse_account.

Definition parse_token_ids (args_value : json) : list TokenAccount :=
  match json_get "token_ids" args_value ≫= json_array with
  | None => []
  | Some ids => omap json_account ids
  end.

(** [SwapAction] from its fields; an amount that is null or missing is none. *)
Definition optional_u128 (v : option json) : option (option N) :=
  match v with None | Some JNull => Some None | Some v => Some <$> json_u128 v end.
Definition action_of_fields (pool_id token_in amount_in token_out min_amount_out : option json) : option SwapAction :=
  match pool_id ≫= json_u32, token_in ≫= json_account, optional_u128 amount_in, token_out ≫= json_account,
        min_amount_out ≫= json_u128 with
  | Some p, Some i, Some a, Some o, Some m => Some (mkSwapAction p i a o m)
  | _, _, _, _, _ => None
  end.
Definition parse_action (v : json) : option SwapAction :=
  match v with
  | JObj fields => action_of_fields (field "pool_id" fields) (field "token_in" fields) (field "amount_in" fields)
                     (field "token_out" fields) (field "min_amount_out" fields)
  | JArr [p; i; a; o; m] => action_of_fields (Some p) (Some i) (Some a) (Some o) (Some m)
  | _ => None
  end.
Definition parse_actions (v : json) : option (list SwapAction) := json_array v ≫= mapM parse_action.
End parse.

Definition STORAGE_BOUND_MIN_YOCTO : N := 1250000000000000000000.

Record SimState (D : Type) := mkSimState {
  portfolio : PortfolioState D;
  sim_registered : gset TokenAccount;
  sim_day : NaiveDateTime;
}.
Arguments mkSimState {D} _ _ _.
Arguments portfolio {D} _.
Arguments sim_registered {D} _.
Arguments sim_day {D} _.

(** [Display] of [MockSentTx], and the account of [SimulationWallet]. *)
Definition show_sent_tx (output_amount : TxId) : string :=
  "MockSentTx(sim, output=" +:+ pretty output_amount +:+ ")".
Definition simulation_wallet : Wallet := {| account_id := "sim.near"; signer := "sim.near" |}.

Section events.
Context {D : Type}.
Definition set_portfolio (s : SimState D) (p : PortfolioState D) : SimState D :=
  mkSimState p (sim_registered s) (sim_day s).
Definition set_registered (s : SimState D) (r : gset TokenAccount) : SimState D :=
  mkSimState (portfolio s) r (sim_day s).
Definition set_sim_day (s : SimState D) (day : NaiveDateTime) : SimState D :=
  mkSimState (portfolio s) (sim_registered s) day.
End events.

(** ** The output of a swap *)
Section output.
Context (D : Type) `{BigDecimal D}.

Definition position (l : list TokenAccount) (t : TokenAccount) : option N :=
  N.of_nat <$> (fst <$> list_find (fun x => x = t) l).

Fixpoint connected_actions (l : list SwapAction) : bool :=
  match l with
  | [] => true
  | a :: rest =>
      match rest with [] => true | b :: _ => String.eqb (sa_token_out a) (sa_token_in b) end && connected_actions rest
  end.

Fixpoint walk_actions (pools : PoolInfoList) (actions : list SwapAction) (current_amount : N)
    : outcome anyhow (option N) :=
  match actions with
  | [] => Ok (Some current_amount)
  | action :: actions =>
      match pools_get pools (sa_pool_id action) with
      | Panic => Panic
      | Err _ => Ok None
      | Ok pool =>
          match position (tokens pool) (sa_token_in action), position (tokens pool) (sa_token_out action) with
          | Some in_idx, Some out_idx =>
              match estimate_return D pool (mkTokenIn in_idx) current_amount (mkTokenOut out_idx) with
              | Ok out => walk_actions pools actions out
              | Err _ => Ok None
              | Panic => Panic
              end
          | _, _ => Ok None
          end
      end
  end.

(** Actions that do not chain fail a debug assertion. *)
Definition estimate_swap_via_pools (pools : PoolInfoList) (swap_actions : list SwapAction) (amount_in : N)
    : outcome anyhow (option N) :=
  if connected_actions swap_actions then walk_actions pools swap_actions amount_in else Panic.
End output.

Section client.
Context {P D : Type} `{BigDecimal D} `{!Rows P D} `{!ToVec P}.
Context (valid_account : string -> bool) (is_mainnet : bool) (initial_native : YoctoValue D).
Abbreviation wnear := (WNEAR_TOKEN is_mainnet).
Abbreviation ref_contract := (CONTRACT_ADDRESS is_mainnet).

Definition calculate_swap_output_via_pools (swap_actions : list SwapAction) (amount_in : N) (day : NaiveDateTime)
    : prog P (option N) :=
  let! pools := attempt (read_from_db (D:=D) (Some day)) in
  match pools with
  | inr _ => Ret (Ok None)
  | inl pools => lift (estimate_swap_via_pools D pools swap_actions amount_in)
  end.

(** The spot rate of a token at or before a time. *)
Definition get_rate_at_date (token : TokenAccount) (day : NaiveDateTime) : prog P (option (ExchangeRate D)) :=
  let! rates := attempt (get_spot_rates_at_time (D:=D) valid_account [token] wnear day) in
  Ret (Ok (match rates with inl m => m !! token | inr _ => None end)).

Definition cached_decimals (token : TokenAccount) : prog P (option N) :=
  Op (RDecimals token) (fun d => Ret (Ok d)).
Definition decimals_for (token : TokenAccount) : prog P N :=
  let! d := cached_decimals token in Ret (Ok (default DEFAULT_DECIMALS d)).

(** The value of the input in NEAR; none without a rate. *)
Definition input_value (token_in : TokenAccount) (amount_in : N) (day : NaiveDateTime) : prog P (option (NearValue D)) :=
  if bool_decide (token_in = wnear) then Ret (Ok (Some (yocto_value_to_near (from_yocto (bd_of_N amount_in)))))
  else
    let! rate := get_rate_at_date token_in day in
    match rate with
    | None => Ret (Ok None)
    | Some rate =>
        let! decimals_in := decimals_for token_in in
        let! v := lift (amount_div_rate (from_smallest_units (bd_of_N amount_in) decimals_in) rate) in
        Ret (Ok (Some v))
    end.
Definition calculate_swap_output_via_rates (token_in : TokenAccount) (amount_in : N) (token_out : TokenAccount)
    (day : NaiveDateTime) : prog P N :=
  let! near_value := input_value token_in amount_in day in
  match near_value with
  | None => Ret (Ok 0)
  | Some near_value =>
      if bool_decide (token_out = wnear) then
        Ret (Ok (to_u128_or_warn (yocto_value_bd (near_value_to_yocto near_value))))
      else
        let! rate := get_rate_at_date token_out day in
        match rate with
        | None => Ret (Ok 0)
        | Some rate => Ret (Ok (to_u128_or_warn (smallest_units (near_value_mul_rate near_value rate))))
        end
  end.

(** The pools first, the rates when they give no output. *)
Definition swap_output (swap_actions : list SwapAction) (token_in : TokenAccount) (amount_in : N)
    (token_out : TokenAccount) (day : NaiveDateTime) : prog P (N * SwapMethod) :=
  let! via_pools := calculate_swap_output_via_pools swap_actions amount_in day in
  match via_pools with
  | Some out => Ret (Ok (out, PoolBased))
  | None =>
      let! out := calculate_swap_output_via_rates token_in amount_in token_out day in
      Ret (Ok (out, DbRate))
  end.

Definition handle_swap (s : SimState D) (args_value : json) : prog P (N * SimState D) :=
  match json_get "actions" args_value ≫= parse_actions valid_account with
  | None | Some [] => Ret (Ok (0, s))
  | Some ((first :: rest) as swap_actions) =>
      let day := sim_day s in
      let token_in := sa_token_in first in
      let token_out := sa_token_out (List.last rest first) in
      let amount_in := default 0 (sa_amount_in first) in
      if amount_in =? 0 then Ret (Ok (0, s))
      else
        let! r := swap_output swap_actions token_in amount_in token_out day in
        let '(amount_out, swap_method) := r in
        if amount_out =? 0 then Ret (Ok (0, s))
        else
          let! decimals_in := decimals_for token_in in
          let! decimals_out := decimals_for token_out in
          let! actual := lift (execute_simulated_swap wnear (portfolio s) token_in amount_in token_out amount_out
                                 decimals_out) in
          match actual.1 with
          | None => Ret (Ok (0, set_portfolio s actual.2))
          | Some r =>
              let event := mkSwapEvent day token_in (from_smallest_units (bd_of_N (actual_in r)) decimals_in)
                token_out (from_smallest_units (bd_of_N (actual_out r)) decimals_out) swap_method
                (sa_pool_id <$> swap_actions) in
              Ret (Ok (actual_out r, set_portfolio s (push_event actual.2 event)))
          end
  end.

(** ** The traits of the client *)
Definition sim_exec_contract (s : SimState D) (receiver : AccountId) (method_name : string) (args : json)
    : prog P (N * SimState D) :=
  if String.eqb method_name "swap" then handle_swap s args
  else if String.eqb method_name "register_tokens" && String.eqb receiver ref_contract then
    Ret (Ok (0, set_registered s (list_to_set (parse_token_ids valid_account args) ∪ sim_registered s)))
  else if String.eqb method_name "unregister_tokens" && String.eqb receiver ref_contract then
    Ret (Ok (0, set_registered s (sim_registered s ∖ list_to_set (parse_token_ids valid_account args))))
  else if String.eqb method_name "ft_transfer_call" then
    Ret (Ok (0, if bool_decide (json_get "receiver_id" args ≫= json_account valid_account = Some ref_contract)
                then set_registered s ({[receiver]} ∪ sim_registered s) else s))
  else Ret (Ok (0, s)).

(** The integer text of a decimal without its fraction. *)
Definition yocto_bigdecimal_to_u128_string (value : D) : string :=
  let q := bd_numeric (bd_trunc value) in pretty (Z.quot (Qnum q) (Zpos (Qden q))).

Definition sim_deposit (s : SimState D) (token : TokenAccount) : string :=
  if bool_decide (token = wnear) then yocto_bigdecimal_to_u128_string (yocto_value_bd (cash_balance (portfolio s)))
  else match holdings (portfolio s) !! token with
       | Some holding => yocto_bigdecimal_to_u128_string (smallest_units holding)
       | None => "0"
       end.
Definition sim_deposits (s : SimState D) : list (string * json) :=
  (fun token => (token, JStr (sim_deposit s token))) <$> (btree_iter (gset_to_gmap tt (sim_registered s))).*1.

Definition sim_storage_total (s : SimState D) : N :=
  let account_slots := N.min (N.of_nat (size (sim_registered s)) + 1) USIZE_MAX in
  N.min (STORAGE_BOUND_MIN_YOCTO * account_slots) U128_MAX.

Definition sim_view_contract (s : SimState D) (receiver : AccountId) (method_name : string) : prog P P :=
  if String.eqb method_name "get_deposits" then Ret (Ok (to_vec (JObj (sim_deposits s))))
  else if String.eqb method_name "ft_metadata" then
    let! cached := cached_decimals receiver in
    let decimals := match cached with
                    | Some d => d
                    | None => match holdings (portfolio s) !! receiver with
                              | Some a => amount_decimals a | None => DEFAULT_DECIMALS end
                    end in
    Ret (Ok (to_vec (JObj [("spec", JStr "ft-1.0.0"); ("name", JStr "SimToken"); ("symbol", JStr "SIM");
                           ("decimals", JU32 decimals)])))
  else if String.eqb method_name "ft_balance_of" then Ret (Ok (to_vec (JU128 (10 ^ 30))))
  else if String.eqb method_name "ft_total_supply" then Ret (Ok (to_vec (JU128 (10 ^ 30))))
  else if String.eqb method_name "storage_balance_of" then
    Ret (Ok (to_vec (JObj [("total", JU128 (sim_storage_total s)); ("available", JU128 0)])))
  else if String.eqb method_name "storage_balance_bounds" then
    Ret (Ok (to_vec (JObj [("min", JU128 STORAGE_BOUND_MIN_YOCTO); ("max", JU128 STORAGE_BOUND_MIN_YOCTO)])))
  else Ret (Ok (to_vec (JU128 0))).

Definition SIM_GAS_PRICE : N := 100000000.

(** The answer to a request, and the state after it.  A simulated transaction
    cannot be waited for until it is executed. *)
Definition sim_step (r : Req) (s : SimState D) : prog P (Resp P r * SimState D) :=
  match r with
  | RView receiver method_name _ =>
      let! raw := sim_view_contract s receiver method_name in Ret (Ok (inl raw, s))
  | RExec _ receiver method_name args _ =>
      let! sent := sim_exec_contract s receiver method_name args in Ret (Ok (inl sent.1, sent.2))
  | RTransfer _ _ _ => Ret (Ok (inl 0, s))
  | RWait tx => Ret (Ok (inl (SuccessValue (to_vec (JU128 tx))), s))
  | RWaitExecuted _ => Ret Panic
  | RNative _ => Ret (Ok (inl (to_u128_or_warn (yocto_value_bd initial_native)), s))
  | RGasPrice => Ret (Ok (inl SIM_GAS_PRICE, s))
  | r => Op r (fun x => Ret (Ok (x, s)))
  end.

(** A program against the client: its outcome, with the client afterwards. *)
Fixpoint simulate {A} (p : prog P A) (s : SimState D) : prog P (outcome anyhow A * SimState D) :=
  match p with
  | Ret Panic => Ret Panic
  | Ret o => Ret (Ok (o, s))
  | Op r k => let! x := sim_step r s in simulate (k x.1) x.2
  end.
End client.

(** * What a program may return *)
Definition returns {P A} (p : prog P A) (R : A -> Prop) : Prop := wp p (fun _ o => forall a, o = Ok a -> R a).

Section returns.
Context {P : Type}.

Lemma returns_ret {A} (o : outcome anyhow A) (R : A -> Prop) : (forall a, o = Ok a -> R a) -> returns (P:=P) (Ret o) R.
Proof. intros Hr. by apply wp_ret. Qed.
Lemma returns_ok {A} (a : A) (R : A -> Prop) : R a -> returns (P:=P) (Ret (Ok a)) R.
Proof. intros Hr. apply returns_ret. by intros a' [= <-]. Qed.
Lemma returns_any {A} (p : prog P A) : returns p (fun _ => True).
Proof. by intros t o _ a _. Qed.
Lemma returns_mono {A} (p : prog P A) (R R' : A -> Prop) : returns p R -> (forall a, R a -> R' a) -> returns p R'.
Proof. intros Hp HR t o Hr a Ho. by apply HR, (Hp t o Hr). Qed.
Lemma returns_bind {A B} (p : prog P A) (k : A -> prog P B) (R : B -> Prop) :
  returns p (fun a => returns (k a) R) -> returns (bind p k) R.
Proof.
  intros Hp. apply wp_bind. eapply wp_mono; [exact Hp|]. intros t [a|e|] Ha; [|done..].
  eapply wp_mono; [by apply Ha|]. done.
Qed.
Lemma returns_op {A} r (k : Resp P r -> prog P A) (R : A -> Prop) : (forall x, returns (k x) R) -> returns (Op r k) R.
Proof. intros Hk. apply wp_op. intros x. exact (Hk x). Qed.
(** The continuation holds whatever the first part returned. *)
Lemma returns_then {A B} (p : prog P A) (k : A -> prog P B) (R : B -> Prop) :
  (forall a, returns (k a) R) -> returns (bind p k) R.
Proof. intros Hk. apply returns_bind. eapply returns_mono; [apply returns_any|]. by intros a _. Qed.
Lemma returns_run {A} (p : prog P A) (R : A -> Prop) t a : returns p R -> run p t (Ok a) -> R a.
Proof. intros Hp Hr. by apply (Hp t (Ok a) Hr). Qed.
End returns.

(** * The record of swaps is complete *)
Section replay.
Context {D : Type} `{BigDecimalLaws D}.

(** A recorded swap made again, on the account as it was. *)
Definition replay_event (wnear : TokenAccount) (s : PortfolioState D) (e : SwapEvent (D:=D))
    : outcome anyhow (PortfolioState D) :=
  let? r := execute_simulated_swap wnear s (event_token_in e) (to_u128_or_warn (smallest_units (event_amount_in e)))
              (event_token_out e) (to_u128_or_warn (smallest_units (event_amount_out e)))
              (amount_decimals (event_amount_out e)) in
  Ok (push_event r.2 e).
Fixpoint replay (wnear : TokenAccount) (s : PortfolioState D) (events : list (SwapEvent (D:=D)))
    : outcome anyhow (PortfolioState D) :=
  match events with
  | [] => Ok s
  | e :: events => let? s := replay_event wnear s e in replay wnear s events
  end.

Lemma replay_app wnear s es es' : replay wnear s (es ++ es') = let? s := replay wnear s es in replay wnear s es'.
Proof.
  revert s. induction es as [|e es IH]; intros s; [done|]. cbn [app replay].
  destruct (replay_event wnear s e) as [s'| |]; [apply IH|done..].
Qed.

Lemma to_u128_or_warn_le (v : D) : to_u128_or_warn v <= U128_MAX.
Proof.
  unfold to_u128_or_warn. destruct (bd_to_u128 v) as [n|] eqn:E; [|lia].
  by destruct (to_u128_bounds _ _ E).
Qed.

Lemma to_u128_or_warn_of_N n : n <= U128_MAX -> to_u128_or_warn (bd_of_N n : D) = n.
Proof. intros Hn. unfold to_u128_or_warn. by rewrite to_u128_of_N. Qed.

(** A swap at the amounts it came to is the same swap. *)
Lemma swap_again wnear (s : PortfolioState D) from fa to ta dec r s' : ta <= U128_MAX ->
  execute_simulated_swap wnear s from fa to ta dec = Ok (Some r, s') ->
  actual_in r <= U128_MAX /\ actual_out r <= U128_MAX /\
  execute_simulated_swap wnear s from (actual_in r) to (actual_out r) dec = Ok (Some r, s').
Proof.
  intros Hta E. unfold execute_simulated_swap in E |- *.
  set (balance := if bool_decide (from = wnear) then _ else _) in *.
  assert (Hb : balance <= U128_MAX).
  { unfold balance, holding_units. case_bool_decide; [apply to_u128_or_warn_le|].
    destruct (holdings s !! from); [apply to_u128_or_warn_le|lia]. }
  clearbody balance. set (sold := N.min fa balance) in *.
  destruct (N.eqb_spec sold 0) as [|Hs]; [done|].
  destruct (scale_output ta sold fa) as [bought| |] eqn:Esc; cbn [obind] in E; [|done..].
  destruct (N.eqb_spec bought 0) as [|Hbt]; [done|].
  assert (Hbought : bought <= U128_MAX).
  { unfold scale_output in Esc. destruct (fa =? 0); [done|]. destruct (sold =? fa); [by simplify_eq|].
    inv_ok. apply to_u128_or_warn_le. }
  apply obind_Ok_inv in E as (s1 & E1 & E2). injection E2 as <- <-. cbn [actual_in actual_out].
  split; [lia|]. split; [done|].
  replace (N.min sold balance) with sold by lia. rewrite (proj2 (N.eqb_neq _ _) Hs).
  unfold scale_output at 1. rewrite (proj2 (N.eqb_neq _ _) Hs), N.eqb_refl. cbn [obind].
  rewrite (proj2 (N.eqb_neq _ _) Hbt). by rewrite E1.
Qed.

Lemma swap_nothing wnear (s : PortfolioState D) from fa to ta dec s' :
  execute_simulated_swap wnear s from fa to ta dec = Ok (None, s') -> s' = s.
Proof.
  unfold execute_simulated_swap. set (sold := N.min fa _). destruct (sold =? 0); [by intros [= <-]|].
  destruct (scale_output ta sold fa) as [bought| |]; cbn [obind]; [|done..].
  destruct (bought =? 0); [by intros [= <-]|]. intros E. by apply obind_Ok_inv in E as (? & _ & ?).
Qed.

Lemma estimate_return_le (p : PoolInfo) ti a to out : estimate_return D p ti a to = Ok out -> out <= U128_MAX.
Proof.
  unfold estimate_return. destruct (_ =? _); [done|]. intros E. inv_ok.
  destruct (_ || _); [done|]. inv_ok. by destruct (to_u128_bounds _ _ E).
Qed.
Lemma walk_actions_le pools actions a out : actions <> [] \/ a <= U128_MAX -> walk_actions D pools actions a = Ok (Some out) -> out <= U128_MAX.
Proof.
  revert a. induction actions as [|x actions IH]; intros a Ha E; cbn in E; [by simplify_eq; destruct Ha|].
  destruct (pools_get _ _) as [pool| |]; [|done..]. destruct (position _ _) as [i|]; [|done].
  destruct (position _ _) as [j|]; [|done].
  destruct (estimate_return _ _ _ _ _) as [o| |] eqn:Ee; [|done..].
  eapply IH; [|exact E]. right. by eapply estimate_return_le.
Qed.
End replay.

Section audit.
Context {P D : Type} `{BigDecimalLaws D} `{!Rows P D} `{!ToVec P}.
Context (valid_account : string -> bool) (is_mainnet : bool) (initial_native : YoctoValue D).
Abbreviation wnear := (WNEAR_TOKEN is_mainnet).

(** A relation between states that every request respects relates the states
    before and after a program. *)
Lemma simulate_rel (R : SimState D -> SimState D -> Prop) `{!PreOrder R} :
  (forall r s, returns (sim_step (P:=P) valid_account is_mainnet initial_native r s) (fun x => R s x.2)) ->
  forall A (p : prog P A) s,
    returns (simulate valid_account is_mainnet initial_native p s) (fun x => R s x.2).
Proof.
  intros Hstep A p. induction p as [[a|e|]|r k IH]; intros s; cbn [simulate]; [by apply returns_ok..| |].
  - by apply returns_ret.
  - apply returns_bind. eapply returns_mono; [apply Hstep|]. intros [x s1] Hs.
    eapply returns_mono; [apply IH|]. intros y Hy. by etrans.
Qed.

(** The account after is the account before with the recorded swaps made again. *)
Definition logged (s s' : SimState D) : Prop := exists events,
  replay wnear (portfolio s) events = Ok (portfolio s') /\
  Forall (fun e => event_timestamp e = sim_day s) events /\ sim_day s' = sim_day s.

#[global] Instance logged_preorder : PreOrder logged.
Proof.
  split; [intros s; by exists []|]. intros s1 s2 s3 (es & E & Ht & Hd) (es' & E' & Ht' & Hd').
  exists (es ++ es'). rewrite replay_app, E, Forall_app. cbn [obind]. rewrite Hd in Ht'. split; [done|].
  split; [done|]. congruence.
Qed.

Lemma via_rates_le token_in a token_out day :
  returns (calculate_swap_output_via_rates (P:=P) (D:=D) valid_account is_mainnet token_in a token_out day)
    (fun out => out <= U128_MAX).
Proof.
  apply returns_then. intros [v|]; [|apply returns_ok; lia].
  case_bool_decide; [apply returns_ok, to_u128_or_warn_le|]. apply returns_then.
  intros [rate|]; apply returns_ok; [apply to_u128_or_warn_le|lia].
Qed.
Lemma swap_output_le actions token_in a token_out day : actions <> [] ->
  returns (swap_output (P:=P) (D:=D) valid_account is_mainnet actions token_in a token_out day)
    (fun x => x.1 <= U128_MAX).
Proof.
  intros Hne. apply returns_bind.
  eapply (returns_mono _ (fun o => forall out, o = Some out -> out <= U128_MAX)).
  - apply returns_then. intros [pools|e]; [|by apply returns_ok]. apply returns_ret.
    unfold estimate_swap_via_pools. destruct (connected_actions actions); [|done].
    intros [out|] E; [|done]. intros ? [= <-]. eapply walk_actions_le; [by left|exact E].
  - intros [out|] Ho; [apply returns_ok; by apply Ho|].
    apply returns_bind. eapply returns_mono; [apply via_rates_le|]. intros out Hle. by apply returns_ok.
Qed.

Lemma handle_swap_logged s args :
  returns (handle_swap (P:=P) valid_account is_mainnet s args) (fun x => logged s x.2).
Proof.
  unfold handle_swap. destruct (_ ≫= _) as [[|first rest]|]; try by apply returns_ok.
  destruct (_ =? 0); [by apply returns_ok|]. apply returns_bind.
  eapply returns_mono; [apply (swap_output_le (first :: rest)); discriminate|]. intros [amount_out m] Hle. cbn [fst] in Hle.
  destruct (amount_out =? 0); [by apply returns_ok|].
  apply returns_then. intros din. apply returns_then. intros dout.
  apply returns_bind, returns_ret. intros [[r|] p'] E; cbn [fst snd]; apply returns_ok; cbn [snd].
  - destruct (swap_again _ _ _ _ _ _ _ _ _ Hle E) as (Hin & Hout & E').
    set (e := mkSwapEvent _ _ _ _ _ _ _). exists [e]. split; [|split; [|done]].
    + cbn [replay]. unfold replay_event. cbn [event_token_in event_amount_in event_token_out event_amount_out e
        smallest_units amount_decimals from_smallest_units].
      rewrite !to_u128_or_warn_of_N by done. by rewrite E'.
    + by apply list.Forall_singleton.
  - rewrite (swap_nothing _ _ _ _ _ _ _ _ E). destruct s. by exists [].
Qed.

Lemma step_logged r s : returns (sim_step (P:=P) valid_account is_mainnet initial_native r s) (fun x => logged s x.2).
Proof.
  destruct r; cbn [sim_step]; try (apply returns_op; intros x); try by apply returns_ok.
  - apply returns_then. intros raw. by apply returns_ok.
  - apply returns_bind. eapply (returns_mono _ (fun x => logged s x.2)); [|intros x Hx; by apply returns_ok].
    unfold sim_exec_contract. destruct (String.eqb method "swap"); [apply handle_swap_logged|].
    repeat case_match; apply returns_ok; try done; cbn [snd]; try by exists [].
  - by apply returns_ret.
Qed.
End audit.

(** * The record of swaps *)
Section record.
Context {D : Type} `{BigDecimal D}.

(** What a simulated swap does not touch. *)
Definition same_history (s s' : PortfolioState D) : Prop :=
  swap_events s' = swap_events s /\ trades s' = trades s /\ snapshots s' = snapshots s.

Lemma sell_history (s : PortfolioState D) t n v x s' : record_sell_pnl s t n v = Ok (x, s') -> same_history s s'.
Proof.
  unfold record_sell_pnl. intros E. inv_ok. unfold same_history.
  destruct (cost_basis s !! t); cbn; destruct (holding_closed _ _); done.
Qed.
Lemma swap_history wnear (s : PortfolioState D) from fa to ta dec r s' :
  execute_simulated_swap wnear s from fa to ta dec = Ok (r, s') -> same_history s s'.
Proof.
  unfold execute_simulated_swap. destruct (_ =? 0); [by intros [= <- <-]|].
  destruct (scale_output _ _ _) as [b| |]; cbn [obind]; [|done..]. destruct (b =? 0); [by intros [= <- <-]|].
  intros E. apply obind_Ok_inv in E as (s1 & E1 & E2). injection E2 as _ <-.
  assert (Hs1 : same_history s s1).
  { destruct (bool_decide (from = wnear)); [by simplify_eq|]. inv_ok. destruct a as [x s2].
    apply sell_history in Hstep. assert (Hd : forall n, same_history s (deduct_holding s from n)).
    { intros n. unfold deduct_holding. by destruct (holdings s !! from). }
    unfold same_history in *. cbn [snd]. destruct (holding_closed _ _); cbn;
      destruct Hstep as (-> & -> & ->); apply Hd. }
  unfold same_history in *. destruct Hs1 as (<- & <- & <-). unfold add_to_cost_basis.
  repeat case_match; done.
Qed.
Lemma replay_history wnear es : forall s s' : PortfolioState D, replay wnear s es = Ok s' ->
  swap_events s' = swap_events s ++ es /\ trades s' = trades s /\ snapshots s' = snapshots s.
Proof.
  induction es as [|e es IH]; intros s s' E; cbn [replay] in E; [simplify_eq; by rewrite app_nil_r|].
  inv_ok. unfold replay_event in Hstep. inv_ok. destruct a0 as [r s1]. apply swap_history in Hstep0 as (Ee & Et & Es).
  apply IH in E as (-> & -> & ->). cbn. by rewrite Ee, Et, Es, <- app_assoc.
Qed.
End record.

Section theorems.
Context (P D : Type) `{BigDecimalLaws D} `{!Rows P D} `{!ToVec P}.
Context (valid_account : string -> bool) (is_mainnet : bool) (initial_native : YoctoValue D).

(** C8: The record of swaps is a complete account of a simulation: whatever
    program runs against the simulated client, and whatever it reads from the
    database on the way, the swap events it leaves behind, made again one by one
    on the account it started with, give exactly the account it ended with (cash,
    holdings, cost bases, profit), all stamped with the day of the simulation; the
    trades and snapshots are those from before. *)
Theorem swap_log_complete A (p : prog P A) (s : SimState D) t x s' :
  run (simulate valid_account is_mainnet initial_native p s) t (Ok (x, s')) ->
  exists events, swap_events (portfolio s') = swap_events (portfolio s) ++ events /\
    replay (WNEAR_TOKEN is_mainnet) (portfolio s) events = Ok (portfolio s') /\
    Forall (fun e => event_timestamp e = sim_day s) events /\
    trades (portfolio s') = trades (portfolio s) /\ snapshots (portfolio s') = snapshots (portfolio s).
Proof.
  intros Hr. assert (Hl : logged is_mainnet s s').
  { refine (returns_run _ (fun y => logged is_mainnet s y.2) t (x, s') _ Hr).
    apply simulate_rel; [apply _|apply step_logged]. }
  destruct Hl as (es & E & Ht & _). exists es. destruct (replay_history _ _ _ _ E) as (He & Htr & Hs). auto.
Qed.
End theorems.

(** ** A concrete client

    Cells that carry the values they decode to, as [Records] has them; one pool
    of usdt, and a rate for a token without a pool. *)
Definition text_amount (v : json) : option N := match v with JStr s => parse_unsigned U128_MAX s | _ => None end.
Definition cell_of_json (v : json) : cell :=
  match v with
  | JU128 n => CAmount n
  | JObj fields =>
      match mapM (fun p => pair p.1 <$> text_amount p.2) fields with
      | Some l => CDeposits (list_to_map l)
      | None =>
          match field "total" fields, field "available" fields, field "min" fields, field "max" fields, field "decimals" fields with
          | Some (JU128 t), Some (JU128 a), _, _, _ => CBalance (Some {| total := t; available := a |})
          | _, _, Some (JU128 m), Some (JU128 x), _ => CBounds {| bounds_min := m; bounds_max := Some x |}
          | _, _, _, _, Some (JU32 d) => CAmount d
          | _, _, _, _, _ => CNothing
          end
      end
  | _ => CNothing
  end.
#[global] Instance cell_vec : ToVec cell := cell_of_json.

Definition sim_db (q : Query) : cell :=
  match q with
  | QLatestPoolBefore _ _ => CPool (Some desk_row)
  | QPoolsBetween _ _ => CPools [desk_row]
  | QSpotRatesAt [token] quote t =>
      CRates [mkDbTokenRate token quote (inject_Z (if String.eqb token "usdt" then 1000 else 500)) t 6 1 None]
  | q => desk_db q
  end.
Definition sim_answer (r : Req) (s : unit) : Resp cell r * unit :=
  match r with
  | RDb q => (inl (sim_db q), s)
  | RDecimals _ => (Some 6, s)
  | r => desk_answer r s
  end.

(** wNEAR to usdt through the pool, then part of it to another token by the rates. *)
Definition two_swaps : prog cell unit :=
  let send actions := exec_contract simulation_wallet (CONTRACT_ADDRESS true) METHOD_NAME (swap_args actions) 1 in
  let! _ := send [mkSwapAction 0 "wrap.near" (Some 300) "usdt" 0] in
  let! _ := send [mkSwapAction 9 "usdt" (Some 10) "dust" 0] in
  Ret (Ok tt).
Definition opening : SimState Q := mkSimState (portfolio_new (from_yocto (inject_Z 1000))) ∅ (3600 * 10 ^ 9)%Z.
Definition two_swaps_run := interp sim_answer
  (simulate (P:=cell) (fun _ => true) true (from_yocto (inject_Z 1000)) two_swaps opening) tt.
Definition two_swaps_end : SimState Q := match two_swaps_run.1.1 with Ok x => x.2 | _ => opening end.

Example two_swaps_recorded : (fun e => (event_token_in e, event_token_out e, event_swap_method e)) <$> swap_events (portfolio two_swaps_end) =
  [("wrap.near", "usdt", PoolBased); ("usdt", "dust", DbRate)].
Proof. vm_compute. reflexivity. Qed.

Lemma swap_log_complete_witness : exists events, swap_events (portfolio two_swaps_end) = events /\
  replay "wrap.near" (portfolio opening) events = Ok (portfolio two_swaps_end).
Proof.
  assert (Hok : two_swaps_run.1.1 = Ok (Ok tt, two_swaps_end)) by (vm_compute; reflexivity).
  destruct (swap_log_complete cell Q (fun _ => true) true (from_yocto (inject_Z 1000)) unit two_swaps opening
    two_swaps_run.1.2 (Ok tt) two_swaps_end) as (es & He & Hr & _).
  - rewrite <- Hok. apply interp_run.
  - exists es. split; [exact He|exact Hr].
Defined.
