(* ===== verification/SimStorage.v ===== *)
(** * SimStorage: the storage of the simulated exchange

    The trader prepares its storage on the exchange before every trade
    ([storage.rs]).  Here that code runs against the simulated client
    ([mock_client.rs]): the theorem says when it succeeds and what is registered
    afterwards.  [swp] is the weakest precondition of a program that runs
    against the client. *)

From Stdlib Require Import QArith Qround SpecFloat.
From stdpp Require Import pretty.
From S2P Require Import Prelude F64 Config NearClient StoragePlanner Storage BigDecimal Dex Swap Units Portfolio Records TradeSwap SimClient.
Local Open Scope N_scope.

(** What the code relies on of serde_json: what the simulated client encodes is
    decoded again, a [U128] being the text of its value. *)
Class ExchangeCodec (P : Type) `{ToVec P} `{FromSlice P (option StorageBalance)} `{FromSlice P StorageBalanceBounds}
    `{FromSlice P (gmap TokenAccount N)} : Prop := {
  vec_deposits : forall l : list (string * N), NoDup l.*1 -> Forall (fun p => p.2 <= U128_MAX) l ->
    from_slice (to_vec (P:=P) (JObj ((fun p => (p.1, JStr (pretty p.2))) <$> l))) = Some (list_to_map l : gmap TokenAccount N);
  vec_balance : forall t a, t <= U128_MAX -> a <= U128_MAX ->
    from_slice (to_vec (P:=P) (JObj [("total", JU128 t); ("available", JU128 a)])) =
      Some (Some {| total := t; available := a |});
  vec_bounds : forall m x, m <= U128_MAX -> x <= U128_MAX ->
    from_slice (to_vec (P:=P) (JObj [("min", JU128 m); ("max", JU128 x)])) =
      Some {| bounds_min := m; bounds_max := Some x |};
}.

(** * Programs against the simulated client *)
Section swp.
Context {P D : Type} `{BigDecimal D} `{!Rows P D} `{!ToVec P}.
Context (valid_account : string -> bool) (is_mainnet : bool) (initial_native : YoctoValue D).

(** The program ends, without a panic, with an outcome and a client as in [Q]. *)
Definition swp {A} (p : prog P A) (s : SimState D) (Q : outcome anyhow A -> SimState D -> Prop) : Prop :=
  wp (simulate valid_account is_mainnet initial_native p s) (fun _ o => exists x s', o = Ok (x, s') /\ Q x s').

Lemma swp_ok {A} (a : A) s (Q : _ -> _ -> Prop) : Q (Ok a) s -> swp (Ret (Ok a)) s Q.
Proof. intros HQ. apply wp_ret. eauto. Qed.
Lemma swp_op {A} r (k : Resp P r -> prog P A) s Q :
  wp (sim_step (P:=P) valid_account is_mainnet initial_native r s)
    (fun _ o => exists x s', o = Ok (x, s') /\ swp (k x) s' Q) -> swp (Op r k) s Q.
Proof.
  intros Hs. apply wp_bind. eapply wp_mono; [exact Hs|]. intros t o (x & s' & -> & Hk).
  eapply wp_mono; [exact Hk|]. done.
Qed.
Lemma swp_mono {A} (p : prog P A) s (Q Q' : _ -> _ -> Prop) :
  swp p s Q -> (forall o s', Q o s' -> Q' o s') -> swp p s Q'.
Proof. intros Hp HQ. eapply wp_mono; [exact Hp|]. intros t o (x & s' & -> & Hx). eauto. Qed.
(** The step is answered without a request of its own. *)
Lemma swp_step {A} r (k : Resp P r -> prog P A) s x s' Q :
  sim_step (P:=P) valid_account is_mainnet initial_native r s = Ret (Ok (x, s')) -> swp (k x) s' Q -> swp (Op r k) s Q.
Proof. intros Hr Hk. apply swp_op. rewrite Hr. apply wp_ret. eauto. Qed.
Lemma swp_forward {A} r (k : Resp P r -> prog P A) s Q :
  sim_step (P:=P) valid_account is_mainnet initial_native r s = Op r (fun x => Ret (Ok (x, s))) ->
  (forall x, swp (k x) s Q) -> swp (Op r k) s Q.
Proof. intros Hr Hk. apply swp_op. rewrite Hr. apply wp_call. eauto. Qed.

Lemma swp_op_inv {A} r (k : Resp P r -> prog P A) s Q : swp (Op r k) s Q ->
  wp (sim_step (P:=P) valid_account is_mainnet initial_native r s)
    (fun _ o => exists x s', o = Ok (x, s') /\ swp (k x) s' Q).
Proof.
  intros Hp t o Hr. destruct o as [[x s']|e|].
  - exists x, s'. split; [done|]. intros t' o' Hr'. apply (Hp (t ++ t')). cbn [simulate].
    by apply (run_bind_ok _ _ _ (x, s')).
  - destruct (Hp t (Err e)) as (? & ? & ? & _); [|done]. by apply run_bind_err.
  - destruct (Hp t Panic) as (? & ? & ? & _); [|done]. by apply run_bind_panic.
Qed.
Lemma swp_bind {A B} (p : prog P A) (k : A -> prog P B) s Q :
  swp p s (fun o s' => match o with Ok a => swp (k a) s' Q | Err e => Q (Err e) s' | Panic => False end) ->
  swp (bind p k) s Q.
Proof.
  revert s. induction p as [[a|e|]|r f IH]; intros s Hp.
  - by destruct (Hp [] _ (run_ret _)) as (x & s' & [= <- <-] & Hk).
  - destruct (Hp [] _ (run_ret _)) as (x & s' & [= <- <-] & Hk). apply wp_ret. eauto.
  - by destruct (Hp [] _ (run_ret _)) as (x & s' & Hx & _).
  - apply swp_op. eapply wp_mono; [apply (swp_op_inv _ _ _ _ Hp)|]. intros t o (x & s' & -> & Hk).
    exists x, s'. split; [done|]. by apply IH.
Qed.
Lemma swp_attempt {A} (p : prog P A) s Q :
  swp p s (fun o s' => match o with Ok a => Q (Ok (inl a)) s' | Err e => Q (Ok (inr e)) s' | Panic => False end) ->
  swp (attempt p) s Q.
Proof.
  revert s. induction p as [[a|e|]|r f IH]; intros s Hp.
  - destruct (Hp [] _ (run_ret _)) as (x & s' & [= <- <-] & Hk). apply wp_ret. eauto.
  - destruct (Hp [] _ (run_ret _)) as (x & s' & [= <- <-] & Hk). apply wp_ret. eauto.
  - by destruct (Hp [] _ (run_ret _)) as (x & s' & Hx & _).
  - apply swp_op. eapply wp_mono; [apply (swp_op_inv _ _ _ _ Hp)|]. intros t o (x & s' & -> & Hk).
    exists x, s'. split; [done|]. by apply IH.
Qed.
Lemma swp_finally {A} (p : prog P A) r s Q :
  swp p s (fun o s' => o <> Panic /\ swp (Op r (fun _ => Ret o)) s' Q) -> swp (finally p r) s Q.
Proof.
  revert s. induction p as [o|r' f IH]; intros s Hp.
  - destruct o as [a|e|].
    1,2: by destruct (Hp [] _ (run_ret _)) as (x & s' & [= <- <-] & _ & Hk).
    by destruct (Hp [] _ (run_ret _)) as (x & s' & Hx & _).
  - apply swp_op. eapply wp_mono; [apply (swp_op_inv _ _ _ _ Hp)|]. intros t o (x & s' & -> & Hk).
    exists x, s'. split; [done|]. by apply IH.
Qed.
End swp.

(** * The exchange of the simulation *)
Section exchange.
Context {P D : Type} `{BigDecimalLaws D} `{!Rows P D} `{!ToVec P}.
Context `{!FromSlice P (option StorageBalance)} `{!FromSlice P StorageBalanceBounds} `{!FromSlice P (gmap TokenAccount N)}.
Context `{!ExchangeCodec P}.
Context (valid_account : string -> bool) (is_mainnet : bool) (initial_native : YoctoValue D) (w : Wallet).
Abbreviation wnear := (WNEAR_TOKEN is_mainnet).
Abbreviation SWP := (swp (P:=P) valid_account is_mainnet initial_native).

(** ** What the deposits say *)

(** A figure that fits [u128]. *)
Definition fits_u128 (v : D) : Prop := (0 <= bd_val v <= inject_Z (Z.of_N U128_MAX))%Q.
Definition whole (v : D) : N := Z.to_N (Qfloor (bd_val v)).
Definition figures_fit (p : PortfolioState D) : Prop :=
  fits_u128 (yocto_value_bd (cash_balance p)) /\ forall t a, holdings p !! t = Some a -> fits_u128 (smallest_units a).

(** The balance of a token on the simulated exchange. *)
Definition sim_amount (s : SimState D) (t : TokenAccount) : N :=
  if bool_decide (t = wnear) then whole (yocto_value_bd (cash_balance (portfolio s)))
  else match holdings (portfolio s) !! t with Some a => whole (smallest_units a) | None => 0 end.
Definition sim_deps (s : SimState D) : gmap TokenAccount N :=
  list_to_map ((fun t => (t, sim_amount s t)) <$> (btree_iter (gset_to_gmap tt (sim_registered s))).*1).

Lemma quot_integral (q : Q) z : q == inject_Z z -> Z.quot (Qnum q) (Zpos (Qden q)) = z.
Proof. unfold Qeq. cbn. rewrite Z.mul_1_r. intros ->. by apply Z.quot_mul. Qed.

Lemma figure_text v : fits_u128 v -> yocto_bigdecimal_to_u128_string v = pretty (whole v) /\ whole v <= U128_MAX.
Proof.
  intros [H0' Hm]. pose proof (Qfloor_resp_le _ _ H0') as Hf. change (Qfloor 0) with 0%Z in Hf.
  pose proof (Qfloor_resp_le _ _ Hm) as Hm'. rewrite Qfloor_of_Z in Hm'. unfold whole. split; [|lia].
  unfold yocto_bigdecimal_to_u128_string. cbn zeta.
  rewrite (quot_integral _ (Qfloor (bd_val v))) by (rewrite val_numeric; by apply val_trunc).
  by destruct (Qfloor (bd_val v)) eqn:E.
Qed.

Lemma sim_deposit_text s t : figures_fit (portfolio s) ->
  sim_deposit is_mainnet s t = pretty (sim_amount s t) /\ sim_amount s t <= U128_MAX.
Proof.
  intros [Hc Hh]. unfold sim_deposit, sim_amount. case_bool_decide; [by apply figure_text|].
  destruct (holdings (portfolio s) !! t) as [a|] eqn:E; [by eapply figure_text, Hh|]. split; [done|lia].
Qed.

Lemma elem_of_keys (s : SimState D) t : t ∈ (btree_iter (gset_to_gmap tt (sim_registered s))).*1 <-> t ∈ sim_registered s.
Proof.
  rewrite list_elem_of_fmap. split.
  - intros ([u []] & -> & Hin). apply btree_iter_elem in Hin. cbn. by apply lookup_gset_to_gmap_Some in Hin as [? _].
  - intros Hin. exists (t, tt). split; [done|]. apply btree_iter_elem. by apply lookup_gset_to_gmap_Some.
Qed.

Lemma sim_deps_lookup s t : sim_deps s !! t = if decide (t ∈ sim_registered s) then Some (sim_amount s t) else None.
Proof.
  unfold sim_deps. destruct (decide _) as [Hin|Hin].
  - apply elem_of_list_to_map_1.
    + rewrite <- list_fmap_compose. cbn. rewrite list_fmap_id. apply btree_iter_NoDup_keys.
    + apply list_elem_of_fmap. exists t. split; [done|]. by apply elem_of_keys.
  - apply not_elem_of_list_to_map_1. rewrite <- list_fmap_compose. cbn. rewrite list_fmap_id. by rewrite elem_of_keys.
Qed.
Lemma sim_deps_Some s t : is_Some (sim_deps s !! t) <-> t ∈ sim_registered s.
Proof. rewrite sim_deps_lookup. destruct (decide _); split; try done; eauto; by intros []. Qed.

Lemma sim_deps_len s : map_len (sim_deps s) = N.of_nat (size (sim_registered s)).
Proof.
  unfold map_len. f_equal. rewrite <- (size_dom (D:=gset TokenAccount)). f_equiv. apply set_eq. intros t.
  rewrite elem_of_dom. apply sim_deps_Some.
Qed.

(** ** The answers to the storage code *)
Lemma swp_deposits account s (Q : _ -> _ -> Prop) : figures_fit (portfolio s) -> Q (Ok (sim_deps s)) s ->
  SWP (get_deposits (P:=P) is_mainnet account) s Q.
Proof.
  intros Hf HQ. apply swp_bind. eapply swp_step; [reflexivity|]. apply swp_ok. cbn [of_answer].
  unfold lift, decode. set (l := (fun t => (t, sim_amount s t)) <$> (btree_iter (gset_to_gmap tt (sim_registered s))).*1).
  replace (sim_deposits is_mainnet s) with ((fun p : string * N => (p.1, JStr (pretty p.2))) <$> l).
  - rewrite vec_deposits; [by apply swp_ok|..].
    + unfold l. rewrite <- list_fmap_compose. cbn. rewrite list_fmap_id. apply btree_iter_NoDup_keys.
    + apply list.Forall_forall. intros p Hp. apply list_elem_of_fmap in Hp as (t & -> & _). by apply sim_deposit_text.
  - unfold l, sim_deposits. rewrite <- list_fmap_compose. apply list_fmap_ext. intros i t _. cbn.
    by rewrite (proj1 (sim_deposit_text s t Hf)).
Qed.

Lemma swp_balance account s (Q : _ -> _ -> Prop) :
  Q (Ok (Some {| total := sim_storage_total s; available := 0 |})) s ->
  SWP (balance_of (P:=P) is_mainnet account) s Q.
Proof.
  intros HQ. apply swp_bind. eapply swp_step; [reflexivity|]. apply swp_ok. cbn [of_answer].
  unfold lift, decode. rewrite vec_balance; [by apply swp_ok|unfold sim_storage_total; lia|lia].
Qed.
Lemma swp_bounds s (Q : _ -> _ -> Prop) :
  Q (Ok {| bounds_min := STORAGE_BOUND_MIN_YOCTO; bounds_max := Some STORAGE_BOUND_MIN_YOCTO |}) s ->
  SWP (check_bounds (P:=P) is_mainnet) s Q.
Proof.
  intros HQ. apply swp_bind. eapply swp_step; [reflexivity|]. apply swp_ok. cbn [of_answer].
  unfold lift, decode. by rewrite vec_bounds; [apply swp_ok|..].
Qed.
Lemma swp_wait {A} tx s (k : FinalExecutionStatus P -> prog P A) (Q : _ -> _ -> Prop) :
  (forall v, SWP (k v) s Q) -> SWP (bind (wait_for_success tx) k) s Q.
Proof. intros Hk. apply swp_bind. eapply swp_step; [reflexivity|]. apply swp_ok, Hk. Qed.
Lemma swp_storage_deposit amount mode s (Q : _ -> _ -> Prop) : Q (Ok 0) s ->
  SWP (storage_deposit (P:=P) is_mainnet w amount mode) s Q.
Proof. intros HQ. eapply swp_step; [reflexivity|]. by apply swp_ok. Qed.

Lemma parse_tokens_json l : parse_token_ids valid_account (JObj [("token_ids", json_tokens l)]) = bfilter valid_account l.
Proof.
  unfold parse_token_ids, json_tokens. cbn. induction l as [|t l IH]; [done|]. cbn.
  unfold json_account, parse_account in *. cbn in *. destruct (valid_account t); cbn; by rewrite IH.
Qed.
Lemma swp_register tokens s (Q : _ -> _ -> Prop) :
  Q (Ok 0) (set_registered s (list_to_set (bfilter valid_account tokens) ∪ sim_registered s)) ->
  SWP (register_tokens (P:=P) is_mainnet w tokens) s Q.
Proof.
  intros HQ. eapply swp_step.
  - cbn [sim_step]. unfold sim_exec_contract. rewrite parse_tokens_json, (String.eqb_refl (CONTRACT_ADDRESS is_mainnet)). reflexivity.
  - by apply swp_ok.
Qed.
Lemma swp_unregister tokens s (Q : _ -> _ -> Prop) :
  Q (Ok 0) (set_registered s (sim_registered s ∖ list_to_set (bfilter valid_account tokens))) ->
  SWP (unregister_tokens (P:=P) is_mainnet w tokens) s Q.
Proof.
  intros HQ. eapply swp_step.
  - cbn [sim_step]. unfold sim_exec_contract. rewrite parse_tokens_json, (String.eqb_refl (CONTRACT_ADDRESS is_mainnet)). reflexivity.
  - by apply swp_ok.
Qed.

(** ** A session *)

(** The account is the same, and some of the tokens in [given] may be gone. *)
Definition gave_back (given : list TokenAccount) (s s' : SimState D) : Prop :=
  portfolio s' = portfolio s /\ sim_day s' = sim_day s /\ sim_registered s' ⊆ sim_registered s /\
  forall t, t ∈ sim_registered s -> t ∉ given -> t ∈ sim_registered s'.

Lemma swp_unregister_chunks cs : forall ok fail given s0 s (Q : _ -> _ -> Prop),
  (forall c t, c ∈ cs -> t ∈ c -> t ∈ given) -> gave_back given s0 s ->
  (forall n s', gave_back given s0 s' -> Q (Ok n) s') ->
  SWP (unregister_chunks (P:=P) is_mainnet w cs ok fail) s Q.
Proof.
  induction cs as [|c cs IH]; intros ok fail given s0 s Q Hcs Hs HQ; cbn [unregister_chunks]; [by apply swp_ok, HQ|].
  apply swp_bind, swp_attempt, swp_bind, swp_unregister. eapply swp_step; [reflexivity|]. apply swp_ok. cbn.
  apply (IH _ _ given s0); [set_solver| |done]. destruct Hs as (Hp & Hd & Hsub & Hkeep).
  repeat split; cbn; [done|done|set_solver|]. intros t Ht Hn. apply elem_of_difference. split; [auto|].
  intros Hin. apply Hn. apply elem_of_list_to_set, elem_of_bfilter in Hin as [Hin _]. by apply (Hcs c); [set_solver|].
Qed.

(** The storage of a token is estimated at the bound of the contract, exactly. *)
Lemma sim_per_token s snap : sim_registered s <> ∅ -> deposits snap = sim_deps s ->
  balance snap = {| total := sim_storage_total s; available := 0 |} ->
  bounds_min (bounds snap) = STORAGE_BOUND_MIN_YOCTO -> per_token_estimate snap = STORAGE_BOUND_MIN_YOCTO.
Proof.
  intros Hne Hd Hb Hm. unfold per_token_estimate, used_storage. rewrite Hd, Hb, Hm, sim_deps_len. cbn [total available].
  apply N.max_r. assert (size (sim_registered s) <> O) by (by rewrite size_non_empty_iff, leibniz_equiv_iff).
  apply ceil_quot_least; [lia|]. unfold sim_storage_total. unfold STORAGE_BOUND_MIN_YOCTO. lia.
Qed.

Definition STORAGE_STEP : N := 1375000000000000000000.
Lemma sim_plan s needed keep snap : len needed <= MAX_REGISTER_PER_CYCLE -> deposits snap = sim_deps s ->
  balance snap = {| total := sim_storage_total s; available := 0 |} ->
  bounds_min (bounds snap) = STORAGE_BOUND_MIN_YOCTO ->
  (sim_registered s = ∅ /\ plan snap needed keep = Ok (InitialRegister needed)) \/
  exists u, plan snap needed keep = Ok (Normal u (missing (sim_deps s) needed)
                                           (STORAGE_STEP * len (missing (sim_deps s) needed))).
Proof.
  intros Hlen Hd Hb Hm. destruct (decide (sim_registered s = ∅)) as [He|He].
  - left. split; [done|]. rewrite plan_initial_eq; [by rewrite (proj2 (N.ltb_ge _ _))|].
    rewrite Hd. apply map_len_0. by rewrite sim_deps_len, He, size_empty.
  - right. pose proof (sim_per_token s snap He Hd Hb Hm) as Hpt.
    assert (Hms : len (missing (sim_deps s) needed) <= 100) by (etrans; [apply len_bfilter_le|exact Hlen]).
    rewrite plan_normal_eq.
    + rewrite Hpt, Hd, Hb. cbn [total available]. rewrite (proj2 (N.ltb_ge (sim_storage_total s) 0)) by lia.
      rewrite (proj2 (N.ltb_ge MAX_REGISTER_PER_CYCLE _)) by done.
      rewrite (proj2 (N.ltb_ge U128_MAX _)) by (unfold STORAGE_BOUND_MIN_YOCTO, SAFETY_MARGIN_NUMERATOR, U128_MAX; lia).
      eexists. do 2 f_equal. pose proof (needed_estimate_bounds snap needed) as Hn. cbn zeta in Hn.
      rewrite Hpt, Hd in Hn. unfold STORAGE_BOUND_MIN_YOCTO, STORAGE_STEP in *. lia.
    + rewrite Hd. intros E. apply He. apply map_len_0 in E. rewrite sim_deps_len in E.
      apply leibniz_equiv, size_empty_iff. lia.
Qed.

(** The registration of [tokens], the last step of a session. *)
Lemma swp_register_all tokens s (Q : _ -> _ -> Prop) : forallb valid_account tokens = true ->
  Q (Ok tt) (set_registered s (list_to_set tokens ∪ sim_registered s)) ->
  SWP (match tokens with
       | [] => Ret (Ok tt)
       | _ => let! tx := register_tokens (P:=P) is_mainnet w tokens in let! _ := wait_for_success tx in Ret (Ok tt)
       end) s Q.
Proof.
  intros Hv HQ. assert (Hb : bfilter valid_account tokens = tokens).
  { clear -Hv. induction tokens as [|t l IH]; [done|]. cbn in *. apply andb_true_iff in Hv as [Ht Hv]. unfold bfilter in *. cbn. by rewrite Ht, IH. }
  destruct tokens as [|r rs].
  - apply swp_ok. replace s with (set_registered s (list_to_set [] ∪ sim_registered s)); [done|].
    unfold set_registered. cbn. rewrite (left_id_L ∅ (∪)). by destruct s.
  - apply swp_bind, swp_register. rewrite Hb. apply swp_wait. intros _. by apply swp_ok.
Qed.

(** What a session leaves behind: the account is untouched, everything needed is
    registered, nothing else was added, and no token with a balance or to be kept
    was given back. *)
Record prepared (needed keep : list TokenAccount) (s s' : SimState D) : Prop := {
  prep_portfolio : portfolio s' = portfolio s;
  prep_day : sim_day s' = sim_day s;
  prep_needed : forall t, t ∈ needed -> t ∈ sim_registered s';
  prep_only : forall t, t ∈ sim_registered s' -> t ∈ sim_registered s \/ t ∈ needed;
  prep_kept : forall t, t ∈ sim_registered s -> t ∈ keep \/ sim_amount s t <> 0 -> t ∈ sim_registered s';
}.

Lemma swp_unregister_stale args s (Q : _ -> _ -> Prop) : figures_fit (portfolio s) ->
  (forall s', gave_back (np_to_unregister args) s s' -> Q (Ok tt) s') ->
  SWP (unregister_stale (P:=P) is_mainnet w args) s Q.
Proof.
  intros Hf HQ. unfold unregister_stale. destruct (np_to_unregister args) as [|u us] eqn:Eu.
  { apply swp_ok, HQ. split; [done|]. repeat split; [set_solver|auto]. }
  apply swp_bind, swp_deposits; [done|]. apply swp_bind. cbn [lift].
  pose proof (verify_unregister_len (sim_deps s) (np_keep args) (u :: us)) as Hl.
  unfold checked_sub. rewrite (proj2 (N.leb_le _ _) Hl). cbn [expect]. apply swp_ok.
  apply swp_bind. eapply (swp_unregister_chunks _ 0 0 (u :: us) s); [|repeat split; auto|].
  - intros c t Hc Ht. eapply verify_unregister_spec, chunks_elem; [|exact Hc|done]. done.
  - intros n s' Hs'. by apply swp_ok, HQ.
Qed.

Lemma swp_top_up args s (Q : _ -> _ -> Prop) : np_initial_deposit args = 0 ->
  np_pre_unregister_estimate args <= np_max_top_up args -> Q (Ok tt) s ->
  SWP (top_up (P:=P) is_mainnet w args) s Q.
Proof.
  intros Hi Hle HQ. unfold top_up. apply swp_bind, swp_balance. apply swp_bind, swp_ok. cbn zeta. cbn [available].
  rewrite Hi. apply swp_bind. unfold lift, checked_sub, saturating_sub. cbn [N.leb]. rewrite !N.sub_0_r.
  destruct (N.leb_spec 0 (np_max_top_up args)) as [_|]; [|lia]. apply swp_ok.
  rewrite (proj2 (N.ltb_ge _ _)) by done. destruct (_ =? 0); [by apply swp_ok|].
  apply swp_bind, swp_storage_deposit. apply swp_wait. intros _. by apply swp_ok.
Qed.

Lemma swp_plan_and_execute needed keep cap s (Q : _ -> _ -> Prop) : figures_fit (portfolio s) ->
  len needed <= MAX_REGISTER_PER_CYCLE -> forallb valid_account needed = true ->
  sim_registered s = ∅ \/ STORAGE_STEP * len (missing (sim_deps s) needed) <= cap ->
  (forall s', prepared needed keep s s' -> Q (Ok tt) s') ->
  SWP (plan_and_execute (P:=P) is_mainnet w (account_id w) needed keep cap 0) s Q.
Proof.
  intros Hf Hlen Hv Hcap HQ. unfold plan_and_execute. apply swp_bind, swp_balance, swp_bind, swp_ok.
  apply swp_bind, swp_deposits; [done|]. apply swp_bind, swp_bounds. set (snap := Build_StorageSnapshot _ _ _).
  destruct (sim_plan s needed keep snap Hlen eq_refl eq_refl eq_refl) as [[He Hp]|[u Hp]].
  - rewrite Hp. apply swp_bind, swp_ok. apply swp_register_all; [done|]. apply HQ.
    split; cbn; [done|done|set_solver|set_solver|]. rewrite He. set_solver.
  - pose proof (fun t => plan_stale_tokens _ _ _ _ _ _ t Hp) as Hsafe. rewrite Hp. apply swp_bind, swp_ok.
    apply swp_bind, swp_unregister_stale; [done|]. cbn [np_to_unregister]. intros s1 (Hp1 & Hd1 & Hsub1 & Hk1).
    apply swp_bind, swp_top_up; cbn [np_initial_deposit np_pre_unregister_estimate np_max_top_up]; [done| |].
    { destruct Hcap as [He|Hcap]; [|done]. exfalso. apply plan_normal_inv in Hp as (Hne & _). apply Hne.
      apply map_len_0. cbn [deposits snap]. by rewrite sim_deps_len, He, size_empty. }
    assert (Hstay : forall t, t ∈ sim_registered s -> t ∈ keep \/ t ∈ needed \/ sim_amount s t <> 0 -> t ∈ sim_registered s1).
    { intros t Ht Hor. apply Hk1; [done|]. intros Hu. destruct (Hsafe t Hu) as (H0' & Hnk & Hnn).
      cbn [deposits snap] in H0'. rewrite sim_deps_lookup, decide_True in H0' by done. injection H0' as H0'. tauto. }
    apply swp_register_all.
    { cbn [np_to_register]. apply forallb_forall. intros t Ht%list_elem_of_In. apply elem_of_bfilter in Ht as [Ht _].
      by apply (proj1 (forallb_forall _ _) Hv), list_elem_of_In. }
    apply HQ. cbn [np_to_register]. split; cbn; [done|done| | |].
    + intros t Ht. apply elem_of_union. destruct (decide (t ∈ sim_registered s)) as [Hin|Hin]; [right; auto|left].
      apply elem_of_list_to_set, elem_of_bfilter. split; [done|]. unfold registered.
      by rewrite bool_decide_eq_false_2; [|rewrite sim_deps_Some].
    + intros t [Ht|Ht]%elem_of_union; [right|left; set_solver].
      by apply elem_of_list_to_set, elem_of_bfilter in Ht as [? _].
    + intros t Ht Hor. apply elem_of_union_r, Hstay; [done|tauto].
Qed.
End exchange.

Section theorems.
Context (P D : Type) `{BigDecimalLaws D} `{!Rows P D} `{!ToVec P}.
Context `{!FromSlice P (option StorageBalance)} `{!FromSlice P StorageBalanceBounds} `{!FromSlice P (gmap TokenAccount N)}.
Context `{!ExchangeCodec P}.
Context (valid_account : string -> bool) (is_mainnet : bool) (initial_native : YoctoValue D) (w : Wallet).

(** C28: In the simulation the storage of the exchange is prepared without fail,
    where the figures of the account fit 128 bits: for at most a hundred valid tokens, on a fresh account whatever the cap on
    top-ups, and otherwise when the cap covers 0.001375 NEAR for each token that is
    not registered yet, the session ends with success; the account is untouched,
    every needed token is registered, nothing else was added, and no token with a
    balance or to be kept was given back. *)
Theorem simulated_storage_ready needed keep cap (s : SimState D) t o :
  figures_fit (portfolio s) -> len needed <= MAX_REGISTER_PER_CYCLE -> forallb valid_account needed = true ->
  sim_registered s = ∅ \/ STORAGE_STEP * len (missing (sim_deps is_mainnet s) needed) <= cap ->
  run (simulate (P:=P) valid_account is_mainnet initial_native
         (ensure_ref_storage_setup is_mainnet w needed keep cap) s) t o ->
  exists s', o = Ok (Ok tt, s') /\ prepared is_mainnet needed keep s s'.
Proof.
  intros Hf Hlen Hv Hcap Hr.
  enough (Hs : swp (P:=P) valid_account is_mainnet initial_native
    (ensure_ref_storage_setup is_mainnet w needed keep cap) s (fun x s' => x = Ok tt /\ prepared is_mainnet needed keep s s')).
  { destruct (Hs _ _ Hr) as (x & s' & -> & -> & Hp). eauto. }
  unfold ensure_ref_storage_setup. rewrite (proj2 (N.ltb_ge _ _)) by done.
  eapply swp_forward; [reflexivity|]. intros []. apply swp_finally, swp_bind. unfold initial_registration.
  apply swp_bind, swp_balance. apply swp_ok. apply swp_plan_and_execute; [done..|].
  intros s' Hs'. split; [done|]. eapply swp_forward; [reflexivity|]. intros []. by apply swp_ok.
Qed.
End theorems.

(** ** A concrete account *)
#[global] Instance cell_codec : ExchangeCodec cell.
Proof.
  split; [|done|done]. intros l Hnd Hl. unfold from_slice, cell_deposits, to_vec, cell_vec, cell_of_json.
  assert (Hm : mapM (fun p : string * json => pair p.1 <$> text_amount p.2)
    ((fun p : string * N => (p.1, JStr (pretty p.2))) <$> l) = Some l).
  { clear Hnd. induction Hl as [|[k n] l Hn _ IH]; [done|]. cbn [fmap list_fmap mapM]. cbn in Hn |- *.
    rewrite parse_pretty by done. cbn. by rewrite IH. }
  rewrite Hm. enough (forallb (fun e => e.2 <=? U128_MAX) (map_to_list (list_to_map l : gmap TokenAccount N)) = true) as ->;
    [done|].
  apply forallb_forall. intros [k n] Hin%list_elem_of_In. apply elem_of_map_to_list, elem_of_list_to_map_2 in Hin.
  rewrite list.Forall_forall in Hl. by apply N.leb_le, (Hl _ Hin).
Qed.

Definition sim_account : PortfolioState Q :=
  mkPortfolio (from_yocto (inject_Z (10 ^ 25))) {[ "usdt" := mkTokenAmount (inject_Z 5000000) 6 ]} [] []
    {[ "usdt" := from_yocto (inject_Z (2 * 10 ^ 24)) ]} 0 ∅ [].
Definition sim_state : SimState Q := mkSimState sim_account {[ "wrap.near"; "usdt"; "old" ]} (3600 * 10 ^ 9)%Z.
Definition sim_needed : list TokenAccount := ["usdt"; "dust"].
Definition sim_session := interp desk_answer
  (simulate (P:=cell) (fun _ => true) true (from_yocto (inject_Z (10 ^ 25)))
     (ensure_ref_storage_setup true simulation_wallet sim_needed ["wrap.near"] STORAGE_STEP) sim_state) tt.

(** The stale token is given back, the missing one is registered. *)
Example sim_session_end : match sim_session.1.1 with
  | Ok (Ok tt, s') => bool_decide (sim_registered s' = {[ "wrap.near"; "usdt"; "dust" ]}) | _ => false end = true.
Proof. vm_compute. reflexivity. Qed.

Lemma simulated_storage_ready_witness : exists s', sim_session.1.1 = Ok (Ok tt, s') /\
  prepared true sim_needed ["wrap.near"] sim_state s'.
Proof.
  apply (simulated_storage_ready cell Q (fun _ => true) true (from_yocto (inject_Z (10 ^ 25))) simulation_wallet sim_needed
    ["wrap.near"] STORAGE_STEP sim_state sim_session.1.2).
  - split; [split; vm_compute; discriminate|]. intros t a Ht. unfold sim_state, sim_account in Ht. cbn [portfolio holdings] in Ht.
    apply lookup_singleton_Some in Ht as [_ <-]. split; vm_compute; discriminate.
  - vm_compute. discriminate.
  - reflexivity.
  - right. vm_compute. discriminate.
  - apply interp_run.
Defined.
