(* ===== verification/SimReport.v ===== *)
(** * SimReport: the report of a backtest

    [crates/simulate/src/output.rs]: the performance figures of a simulated
    portfolio, computed in [f64] from its snapshots, and the entries of the report
    file; and the parameters of a run ([cli.rs]).  The text of times and of
    decimals is a parameter; writing the file is left out. *)

From Stdlib Require Import QArith SpecFloat.
From stdpp Require Import pretty.
From S2P Require Import Prelude NearClient F64 Vectors F64Order BigDecimal Units Portfolio.
Local Open Scope N_scope.

(** [RunArgs], less the paths of files. *)
Record RunArgs := mkRunArgs {
  start_date : string;
  end_date : string;
  initial_capital : f64;
  top_tokens : N;
  price_history_days : Z;
  rebalance_threshold : f64;
  rebalance_interval_days : Z;
  generate_predictions : bool;
}.

(** [to_rfc3339] of chrono, and [Display] of the crate's decimals. *)
Class ReportText (D : Type) := {
  rfc3339 : NaiveDateTime -> string;
  bd_to_string : D -> string;
}.

Definition f64_gtb (x y : f64) : bool := f64_ltb y x.

Record SwapStats := mkSwapStats {
  total_swaps : N;
  pool_based_swaps : N;
  fallback_swaps : N;
  fallback_rate : f64;
}.
Record PerformanceMetrics := mkPerformance {
  total_return : f64;
  sharpe_ratio : f64;
  sortino_ratio : f64;
  max_drawdown : f64;
  win_rate : f64;
  final_balance_near : f64;
  total_realized_pnl_near : f64;
  trade_count : N;
  liquidation_count : N;
  perf_swap_stats : SwapStats;
}.
Record TradeEntry := mkTradeEntry {
  te_timestamp : string;
  te_action : TradeAction;
  te_token : string;
  te_amount : N;
  te_price : f64;
  te_realized_pnl : option f64;
}.
Record SwapEventEntry := mkSwapEventEntry {
  se_timestamp : string;
  se_token_in : string;
  se_amount_in : string;
  se_amount_in_raw : N;
  se_token_out : string;
  se_amount_out : string;
  se_amount_out_raw : N;
  se_swap_method : SwapMethod;
  se_pool_ids : list N;
}.
Record PortfolioValueEntry := mkPortfolioValueEntry {
  pv_timestamp : string;
  pv_total_value : f64;
  pv_holdings : gmap string N;
  pv_cash_balance : f64;
  pv_daily_pnl_near : f64;
  pv_daily_pnl_pct : f64;
  pv_cumulative_realized_pnl_near : f64;
}.
(** The configuration of a result are the parameters of the run. *)
Record SimulationResult := mkSimulationResult {
  sr_config : RunArgs;
  sr_performance : PerformanceMetrics;
  sr_trades : list TradeEntry;
  sr_swap_events : list SwapEventEntry;
  sr_portfolio_values : list PortfolioValueEntry;
}.

(** ** Figures over the values of the snapshots *)
Fixpoint period_returns (prev_value : f64) (values : list f64) : list f64 :=
  match values with
  | [] => []
  | v :: values =>
      if f64_gtb prev_value f64_zero then f64_div (f64_sub v prev_value) prev_value :: period_returns v values
      else period_returns v values
  end.

(** A ratio of the mean to a deviation, annualised. *)
Definition annualized (mean deviation : f64) (interval_days : Z) : f64 :=
  if f64_eqb deviation f64_zero then f64_zero
  else
    let periods_per_year := f64_div (f64_of_Z 365) (f64_of_Z interval_days) in
    f64_mul (f64_div mean deviation) (f64_sqrt periods_per_year).

Definition calculate_sharpe_ratio (returns : list f64) (interval_days : Z) : f64 :=
  if Nat.ltb (length returns) 2 then f64_zero
  else
    let mean := f64_div (f64_sum returns) (f64_of_nat (length returns)) in
    let variance := f64_div (f64_sum ((fun r => f64_sq (f64_sub r mean)) <$> returns))
                            (f64_of_nat (length returns - 1)) in
    annualized mean (f64_sqrt variance) interval_days.

Definition calculate_sortino_ratio (returns : list f64) (interval_days : Z) : f64 :=
  if Nat.ltb (length returns) 2 then f64_zero
  else
    let mean := f64_div (f64_sum returns) (f64_of_nat (length returns)) in
    let downside_variance := f64_div (f64_sum (f64_sq <$> bfilter (fun r => f64_ltb r f64_zero) returns))
                                     (f64_of_nat (length returns)) in
    annualized mean (f64_sqrt downside_variance) interval_days.

Fixpoint drawdown_from (peak max_dd : f64) (values : list f64) : f64 :=
  match values with
  | [] => max_dd
  | v :: values =>
      let peak := if f64_gtb v peak then v else peak in
      let max_dd :=
        if f64_gtb peak f64_zero then
          let drawdown := f64_div (f64_sub peak v) peak in
          if f64_gtb drawdown max_dd then drawdown else max_dd
        else max_dd in
      drawdown_from peak max_dd values
  end.
Definition calculate_max_drawdown (values : list f64) : f64 :=
  match values with
  | [] => f64_zero
  | v :: _ => drawdown_from v f64_zero values
  end.

Section report.
Context {D : Type} `{BigDecimal D} `{!ReportText D}.

Definition method_is (m : SwapMethod) (e : SwapEvent (D:=D)) : bool :=
  match m, event_swap_method e with PoolBased, PoolBased | DbRate, DbRate => true | _, _ => false end.
Definition SwapStats_from_events (events : list (SwapEvent (D:=D))) : SwapStats :=
  let total := len events in
  let fallback := len (bfilter (method_is DbRate) events) in
  mkSwapStats total (len (bfilter (method_is PoolBased) events)) fallback
    (if 0 <? total then f64_div (f64_of_N fallback) (f64_of_N total) else f64_zero).

Definition calculate_performance (capital : f64) (snaps : list (PortfolioSnapshot (D:=D))) (pnl : Z)
    (trade_count liquidation_count : N) (interval_days : Z) (swap_stats : SwapStats) : PerformanceMetrics :=
  match list.last snaps with
  | None => mkPerformance f64_zero f64_zero f64_zero f64_zero f64_zero capital (pnl_to_near pnl) trade_count
              liquidation_count swap_stats
  | Some l =>
      let values := snap_total_value_near <$> snaps in
      let final_value := snap_total_value_near l in
      let total_return := if f64_gtb capital f64_zero then f64_div (f64_sub final_value capital) capital else f64_zero in
      let returns := period_returns capital values in
      let winning := len (bfilter (fun r => f64_gtb r f64_zero) returns) in
      mkPerformance total_return (calculate_sharpe_ratio returns interval_days)
        (calculate_sortino_ratio returns interval_days) (calculate_max_drawdown values)
        (if len returns =? 0 then f64_zero else f64_div (f64_of_N winning) (f64_of_N (len returns)))
        final_value (pnl_to_near pnl) trade_count liquidation_count swap_stats
  end.

(** [Display] of a token amount. *)
Definition token_amount_to_string (a : TokenAmount D) : string :=
  bd_to_string (to_whole a) +:+ " (decimals=" +:+ pretty (amount_decimals a) +:+ ")".

Definition trade_entry (t : TradeRecord (D:=D)) : TradeEntry :=
  mkTradeEntry (rfc3339 (trade_timestamp t)) (trade_action t) (trade_token t)
    (to_u128_or_warn (smallest_units (trade_amount t))) (trade_price_near t) (trade_realized_pnl_near t).
Definition swap_event_entry (e : SwapEvent (D:=D)) : SwapEventEntry :=
  mkSwapEventEntry (rfc3339 (event_timestamp e)) (event_token_in e) (token_amount_to_string (event_amount_in e))
    (to_u128_or_warn (smallest_units (event_amount_in e))) (event_token_out e)
    (token_amount_to_string (event_amount_out e)) (to_u128_or_warn (smallest_units (event_amount_out e)))
    (event_swap_method e) (event_pool_ids e).
Fixpoint portfolio_value_entries (prev_value : f64) (snaps : list (PortfolioSnapshot (D:=D)))
    : list PortfolioValueEntry :=
  match snaps with
  | [] => []
  | s :: snaps =>
      let daily_pnl_near := f64_sub (snap_total_value_near s) prev_value in
      let daily_pnl_pct := if f64_gtb prev_value f64_zero then f64_div daily_pnl_near prev_value else f64_zero in
      mkPortfolioValueEntry (rfc3339 (snap_timestamp s)) (snap_total_value_near s)
        ((fun a => to_u128_or_warn (smallest_units a)) <$> snap_holdings s)
        (f64_div (to_f64_or_warn (yocto_value_bd (snap_cash_balance s))) (f64_of_Z (10 ^ 24)))
        daily_pnl_near daily_pnl_pct (snap_realized_pnl_near s)
      :: portfolio_value_entries (snap_total_value_near s) snaps
  end.

Definition is_liquidation (t : TradeRecord (D:=D)) : bool :=
  match trade_action t with Liquidation => true | _ => false end.
Definition from_state (cli : RunArgs) (s : PortfolioState D) : SimulationResult :=
  let trade_count := len (bfilter (fun t => negb (is_liquidation t)) (trades s)) in
  let liquidation_count := len (bfilter is_liquidation (trades s)) in
  mkSimulationResult cli
    (calculate_performance (initial_capital cli) (snapshots s) (realized_pnl s) trade_count liquidation_count
       (rebalance_interval_days cli) (SwapStats_from_events (swap_events s)))
    (trade_entry <$> trades s) (swap_event_entry <$> swap_events s)
    (portfolio_value_entries (initial_capital cli) (snapshots s)).
End report.

(** * The counts *)
Section counts.
Context {D : Type} `{BigDecimal D} `{!ReportText D}.

Lemma len_split {A} (f g : A -> bool) l : (forall x, g x = negb (f x)) -> len (bfilter f l) + len (bfilter g l) = len l.
Proof.
  intros Hg. unfold len, bfilter. induction l as [|x l IH]; [done|]. cbn. rewrite (Hg x).
  destruct (f x); cbn [negb length]; lia.
Qed.
Lemma len_all {A} (f : A -> bool) (l : list A) : Forall (fun x => f x = true) l ->
  len (bfilter f l) = len l /\ len (bfilter (fun x => negb (f x)) l) = 0.
Proof.
  intros Hl. pose proof (len_split f (fun x => negb (f x)) l (fun _ => eq_refl)) as Hs.
  enough (E : bfilter f l = l) by (rewrite E in *; split; [done|lia]). clear -Hl. unfold bfilter. induction Hl as [|x l Hx _ IH]; [done|].
  cbn. by rewrite Hx, IH.
Qed.

Lemma performance_counts capital snaps pnl tc lc days st :
  let p := calculate_performance (D:=D) capital snaps pnl tc lc days st in
  trade_count p = tc /\ liquidation_count p = lc /\ perf_swap_stats p = st.
Proof. unfold calculate_performance. by destruct (list.last snaps). Qed.

(** The counts of a report over an account that has only been liquidated. *)
Lemma report_counts cli (s : PortfolioState D) : Forall (fun r => trade_action r = Liquidation) (trades s) ->
  let r := from_state cli s in
  trade_count (sr_performance r) = 0 /\ liquidation_count (sr_performance r) = len (sr_trades r) /\
  let st := perf_swap_stats (sr_performance r) in
  total_swaps st = len (sr_swap_events r) /\ total_swaps st = pool_based_swaps st + fallback_swaps st.
Proof.
  intros Hall. unfold from_state. cbn zeta. cbn [sr_performance sr_trades sr_swap_events].
  destruct (performance_counts (initial_capital cli) (snapshots s) (realized_pnl s)
    (len (bfilter (fun t => negb (is_liquidation t)) (trades s))) (len (bfilter is_liquidation (trades s)))
    (rebalance_interval_days cli) (SwapStats_from_events (swap_events s))) as (-> & -> & ->).
  destruct (len_all is_liquidation (trades s)) as [-> ->].
  { eapply List.Forall_impl; [|exact Hall]. intros r Hr. unfold is_liquidation. by rewrite Hr. }
  unfold len. rewrite !length_fmap. repeat split. unfold SwapStats_from_events. cbn.
  rewrite <- (len_split (method_is PoolBased) (method_is DbRate) (swap_events s)); [done|].
  intros e. unfold method_is. by destruct (event_swap_method e).
Qed.
End counts.

(** * The worst drawdown *)

Definition drawdown (peak v : f64) : f64 := f64_div (f64_sub peak v) peak.

(** [p] is a highest value up to and including position [j]. *)
Definition peak_at (values : list f64) (j : nat) (p : f64) : Prop :=
  (exists i, (i <= j)%nat /\ values !! i = Some p) /\
  forall k u, (k <= j)%nat -> values !! k = Some u -> f64_ltb p u = false.
(** [dd] is at least the drawdown at [j], and is the drawdown somewhere. *)
Definition covers (values : list f64) (dd : f64) : Prop := forall j v, values !! j = Some v ->
  exists p, peak_at values j p /\ (f64_ltb f64_zero p = true -> f64_ltb dd (drawdown p v) = false).
Definition attained (values : list f64) (dd : f64) : Prop := dd = f64_zero \/
  exists j v p, values !! j = Some v /\ peak_at values j p /\ f64_ltb f64_zero p = true /\ dd = drawdown p v.

Lemma peak_at_app pre post j p : (j < length pre)%nat -> peak_at pre j p -> peak_at (pre ++ post) j p.
Proof.
  intros Hj [(i & Hi & Hp) Hall]. split.
  - exists i. split; [done|]. by apply lookup_app_l_Some.
  - intros k u Hk Hu. apply (Hall k u Hk). by rewrite lookup_app_l in Hu by lia.
Qed.

Lemma drawdown_step pre v peak dd : (exists i, (pre ++ [v]) !! i = Some peak) -> (forall u, u ∈ pre -> f64_ltb peak u = false) ->
  covers pre dd -> attained pre dd ->
  let peak' := if f64_gtb v peak then v else peak in
  let dd' := if f64_gtb peak' f64_zero then
               if f64_gtb (drawdown peak' v) dd then drawdown peak' v else dd
             else dd in
  (exists i, (pre ++ [v]) !! i = Some peak') /\ (forall u, u ∈ pre ++ [v] -> f64_ltb peak' u = false) /\
  covers (pre ++ [v]) dd' /\ attained (pre ++ [v]) dd'.
Proof.
  intros Hin Hmax Hc Ha peak' dd'. unfold f64_gtb in *.
  assert (Hlast : (pre ++ [v]) !! length pre = Some v) by (by rewrite lookup_app_r, Nat.sub_diag by lia).
  assert (Hin' : exists i, (pre ++ [v]) !! i = Some peak') by (unfold peak'; case_match; eauto).
  assert (Hmax' : forall u, u ∈ pre ++ [v] -> f64_ltb peak' u = false).
  { intros u [Hu|Hu%list_elem_of_singleton]%elem_of_app; unfold peak'; destruct (f64_ltb peak v) eqn:Ev; subst.
    - destruct (f64_ltb v u) eqn:E; [|done]. pose proof (f64_ltb_trans _ _ _ Ev E). by rewrite Hmax in *.
    - by apply Hmax.
    - apply f64_ltb_irrefl.
    - done. }
  assert (Hpk : peak_at (pre ++ [v]) (length pre) peak').
  { destruct Hin' as [i Hi]. split.
    - exists i. split; [|done]. apply lookup_lt_Some in Hi. rewrite length_app in Hi. cbn in Hi. lia.
    - intros k u _ Hu. apply Hmax'. by eapply list_elem_of_lookup_2. }
  assert (Hgrow : forall c, f64_ltb dd c = false -> f64_ltb dd' c = false).
  { intros c Hdc. unfold dd'. repeat case_match; try done. destruct (f64_ltb (drawdown peak' v) c) eqn:E; [|done].
    match goal with Hd : f64_ltb dd (drawdown peak' v) = true |- _ => pose proof (f64_ltb_trans _ _ _ Hd E) end. congruence. }
  split; [done|]. split; [done|]. split.
  - intros j u Hj. apply lookup_app_Some in Hj as [Hj|[Hj1 Hj2]].
    + destruct (Hc j u Hj) as (p & Hp & Hd). exists p. split; [apply peak_at_app; [by eapply lookup_lt_Some|done]|auto].
    + destruct (j - length pre)%nat as [|n] eqn:En; [|by destruct n]. injection Hj2 as <-.
      replace j with (length pre) by lia. exists peak'. split; [done|]. intros Hpos. unfold dd'. rewrite Hpos.
      destruct (f64_ltb dd (drawdown peak' v)) eqn:E; [apply f64_ltb_irrefl|done].
  - assert (Hold : attained (pre ++ [v]) dd).
    { destruct Ha as [->|(j & u & p & Hj & Hp & Hpos & ->)]; [by left|right]. exists j, u, p.
      split; [by apply lookup_app_l_Some|]. split; [apply peak_at_app; [by eapply lookup_lt_Some|done]|done]. }
    unfold dd'. destruct (f64_ltb f64_zero peak') eqn:Hpos; [|done]. destruct (f64_ltb dd _); [|done].
    right. exists (length pre), v, peak'. done.
Qed.

Lemma drawdown_from_spec values : forall pre peak dd,
  (forall v, head values = Some v -> exists i, (pre ++ [v]) !! i = Some peak) ->
  (pre <> [] -> exists i, pre !! i = Some peak) -> (forall u, u ∈ pre -> f64_ltb peak u = false) ->
  covers pre dd -> attained pre dd ->
  covers (pre ++ values) (drawdown_from peak dd values) /\ attained (pre ++ values) (drawdown_from peak dd values).
Proof.
  induction values as [|v values IH]; intros pre peak dd Hin Hin0 Hmax Hc Ha; [by rewrite app_nil_r|].
  cbn [drawdown_from]. replace (pre ++ v :: values) with ((pre ++ [v]) ++ values) by (by rewrite <- app_assoc).
  destruct (drawdown_step pre v peak dd (Hin v eq_refl) Hmax Hc Ha) as (Hi & Hm & Hc' & Ha').
  apply IH; [|done..]. intros w _. destruct Hi as [i Hi]. exists i. by apply lookup_app_l_Some.
Qed.

(** C21: The reported drawdown is the worst one: at every snapshot the fall from
    the highest value so far is no more than the reported figure, whenever that
    value is positive; and the figure is zero or the fall at some snapshot.  This
    holds of the [f64] figures as computed, NaN included. *)
Theorem max_drawdown_is_worst values :
  covers values (calculate_max_drawdown values) /\ attained values (calculate_max_drawdown values).
Proof.
  destruct values as [|v values]; [split; [by intros j v Hj|by left]|].
  apply (drawdown_from_spec (v :: values) []); [|done|..].
  - intros w [= <-]. by exists O.
  - intros u Hu. by apply elem_of_nil in Hu.
  - by intros j u Hj.
  - by left.
Qed.
