(* ===== verification/Backtest.v ===== *)
(** * Backtest: the engine of the simulation

    [crates/simulate/src/engine.rs] runs the trader day by day against the
    simulated client, sells what is left and builds the report; [prediction.rs]
    generates the predictions of the period; the parsing of the dates is that of
    [cli.rs], and the rate source of the portfolio ([DbRateProvider]) is the
    database.  A date
    is its midnight.  The loops take fuel and answer [None] when it runs out; the
    theorems say how much is enough.  The parsing of dates is a parameter; files,
    log output and printing are left out. *)

From Stdlib Require Import QArith SpecFloat.
From S2P Require Import Prelude F64 Config NearClient StoragePlanner Storage Vectors BigDecimal Units Dex Swap Balances.
From S2P Require Import Slippage Harvest Records Matching TradeSwap Execution Periods Graph Pools TokenCache Optimizer.
From S2P Require Import Market Predict Accuracy Strategy GraphPaths OptimizerReport StrategyFacts Trader.
From S2P Require Import Portfolio SimClient SimReport.
Local Open Scope N_scope.

(** [NaiveDate::parse_from_str] with the format [%Y-%m-%d]. *)
Class DateText := parse_naive_date : string -> option NaiveDateTime.

(** ** Configuration *)
Section config.
Context `{Formats} (valid_account : string -> bool).

(** What [ConfigResolver] answers, with the store, the table and the environment. *)
Definition strategy_config (c : Sources) : StrategyConfig :=
  mkStrategyConfig
    (mkTradeConfig
       (mkBalancesConfig (resolve c Config.trade_account_reserve * 10 ^ 24) (resolve c Config.harvest_interval_seconds)
          (resolve c Config.harvest_balance_multiplier)
          (resolve c Config.harvest_account_id ≫= (fun a => if valid_account a then Some a else None)))
       (mkHarvestConfig (resolve c Config.harvest_account_id) (resolve c Config.harvest_min_amount)
          (resolve c Config.harvest_reserve_amount) (resolve c Config.harvest_interval_seconds))
       (resolve c Config.ref_storage_max_top_up_yoctonear) (resolve c Config.trade_evaluation_days)
       (resolve c Config.trade_enabled) (resolve c Config.trade_unwrap_on_stop)
       (resolve c Config.evaluation_periods_retention_days))
    (mkMarketConfig (resolve c Config.liquidity_volume_weight) (resolve c Config.liquidity_pool_weight)
       (resolve c Config.liquidity_error_default_score) (resolve c Config.trade_min_pool_liquidity))
    (mkAccuracyConfig (resolve c Config.prediction_record_retention_days)
       (resolve c Config.prediction_unevaluated_retention_days) (resolve c Config.prediction_eval_tolerance_minutes)
       (resolve c Config.prediction_accuracy_window) (resolve c Config.prediction_accuracy_min_samples)
       (resolve c Config.prediction_mape_excellent) (resolve c Config.prediction_mape_poor))
    (resolve c Config.trade_initial_investment) (resolve c Config.trade_top_tokens)
    (resolve c Config.trade_price_history_days) (resolve c Config.trade_prediction_concurrency)
    (resolve c Config.trade_prediction_chunk_size) (resolve c Config.trade_prediction_max_retries)
    (resolve c Config.trade_prediction_retry_delay_seconds) (resolve c Config.trade_prediction_model_threads)
    (resolve c Config.trade_min_token_confidence) (resolve c Config.portfolio_rebalance_threshold).

Definition apply_config (cli : RunArgs) (c : Sources) : Sources :=
  let c := Config.set c "TRADE_TOP_TOKENS" (display_string TUsize (top_tokens cli)) in
  let c := Config.set c "TRADE_PRICE_HISTORY_DAYS" (display_string TI64 (price_history_days cli)) in
  let c := Config.set c "PORTFOLIO_REBALANCE_THRESHOLD" (display_string TF64 (rebalance_threshold cli)) in
  let c := Config.set c "TRADE_INITIAL_INVESTMENT" (display_string TF64 (initial_capital cli)) in
  Config.set c "TRADE_ENABLED" "true".
End config.

Definition parse_date `{DateText} (s label : string) : outcome anyhow NaiveDateTime :=
  ok_or (Anyhow ("Invalid " +:+ label) []) (parse_naive_date s).
Definition parse_start_date `{DateText} (cli : RunArgs) : outcome anyhow NaiveDateTime := parse_date (start_date cli) "start-date".
Definition parse_end_date `{DateText} (cli : RunArgs) : outcome anyhow NaiveDateTime := parse_date (end_date cli) "end-date".

(** [date + TimeDelta::days(n)]. *)
Definition plus_days (date : NaiveDateTime) (n : Z) : outcome anyhow NaiveDateTime :=
  let? delta := time_delta_days n in shift_date date delta.

(** [x as i64]. *)
Definition f64_to_i64 (x : f64) : Z :=
  match x with
  | S754_nan | S754_zero _ => 0
  | S754_infinity s => if s then I64_MIN else BigDecimal.I64_MAX
  | S754_finite s m e =>
      let z := if (0 <=? e)%Z then (Z.pos m * 2 ^ e)%Z else (Z.pos m / 2 ^ (- e))%Z in
      if s then Z.max I64_MIN (- z) else Z.min BigDecimal.I64_MAX z
  end.

(** ** Statements of the database *)
Section statements.
Context {P D : Type} `{!Rows P D}.

Definition earliest_fresh_visible_in (since until : NaiveDateTime) : prog P (option NaiveDateTime) :=
  if (until <=? since)%Z then Ret (Ok None) else fetch (H := rows_time (D:=D)) (QEarliestFresh since until).
Definition delete_by_target_time_range (start stop : NaiveDateTime) : prog P Z :=
  if (stop <? start)%Z then Ret (Err (Anyhow "invalid range" []))
  else fetch (H := rows_count (D:=D)) (QDeleteTargets start stop).
End statements.

Section engine.
Context {P G D : Type} `{BigDecimal D} `{!FromF64 D} `{!DecimalText D} `{!Rows P D} `{!PredictionRows P D}.
Context `{!Forecasts P D} `{Petgraph G} `{HashOrder} `{PathFinder} `{Numerics} `{Logarithm} `{NewPredictor}.
Context `{CompletionOrder} `{Formats} `{DateText} `{!ReportText D} `{!ToVec P}.
Context `{!FromSlice P (option StorageBalance)} `{!FromSlice P (gmap TokenAccount N)}.
Context `{!FromSlice P StorageBalanceBounds} `{!FromSlice P TokenMetadata} `{!FromSlice P JsonValue}.
Context `{!FromSlice P N}.
Context (valid_account : string -> bool).
Context (sort_sells : list (SellOperation D) -> list (SellOperation D)).
Context (sort_buys : list (BuyOperation D) -> list (BuyOperation D)).
Context (is_mainnet : bool).

(** The cache of decimals is replaced by what the database knows. *)
Definition load_decimals : prog P unit :=
  let! m := get_all_decimals (D:=D) valid_account in
  Op (RReplaceDecimals (btree_iter m)) (fun _ => Ret (Ok tt)).

(** ** The portfolio with the rates of the database *)
Fixpoint db_liquidate_each (day : NaiveDateTime) (s : PortfolioState D) (l : list (TokenAccount * TokenAmount D))
    : prog P (PortfolioState D) :=
  match l with
  | [] => Ret (Ok s)
  | (t, a) :: l =>
      let! rate := get_rate_at_date valid_account is_mainnet t day in
      let! s := lift (liquidate_one (fun _ => rate) day s t a) in
      db_liquidate_each day s l
  end.
Definition db_liquidate_all (day : NaiveDateTime) (s : PortfolioState D) : prog P (PortfolioState D) :=
  db_liquidate_each day s (bfilter (fun p => negb (token_amount_is_zero p.2)) (btree_iter (holdings s))).

Fixpoint db_total_value (day : NaiveDateTime) (total : f64) (l : list (TokenAccount * TokenAmount D)) : prog P f64 :=
  match l with
  | [] => Ret (Ok total)
  | (t, a) :: l =>
      if token_amount_is_zero a then db_total_value day total l
      else
        let! rate := get_rate_at_date valid_account is_mainnet t day in
        let! total := lift (total_value_from (fun _ => rate) total [(t, a)]) in
        db_total_value day total l
  end.
Definition db_record_snapshot (day : NaiveDateTime) (s : PortfolioState D) : prog P (PortfolioState D) :=
  let! total_value := db_total_value day
    (f64_div (to_f64_or_warn (yocto_value_bd (cash_balance s))) (f64_of_Z (10 ^ 24))) (btree_iter (holdings s)) in
  Ret (Ok (push_snapshot s (mkSnapshot day total_value (holdings s) (cash_balance s) (pnl_to_near (realized_pnl s))))).

(** ** Predictions for the period *)
Fixpoint generate_days (cfg : StrategyConfig) (fuel : nat) (stop current_date : NaiveDateTime) (success_count fail_count : N)
    : prog P (option (N * N)) :=
  match fuel with
  | O => Ret (Ok None)
  | S fuel =>
      if (current_date <=? stop)%Z then
        let! _ := attempt (evaluate_predictions_as_of (D:=D) valid_account (sc_accuracy cfg) current_date) in
        let! generated := attempt (run_prediction_cycle (G:=G) (D:=D) valid_account is_mainnet cfg current_date) in
        let! next := lift (plus_days current_date 1) in
        match generated with
        | inl _ => generate_days cfg fuel stop next (success_count + 1) fail_count
        | inr _ => generate_days cfg fuel stop next success_count (fail_count + 1)
        end
      else Ret (Ok (Some (success_count, fail_count)))
  end.

(** [None] when the fuel of the loop runs out. *)
Definition generate_predictions_for_range (cfg : StrategyConfig) (fuel : nat) (start stop : NaiveDateTime)
    : prog P (option unit) :=
  if (stop <? start)%Z then Ret (Err (Anyhow "invalid date range" []))
  else
    let! buffer := lift (time_delta_hours (Z.of_N PREDICTION_HORIZON_HOURS)) in
    let! end_naive := lift (shift_date stop buffer) in
    let! _ := delete_by_target_time_range (D:=D) start end_naive in
    let! counts := generate_days cfg fuel stop start 0 0 in
    match counts with
    | None => Ret (Ok None)
    | Some (success_count, fail_count) =>
        let! next := lift (plus_days stop 1) in
        let! final_eval_day := lift (shift_date next buffer) in
        let! _ := attempt (evaluate_predictions_as_of (D:=D) valid_account (sc_accuracy cfg) final_eval_day) in
        if success_count =? 0 then Ret (Err (Anyhow "all prediction generation days failed" [fail_count]))
        else Ret (Ok (Some tt))
    end.

(** ** The engine *)

(** Initial capital in yoctoNEAR. *)
Definition capital_yocto (cli : RunArgs) : YoctoValue D :=
  let capital := match bd_from_str (show_f64 (initial_capital cli)) with
                 | Some d => d
                 | None => bd_of_Z (f64_to_i64 (initial_capital cli))
                 end in
  from_yocto (bd_mul capital (bd_of_N (10 ^ 24))).

(** The trading of one day, at the moment the first prediction was visible.  A
    cycle that fails is only logged. *)
Definition trade_day (cfg : StrategyConfig) (native : YoctoValue D) (day : NaiveDateTime) (s : SimState D)
    : prog P (SimState D) :=
  let! cycle := simulate valid_account is_mainnet native
    (strategy_start (G:=G) (D:=D) valid_account show_sent_tx sort_sells sort_buys is_mainnet simulation_wallet cfg day)
    (set_sim_day s day) in
  let! snapshot := attempt (db_record_snapshot day (portfolio cycle.2)) in
  Ret (Ok (match snapshot with inl p => set_portfolio cycle.2 p | inr _ => cycle.2 end)).

Fixpoint sim_days (cfg : StrategyConfig) (native : YoctoValue D) (interval : Z) (fuel : nat)
    (stop current_date : NaiveDateTime) (day_count : N) (s : SimState D) : prog P (option (SimState D)) :=
  match fuel with
  | O => Ret (Ok None)
  | S fuel =>
      if (current_date <=? stop)%Z then
        let! day_end := lift (plus_days current_date 1) in
        let! earliest := earliest_fresh_visible_in (D:=D) current_date day_end in
        let! s := match earliest with
                  | None => Ret (Ok s)
                  | Some sim_day => trade_day cfg native sim_day s
                  end in
        let! next := lift (plus_days current_date interval) in
        let! day_count := lift (if day_count <? U32_MAX then Ok (day_count + 1) else Panic) in
        sim_days cfg native interval fuel stop next day_count s
      else Ret (Ok (Some s))
  end.

(** Selling what is left at the end of the last day. *)
Definition close_account (stop : NaiveDateTime) (s : PortfolioState D) : prog P (PortfolioState D) :=
  let end_day := (stop + 86399 * 10 ^ 9)%Z in
  let! sold := attempt (db_liquidate_all end_day s) in
  let s := match sold with inl s => s | inr _ => s end in
  let! snapshot := attempt (db_record_snapshot end_day s) in
  Ret (Ok (match snapshot with inl s => s | inr _ => s end)).

(** [run_simulation] up to its report: the account at the end, with the
    configuration the run leaves behind. *)
Definition backtest (fuel : nat) (cli : RunArgs) (c : Sources) : prog P (option (PortfolioState D)) :=
  let! start := lift (parse_start_date cli) in
  let! stop := lift (parse_end_date cli) in
  if (stop <=? start)%Z then Ret (Err (Anyhow "start-date must be before end-date" []))
  else
    let cfg := strategy_config valid_account (apply_config cli c) in
    let! generated := if generate_predictions cli then generate_predictions_for_range cfg fuel start stop
                      else Ret (Ok (Some tt)) in
    match generated with
    | None => Ret (Ok None)
    | Some _ =>
        let! _ := attempt load_decimals in
        let native := capital_yocto cli in
        let! now := utc_now in
        let! traded := sim_days cfg native (rebalance_interval_days cli) fuel stop start 0
                         (mkSimState (portfolio_new native) ∅ now) in
        match traded with
        | None => Ret (Ok None)
        | Some s => let! p := close_account stop (portfolio s) in Ret (Ok (Some p))
        end
    end.

Definition run_simulation (fuel : nat) (cli : RunArgs) (c : Sources) : prog P (option SimulationResult) :=
  let! p := backtest fuel cli c in Ret (Ok (from_state cli <$> p)).
End engine.

(** * The account over a backtest *)
Section history.
Context {D : Type} `{BigDecimalLaws D} (wnear : TokenAccount).

(** What happens to the account: a recorded swap, the sale of a position at the
    end, a snapshot. *)
Inductive account_step : PortfolioState D -> PortfolioState D -> Prop :=
| step_swap s e s' : replay_event wnear s e = Ok s' -> account_step s s'
| step_liquidate rate day s t a s' : holdings s !! t = Some a -> token_amount_is_zero a = false ->
    liquidate_one (fun _ => rate) day s t a = Ok s' -> account_step s s'
| step_snapshot s snapshot : account_step s (push_snapshot s snapshot).

(** The accounts from the first to the last, each a step after the one before. *)
Inductive account_history (s0 : PortfolioState D) : list (PortfolioState D) -> PortfolioState D -> Prop :=
| history_open : account_history s0 [s0] s0
| history_step h s s' : account_history s0 h s -> account_step s s' -> account_history s0 (h ++ [s']) s'.

(** Some history leads from the one account to the other. *)
Definition becomes (s s' : PortfolioState D) : Prop :=
  forall s0 h, account_history s0 h s -> exists h', account_history s0 (h ++ h') s'.

#[global] Instance becomes_preorder : PreOrder becomes.
Proof.
  split; [intros s s0 h Hh; exists []; by rewrite app_nil_r|]. intros s1 s2 s3 H12 H23 s0 h Hh.
  destruct (H12 s0 h Hh) as [h' Hh']. destruct (H23 s0 _ Hh') as [h'' Hh'']. exists (h' ++ h''). by rewrite app_assoc.
Qed.
Lemma step_becomes s s' : account_step s s' -> becomes s s'.
Proof. intros Hs s0 h Hh. exists [s']. by apply history_step with s. Qed.
Lemma replay_becomes es : forall s s', replay wnear s es = Ok s' -> becomes s s'.
Proof.
  induction es as [|e es IH]; intros s s' E; cbn [replay] in E; [by simplify_eq|]. inv_ok.
  etrans; [by eapply step_becomes, step_swap|]. by apply IH.
Qed.

(** ** What holds of every history *)
Lemma liquidate_trades rates day s t a s' : liquidate_one (D:=D) rates day s t a = Ok s' ->
  swap_events s' = swap_events s /\ (trades s' = trades s \/ exists r, trade_action r = Liquidation /\ trades s' = trades s ++ [r]).
Proof.
  unfold liquidate_one. intros E. inv_ok. destruct (_ =? 0); [by simplify_eq; auto|]. inv_ok. destruct a1 as [x s1].
  apply sell_history in Hstep0 as (He & Ht & _). cbn in *. rewrite He, Ht. split; [done|]. right. eexists. split; [|reflexivity]. reflexivity.
Qed.
Lemma step_trades s s' : account_step s s' ->
  swap_events s `prefix_of` swap_events s' /\ (Forall (fun r => trade_action r = Liquidation) (trades s) ->
    Forall (fun r => trade_action r = Liquidation) (trades s')).
Proof.
  intros [s1 e s2 E|rate day s1 t a s2 _ _ E|s1 snap]; [| |by split; [exists []; rewrite app_nil_r|]].
  - unfold replay_event in E. inv_ok. destruct a as [r s2]. apply swap_history in Hstep as (He & Ht & _). cbn.
    rewrite He, Ht. split; [by exists [e]|done].
  - apply liquidate_trades in E as [-> [->|(r & Hr & ->)]]; split; try done.
    intros Hall. apply Forall_app. by split; [|apply list.Forall_singleton].
Qed.
Lemma history_trades c h s : account_history (portfolio_new c) h s ->
  Forall (fun r => trade_action r = Liquidation) (trades s).
Proof.
  intros Hh. remember (portfolio_new c) as s0 eqn:E0. induction Hh as [|h s s' Hh IH Hs]; [by subst; apply list.Forall_nil|].
  by eapply step_trades, IH.
Qed.

(** No recorded swap of wNEAR for wNEAR. *)
Definition no_round_trip (s : PortfolioState D) : Prop :=
  Forall (fun e => ~ (event_token_in e = wnear /\ event_token_out e = wnear)) (swap_events s).

Lemma history_reachable c capital h s : ints (yocto_value_bd c) capital -> account_history (portfolio_new c) h s ->
  Forall within h -> no_round_trip s -> reachable wnear capital s.
Proof.
  intros Hc Hh. remember (portfolio_new c) as s0 eqn:E0. induction Hh as [|h s s' Hh IH Hs]; intros Hw Hn.
  - subst. by apply reach_new.
  - apply Forall_app in Hw as [Hw Hw']. rewrite list.Forall_singleton in Hw'.
    assert (Hr : reachable wnear capital s).
    { apply IH; [done|]. unfold no_round_trip in *. destruct (proj1 (step_trades _ _ Hs)) as [k Hk]. rewrite Hk in Hn.
      by apply Forall_app in Hn as [Hn _]. }
    destruct Hs as [s1 e s2 E|rate day s1 t a s2 Ht Hz E|s1 snap].
    + unfold replay_event in E. inv_ok. destruct a as [r s2]. apply reach_event.
      eapply reach_swap; [exact Hr| |apply to_u128_or_warn_le|exact Hstep|exact Hw'].
      unfold no_round_trip in Hn. cbn in Hn. rewrite (proj1 (swap_history _ _ _ _ _ _ _ _ _ Hstep)) in Hn.
      apply Forall_app in Hn as [_ Hn]. by rewrite list.Forall_singleton in Hn.
    + by eapply reach_liquidate.
    + by apply reach_snapshot.
Qed.
End history.

Section facts.
Context {P G D : Type} `{BigDecimalLaws D} `{!FromF64 D} `{!DecimalText D} `{!Rows P D} `{!PredictionRows P D}.
Context `{!Forecasts P D} `{Petgraph G} `{HashOrder} `{PathFinder} `{Numerics} `{Logarithm} `{NewPredictor}.
Context `{CompletionOrder} `{Formats} `{DateText} `{!ReportText D} `{!ToVec P}.
Context `{!FromSlice P (option StorageBalance)} `{!FromSlice P (gmap TokenAccount N)}.
Context `{!FromSlice P StorageBalanceBounds} `{!FromSlice P TokenMetadata} `{!FromSlice P JsonValue}.
Context `{!FromSlice P N}.
Context (valid_account : string -> bool).
Context (sort_sells : list (SellOperation D) -> list (SellOperation D)).
Context (sort_buys : list (BuyOperation D) -> list (BuyOperation D)).
Context (is_mainnet : bool).
Abbreviation wnear := (WNEAR_TOKEN is_mainnet).
Abbreviation becomes := (becomes wnear).

Lemma snapshot_becomes day s :
  returns (db_record_snapshot (P:=P) (D:=D) valid_account is_mainnet day s) (fun s' => becomes s s').
Proof. apply returns_then. intros v. apply returns_ok, step_becomes, step_snapshot. Qed.

Lemma liquidate_each_becomes day l : forall s, NoDup l.*1 ->
  (forall t a, (t, a) ∈ l -> holdings s !! t = Some a /\ token_amount_is_zero a = false) ->
  returns (db_liquidate_each (P:=P) (D:=D) valid_account is_mainnet day s l) (fun s' => becomes s s').
Proof.
  induction l as [|[t a] l IH]; intros s Hnd Hl; cbn [db_liquidate_each]; [by apply returns_ok|].
  cbn in Hnd. apply list.NoDup_cons in Hnd as [Ht Hnd]. destruct (Hl t a) as [Ha Hz]; [apply list_elem_of_here|].
  apply returns_then. intros rate. apply returns_bind, returns_ret. intros s1 E.
  eapply returns_mono; [apply IH; [done|]|].
  - intros u b Hin. destruct (Hl u b) as [Hb Hbz]; [by apply list_elem_of_further|]. split; [|done].
    destruct (liquidate_one_holdings _ _ _ _ _ _ E) as [[_ ->]| ->]; [done|]. rewrite lookup_delete_ne; [done|].
    intros ->. apply Ht. apply list_elem_of_fmap. by exists (u, b).
  - intros s2 Hs2. etrans; [|exact Hs2]. by eapply step_becomes, step_liquidate.
Qed.
Lemma liquidate_becomes day s :
  returns (db_liquidate_all (P:=P) (D:=D) valid_account is_mainnet day s) (fun s' => becomes s s').
Proof.
  apply liquidate_each_becomes.
  - eapply sublist_NoDup; [apply (btree_iter_NoDup_keys (holdings s))|]. apply fmap_sublist, sublist_bfilter.
  - intros t a Hin. apply elem_of_bfilter in Hin as [Hin Hz]. apply btree_iter_elem in Hin. split; [done|].
    by apply negb_true_iff in Hz.
Qed.

Lemma attempt_returns {A} (p : prog P A) (R : A -> Prop) : returns p R ->
  returns (attempt p) (fun x => match x with inl a => R a | inr _ => True end).
Proof.
  intros Hp. apply wp_attempt. eapply wp_mono; [exact Hp|]. intros t [a|e|] Ha; [|by intros ? [= <-]|done].
  intros x [= <-]. by apply Ha.
Qed.

Lemma close_becomes stop s :
  returns (close_account (P:=P) (D:=D) valid_account is_mainnet stop s) (fun s' => becomes s s').
Proof.
  apply returns_bind. eapply returns_mono; [apply attempt_returns, liquidate_becomes|]. intros sold Hsold.
  set (s1 := match sold with inl s' => s' | inr _ => s end). assert (Hs1 : becomes s s1) by (unfold s1; by destruct sold).
  apply returns_bind. eapply returns_mono; [apply attempt_returns, snapshot_becomes|].
  intros [s2|e] Hs2; apply returns_ok; [by etrans|done].
Qed.

Lemma trade_day_becomes cfg native day s :
  returns (trade_day (P:=P) (G:=G) (D:=D) valid_account sort_sells sort_buys is_mainnet cfg native day s)
    (fun s' => becomes (portfolio s) (portfolio s')).
Proof.
  apply returns_bind. eapply returns_mono.
  { apply (simulate_rel valid_account is_mainnet native (logged is_mainnet)); apply step_logged. }
  intros [o s1] (es & E & _). cbn [snd] in *. apply replay_becomes in E. cbn [portfolio set_sim_day] in E.
  apply returns_bind. eapply returns_mono; [apply attempt_returns, snapshot_becomes|].
  intros [p|e] Hp; apply returns_ok; [by etrans|done].
Qed.

Lemma sim_days_becomes cfg native interval fuel stop : forall current n s,
  returns (sim_days (P:=P) (G:=G) (D:=D) valid_account sort_sells sort_buys is_mainnet cfg native interval fuel stop
             current n s)
    (fun o => forall s', o = Some s' -> becomes (portfolio s) (portfolio s')).
Proof.
  induction fuel as [|fuel IH]; intros current n s; cbn [sim_days]; [by apply returns_ok|].
  destruct (_ <=? _)%Z; [|by apply returns_ok; intros s' [= <-]].
  apply returns_then. intros day_end. apply returns_then. intros earliest.
  apply returns_bind. eapply (returns_mono _ (fun s' => becomes (portfolio s) (portfolio s'))).
  { destruct earliest; [apply trade_day_becomes|by apply returns_ok]. }
  intros s1 Hs1. apply returns_then. intros next. apply returns_then. intros n'.
  eapply returns_mono; [apply IH|]. intros o Ho s' Hs'. etrans; [exact Hs1|]. by apply Ho.
Qed.

Lemma backtest_becomes fuel cli c :
  returns (backtest (P:=P) (G:=G) (D:=D) valid_account sort_sells sort_buys is_mainnet fuel cli c)
    (fun o => forall s, o = Some s -> becomes (portfolio_new (capital_yocto cli)) s).
Proof.
  apply returns_then. intros start. apply returns_then. intros stop.
  destruct (_ <=? _)%Z; [by apply returns_ret|]. apply returns_then. intros [[]|]; [|by apply returns_ok].
  apply returns_then. intros _. apply returns_then. intros now. apply returns_bind.
  eapply returns_mono; [apply sim_days_becomes|]. intros [s|] Hs; [|by apply returns_ok].
  specialize (Hs s eq_refl). cbn [portfolio] in Hs. apply returns_bind. eapply returns_mono; [apply close_becomes|].
  intros p Hp. apply returns_ok. intros s' [= <-]. by etrans.
Qed.

(** ** The loops end *)
Lemma generate_days_ends cfg n : forall stop current a b, (stop - current < Z.of_nat n * NANOS_PER_DAY)%Z ->
  returns (generate_days (P:=P) (G:=G) (D:=D) valid_account is_mainnet cfg (S n) stop current a b) (fun o => o <> None).
Proof.
  induction n as [|n IH]; intros stop current a b Hn; cbn [generate_days];
    destruct (Z.leb_spec current stop) as [Hle|]; try by apply returns_ok. lia.
  apply returns_then. intros _. apply returns_then. intros gen. apply returns_bind, returns_ret. intros next E.
  assert (Hnext : (next = current + NANOS_PER_DAY)%Z).
  { unfold plus_days, time_delta_days, shift_date in E. inv_ok. by repeat case_match; simplify_eq. }
  destruct gen; apply IH; lia.
Qed.
Lemma sim_days_ends cfg native interval n : (1 <= interval)%Z -> forall stop current k s,
  (stop - current < Z.of_nat n * NANOS_PER_DAY)%Z ->
  returns (sim_days (P:=P) (G:=G) (D:=D) valid_account sort_sells sort_buys is_mainnet cfg native interval (S n) stop
             current k s) (fun o => o <> None).
Proof.
  intros Hi. induction n as [|n IH]; intros stop current k s Hn; cbn [sim_days];
    destruct (Z.leb_spec current stop) as [Hle|]; try by apply returns_ok. lia.
  apply returns_then. intros day_end. apply returns_then. intros earliest. apply returns_then. intros s1.
  apply returns_bind, returns_ret. intros next E.
  assert (Hnext : (next = current + interval * NANOS_PER_DAY)%Z).
  { unfold plus_days, time_delta_days, shift_date in E. inv_ok. by repeat case_match; simplify_eq. }
  apply returns_then. intros k'. apply IH. unfold NANOS_PER_DAY in *. nia.
Qed.
End facts.

(** ** Theorems *)
Section theorems.
Context (P G D : Type) `{BigDecimalLaws D} `{!FromF64 D} `{!DecimalText D} `{!Rows P D} `{!PredictionRows P D}.
Context `{!Forecasts P D} `{Petgraph G} `{HashOrder} `{PathFinder} `{Numerics} `{Logarithm} `{NewPredictor}.
Context `{CompletionOrder} `{Formats} `{DateText} `{!ReportText D} `{!ToVec P}.
Context `{!FromSlice P (option StorageBalance)} `{!FromSlice P (gmap TokenAccount N)}.
Context `{!FromSlice P StorageBalanceBounds} `{!FromSlice P TokenMetadata} `{!FromSlice P JsonValue}.
Context `{!FromSlice P N}.
Context (valid_account : string -> bool).
Context (sort_sells : list (SellOperation D) -> list (SellOperation D)).
Context (sort_buys : list (BuyOperation D) -> list (BuyOperation D)).
Context (is_mainnet : bool).
Abbreviation wnear := (WNEAR_TOKEN is_mainnet).

(** C10: A backtest with a positive rebalance interval ends: with one round of the
    loops for every day of the period and one to see that it is over, neither the
    generation of predictions nor the simulation of the days is cut short, whatever
    the database, the predictor and the trader do. *)
Theorem backtest_ends cli c start stop n t :
  (1 <= rebalance_interval_days cli)%Z -> parse_start_date cli = Ok start -> parse_end_date cli = Ok stop ->
  (stop - start < Z.of_nat n * NANOS_PER_DAY)%Z ->
  ~ run (run_simulation (P:=P) (G:=G) (D:=D) valid_account sort_sells sort_buys is_mainnet (S n) cli c) t (Ok None).
Proof.
  intros Hi Hs Ht Hn Hr.
  enough (Hb : returns (run_simulation (P:=P) (G:=G) (D:=D) valid_account sort_sells sort_buys is_mainnet (S n) cli c)
    (fun o => o <> None)) by by apply (Hb _ _ Hr None).
  apply returns_bind. unfold backtest.
  eapply (returns_mono _ (fun o => o <> None)); [|intros o Ho; apply returns_ok; by destruct o].
  apply returns_bind, returns_ret. rewrite Hs. intros ? [= <-]. apply returns_bind, returns_ret. rewrite Ht. intros ? [= <-].
  destruct (_ <=? _)%Z; [by apply returns_ret|]. apply returns_bind. eapply (returns_mono _ (fun o => o <> None)).
  { destruct (generate_predictions cli); [|by apply returns_ok]. unfold generate_predictions_for_range.
    destruct (_ <? _)%Z; [by apply returns_ret|]. apply returns_then. intros buffer. apply returns_then. intros e.
    apply returns_then. intros _. apply returns_bind. eapply returns_mono; [by apply generate_days_ends|].
    intros [[a b]|] Ho; [|done]. apply returns_then. intros next. apply returns_then. intros d.
    apply returns_then. intros _. destruct (a =? 0); [by apply returns_ret|by apply returns_ok]. }
  intros [[]|] Ho; [|done]. apply returns_then. intros _. apply returns_then. intros now.
  apply returns_bind. eapply returns_mono; [by apply sim_days_ends|]. intros [s|] Hs'; [|done].
  apply returns_then. intros p. by apply returns_ok.
Qed.

(** With an interval of zero or fewer days the loop over the days is never left:
    no run of a backtest, however long, returns a report. *)
Theorem backtest_stuck fuel cli c t r : (rebalance_interval_days cli <= 0)%Z ->
  ~ run (run_simulation (P:=P) (G:=G) (D:=D) valid_account sort_sells sort_buys is_mainnet fuel cli c) t (Ok (Some r)).
Proof.
  intros Hi Hr.
  assert (Hd : forall cfg native fuel stop current k s, (current <= stop)%Z ->
    returns (sim_days (P:=P) (G:=G) (D:=D) valid_account sort_sells sort_buys is_mainnet cfg native
      (rebalance_interval_days cli) fuel stop current k s) (fun o => o = None)).
  { intros cfg native f stop. induction f as [|f IH]; intros current k s Hle; cbn [sim_days]; [by apply returns_ok|].
    rewrite (proj2 (Z.leb_le _ _) Hle). apply returns_then. intros de. apply returns_then. intros e.
    apply returns_then. intros s1. apply returns_bind, returns_ret. intros next E. apply returns_then. intros k'.
    apply IH. unfold plus_days, time_delta_days, shift_date in E. inv_ok. repeat case_match; simplify_eq.
    unfold NANOS_PER_DAY. nia. }
  enough (Hb : returns (run_simulation (P:=P) (G:=G) (D:=D) valid_account sort_sells sort_buys is_mainnet fuel cli c)
    (fun o => o = None)) by by specialize (Hb _ _ Hr _ eq_refl).
  apply returns_bind. eapply (returns_mono _ (fun o => o = None)); [|intros o ->; by apply returns_ok].
  apply returns_then. intros start. apply returns_then. intros stop.
  destruct (Z.leb_spec stop start) as [|Hlt]; [by apply returns_ret|]. apply returns_then. intros [[]|]; [|by apply returns_ok].
  apply returns_then. intros _. apply returns_then. intros now. apply returns_bind.
  eapply returns_mono; [apply Hd; lia|]. intros o ->. by apply returns_ok.
Qed.

(** C9: The books of a backtest balance: from the opening account to the one the
    report is built from there is a history of recorded swaps, final sales and
    snapshots; if its figures fit the integer types and no swap was of wNEAR for
    wNEAR, then cash plus the cost of what could not be sold is the initial capital
    plus the realised profit, to the yocto. *)
Theorem backtest_books_balance fuel cli c t s :
  run (backtest (P:=P) (G:=G) (D:=D) valid_account sort_sells sort_buys is_mainnet fuel cli c) t (Ok (Some s)) ->
  exists h, account_history wnear (portfolio_new (capital_yocto cli)) h s /\
    forall capital, ints (yocto_value_bd (capital_yocto cli)) capital -> (Z.of_N capital <= I128_MAX)%Z ->
      Forall within h -> no_round_trip wnear s ->
      book_value_of s == inject_Z (Z.of_N capital + realized_pnl s).
Proof.
  intros Hr. destruct (returns_run _ _ _ _ (backtest_becomes valid_account sort_sells sort_buys is_mainnet fuel cli c) Hr
    s eq_refl _ [portfolio_new (capital_yocto cli)] (history_open _ _)) as [h Hh].
  eexists. split; [exact Hh|]. intros capital Hc Hcap Hw Hn.
  destruct (reachable_books wnear capital s Hcap (history_reachable wnear _ _ _ _ Hc Hh Hw Hn)) as (b & Hrep & Hbal & _).
  rewrite (repr_book_value s b Hrep), Hbal. by rewrite (repr_pnl s b Hrep).
Qed.

(** C22: What a report counts: every swap is counted once, as made through pools or
    by the rates, and every entry of the trades is a liquidation, so the number of
    trades in the report of a backtest is zero, whatever the trader did. *)
Theorem backtest_counts fuel cli c t r :
  run (run_simulation (P:=P) (G:=G) (D:=D) valid_account sort_sells sort_buys is_mainnet fuel cli c) t (Ok (Some r)) ->
  trade_count (sr_performance r) = 0 /\ liquidation_count (sr_performance r) = len (sr_trades r) /\
  let st := perf_swap_stats (sr_performance r) in
  total_swaps st = len (sr_swap_events r) /\ total_swaps st = pool_based_swaps st + fallback_swaps st.
Proof.
  intros Hr. enough (Hb : returns (run_simulation (P:=P) (G:=G) (D:=D) valid_account sort_sells sort_buys is_mainnet fuel
    cli c) (fun o => forall r, o = Some r -> exists s, r = from_state cli s /\
      Forall (fun r => trade_action r = Liquidation) (trades s))).
  { destruct (Hb _ _ Hr _ eq_refl r eq_refl) as (s & -> & Hall). by apply report_counts. }
  apply returns_bind. eapply returns_mono; [apply backtest_becomes|]. intros [s|] Hs; apply returns_ok; [|done].
  intros ? [= <-]. exists s. split; [done|].
  destruct (Hs s eq_refl _ [portfolio_new (capital_yocto cli)] (history_open _ _)) as [h Hh]. by eapply history_trades.
Qed.
End theorems.

(** ** A backtest of two days

    The market of [StrategyFacts] with a fresh prediction every day: the trader
    buys usdt through the pool, and the position is sold at the end. *)
Definition period_db (q : Query) : cell :=
  match q with
  | QEarliestFresh since _ => CTime (Some (since + HOUR_NANOS)%Z)
  | QLatestPeriod => CLastPeriod None
  | QInsertPeriod v _ => CPeriod (mkEvaluationPeriod "eval_1" 0%Z (mkYoctoAmount v) None)
  | QLatestHolding _ => CHolding None
  | QLatestPoolBefore _ _ => CPool (Some deep_row)
  | QSpotRatesAt bases quote t => CRates ((fun b => mkDbTokenRate b quote (inject_Z 1000) t 6 1 None) <$> bases)
  | QAllDecimals => CDecimals [("usdt", 6%Z)]
  | q => shop_db q
  end.
Definition period_answer (r : Req) (s : unit) : Resp cell r * unit :=
  match r with
  | RDb q => (inl (period_db q), s)
  | RDecimals token => ((if String.eqb token "usdt" then Some 6 else None), s)
  | r => desk_answer r s
  end.
#[global] Instance plain_formats : Formats := {|
  parse_f64 s := f64_of_N <$> parse_unsigned U128_MAX s;
  show_f64 x := pretty.pretty (f64_to_u128 x);
  parse_duration s := parse_unsigned U128_MAX s;
  format_duration n := pretty.pretty n;
|}.
#[global] Instance day_text : DateText := fun s => (fun n => (Z.of_N n * NANOS_PER_DAY)%Z) <$> parse_unsigned U32_MAX s.
#[global] Instance plain_text : ReportText Q := {| rfc3339 t := pretty.pretty t; bd_to_string _ := "" |}.
Definition two_days : RunArgs := mkRunArgs "100" "101" (f64_of_Z 100) 10 30%Z f64_zero 1%Z false.
Definition two_days_account := interp period_answer
  (backtest (P:=cell) (G:=ListGraph) (D:=Q) (fun _ => true) (fun l => l) (fun l => l) true 3 two_days (mkSources ∅ ∅ ∅)) tt.
Definition two_days_report := interp period_answer
  (run_simulation (P:=cell) (G:=ListGraph) (D:=Q) (fun _ => true) (fun l => l) (fun l => l) true 3 two_days (mkSources ∅ ∅ ∅)) tt.
Definition last_account : PortfolioState Q :=
  match two_days_account.1.1 with Ok (Some s) => s | _ => portfolio_new (from_yocto 0%Q) end.
Definition last_report : SimulationResult :=
  match two_days_report.1.1 with Ok (Some r) => r | _ => from_state two_days last_account end.

Example two_days_traded : (fun e => (event_token_in e, event_token_out e, event_swap_method e)) <$> swap_events last_account =
  [("wrap.near", "usdt", PoolBased)] /\ length (trades last_account) = 1%nat /\ length (snapshots last_account) = 3%nat /\
  trade_count (sr_performance last_report) = 0 /\ liquidation_count (sr_performance last_report) = 1.
Proof. vm_compute. repeat split. Qed.

Lemma backtest_ends_witness : (1 <= rebalance_interval_days two_days)%Z /\
  ~ run (run_simulation (P:=cell) (G:=ListGraph) (D:=Q) (fun _ => true) (fun l => l) (fun l => l) true 3 two_days
           (mkSources ∅ ∅ ∅)) two_days_report.1.2 (Ok None).
Proof.
  split; [vm_compute; discriminate|].
  apply (backtest_ends cell ListGraph Q (fun _ => true) (fun l => l) (fun l => l) true two_days (mkSources ∅ ∅ ∅)
    (100 * NANOS_PER_DAY)%Z (101 * NANOS_PER_DAY)%Z 2 two_days_report.1.2);
    [vm_compute; discriminate|vm_compute; reflexivity|vm_compute; reflexivity|vm_compute; reflexivity].
Defined.

Lemma backtest_counts_witness : two_days_report.1.1 = Ok (Some last_report) /\ trade_count (sr_performance last_report) = 0.
Proof.
  assert (Hok : two_days_report.1.1 = Ok (Some last_report)) by (vm_compute; reflexivity).
  split; [exact Hok|].
  refine (proj1 (backtest_counts cell ListGraph Q (fun _ => true) (fun l => l) (fun l => l) true 3 two_days
    (mkSources ∅ ∅ ∅) two_days_report.1.2 last_report _)).
  rewrite <- Hok. apply interp_run.
Defined.

Lemma backtest_books_balance_witness : exists h,
  account_history "wrap.near" (portfolio_new (capital_yocto two_days)) h last_account /\
  (Forall within h -> book_value_of last_account == inject_Z (Z.of_N (10 ^ 26) + realized_pnl last_account)).
Proof.
  assert (Hok : two_days_account.1.1 = Ok (Some last_account)) by (vm_compute; reflexivity).
  destruct (backtest_books_balance cell ListGraph Q (fun _ => true) (fun l => l) (fun l => l) true 3 two_days
    (mkSources ∅ ∅ ∅) two_days_account.1.2 last_account) as (h & Hh & Hb); [rewrite <- Hok; apply interp_run|].
  exists h. split; [exact Hh|]. intros Hw. apply Hb; [vm_compute; reflexivity|vm_compute; discriminate|exact Hw|].
  unfold no_round_trip. vm_compute. apply list.Forall_singleton. intros [_ E]. discriminate E.
Defined.
