(* ===== verification/Verify.v ===== *)
(** * Verify: estimates against the trades that were made

    [crates/simulate/src/verify.rs]: the recorded trades of a period
    ([trade_transaction.rs]), the divergence of what each swap returned from what
    was estimated, and its statistics, over all trades and per pair of tokens.
    The floats are the code's; a slice indexed out of range is a panic.  Printing
    is left out. *)

From Stdlib Require Import QArith SpecFloat.
From S2P Require Import Prelude NearClient F64 Vectors BigDecimal Units Records Portfolio SimReport Backtest.
Local Open Scope N_scope.

(** ** Floats *)

(** [f64::total_cmp]: by sign and size, with the zeros apart and NaN last. *)
Definition total_key (x : f64) : Z * Z * Z :=
  match x with
  | S754_infinity true => (-3, 0, 0)
  | S754_finite true m e => (-2, - e, Z.neg m)
  | S754_zero true => (-1, 0, 0)
  | S754_zero false => (0, 0, 0)
  | S754_finite false m e => (1, e, Z.pos m)
  | S754_infinity false => (2, 0, 0)
  | S754_nan => (3, 0, 0)
  end%Z.
Definition key_leb (a b : Z * Z * Z) : bool :=
  let '(a1, a2, a3) := a in let '(b1, b2, b3) := b in
  (a1 <? b1)%Z || ((a1 =? b1)%Z && ((a2 <? b2)%Z || ((a2 =? b2)%Z && (a3 <=? b3)%Z))).
Definition total_leb (x y : f64) : bool := key_leb (total_key x) (total_key y).

(** [x.ceil() as usize]. *)
Definition f64_ceil_to_usize (x : f64) : N :=
  match x with
  | S754_nan | S754_zero _ | S754_infinity true | S754_finite true _ _ => 0
  | S754_infinity false => USIZE_MAX
  | S754_finite false m e =>
      let z := if (0 <=? e)%Z then (Z.pos m * 2 ^ e)%Z else (- (- Z.pos m / 2 ^ (- e)))%Z in
      N.min (Z.to_N z) USIZE_MAX
  end.

Definition f64_mean (l : list f64) : f64 := f64_div (f64_sum l) (f64_of_nat (length l)).
Definition f64_two : f64 := f64_of_Z 2.

(** [v[i]]. *)
Definition index {E} (l : list f64) (i : nat) : outcome E f64 := expect (l !! i).

(** ** trade_transaction.rs *)
Record TradeTransaction (D : Type) := mkTradeTransaction {
  tx_id : string;
  tx_trade_batch_id : string;
  tx_from_token : string;
  tx_from_amount : TokenSmallestUnits D;
  tx_to_token : string;
  tx_to_amount : TokenSmallestUnits D;
  tx_timestamp : NaiveDateTime;
  tx_evaluation_period_id : string;
  tx_actual_to_amount : option D;
}.
Arguments mkTradeTransaction {D} _ _ _ _ _ _ _ _ _.
Arguments tx_id {D} _.
Arguments tx_trade_batch_id {D} _.
Arguments tx_from_token {D} _.
Arguments tx_from_amount {D} _.
Arguments tx_to_token {D} _.
Arguments tx_to_amount {D} _.
Arguments tx_timestamp {D} _.
Arguments tx_evaluation_period_id {D} _.
Arguments tx_actual_to_amount {D} _.

Definition find_by_date_range_async {P D} `{FromSlice P (list (TradeTransaction D))} (start stop : NaiveDateTime)
    : prog P (list (TradeTransaction D)) := fetch (QTradesBetween start stop).

(** ** The analysis *)
Record TokenPairStats := mkTokenPairStats { ps_count : N; ps_mean_error_pct : f64; ps_max_error_pct : f64 }.
Record SlippageAnalysis := mkSlippageAnalysis {
  total_trades : N;
  trades_with_actual : N;
  trades_without_actual : N;
  trades_skipped : N;
  mean_error_pct : f64;
  median_error_pct : f64;
  std_dev_pct : f64;
  p95_error_pct : f64;
  max_error_pct : f64;
  by_token_pair : gmap string TokenPairStats;
}.

Section analysis.
Context {D : Type} `{BigDecimal D}.

Definition divergence_pct (estimated actual : D) : option f64 :=
  if bd_is_zero estimated then None
  else bd_to_f64 (bd_mul (bd_div (bd_sub actual estimated) estimated) (bd_of_Z 100)).

Definition pair_key (tx : TradeTransaction D) : string := tx_from_token tx +:+ " -> " +:+ tx_to_token tx.

(** The loop over the trades: errors, errors per pair, and the two counters. *)
Record Tally := mkTally {
  errors : list f64;
  pair_errors : gmap string (list f64);
  without_actual : N;
  skipped : N;
}.
Definition tally_one (t : Tally) (tx : TradeTransaction D) : Tally :=
  match tx_actual_to_amount tx with
  | None => mkTally (errors t) (pair_errors t) (without_actual t + 1) (skipped t)
  | Some actual =>
      match divergence_pct (smallest_bd (tx_to_amount tx)) actual with
      | None => mkTally (errors t) (pair_errors t) (without_actual t) (skipped t + 1)
      | Some pct =>
          mkTally (errors t ++ [pct])
            (<[pair_key tx := default [] (pair_errors t !! pair_key tx) ++ [pct]]> (pair_errors t))
            (without_actual t) (skipped t)
      end
  end.
Definition tally (transactions : list (TradeTransaction D)) : Tally := foldl tally_one (mkTally [] ∅ 0 0) transactions.

(** Mean, median, deviation, 95th percentile and largest of the errors. *)
Definition error_statistics {E} (errs : list f64) : outcome E (f64 * f64 * f64 * f64 * f64) :=
  match errs with
  | [] => Ok (f64_zero, f64_zero, f64_zero, f64_zero, f64_zero)
  | _ =>
      let n := length errs in
      let mean := f64_mean errs in
      let variance := if Nat.ltb 1 n
                      then f64_div (f64_sum ((fun e => f64_sq (f64_sub e mean)) <$> errs)) (f64_of_nat (n - 1))
                      else f64_zero in
      let sorted := sort_by total_leb errs in
      let? median :=
        if Nat.even n then
          let? lo := index sorted (Nat.div n 2 - 1) in
          let? hi := index sorted (Nat.div n 2) in
          Ok (f64_div (f64_add lo hi) f64_two)
        else index sorted (Nat.div n 2) in
      let abs_sorted := sort_by total_leb (f64_abs <$> sorted) in
      let p95_idx := f64_ceil_to_usize (f64_mul (f64_of_nat n) (f64_literal 95 2)) in
      let? p95 := index abs_sorted (N.to_nat (saturating_sub (N.min p95_idx (len abs_sorted)) 1)) in
      let max_abs := default f64_zero (list.last abs_sorted) in
      Ok (mean, median, f64_sqrt variance, p95, max_abs)
  end.

Definition pair_stats (errs : list f64) : TokenPairStats :=
  mkTokenPairStats (len errs) (f64_mean errs) (foldl f64_max f64_zero (f64_abs <$> errs)).

Definition analyze {E} (transactions : list (TradeTransaction D)) : outcome E SlippageAnalysis :=
  let t := tally transactions in
  let? st := error_statistics (errors t) in
  let '(mean, median, std_dev, p95, max_abs) := st in
  Ok (mkSlippageAnalysis (len transactions) (len (errors t)) (without_actual t) (skipped t)
        mean median std_dev p95 max_abs (pair_stats <$> pair_errors t)).
End analysis.

Record VerifyArgs := mkVerifyArgs { va_start_date : string; va_end_date : string }.
Definition parse_date_range `{DateText} (args : VerifyArgs) : outcome anyhow (NaiveDateTime * NaiveDateTime) :=
  let? start := parse_date (va_start_date args) "start-date" in
  let? stop := parse_date (va_end_date args) "end-date" in
  if (stop <=? start)%Z then Err (Anyhow "start-date must be before end-date" []) else Ok (start, stop).

(** [run_verify], up to the printing of the analysis. *)
Definition run_verify {P D} `{BigDecimal D} `{DateText} `{!FromSlice P (list (TradeTransaction D))} (args : VerifyArgs)
    : prog P SlippageAnalysis :=
  let! range := lift (parse_date_range args) in
  let! transactions := find_by_date_range_async (D:=D) range.1 (range.2 + 86399 * 10 ^ 9)%Z in
  lift (analyze transactions).

(** * Facts *)
Lemma key_leb_total a b : key_leb a b = true \/ key_leb b a = true.
Proof. destruct a as [[a1 a2] a3], b as [[b1 b2] b3]. unfold key_leb. lia. Qed.
Lemma key_leb_trans a b c : key_leb a b = true -> key_leb b c = true -> key_leb a c = true.
Proof. destruct a as [[a1 a2] a3], b as [[b1 b2] b3], c as [[c1 c2] c3]. unfold key_leb. lia. Qed.
Lemma total_sorted l : StronglySorted (fun a b => total_leb a b = true) (sort_by total_leb l).
Proof. apply sort_by_sorted; intros; [apply key_leb_total|by eapply key_leb_trans]. Qed.

(** The last of a sorted list is the largest. *)
Lemma sorted_last {A} (le : A -> A -> bool) (l : list A) x y : (forall a, le a a = true) ->
  StronglySorted (fun a b => le a b = true) l -> list.last l = Some x -> y ∈ l -> le y x = true.
Proof.
  intros Hrefl Hs. induction Hs as [|a l Hs IH Hall]; intros Hl Hy; [done|].
  destruct l as [|b l]; [injection Hl as <-; apply list_elem_of_singleton in Hy as ->; apply Hrefl|].
  change (list.last (b :: l) = Some x) in Hl. apply elem_of_cons in Hy as [->|Hy]; [|by apply IH].
  rewrite list.Forall_forall in Hall. apply Hall. apply last_Some in Hl as [l' ->]. set_solver.
Qed.

Section facts.
Context {D : Type} `{BigDecimal D}.

(** The divergence of a trade, when there is one. *)
Definition trade_error (tx : TradeTransaction D) : option f64 :=
  tx_actual_to_amount tx ≫= divergence_pct (smallest_bd (tx_to_amount tx)).

Record tallied (txs : list (TradeTransaction D)) (t : Tally) : Prop := {
  tallied_errors : errors t = omap trade_error txs;
  tallied_all : len txs = len (errors t) + without_actual t + skipped t;
  tallied_pairs : msum (fun l => Z.of_N (len l)) (pair_errors t) = Z.of_N (len (errors t));
}.

Lemma len_snoc {A} (l : list A) x : len (l ++ [x]) = len l + 1.
Proof. unfold len. rewrite length_app. cbn. lia. Qed.

Lemma tally_tallied txs : tallied txs (tally txs).
Proof.
  unfold tally. induction txs as [|tx txs IH] using rev_ind; [by split|]. rewrite foldl_app. cbn [foldl].
  destruct IH as [He Ha Hp]. set (t := foldl _ _ txs) in *. clearbody t.
  unfold tally_one. destruct (tx_actual_to_amount tx) as [actual|] eqn:Ea.
  - destruct (divergence_pct _ _) as [pct|] eqn:Ed.
    + split; cbn [errors pair_errors without_actual skipped].
      * rewrite omap_app, He. cbn. unfold trade_error. rewrite Ea. cbn. by rewrite Ed.
      * rewrite !len_snoc, Ha. lia.
      * rewrite msum_insert, Hp, !len_snoc. unfold mget. destruct (pair_errors t !! pair_key tx); cbn [from_option default id]; change (len (@nil f64)) with 0; lia.
    + split; cbn [errors pair_errors without_actual skipped]; [|rewrite len_snoc, Ha; lia|done].
      rewrite omap_app, He. cbn. unfold trade_error. rewrite Ea. cbn. by rewrite Ed, app_nil_r.
  - split; cbn [errors pair_errors without_actual skipped]; [|rewrite len_snoc, Ha; lia|done].
    rewrite omap_app, He. cbn. unfold trade_error. rewrite Ea. cbn. by rewrite app_nil_r.
Qed.

(** The figures of the errors: computed without a panic, the largest is one of
    the absolute errors and no other exceeds it, and the percentile is one too. *)
Lemma error_statistics_ok errs : errs <> [] -> exists mean median std p95 top,
  error_statistics (E:=anyhow) errs = Ok (mean, median, std, p95, top) /\
  top ∈ f64_abs <$> errs /\ p95 ∈ f64_abs <$> errs /\ (forall e, e ∈ errs -> total_leb (f64_abs e) top = true).
Proof.
  intros Hne. unfold error_statistics. destruct errs as [|e0 l0]; [done|]. set (errs := e0 :: l0) in *.
  set (sorted := sort_by total_leb errs). set (abs_sorted := sort_by total_leb (f64_abs <$> sorted)).
  assert (Hls : length sorted = length errs) by (apply Permutation_length, sort_by_perm).
  assert (Hps : abs_sorted ≡ₚ f64_abs <$> errs) by (unfold abs_sorted, sorted; by rewrite !sort_by_perm).
  assert (Hla : length abs_sorted = length errs) by (by rewrite Hps, length_fmap).
  assert (Hpos : (0 < length errs)%nat) by (cbn; lia). clearbody errs sorted.
  assert (Hix : forall l i, (i < length l)%nat -> exists x, index (E:=anyhow) l i = Ok x /\ x ∈ l).
  { intros l i Hi. destruct (lookup_lt_is_Some_2 l i Hi) as [x Hx]. exists x. unfold index. rewrite Hx.
    split; [done|]. by eapply list_elem_of_lookup_2. }
  assert (Hdiv : (Nat.div (length errs) 2 < length errs)%nat) by (apply Nat.div_lt; lia).
  assert (Hmed : exists m, (if Nat.even (length errs) then
      let? lo := index (E:=anyhow) sorted (Nat.div (length errs) 2 - 1) in
      let? hi := index sorted (Nat.div (length errs) 2) in Ok (f64_div (f64_add lo hi) f64_two)
      else index sorted (Nat.div (length errs) 2)) = Ok m).
  { destruct (Hix sorted (Nat.div (length errs) 2)) as (hi & Ehi & _); [lia|].
    destruct (Hix sorted (Nat.div (length errs) 2 - 1)%nat) as (lo & Elo & _); [lia|].
    destruct (Nat.even _); rewrite ?Elo, Ehi; eauto. }
  destruct Hmed as [med ->]. cbn [obind].
  destruct (Hix abs_sorted (N.to_nat (saturating_sub (N.min (f64_ceil_to_usize (f64_mul (f64_of_nat (length errs))
    (f64_literal 95 2))) (len abs_sorted)) 1))) as (p95 & -> & Hp95); [unfold saturating_sub, len; lia|]. cbn [obind].
  destruct (list.last abs_sorted) as [top|] eqn:El; [|by apply last_None in El; rewrite El in Hla; cbn in Hla; lia].
  cbn [default]. do 5 eexists. split; [reflexivity|]. split; [|split].
  - rewrite <- Hps. apply last_Some in El as [l' ->]. set_solver.
  - by rewrite <- Hps.
  - intros e He. eapply (sorted_last total_leb abs_sorted); [|apply total_sorted|exact El|].
    + intros a. destruct (key_leb_total (total_key a) (total_key a)); done.
    + rewrite Hps. by apply list_elem_of_fmap_2.
Qed.
End facts.

Section theorems.
Context (D : Type) `{BigDecimal D}.

(** C23: The analysis of recorded trades accounts for all of them and never
    panics: every trade is counted once, as compared, without an actual amount, or
    skipped; the counts per pair of tokens add up to the compared trades; and when
    there are any, the largest error and the 95th percentile are absolute errors of
    trades, and no error is larger than the largest. *)
Theorem analysis_accounts txs : exists a, analyze (D:=D) (E:=anyhow) txs = Ok a /\
  total_trades a = len txs /\ trades_with_actual a = len (omap trade_error txs) /\
  len txs = trades_with_actual a + trades_without_actual a + trades_skipped a /\
  msum (fun st => Z.of_N (ps_count st)) (by_token_pair a) = Z.of_N (trades_with_actual a) /\
  (omap trade_error txs <> [] ->
    max_error_pct a ∈ f64_abs <$> omap trade_error txs /\ p95_error_pct a ∈ f64_abs <$> omap trade_error txs /\
    forall tx e, tx ∈ txs -> trade_error tx = Some e -> total_leb (f64_abs e) (max_error_pct a) = true).
Proof.
  destruct (tally_tallied txs) as [He Ha Hp]. unfold analyze.
  assert (Hpairs : msum (fun st => Z.of_N (ps_count st)) (pair_stats <$> pair_errors (tally txs)) =
    Z.of_N (len (errors (tally txs)))).
  { rewrite <- Hp. unfold msum. rewrite map_to_list_fmap, <- !list_fmap_compose. done. }
  destruct (decide (errors (tally txs) = [])) as [Hnil|Hne].
  - rewrite Hnil in Hpairs, He. rewrite Hnil. cbn [error_statistics obind]. eexists. split; [reflexivity|]. cbn.
    rewrite Hnil in Ha. rewrite <- He. repeat split; try done.
  - destruct (error_statistics_ok _ Hne) as (mean & median & std & p95 & top & -> & Htop & Hp95 & Hmax). cbn [obind].
    eexists. split; [reflexivity|]. cbn. rewrite <- He. repeat split; try done.
    intros tx e Hin Herr. apply Hmax. rewrite He. apply list_elem_of_omap. eauto.
Qed.
End theorems.
