(* ===== verification/Sweep.v ===== *)
(** * Sweep: backtests over a grid of parameters

    [crates/simulate/src/sweep.rs]: every combination of the given parameters is
    simulated, runs that fail are left out, and the results are ranked by their
    Sharpe ratio.  Reading the grid and writing the results are left out. *)

From Stdlib Require Import QArith SpecFloat.
From S2P Require Import Prelude F64 Config NearClient StoragePlanner Storage Vectors BigDecimal Units Dex Swap Balances.
From S2P Require Import Slippage Harvest Records Matching TradeSwap Execution Periods Graph Pools TokenCache Optimizer.
From S2P Require Import Market Predict Accuracy Strategy GraphPaths OptimizerReport StrategyFacts Trader.
From S2P Require Import Portfolio SimClient SimReport Backtest.
Local Open Scope N_scope.

Record SweepConfig := mkSweepConfig {
  grid_top_tokens : list N;
  grid_price_history_days : list Z;
  grid_rebalance_threshold : list f64;
  grid_rebalance_interval_days : list Z;
}.
(** The lists of a grid file that leaves them out. *)
Definition default_sweep : SweepConfig := mkSweepConfig [10] [30%Z] [f64_literal 1 1] [1%Z].

Record SweepParameters := mkSweepParameters {
  sw_top_tokens : N;
  sw_price_history_days : Z;
  sw_rebalance_threshold : f64;
  sw_rebalance_interval_days : Z;
}.
Record SweepEntry := mkSweepEntry {
  en_parameters : SweepParameters;
  en_total_return : f64;
  en_sharpe_ratio : f64;
  en_sortino_ratio : f64;
  en_max_drawdown : f64;
  en_final_balance_near : f64;
  en_realized_pnl_near : f64;
}.

Definition generate_combinations (config : SweepConfig) : list SweepParameters :=
  top_tokens ← grid_top_tokens config;
  price_history_days ← grid_price_history_days config;
  rebalance_threshold ← grid_rebalance_threshold config;
  rebalance_interval_days ← grid_rebalance_interval_days config;
  [mkSweepParameters top_tokens price_history_days rebalance_threshold rebalance_interval_days].

Definition with_parameters (base : RunArgs) (p : SweepParameters) : RunArgs :=
  mkRunArgs (start_date base) (end_date base) (initial_capital base) (sw_top_tokens p) (sw_price_history_days p)
    (sw_rebalance_threshold p) (sw_rebalance_interval_days p) (generate_predictions base).
Definition sweep_entry (p : SweepParameters) (r : SimulationResult) : SweepEntry :=
  let perf := sr_performance r in
  mkSweepEntry p (total_return perf) (sharpe_ratio perf) (sortino_ratio perf) (max_drawdown perf)
    (final_balance_near perf) (total_realized_pnl_near perf).

(** [b.partial_cmp(a)], where incomparable counts as equal. *)
Definition rank_leb (a b : SweepEntry) : bool :=
  match f64_partial_cmp (en_sharpe_ratio b) (en_sharpe_ratio a) with Some Gt => false | _ => true end.

Section sweep.
Context {P G D : Type} `{BigDecimal D} `{!FromF64 D} `{!DecimalText D} `{!Rows P D} `{!PredictionRows P D}.
Context `{!Forecasts P D} `{Petgraph G} `{HashOrder} `{PathFinder} `{Numerics} `{Logarithm} `{NewPredictor}.
Context `{CompletionOrder} `{Formats} `{DateText} `{!ReportText D} `{!ToVec P}.
Context `{!FromSlice P (option StorageBalance)} `{!FromSlice P (gmap TokenAccount N)}.
Context `{!FromSlice P StorageBalanceBounds} `{!FromSlice P TokenMetadata} `{!FromSlice P JsonValue}.
Context `{!FromSlice P N}.
Context (valid_account : string -> bool).
Context (sort_sells : list (SellOperation D) -> list (SellOperation D)).
Context (sort_buys : list (BuyOperation D) -> list (BuyOperation D)).
Context (is_mainnet : bool).

(** The runs one after the other; each leaves its parameters in the
    configuration. *)
Fixpoint sweep_runs (fuel : nat) (base : RunArgs) (c : Sources) (combinations : list SweepParameters)
    : prog P (option (list SweepEntry)) :=
  match combinations with
  | [] => Ret (Ok (Some []))
  | params :: combinations =>
      let cli := with_parameters base params in
      let! result := attempt (run_simulation (G:=G) (D:=D) valid_account sort_sells sort_buys is_mainnet fuel cli c) in
      match result with
      | inl None => Ret (Ok None)
      | inl (Some r) =>
          let! rest := sweep_runs fuel base (apply_config cli c) combinations in
          Ret (Ok (cons (sweep_entry params r) <$> rest))
      | inr _ => sweep_runs fuel base (apply_config cli c) combinations
      end
  end.

Definition run_sweep (fuel : nat) (base : RunArgs) (c : Sources) (config : SweepConfig) : prog P (option (list SweepEntry)) :=
  let! results := sweep_runs fuel base c (generate_combinations config) in
  Ret (Ok (sort_by rank_leb <$> results)).
End sweep.

(** * Ranking *)
Lemma ltb_cotrans a b c : f64_is_nan b = false -> f64_ltb a c = true -> f64_ltb a b = true \/ f64_ltb b c = true.
Proof.
  destruct a as [[]|[]| |[] ma ea], b as [[]|[]| |[] mb eb], c as [[]|[]| |[] mc ec]; try done; intros _;
    try (intros _; by left); try (intros _; by right);
    unfold f64_ltb, SFltb, SFcompare; change (Pos.compare_cont Eq ?x ?y) with (x ?= y)%positive; auto;
    destruct (Z.compare_spec ea eb), (Z.compare_spec eb ec), (Z.compare_spec ea ec); subst; auto; try lia;
      repeat (change (Pos.compare_cont Eq ?x ?y) with (x ?= y)%positive);
      destruct (Pos.compare_spec ma mb), (Pos.compare_spec mb mc), (Pos.compare_spec ma mc); auto; lia.
Qed.
Lemma rank_leb_ltb a b : rank_leb a b = negb (f64_ltb (en_sharpe_ratio a) (en_sharpe_ratio b)).
Proof.
  unfold rank_leb, f64_partial_cmp, f64_ltb, SFltb.
  destruct (en_sharpe_ratio a) as [[]|[]| |[] ma ea], (en_sharpe_ratio b) as [[]|[]| |[] mb eb]; try done;
    unfold SFcompare; rewrite (Z.compare_antisym ea eb); destruct (Z.compare ea eb); try done; cbn [CompOpp];
    change (Pos.compare_cont Eq ?x ?y) with (x ?= y)%positive; rewrite (Pos.compare_antisym ma mb); by destruct (ma ?= mb)%positive.
Qed.

(** The same order with incomparable figures last, which is a total one. *)
Definition rank_total (a b : SweepEntry) : bool :=
  f64_is_nan (en_sharpe_ratio b) ||
  (negb (f64_is_nan (en_sharpe_ratio a)) && negb (f64_ltb (en_sharpe_ratio a) (en_sharpe_ratio b))).
Lemma rank_total_total a b : rank_total a b = true \/ rank_total b a = true.
Proof.
  unfold rank_total. destruct (f64_is_nan (en_sharpe_ratio a)) eqn:Ea, (f64_is_nan (en_sharpe_ratio b)) eqn:Eb; auto. cbn.
  destruct (f64_ltb (en_sharpe_ratio a) (en_sharpe_ratio b)) eqn:E; [|by left]. right.
  destruct (f64_ltb (en_sharpe_ratio b) (en_sharpe_ratio a)) eqn:E'; [|done].
  pose proof (f64_ltb_trans _ _ _ E E') as Hc. by rewrite f64_ltb_irrefl in Hc.
Qed.
Lemma rank_total_trans a b c : rank_total a b = true -> rank_total b c = true -> rank_total a c = true.
Proof.
  unfold rank_total. destruct (f64_is_nan (en_sharpe_ratio a)) eqn:Ea, (f64_is_nan (en_sharpe_ratio b)) eqn:Eb,
    (f64_is_nan (en_sharpe_ratio c)) eqn:Ec; cbn; try done. rewrite !negb_true_iff. intros Hab Hbc.
  destruct (f64_ltb (en_sharpe_ratio a) (en_sharpe_ratio c)) eqn:E; [|done].
  destruct (ltb_cotrans _ _ _ Eb E); congruence.
Qed.

Lemma sort_by_ext {A} (le le' : A -> A -> bool) (l : list A) : (forall a b, a ∈ l -> b ∈ l -> le a b = le' a b) ->
  sort_by le l = sort_by le' l.
Proof.
  induction l as [|x l IH]; intros Hl; [done|]. cbn [sort_by foldr]. change (foldr (insert_by ?r) []) with (sort_by r).
  rewrite IH by set_solver.
  assert (Hin : forall y, y ∈ sort_by le' l -> y ∈ l) by (intros y; by rewrite sort_by_perm).
  revert Hin. generalize (sort_by le' l). intros k. induction k as [|y k IHk]; intros Hin; [done|]. cbn [insert_by].
  rewrite Hl; [|apply list_elem_of_here|apply list_elem_of_further, Hin, list_elem_of_here].
  destruct (le' x y); [done|]. f_equal. apply IHk. set_solver.
Qed.

(** Sorted from the best to the worst, when all figures are numbers. *)
Lemma ranked l : Forall (fun e => f64_is_nan (en_sharpe_ratio e) = false) l ->
  StronglySorted (fun a b => f64_ltb (en_sharpe_ratio a) (en_sharpe_ratio b) = false) (sort_by rank_leb l).
Proof.
  intros Hl. rewrite list.Forall_forall in Hl. rewrite (sort_by_ext rank_leb rank_total).
  - pose proof (sort_by_sorted rank_total rank_total_total rank_total_trans l) as Hs.
    assert (Hin : forall y, y ∈ sort_by rank_total l -> y ∈ l) by (intros y; by rewrite sort_by_perm).
    induction Hs as [|a k Hk IH Ha]; [constructor|]. constructor; [apply IH; set_solver|].
    rewrite list.Forall_forall in Ha |- *. intros b Hb. specialize (Ha b Hb). unfold rank_total in Ha.
    rewrite (Hl b) in Ha by (apply Hin; set_solver). cbn in Ha. apply andb_true_iff in Ha as [_ Ha].
    by apply negb_true_iff in Ha.
  - intros a b Ha Hb. rewrite rank_leb_ltb. unfold rank_total. by rewrite (Hl a Ha), (Hl b Hb).
Qed.

Lemma combinations_elem config p : p ∈ generate_combinations config <->
  sw_top_tokens p ∈ grid_top_tokens config /\ sw_price_history_days p ∈ grid_price_history_days config /\
  sw_rebalance_threshold p ∈ grid_rebalance_threshold config /\
  sw_rebalance_interval_days p ∈ grid_rebalance_interval_days config.
Proof.
  unfold generate_combinations. repeat setoid_rewrite list_elem_of_bind. setoid_rewrite list_elem_of_singleton. split.
  - intros (a & (b & (d & (e & -> & He) & Hd) & Hb) & Ha). done.
  - intros (Ha & Hb & Hd & He). destruct p as [a b d e]. cbn in *. eauto 10.
Qed.

Section theorems.
Context (P G D : Type) `{BigDecimal D} `{!FromF64 D} `{!DecimalText D} `{!Rows P D} `{!PredictionRows P D}.
Context `{!Forecasts P D} `{Petgraph G} `{HashOrder} `{PathFinder} `{Numerics} `{Logarithm} `{NewPredictor}.
Context `{CompletionOrder} `{Formats} `{DateText} `{!ReportText D} `{!ToVec P}.
Context `{!FromSlice P (option StorageBalance)} `{!FromSlice P (gmap TokenAccount N)}.
Context `{!FromSlice P StorageBalanceBounds} `{!FromSlice P TokenMetadata} `{!FromSlice P JsonValue}.
Context `{!FromSlice P N}.
Context (valid_account : string -> bool).
Context (sort_sells : list (SellOperation D) -> list (SellOperation D)).
Context (sort_buys : list (BuyOperation D) -> list (BuyOperation D)).
Context (is_mainnet : bool).

Lemma sweep_runs_sublist fuel base combos : forall c,
  returns (sweep_runs (P:=P) (G:=G) (D:=D) valid_account sort_sells sort_buys is_mainnet fuel base c combos)
    (fun o => forall entries, o = Some entries -> (en_parameters <$> entries) `sublist_of` combos).
Proof.
  induction combos as [|p combos IH]; intros c; cbn [sweep_runs]; [by apply returns_ok; intros ? [= <-]|].
  apply returns_then. intros [[r|]|e]; [|by apply returns_ok|].
  - apply returns_bind. eapply returns_mono; [apply IH|]. intros [rest|] Hr; apply returns_ok; [|done].
    intros ? [= <-]. cbn. by apply sublist_skip, Hr.
  - eapply returns_mono; [apply IH|]. intros o Ho entries He. by apply sublist_cons, Ho.
Qed.

(** A sweep tries the whole grid and ranks what it got: its combinations are
    exactly those of one value from each list; its entries are runs of distinct
    positions of the grid, each with the parameters it ran with; and when all Sharpe
    ratios are numbers no entry is followed by a better one. *)
Theorem sweep_ranks fuel base c config t entries :
  run (run_sweep (P:=P) (G:=G) (D:=D) valid_account sort_sells sort_buys is_mainnet fuel base c config) t (Ok (Some entries)) ->
  (forall p, p ∈ generate_combinations config <->
    sw_top_tokens p ∈ grid_top_tokens config /\ sw_price_history_days p ∈ grid_price_history_days config /\
    sw_rebalance_threshold p ∈ grid_rebalance_threshold config /\
    sw_rebalance_interval_days p ∈ grid_rebalance_interval_days config) /\
  (exists done, done `sublist_of` generate_combinations config /\ en_parameters <$> entries ≡ₚ done) /\
  (Forall (fun e => f64_is_nan (en_sharpe_ratio e) = false) entries ->
    StronglySorted (fun a b => f64_ltb (en_sharpe_ratio a) (en_sharpe_ratio b) = false) entries).
Proof.
  intros Hr. split; [apply combinations_elem|].
  enough (Hb : returns (run_sweep (P:=P) (G:=G) (D:=D) valid_account sort_sells sort_buys is_mainnet fuel base c config)
    (fun o => forall es, o = Some es -> exists rs, es = sort_by rank_leb rs /\
      (en_parameters <$> rs) `sublist_of` generate_combinations config)).
  { destruct (Hb _ _ Hr _ eq_refl entries eq_refl) as (rs & -> & Hs). split.
    - eexists. split; [exact Hs|]. by rewrite sort_by_perm.
    - intros Hf. apply ranked. by rewrite sort_by_perm in Hf. }
  apply returns_bind. eapply returns_mono; [apply sweep_runs_sublist|]. intros [rs|] Hs; apply returns_ok; [|done].
  intros es [= <-]. exists rs. split; [done|]. by apply Hs.
Qed.
End theorems.

(** ** A sweep of two backtests *)
Definition small_grid : SweepConfig := mkSweepConfig [10] [30%Z] [f64_zero] [1%Z; 2%Z].
Definition small_sweep := interp period_answer
  (run_sweep (P:=cell) (G:=ListGraph) (D:=Q) (fun _ => true) (fun l => l) (fun l => l) true 3 two_days (mkSources ∅ ∅ ∅)
     small_grid) tt.
Definition small_entries : list SweepEntry := match small_sweep.1.1 with Ok (Some es) => es | _ => [] end.

Lemma sweep_ranks_witness : small_sweep.1.1 = Ok (Some small_entries) /\ length small_entries = 2%nat /\
  StronglySorted (fun a b => f64_ltb (en_sharpe_ratio a) (en_sharpe_ratio b) = false) small_entries.
Proof.
  assert (Hok : small_sweep.1.1 = Ok (Some small_entries)) by (vm_compute; reflexivity).
  split; [exact Hok|]. split; [vm_compute; reflexivity|].
  refine (proj2 (proj2 (sweep_ranks cell ListGraph Q (fun _ => true) (fun l => l) (fun l => l) true 3 two_days
    (mkSources ∅ ∅ ∅) small_grid small_sweep.1.2 small_entries _)) _).
  - rewrite <- Hok. apply interp_run.
  - apply (bool_decide_unpack _). vm_compute. exact I.
Defined.
